(** * Highway simulation: a shallow embedding of the tick engine

    The three Python programs of the repository (highway_sim1.py,
    highway_sim_V2.py, sim_client_requests.py) model a multi-lane highway as
    a grid of cells.  This development embeds the grid primitives, the
    per-vehicle update and the tick loop of each program, and states the
    properties of the specification over them.

    Conventions of the embedding:
    - Python integers are [Z]; list indices are [Z] as well, and indexing
      follows Python: a negative index in [-len, 0) counts from the end, any
      other out-of-range index raises [IndexError].
    - A grid cell holds [None] for the EMPTY marker or [Some r] for a
      reference [r] to a Driver object; Driver objects live in a store
      (a list indexed by reference), so that two cells holding the same
      reference alias one mutable object, as in Python.
    - Exceptions are values of [result]; stateful methods run in a small
      state-and-exception monad.
    - [random.random()] reads the next value of a stream of rationals. *)

From stdpp Require Import base list strings.
From Stdlib Require Import ZArith QArith Lia Ascii.

Open Scope Z_scope.

(** ** Exceptions and the two monads *)

Inductive exn : Type :=
| IndexError
| ZeroDivisionError
| AttributeError.

Inductive result (A : Type) : Type :=
| Ok (a : A)
| Raise (e : exn).
Arguments Ok {A} a.
Arguments Raise {A} e.

Definition bindR {A B : Type} (m : result A) (f : A -> result B) : result B :=
  match m with
  | Ok a => f a
  | Raise e => Raise e
  end.

Notation "'let?' x ':=' m 'in' k" := (bindR m (fun x => k))
  (at level 10, x name, m at level 100, k at level 200).

(** State and exception: a computation either raises or returns a value and
    the next state. *)
Definition M (S A : Type) : Type := S -> result (A * S).

Definition ret {S A : Type} (a : A) : M S A := fun s => Ok (a, s).

Definition bind {S A B : Type} (m : M S A) (f : A -> M S B) : M S B :=
  fun s => match m s with
           | Ok (a, s') => f a s'
           | Raise e => Raise e
           end.

Definition gets {S A : Type} (f : S -> A) : M S A := fun s => Ok (f s, s).
Definition modify {S : Type} (f : S -> S) : M S unit := fun s => Ok (tt, f s).
Definition lift {S A : Type} (f : S -> result A) : M S A :=
  fun s => match f s with Ok a => Ok (a, s) | Raise e => Raise e end.
Definition raise {S A : Type} (e : exn) : M S A := fun _ => Raise e.

Notation "'let*' x ':=' m 'in' k" := (bind m (fun x => k))
  (at level 10, x name, m at level 100, k at level 200).
Notation "m1 ';;;' m2" := (bind m1 (fun _ => m2))
  (at level 100, m2 at level 200, right associativity).

(** [for x in xs: body x] *)
Fixpoint for_each {S A : Type} (xs : list A) (body : A -> M S unit) : M S unit :=
  match xs with
  | [] => ret tt
  | x :: rest => body x ;;; for_each rest body
  end.

(** [for x in xs: acc = body x acc], for loops that carry local variables. *)
Fixpoint for_fold {S A B : Type} (xs : list A) (acc : B) (body : A -> B -> M S B)
  : M S B :=
  match xs with
  | [] => ret acc
  | x :: rest => let* acc' := body x acc in for_fold rest acc' body
  end.

(** ** Python lists and ranges *)

(** [range(a, a + n)] and [range(a, a - n, -1)]. *)
Fixpoint range_up (a : Z) (n : nat) : list Z :=
  match n with
  | O => []
  | S n' => a :: range_up (a + 1) n'
  end.

Fixpoint range_down (a : Z) (n : nat) : list Z :=
  match n with
  | O => []
  | S n' => a :: range_down (a - 1) n'
  end.

(** [range(a, b)] *)
Definition py_range (a b : Z) : list Z := range_up a (Z.to_nat (b - a)).
(** [range(a, b, -1)] *)
Definition py_range_rev (a b : Z) : list Z := range_down a (Z.to_nat (a - b)).

(** Index normalisation of [list.__getitem__] / [__setitem__]. *)
Definition py_norm (len : nat) (k : Z) : option nat :=
  if (0 <=? k) && (k <? Z.of_nat len) then Some (Z.to_nat k)
  else if (- Z.of_nat len <=? k) && (k <? 0) then Some (Z.to_nat (Z.of_nat len + k))
  else None.

Definition py_getitem {A : Type} (l : list A) (k : Z) : result A :=
  match py_norm (length l) k with
  | Some n => match l !! n with
              | Some x => Ok x
              | None => Raise IndexError
              end
  | None => Raise IndexError
  end.

Definition py_setitem {A : Type} (l : list A) (k : Z) (v : A) : result (list A) :=
  match py_norm (length l) k with
  | Some n => Ok (<[n := v]> l)
  | None => Raise IndexError
  end.

(** ** The grid *)

(** A cell: [None] is the EMPTY marker, [Some r] a reference to a Driver. *)
Abbreviation cell := (option nat).
Definition EMPTY : cell := None.

Definition occupied (c : cell) : bool :=
  match c with
  | Some _ => true
  | None => false
  end.

Abbreviation grid := (list (list cell)).

(** [road[lane][index]] *)
Definition grid_get (road : grid) (lane index : Z) : result cell :=
  let? row := py_getitem road lane in
  py_getitem row index.

(** [road[lane][index] = value]: the row object is updated in place. *)
Definition grid_set (road : grid) (lane index : Z) (value : cell) : result grid :=
  let? row := py_getitem road lane in
  let? row' := py_setitem row index value in
  py_setitem road lane row'.

(** Highway.__init__: [lanes] rows of [length] EMPTY cells. *)
Definition empty_road (lanes len : Z) : grid :=
  replicate (Z.to_nat lanes) (replicate (Z.to_nat len) EMPTY).

(** The loop of [safe_distance_within], shared verbatim by the three
    programs: [idxs] is the remaining part of
    [range(index + 1, index + k + 1)] and [x] the running count. *)
Fixpoint distance_loop (road : grid) (len lane k : Z) (idxs : list Z) (x : Z)
  : result Z :=
  match idxs with
  | [] => Ok x
  | i :: rest =>
      if len <=? i then Ok k
      else
        let? c := grid_get road lane i in
        if occupied c then Ok x
        else distance_loop road len lane k rest (x + 1)
  end.

Definition distance_within (road : grid) (len lane index k : Z) : result Z :=
  distance_loop road len lane k (py_range (index + 1) (index + k + 1)) 0.

(** The window loops of the lane-change checks of highway_sim_V2 and
    sim_client_requests: every cell of the window is read, an occupied one
    clears the flag, and the loop never leaves early. *)
Fixpoint window_loop (road : grid) (lane : Z) (idxs : list Z) (safe : bool)
  : result bool :=
  match idxs with
  | [] => Ok safe
  | k :: rest =>
      let? c := grid_get road lane k in
      window_loop road lane rest (if occupied c then false else safe)
  end.

(** Body of [safe_right_lane_change] / [safe_left_lane_change] after the
    boundary guard; [target] is [lane + 1] or [lane - 1]. *)
Definition lane_window_check (road : grid) (back forward target i : Z)
  : result bool :=
  let? c := grid_get road target i in
  let safe_lane_change := if occupied c then false else true in
  let? safe_lane_change :=
    window_loop road target (py_range_rev (i - 1) (i - back - 1)) safe_lane_change in
  window_loop road target (py_range (i + 1) (i + forward + 1)) safe_lane_change.

(** Comparisons of a random draw with a probability constant. *)
Definition Qlt_bool (a b : Q) : bool := negb (Qle_bool b a).

(** The four desires, string constants in the programs. *)
Inductive Desire : Type :=
| CRUISE
| LANE_CHANGE
| LANE_CHANGE_LEFT
| LANE_CHANGE_RIGHT.

Definition Desire_eqb (a b : Desire) : bool :=
  match a, b with
  | CRUISE, CRUISE => true
  | LANE_CHANGE, LANE_CHANGE => true
  | LANE_CHANGE_LEFT, LANE_CHANGE_LEFT => true
  | LANE_CHANGE_RIGHT, LANE_CHANGE_RIGHT => true
  | _, _ => false
  end.

(** [a / b] on Python integers: the exact quotient (of which Python keeps the
    nearest double), or ZeroDivisionError. *)
Definition py_truediv (a b : Z) : result Q :=
  if b =? 0 then Raise ZeroDivisionError
  else Ok (Qdiv (inject_Z a) (inject_Z b)).

(** ** Standard output

    [print(s)] adds the text [s] to what the program has written so far.  A
    method that prints runs on its state paired with that output. *)
Definition Out (S : Type) : Type := (S * list string)%type.

(** A method that does not print, run inside a printing program. *)
Definition in_world {S A : Type} (m : M S A) : M (Out S) A :=
  fun w => match m (fst w) with
           | Ok (a, s') => Ok (a, (s', snd w))
           | Raise e => Raise e
           end.

(** [print(text)], where [text] is computed from the state. *)
Definition py_print {S : Type} (text : S -> result string) : M (Out S) unit :=
  fun w => match text (fst w) with
           | Ok str => Ok (tt, (fst w, snd w ++ [str]))
           | Raise e => Raise e
           end.

(** The one-character string of a line feed. *)
Definition newline : string := String "010"%char EmptyString.

(** The inner loop of [Highway.print]: for each index of [idxs] the mark
    [free] or [taken] of the cell is appended to [s]. *)
Fixpoint print_cells (road : grid) (lane : Z) (idxs : list Z)
         (free taken : string) (s : string) : result string :=
  match idxs with
  | [] => Ok s
  | i :: rest =>
      let? c := grid_get road lane i in
      print_cells road lane rest free taken
                  (s +:+ (if occupied c then taken else free))
  end.

(** The outer loop of [Highway.print] in highway_sim_V2 and
    sim_client_requests: for each [k] of [ks] the row [road[lane_of k]],
    then a line feed. *)
Fixpoint print_lanes (road : grid) (len : Z) (ks : list Z) (lane_of : Z -> Z)
         (free taken : string) (s : string) : result string :=
  match ks with
  | [] => Ok s
  | k :: rest =>
      let? s := print_cells road (lane_of k) (py_range 0 len) free taken s in
      print_lanes road len rest lane_of free taken (s +:+ newline)
  end.

(** [sum(l)] on a list of integers. *)
Definition py_sum (l : list Z) : Z := foldl Z.add 0 l.

(** ** highway_sim1.py: the Highway class *)

Module highway_sim1.

Definition LEFT : Z := 0.
Definition RIGHT : Z := 1.

Record Highway : Type := mkHighway {
  road : grid;
  hw_length : Z
}.

(** Highway(length): two lanes. *)
Definition new_Highway (length : Z) : Highway :=
  {| road := empty_road 2 length; hw_length := length |}.

Definition safe_distance_within (h : Highway) (lane index k : Z) : result Z :=
  distance_within (road h) (hw_length h) lane index k.

(** [a == EMPTY and b == EMPTY and c == EMPTY], evaluated left to right. *)
Definition three_cells_empty (h : Highway) (lane i : Z) : result bool :=
  let? c0 := grid_get (road h) lane i in
  if occupied c0 then Ok false
  else
    let? c1 := grid_get (road h) lane (i + 1) in
    if occupied c1 then Ok false
    else
      let? c2 := grid_get (road h) lane (i + 2) in
      Ok (negb (occupied c2)).

Definition safe_right_lane_change (h : Highway) (i : Z) : result bool :=
  three_cells_empty h RIGHT i.

Definition safe_left_lane_change (h : Highway) (i : Z) : result bool :=
  three_cells_empty h LEFT i.

(** *** highway_sim1.py: the rest of the Highway class *)

Definition Highway_get (h : Highway) (lane index : Z) : result cell :=
  grid_get (road h) lane index.

Definition Highway_set (h : Highway) (lane index : Z) (value : cell)
  : result Highway :=
  let? road' := grid_set (road h) lane index value in
  Ok (mkHighway road' (hw_length h)).

(** Highway.print: the text handed to [print], lane 0 then lane 1. *)
Definition Highway_print (h : Highway) : result string :=
  let? s := print_cells (road h) 0 (py_range 0 (hw_length h)) "_" "C" newline in
  print_cells (road h) 1 (py_range 0 (hw_length h)) "_" "C" (s +:+ newline).

(** *** highway_sim1.py: Driver and Simulation *)

Definition FAST : Z := 5.
Definition SLOW : Z := 4.
Definition SAFE_FOLLOW : Z := 4.
Definition CAR_PROBABILITY : Q := 25 # 100.
Definition FAST_PROBABILITY : Q := 5 # 10.
Definition PRINT_ROAD : bool := true.
Definition HIGHWAY_LENGTH : Z := 110.

Record Driver : Type := mkDriver {
  speed : Z;
  safe_follow : Z;
  desire : Desire;
  arrive_time : Z
}.

(** Driver.__init__ *)
Definition new_Driver (speed arrive_time : Z) : Driver :=
  {| speed := speed;
     safe_follow := SAFE_FOLLOW;
     desire := CRUISE;
     arrive_time := arrive_time |}.

Definition set_desire (v : Desire) (d : Driver) : Driver :=
  mkDriver (speed d) (safe_follow d) v (arrive_time d).

(** The Simulation object with the Driver objects ([objects], indexed by
    reference) and the number of values read from the random stream;
    [data] holds the travel times of the vehicles that left. *)
Record Simulation : Type := mkSimulation {
  sim_road : Highway;
  time_steps : Z;
  current_step : Z;
  data : list Z;
  objects : list Driver;
  draws : nat
}.

Definition new_Simulation (time_steps : Z) : Simulation :=
  {| sim_road := new_Highway HIGHWAY_LENGTH;
     time_steps := time_steps;
     current_step := 0;
     data := [];
     objects := [];
     draws := O |}.

Definition set_sim_road (v : Highway) (s : Simulation) : Simulation :=
  mkSimulation v (time_steps s) (current_step s) (data s) (objects s) (draws s).
Definition set_current_step (v : Z) (s : Simulation) : Simulation :=
  mkSimulation (sim_road s) (time_steps s) v (data s) (objects s) (draws s).
Definition set_data (v : list Z) (s : Simulation) : Simulation :=
  mkSimulation (sim_road s) (time_steps s) (current_step s) v (objects s) (draws s).
Definition set_objects (v : list Driver) (s : Simulation) : Simulation :=
  mkSimulation (sim_road s) (time_steps s) (current_step s) (data s) v (draws s).
Definition set_draws (v : nat) (s : Simulation) : Simulation :=
  mkSimulation (sim_road s) (time_steps s) (current_step s) (data s) (objects s) v.

(** [sum(self.data)/len(self.data)] *)
Definition average_time (s : Simulation) : result Q :=
  py_truediv (py_sum (data s)) (Z.of_nat (length (data s))).

Section Methods.

(** The stream read by [random.random()]. *)
Variable rand : nat -> Q.

Definition random_random : M Simulation Q :=
  fun s => Ok (rand (draws s), set_draws (S (draws s)) s).

Definition road_get (lane i : Z) : M Simulation cell :=
  lift (fun s => Highway_get (sim_road s) lane i).

Definition road_set (lane i : Z) (value : cell) : M Simulation unit :=
  fun s => match Highway_set (sim_road s) lane i value with
           | Ok h => Ok (tt, set_sim_road h s)
           | Raise e => Raise e
           end.

Definition attr {A : Type} (driver : cell) (f : Driver -> A) : M Simulation A :=
  fun s => match driver with
           | Some r => match objects s !! r with
                       | Some d => Ok (f d, s)
                       | None => Raise AttributeError
                       end
           | None => Raise AttributeError
           end.

Definition set_attr (driver : cell) (upd : Driver -> Driver) : M Simulation unit :=
  fun s => match driver with
           | Some r => match objects s !! r with
                       | Some d => Ok (tt, set_objects (<[r := upd d]> (objects s)) s)
                       | None => Raise AttributeError
                       end
           | None => Raise AttributeError
           end.

Definition alloc (d : Driver) : M Simulation cell :=
  fun s => Ok (Some (length (objects s)), set_objects (objects s ++ [d]) s).

Definition sim_cruise (lane i : Z) : M Simulation unit :=
  let* driver := road_get lane i in
  let* speed_ := attr driver speed in
  let* safe_follow_ := attr driver safe_follow in
  let* x := lift (fun s => safe_distance_within (sim_road s) lane i
                             (speed_ + safe_follow_)) in
  (if x =? speed_ + safe_follow_ then
     road_set lane (i + speed_) driver
   else if safe_follow_ <? x then
     set_attr driver (set_desire LANE_CHANGE) ;;;
     road_set lane (i + x - safe_follow_) driver
   else
     set_attr driver (set_desire LANE_CHANGE) ;;;
     road_set lane (i + 1) driver) ;;;
  road_set lane i EMPTY.

(** The exit branch of [sim_right_driver] and [sim_left_driver]. *)
Definition leave_highway (lane i : Z) (driver : cell) : M Simulation unit :=
  road_set lane i EMPTY ;;;
  let* now := gets current_step in
  let* at0 := attr driver arrive_time in
  modify (fun s => set_data (data s ++ [now - at0]) s).

Definition sim_right_driver (i : Z) : M Simulation unit :=
  let* driver := road_get RIGHT i in
  let* speed_ := attr driver speed in
  let* len := gets (fun s => hw_length (sim_road s)) in
  if len - 1 <=? speed_ + i then leave_highway RIGHT i driver
  else
    let* d := attr driver desire in
    match d with
    | LANE_CHANGE =>
        let* ok := lift (fun s => safe_left_lane_change (sim_road s) i) in
        if ok then
          road_set LEFT i driver ;;;
          road_set RIGHT i EMPTY ;;;
          set_attr driver (set_desire CRUISE) ;;;
          sim_cruise LEFT i
        else sim_cruise RIGHT i
    | CRUISE => sim_cruise RIGHT i
    | _ => ret tt
    end.

Definition sim_left_driver (i : Z) : M Simulation unit :=
  let* driver := road_get LEFT i in
  let* speed_ := attr driver speed in
  let* len := gets (fun s => hw_length (sim_road s)) in
  if len - 1 <=? speed_ + i then leave_highway LEFT i driver
  else
    let* d := attr driver desire in
    match d with
    | LANE_CHANGE =>
        let* ok := lift (fun s => safe_right_lane_change (sim_road s) i) in
        if ok then
          road_set RIGHT i driver ;;;
          road_set LEFT i EMPTY ;;;
          set_attr driver (set_desire CRUISE) ;;;
          sim_cruise RIGHT i
        else sim_cruise LEFT i
    | CRUISE => sim_cruise LEFT i
    | _ => ret tt
    end.

(** One lane of [gen_new_drivers]. *)
Definition gen_lane (lane : Z) : M Simulation unit :=
  let* r := random_random in
  if Qlt_bool r CAR_PROBABILITY then
    let* r := random_random in
    let* now := gets current_step in
    let* driver :=
      alloc (new_Driver (if Qlt_bool r FAST_PROBABILITY then FAST else SLOW) now) in
    road_set lane 0 driver
  else ret tt.

Definition gen_new_drivers : M Simulation unit :=
  gen_lane LEFT ;;; gen_lane RIGHT.

(** One position of the traversal: the left lane, then the right lane. *)
Definition visit (i : Z) : M Simulation unit :=
  let* c := road_get LEFT i in
  (if occupied c then sim_left_driver i else ret tt) ;;;
  let* c := road_get RIGHT i in
  if occupied c then sim_right_driver i else ret tt.

Definition execute_time_step : M Simulation unit :=
  let* len := gets (fun s => hw_length (sim_road s)) in
  for_each (py_range_rev (len - 1) (-1)) visit ;;;
  gen_new_drivers.

(** Body of the loop of [run], before the road is printed. *)
Definition run_step : M Simulation unit :=
  execute_time_step ;;;
  modify (fun s => set_current_step (current_step s + 1) s).

(** [run]: the while loop, unrolled at most [fuel] times; the result tells
    whether the loop ended because its condition became false. *)
Fixpoint run (fuel : nat) : M (Out Simulation) bool :=
  match fuel with
  | O => ret false
  | S fuel' =>
      let* now := gets (fun w : Out Simulation => current_step (fst w)) in
      let* n := gets (fun w : Out Simulation => time_steps (fst w)) in
      if now <? n then
        in_world run_step ;;;
        (if PRINT_ROAD
         then py_print (fun s => Highway_print (sim_road s))
         else ret tt) ;;;
        run fuel'
      else ret true
  end.

End Methods.

End highway_sim1.

(** ** highway_sim_V2.py *)

Module highway_sim_V2.

Definition FAST : Z := 5.
Definition SLOW : Z := 4.
Definition HIGHWAY_LENGTH : Z := 110.
Definition NUM_LANES : Z := 4.
Definition HUMAN_SAFE_FOLLOW : Z := 4.
Definition SDC_SAFE_FOLLOW : Z := 2.
Definition LANE_CHANGE_SAFE_BACK : Z := FAST.
Definition LANE_CHANGE_SAFE_FORWARD : Z := FAST.
Definition LEFT_LANE_CHANGE_PROBABILITY : Q := 5 # 10.
Definition CAR_PROBABILITY : Q := 25 # 100.
Definition FAST_PROBABILITY : Q := 5 # 10.
Definition IS_HUMAN_PROBABILITY : Q := 5 # 10.

Record Driver : Type := mkDriver {
  car_id : Z;
  desire : Desire;
  is_human : bool;
  speed : Z;
  safe_follow : Z;
  arrive_time : Z;
  final_time : Z;
  travel_time : Z;
  final_dist : Z;
  avg_speed : Q
}.

(** Driver.__init__ *)
Definition new_Driver (car_id speed arrive_time : Z) (is_human : bool) : Driver :=
  {| car_id := car_id;
     desire := CRUISE;
     is_human := is_human;
     speed := speed;
     safe_follow := if is_human then HUMAN_SAFE_FOLLOW else SDC_SAFE_FOLLOW;
     arrive_time := arrive_time;
     final_time := 0;
     travel_time := 0;
     final_dist := 0;
     avg_speed := inject_Z speed |}.

Definition set_desire (v : Desire) (d : Driver) : Driver :=
  mkDriver (car_id d) v (is_human d) (speed d) (safe_follow d) (arrive_time d)
           (final_time d) (travel_time d) (final_dist d) (avg_speed d).
Definition set_final_time (v : Z) (d : Driver) : Driver :=
  mkDriver (car_id d) (desire d) (is_human d) (speed d) (safe_follow d)
           (arrive_time d) v (travel_time d) (final_dist d) (avg_speed d).
Definition set_travel_time (v : Z) (d : Driver) : Driver :=
  mkDriver (car_id d) (desire d) (is_human d) (speed d) (safe_follow d)
           (arrive_time d) (final_time d) v (final_dist d) (avg_speed d).
Definition set_final_dist (v : Z) (d : Driver) : Driver :=
  mkDriver (car_id d) (desire d) (is_human d) (speed d) (safe_follow d)
           (arrive_time d) (final_time d) (travel_time d) v (avg_speed d).
Definition set_avg_speed (v : Q) (d : Driver) : Driver :=
  mkDriver (car_id d) (desire d) (is_human d) (speed d) (safe_follow d)
           (arrive_time d) (final_time d) (travel_time d) (final_dist d) v.

(** The list returned by [Driver.output_data], as a record. *)
Record OutputData : Type := mkOutputData {
  out_id : Z;
  out_speed : Z;
  out_is_human : bool;
  out_arrive_time : Z;
  out_final_time : Z;
  out_travel_time : Z;
  out_final_dist : Z;
  out_avg_speed : Q
}.

Definition output_data (d : Driver) : OutputData :=
  mkOutputData (car_id d) (speed d) (is_human d) (arrive_time d)
               (final_time d) (travel_time d) (final_dist d) (avg_speed d).

Record Highway : Type := mkHighway {
  num_lanes : Z;
  road : grid;
  hw_length : Z
}.

Definition new_Highway (length num_lanes : Z) : Highway :=
  {| num_lanes := num_lanes;
     road := empty_road num_lanes length;
     hw_length := length |}.

Definition Highway_get (h : Highway) (lane index : Z) : result cell :=
  grid_get (road h) lane index.

Definition Highway_set (h : Highway) (lane index : Z) (value : cell)
  : result Highway :=
  let? road' := grid_set (road h) lane index value in
  Ok (mkHighway (num_lanes h) road' (hw_length h)).

Definition safe_distance_within (h : Highway) (lane index k : Z) : result Z :=
  distance_within (road h) (hw_length h) lane index k.

Definition safe_right_lane_change (h : Highway) (lane i : Z) : result bool :=
  if lane =? num_lanes h - 1 then Ok false
  else lane_window_check (road h) LANE_CHANGE_SAFE_BACK LANE_CHANGE_SAFE_FORWARD
                         (lane + 1) i.

Definition safe_left_lane_change (h : Highway) (lane i : Z) : result bool :=
  if lane =? 0 then Ok false
  else lane_window_check (road h) LANE_CHANGE_SAFE_BACK LANE_CHANGE_SAFE_FORWARD
                         (lane - 1) i.

(** The Simulation object, together with the two pieces of ambient state
    its methods use: the Driver objects ([objects], indexed by reference)
    and the number of values already read from the random stream. *)
Record Simulation : Type := mkSimulation {
  sim_road : Highway;
  time_steps : Z;
  current_step : Z;
  num_cars : Z;
  data : list OutputData;
  objects : list Driver;
  draws : nat
}.

Definition new_Simulation (time_steps : Z) : Simulation :=
  {| sim_road := new_Highway HIGHWAY_LENGTH NUM_LANES;
     time_steps := time_steps;
     current_step := 0;
     num_cars := 0;
     data := [];
     objects := [];
     draws := O |}.

Definition set_sim_road (v : Highway) (s : Simulation) : Simulation :=
  mkSimulation v (time_steps s) (current_step s) (num_cars s) (data s)
               (objects s) (draws s).
Definition set_current_step (v : Z) (s : Simulation) : Simulation :=
  mkSimulation (sim_road s) (time_steps s) v (num_cars s) (data s)
               (objects s) (draws s).
Definition set_num_cars (v : Z) (s : Simulation) : Simulation :=
  mkSimulation (sim_road s) (time_steps s) (current_step s) v (data s)
               (objects s) (draws s).
Definition set_data (v : list OutputData) (s : Simulation) : Simulation :=
  mkSimulation (sim_road s) (time_steps s) (current_step s) (num_cars s) v
               (objects s) (draws s).
Definition set_objects (v : list Driver) (s : Simulation) : Simulation :=
  mkSimulation (sim_road s) (time_steps s) (current_step s) (num_cars s)
               (data s) v (draws s).
Definition set_draws (v : nat) (s : Simulation) : Simulation :=
  mkSimulation (sim_road s) (time_steps s) (current_step s) (num_cars s)
               (data s) (objects s) v.

Section Methods.

(** The stream read by [random.random()]. *)
Variable rand : nat -> Q.

Definition random_random : M Simulation Q :=
  fun s => Ok (rand (draws s), set_draws (S (draws s)) s).

(** [self.road.get(lane, i)] and [self.road.set(lane, i, value)] *)
Definition road_get (lane i : Z) : M Simulation cell :=
  lift (fun s => Highway_get (sim_road s) lane i).

Definition road_set (lane i : Z) (value : cell) : M Simulation unit :=
  fun s => match Highway_set (sim_road s) lane i value with
           | Ok h => Ok (tt, set_sim_road h s)
           | Raise e => Raise e
           end.

(** [driver.f]: the EMPTY marker is a string and has no such attribute. *)
Definition attr {A : Type} (driver : cell) (f : Driver -> A) : M Simulation A :=
  fun s => match driver with
           | Some r => match objects s !! r with
                       | Some d => Ok (f d, s)
                       | None => Raise AttributeError
                       end
           | None => Raise AttributeError
           end.

(** [driver.f = v], as an update [upd] of the object. *)
Definition set_attr (driver : cell) (upd : Driver -> Driver) : M Simulation unit :=
  fun s => match driver with
           | Some r => match objects s !! r with
                       | Some d => Ok (tt, set_objects (<[r := upd d]> (objects s)) s)
                       | None => Raise AttributeError
                       end
           | None => Raise AttributeError
           end.

(** [Driver(...)]: a fresh object, whose reference is returned. *)
Definition alloc (d : Driver) : M Simulation cell :=
  fun s => Ok (Some (length (objects s)), set_objects (objects s ++ [d]) s).

Definition sim_cruise (lane i : Z) : M Simulation unit :=
  let* driver := road_get lane i in
  let* speed_ := attr driver speed in
  let* safe_follow_ := attr driver safe_follow in
  let* x := lift (fun s => safe_distance_within (sim_road s) lane i
                             (speed_ + safe_follow_)) in
  (if x =? speed_ + safe_follow_ then
     road_set lane (i + speed_) driver
   else if safe_follow_ <? x then
     set_attr driver (set_desire LANE_CHANGE) ;;;
     road_set lane (i + x - safe_follow_) driver
   else
     set_attr driver (set_desire LANE_CHANGE) ;;;
     road_set lane (i + 1) driver) ;;;
  road_set lane i EMPTY.

(** The exit branch of [sim_driver]. *)
Definition leave_highway (lane i : Z) (driver : cell) : M Simulation unit :=
  road_set lane i EMPTY ;;;
  let* now := gets current_step in
  set_attr driver (set_final_time now) ;;;
  set_attr driver (set_final_dist HIGHWAY_LENGTH) ;;;
  let* ft := attr driver final_time in
  let* at0 := attr driver arrive_time in
  set_attr driver (set_travel_time (ft - at0)) ;;;
  let* fd := attr driver final_dist in
  let* tt_ := attr driver travel_time in
  let* q := lift (fun _ => py_truediv fd tt_) in
  set_attr driver (set_avg_speed q) ;;;
  let* row := attr driver output_data in
  modify (fun s => set_data (data s ++ [row]) s).

(** The left/right decision of [sim_driver] for the draw [r]. *)
Definition pick_direction (lane i : Z) (driver : cell) (r : Q) : M Simulation unit :=
  let* d := attr driver desire in
  if Desire_eqb d LANE_CHANGE && Qle_bool r LEFT_LANE_CHANGE_PROBABILITY then
    let* ok := lift (fun s => safe_left_lane_change (sim_road s) lane i) in
    if ok then set_attr driver (set_desire LANE_CHANGE_LEFT)
    else
      let* ok := lift (fun s => safe_right_lane_change (sim_road s) lane i) in
      if ok then set_attr driver (set_desire LANE_CHANGE_RIGHT) else ret tt
  else if Desire_eqb d LANE_CHANGE
          && negb (Qle_bool r LEFT_LANE_CHANGE_PROBABILITY) then
    let* ok := lift (fun s => safe_right_lane_change (sim_road s) lane i) in
    if ok then set_attr driver (set_desire LANE_CHANGE_RIGHT)
    else
      let* ok := lift (fun s => safe_left_lane_change (sim_road s) lane i) in
      if ok then set_attr driver (set_desire LANE_CHANGE_LEFT) else ret tt
  else ret tt.

(** The last [if]/[elif] chain of [sim_driver]. *)
Definition act_on_desire (lane i : Z) (driver : cell) : M Simulation unit :=
  let* d := attr driver desire in
  match d with
  | LANE_CHANGE_RIGHT =>
      road_set (lane + 1) i driver ;;;
      road_set lane i EMPTY ;;;
      set_attr driver (set_desire CRUISE) ;;;
      sim_cruise (lane + 1) i
  | LANE_CHANGE_LEFT =>
      road_set (lane - 1) i driver ;;;
      road_set lane i EMPTY ;;;
      set_attr driver (set_desire CRUISE) ;;;
      sim_cruise (lane - 1) i
  | CRUISE | LANE_CHANGE => sim_cruise lane i
  end.

Definition sim_driver (lane i : Z) : M Simulation unit :=
  let* driver := road_get lane i in
  let* speed_ := attr driver speed in
  let* len := gets (fun s => hw_length (sim_road s)) in
  if len - 1 <=? speed_ + i then leave_highway lane i driver
  else
    let* r := random_random in
    pick_direction lane i driver r ;;;
    act_on_desire lane i driver.

(** Body of the loop of [gen_new_drivers]; the accumulator is the pair
    of locals (is_human, current_car_id). *)
Definition gen_lane (lane : Z) (acc : bool * Z) : M Simulation (bool * Z) :=
  let '(is_human_, current_car_id) := acc in
  let* r := random_random in
  if Qlt_bool r CAR_PROBABILITY then
    let* r := random_random in
    let is_human_ := Qlt_bool r IS_HUMAN_PROBABILITY in
    let* r := random_random in
    let* now := gets current_step in
    let* driver :=
      alloc (new_Driver current_car_id
                        (if Qlt_bool r FAST_PROBABILITY then FAST else SLOW)
                        now is_human_) in
    road_set lane 0 driver ;;;
    ret (is_human_, current_car_id + 1)
  else ret (is_human_, current_car_id).

Definition gen_new_drivers (num_cars_ : Z) : M Simulation Z :=
  let* lanes := gets (fun s => num_lanes (sim_road s)) in
  let* acc := for_fold (py_range 0 lanes) (true, num_cars_) gen_lane in
  ret (snd acc).

(** One cell of the traversal. *)
Definition visit (i k : Z) : M Simulation unit :=
  let* c := road_get k i in
  if occupied c then sim_driver k i else ret tt.

Definition execute_time_step : M Simulation unit :=
  let* len := gets (fun s => hw_length (sim_road s)) in
  for_each (py_range_rev (len - 1) (-1)) (fun i =>
    let* lanes := gets (fun s => num_lanes (sim_road s)) in
    for_each (py_range 0 lanes) (fun k => visit i k)) ;;;
  let* n := gets num_cars in
  let* n' := gen_new_drivers n in
  modify (set_num_cars n').

(** Body of the loop of [run] (printing left out). *)
Definition run_step : M Simulation unit :=
  execute_time_step ;;;
  modify (fun s => set_current_step (current_step s + 1) s).

End Methods.

Definition PRINT_ROAD : bool := true.

(** Highway.print: the text handed to [print]. *)
Definition Highway_print (h : Highway) : result string :=
  print_lanes (road h) (hw_length h) (py_range 0 (num_lanes h)) (fun k => k)
              "_" "C" (newline +:+ newline).

(** [run]: the while loop, unrolled at most [fuel] times; the result tells
    whether the loop ended because its condition became false. *)
Fixpoint run (rand : nat -> Q) (fuel : nat) : M (Out Simulation) bool :=
  match fuel with
  | O => ret false
  | S fuel' =>
      let* now := gets (fun w : Out Simulation => current_step (fst w)) in
      let* n := gets (fun w : Out Simulation => time_steps (fst w)) in
      if now <? n then
        in_world (run_step rand) ;;;
        (if PRINT_ROAD
         then py_print (fun s => Highway_print (sim_road s))
         else ret tt) ;;;
        run rand fuel'
      else ret true
  end.

End highway_sim_V2.

(** ** sim_client_requests.py *)

Module sim_client_requests.

Definition FAST : Z := 5.
Definition SLOW : Z := 4.
Definition HIGHWAY_LENGTH : Z := 110.
Definition NUM_DEF_LANES : Z := 3.
Definition NUM_SD_LANES : Z := 1.
Definition HUMAN_SAFE_FOLLOW : Z := 4.
Definition SDC_SAFE_FOLLOW : Z := 2.
Definition LANE_CHANGE_SAFE_BACK : Z := FAST.
Definition LANE_CHANGE_SAFE_FORWARD : Z := FAST.
Definition LEFT_LANE_CHANGE_PROBABILITY : Q := 5 # 10.
Definition FAST_PROBABILITY : Q := 5 # 10.
Definition DRUNK_PROBABILITY : Q := 3 # 100.
Definition DRUNK_CRASH_PROB : Q := 1 # 100.
Definition CRASH_PROB : Q := 1 # 1000.

Record Driver : Type := mkDriver {
  car_id : Z;
  desire : Desire;
  is_human : bool;
  speed : Z;
  is_drunk : bool;
  safe_follow : Z;
  arrive_time : Z;
  final_time : Z;
  travel_time : Z;
  final_dist : Z;
  avg_speed : Q
}.

(** Driver.__init__ *)
Definition new_Driver (car_id speed arrive_time : Z) (is_human is_drunk : bool)
  : Driver :=
  {| car_id := car_id;
     desire := CRUISE;
     is_human := is_human;
     speed := speed;
     is_drunk := is_drunk;
     safe_follow := if is_human then HUMAN_SAFE_FOLLOW else SDC_SAFE_FOLLOW;
     arrive_time := arrive_time;
     final_time := 0;
     travel_time := 0;
     final_dist := 0;
     avg_speed := inject_Z speed |}.

Definition set_desire (v : Desire) (d : Driver) : Driver :=
  mkDriver (car_id d) v (is_human d) (speed d) (is_drunk d) (safe_follow d)
           (arrive_time d) (final_time d) (travel_time d) (final_dist d)
           (avg_speed d).
Definition set_final_time (v : Z) (d : Driver) : Driver :=
  mkDriver (car_id d) (desire d) (is_human d) (speed d) (is_drunk d)
           (safe_follow d) (arrive_time d) v (travel_time d) (final_dist d)
           (avg_speed d).
Definition set_travel_time (v : Z) (d : Driver) : Driver :=
  mkDriver (car_id d) (desire d) (is_human d) (speed d) (is_drunk d)
           (safe_follow d) (arrive_time d) (final_time d) v (final_dist d)
           (avg_speed d).
Definition set_final_dist (v : Z) (d : Driver) : Driver :=
  mkDriver (car_id d) (desire d) (is_human d) (speed d) (is_drunk d)
           (safe_follow d) (arrive_time d) (final_time d) (travel_time d) v
           (avg_speed d).
Definition set_avg_speed (v : Q) (d : Driver) : Driver :=
  mkDriver (car_id d) (desire d) (is_human d) (speed d) (is_drunk d)
           (safe_follow d) (arrive_time d) (final_time d) (travel_time d)
           (final_dist d) v.

(** The list returned by [Driver.output_data], as a record. *)
Record OutputData : Type := mkOutputData {
  out_id : Z;
  out_speed : Z;
  out_is_human : bool;
  out_arrive_time : Z;
  out_final_time : Z;
  out_travel_time : Z;
  out_final_dist : Z;
  out_avg_speed : Q
}.

Definition output_data (d : Driver) : OutputData :=
  mkOutputData (car_id d) (speed d) (is_human d) (arrive_time d)
               (final_time d) (travel_time d) (final_dist d) (avg_speed d).

Record Highway : Type := mkHighway {
  num_def_lanes : Z;
  num_sd_lanes : Z;
  road : grid;
  hw_length : Z
}.

Definition new_Highway (length num_def_lanes num_sd_lanes : Z) : Highway :=
  {| num_def_lanes := num_def_lanes;
     num_sd_lanes := num_sd_lanes;
     road := empty_road (num_def_lanes + num_sd_lanes) length;
     hw_length := length |}.

Definition Highway_get (h : Highway) (lane index : Z) : result cell :=
  grid_get (road h) lane index.

Definition Highway_set (h : Highway) (lane index : Z) (value : cell)
  : result Highway :=
  let? road' := grid_set (road h) lane index value in
  Ok (mkHighway (num_def_lanes h) (num_sd_lanes h) road' (hw_length h)).

Definition safe_distance_within (h : Highway) (lane index k : Z) : result Z :=
  distance_within (road h) (hw_length h) lane index k.

Definition safe_right_lane_change (h : Highway) (lane i : Z) : result bool :=
  if lane =? num_def_lanes h - 1 then Ok false
  else lane_window_check (road h) LANE_CHANGE_SAFE_BACK LANE_CHANGE_SAFE_FORWARD
                         (lane + 1) i.

Definition safe_left_lane_change (h : Highway) (lane i : Z) : result bool :=
  if lane =? 0 then Ok false
  else lane_window_check (road h) LANE_CHANGE_SAFE_BACK LANE_CHANGE_SAFE_FORWARD
                         (lane - 1) i.

(** The Simulation object, with the Driver objects and the position in
    the random stream as in highway_sim_V2. *)
Record Simulation : Type := mkSimulation {
  sim_road : Highway;
  time_steps : Z;
  current_step : Z;
  num_cars : Z;
  data : list OutputData;
  crashes : list Z;
  objects : list Driver;
  draws : nat
}.

Definition new_Simulation (time_steps : Z) : Simulation :=
  {| sim_road := new_Highway HIGHWAY_LENGTH NUM_DEF_LANES NUM_SD_LANES;
     time_steps := time_steps;
     current_step := 0;
     num_cars := 0;
     data := [];
     crashes := [];
     objects := [];
     draws := O |}.

Definition set_sim_road (v : Highway) (s : Simulation) : Simulation :=
  mkSimulation v (time_steps s) (current_step s) (num_cars s) (data s)
               (crashes s) (objects s) (draws s).
Definition set_current_step (v : Z) (s : Simulation) : Simulation :=
  mkSimulation (sim_road s) (time_steps s) v (num_cars s) (data s)
               (crashes s) (objects s) (draws s).
Definition set_num_cars (v : Z) (s : Simulation) : Simulation :=
  mkSimulation (sim_road s) (time_steps s) (current_step s) v (data s)
               (crashes s) (objects s) (draws s).
Definition set_data (v : list OutputData) (s : Simulation) : Simulation :=
  mkSimulation (sim_road s) (time_steps s) (current_step s) (num_cars s) v
               (crashes s) (objects s) (draws s).
Definition set_crashes (v : list Z) (s : Simulation) : Simulation :=
  mkSimulation (sim_road s) (time_steps s) (current_step s) (num_cars s)
               (data s) v (objects s) (draws s).
Definition set_objects (v : list Driver) (s : Simulation) : Simulation :=
  mkSimulation (sim_road s) (time_steps s) (current_step s) (num_cars s)
               (data s) (crashes s) v (draws s).
Definition set_draws (v : nat) (s : Simulation) : Simulation :=
  mkSimulation (sim_road s) (time_steps s) (current_step s) (num_cars s)
               (data s) (crashes s) (objects s) v.

Section Methods.

(** The stream read by [random.random()], and the two module globals
    that [main] sets before each run. *)
Variable rand : nat -> Q.
Variables def_car_prob sd_car_prob : Q.

Definition random_random : M Simulation Q :=
  fun s => Ok (rand (draws s), set_draws (S (draws s)) s).

Definition road_get (lane i : Z) : M Simulation cell :=
  lift (fun s => Highway_get (sim_road s) lane i).

Definition road_set (lane i : Z) (value : cell) : M Simulation unit :=
  fun s => match Highway_set (sim_road s) lane i value with
           | Ok h => Ok (tt, set_sim_road h s)
           | Raise e => Raise e
           end.

Definition attr {A : Type} (driver : cell) (f : Driver -> A) : M Simulation A :=
  fun s => match driver with
           | Some r => match objects s !! r with
                       | Some d => Ok (f d, s)
                       | None => Raise AttributeError
                       end
           | None => Raise AttributeError
           end.

Definition set_attr (driver : cell) (upd : Driver -> Driver) : M Simulation unit :=
  fun s => match driver with
           | Some r => match objects s !! r with
                       | Some d => Ok (tt, set_objects (<[r := upd d]> (objects s)) s)
                       | None => Raise AttributeError
                       end
           | None => Raise AttributeError
           end.

Definition alloc (d : Driver) : M Simulation cell :=
  fun s => Ok (Some (length (objects s)), set_objects (objects s ++ [d]) s).

(** [self.crashes.append(driver.speed)] *)
Definition log_crash (driver : cell) : M Simulation unit :=
  let* v := attr driver speed in
  modify (fun s => set_crashes (crashes s ++ [v]) s).

(** In this program the incident roll sits between the [elif] and the
    [else] of the movement chain, so the [else] belongs to the roll. *)
Definition sim_cruise (lane i : Z) : M Simulation unit :=
  let* driver := road_get lane i in
  let* speed_ := attr driver speed in
  let* safe_follow_ := attr driver safe_follow in
  let* x := lift (fun s => safe_distance_within (sim_road s) lane i
                             (speed_ + safe_follow_)) in
  (if x =? speed_ + safe_follow_ then
     road_set lane (i + speed_) driver
   else if safe_follow_ <? x then
     set_attr driver (set_desire LANE_CHANGE) ;;;
     road_set lane (i + x - safe_follow_) driver
   else ret tt) ;;;
  let* r := random_random in
  let* drunk := attr driver is_drunk in
  (if drunk then
     (if Qlt_bool r DRUNK_CRASH_PROB then log_crash driver else ret tt)
   else if Qlt_bool r CRASH_PROB then
     log_crash driver
   else
     set_attr driver (set_desire LANE_CHANGE) ;;;
     road_set lane (i + 1) driver) ;;;
  road_set lane i EMPTY.

Definition leave_highway (lane i : Z) (driver : cell) : M Simulation unit :=
  road_set lane i EMPTY ;;;
  let* now := gets current_step in
  set_attr driver (set_final_time now) ;;;
  set_attr driver (set_final_dist HIGHWAY_LENGTH) ;;;
  let* ft := attr driver final_time in
  let* at0 := attr driver arrive_time in
  set_attr driver (set_travel_time (ft - at0)) ;;;
  let* fd := attr driver final_dist in
  let* tt_ := attr driver travel_time in
  let* q := lift (fun _ => py_truediv fd tt_) in
  set_attr driver (set_avg_speed q) ;;;
  let* row := attr driver output_data in
  modify (fun s => set_data (data s ++ [row]) s).

(** The incident roll of [sim_driver]: it redraws [r], which the
    left/right decision then reuses. *)
Definition crash_roll (driver : cell) (r : Q) : M Simulation Q :=
  let* d := attr driver desire in
  if negb (Desire_eqb d CRUISE) then
    let* r := random_random in
    let* drunk := attr driver is_drunk in
    (if drunk then
       (if Qlt_bool r DRUNK_CRASH_PROB then log_crash driver else ret tt)
     else if Qlt_bool r CRASH_PROB then log_crash driver
     else ret tt) ;;;
    ret r
  else ret r.

Definition pick_direction (lane i : Z) (driver : cell) (r : Q) : M Simulation unit :=
  let* d := attr driver desire in
  if Desire_eqb d LANE_CHANGE && Qle_bool r LEFT_LANE_CHANGE_PROBABILITY then
    let* ok := lift (fun s => safe_left_lane_change (sim_road s) lane i) in
    if ok then set_attr driver (set_desire LANE_CHANGE_LEFT)
    else
      let* ok := lift (fun s => safe_right_lane_change (sim_road s) lane i) in
      if ok then set_attr driver (set_desire LANE_CHANGE_RIGHT) else ret tt
  else if Desire_eqb d LANE_CHANGE
          && negb (Qle_bool r LEFT_LANE_CHANGE_PROBABILITY) then
    let* ok := lift (fun s => safe_right_lane_change (sim_road s) lane i) in
    if ok then set_attr driver (set_desire LANE_CHANGE_RIGHT)
    else
      let* ok := lift (fun s => safe_left_lane_change (sim_road s) lane i) in
      if ok then set_attr driver (set_desire LANE_CHANGE_LEFT) else ret tt
  else ret tt.

Definition act_on_desire (lane i : Z) (driver : cell) : M Simulation unit :=
  let* d := attr driver desire in
  match d with
  | LANE_CHANGE_RIGHT =>
      road_set (lane + 1) i driver ;;;
      road_set lane i EMPTY ;;;
      set_attr driver (set_desire CRUISE) ;;;
      sim_cruise (lane + 1) i
  | LANE_CHANGE_LEFT =>
      road_set (lane - 1) i driver ;;;
      road_set lane i EMPTY ;;;
      set_attr driver (set_desire CRUISE) ;;;
      sim_cruise (lane - 1) i
  | CRUISE | LANE_CHANGE => sim_cruise lane i
  end.

Definition sim_driver (lane i : Z) : M Simulation unit :=
  let* driver := road_get lane i in
  let* speed_ := attr driver speed in
  let* len := gets (fun s => hw_length (sim_road s)) in
  if len - 1 <=? speed_ + i then leave_highway lane i driver
  else
    let* r := random_random in
    let* r := crash_roll driver r in
    pick_direction lane i driver r ;;;
    act_on_desire lane i driver.

(** First loop of [gen_new_drivers]: the default lanes. *)
Definition gen_def_lane (lane : Z) (current_car_id : Z) : M Simulation Z :=
  let* r := random_random in
  if Qlt_bool r def_car_prob then
    let* r := random_random in
    let is_human_ := true in
    let fast := Qlt_bool r FAST_PROBABILITY in
    let* r := random_random in
    let* now := gets current_step in
    let* driver :=
      alloc (new_Driver current_car_id (if fast then FAST else SLOW) now
                        is_human_ (Qlt_bool r DRUNK_PROBABILITY)) in
    road_set lane 0 driver ;;;
    ret (current_car_id + 1)
  else ret current_car_id.

(** Second loop: the self-driving lanes, written at
    [lane + num_def_lanes - 1]. *)
Definition gen_sd_lane (lane : Z) (current_car_id : Z) : M Simulation Z :=
  let* r := random_random in
  if Qlt_bool r sd_car_prob then
    let* r := random_random in
    let is_human_ := false in
    let* now := gets current_step in
    let* driver :=
      alloc (new_Driver current_car_id FAST now is_human_ false) in
    let* ndl := gets (fun s => num_def_lanes (sim_road s)) in
    road_set (lane + ndl - 1) 0 driver ;;;
    ret (current_car_id + 1)
  else ret current_car_id.

Definition gen_new_drivers (num_cars_ : Z) : M Simulation Z :=
  let* ndl := gets (fun s => num_def_lanes (sim_road s)) in
  let* current_car_id := for_fold (py_range 0 ndl) num_cars_ gen_def_lane in
  let* nsl := gets (fun s => num_sd_lanes (sim_road s)) in
  for_fold (py_range 0 nsl) current_car_id gen_sd_lane.

Definition visit (i k : Z) : M Simulation unit :=
  let* c := road_get k i in
  if occupied c then sim_driver k i else ret tt.

Definition execute_time_step : M Simulation unit :=
  let* len := gets (fun s => hw_length (sim_road s)) in
  for_each (py_range_rev (len - 1) (-1)) (fun i =>
    let* lanes := gets (fun s => num_def_lanes (sim_road s)
                                 + num_sd_lanes (sim_road s)) in
    for_each (py_range 0 lanes) (fun k => visit i k)) ;;;
  let* n := gets num_cars in
  let* n' := gen_new_drivers n in
  modify (set_num_cars n').

Definition run_step : M Simulation unit :=
  execute_time_step ;;;
  modify (fun s => set_current_step (current_step s + 1) s).

End Methods.

Definition PRINT_ROAD : bool := false.

(** Highway.print: the default lanes, then one row per self-driving lane,
    read at [k + num_def_lanes - 1]. *)
Definition Highway_print (h : Highway) : result string :=
  let? s := print_lanes (road h) (hw_length h) (py_range 0 (num_def_lanes h))
                        (fun k => k) "_" "C" (newline +:+ newline) in
  print_lanes (road h) (hw_length h) (py_range 0 (num_sd_lanes h))
              (fun k => k + num_def_lanes h - 1) "~" "S" s.

Fixpoint run (rand : nat -> Q) (def_car_prob sd_car_prob : Q) (fuel : nat)
  : M (Out Simulation) bool :=
  match fuel with
  | O => ret false
  | S fuel' =>
      let* now := gets (fun w : Out Simulation => current_step (fst w)) in
      let* n := gets (fun w : Out Simulation => time_steps (fst w)) in
      if now <? n then
        in_world (run_step rand def_car_prob sd_car_prob) ;;;
        (if PRINT_ROAD
         then py_print (fun s => Highway_print (sim_road s))
         else ret tt) ;;;
        run rand def_car_prob sd_car_prob fuel'
      else ret true
  end.

(** The loop of [avg_travel_time_both_types]; the accumulator holds the
    locals avg_human_time, avg_sd_time, num_human and num_sd. *)
Definition tally_travel_time (acc : Z * Z * Z * Z) (row : OutputData)
  : Z * Z * Z * Z :=
  let '(avg_human_time, avg_sd_time, num_human, num_sd) := acc in
  if out_is_human row
  then (avg_human_time + out_travel_time row, avg_sd_time, num_human + 1, num_sd)
  else (avg_human_time, avg_sd_time + out_travel_time row, num_human, num_sd + 1).

Definition avg_travel_time_both_types (s : Simulation) : result (list Q) :=
  let '(avg_human_time, avg_sd_time, num_human, num_sd) :=
    foldl tally_travel_time (0, 0, 0, 0) (data s) in
  let? a := py_truediv avg_human_time num_human in
  let? b := py_truediv avg_sd_time num_sd in
  Ok [a; b].

End sim_client_requests.


(** ** Vocabulary of the specification *)

(** Shape of a constructed road: [lanes] rows, each [len] cells long. *)
Definition wf_grid (road : grid) (lanes len : Z) : Prop :=
  Z.of_nat (length road) = lanes /\
  Forall (fun row : list cell => Z.of_nat (length row) = len) road.

(** Total view of the grid, for indices inside the road. *)
Definition at_ (road : grid) (lane index : Z) : cell :=
  if (0 <=? lane) && (0 <=? index) then
    match road !! Z.to_nat lane with
    | Some row => match row !! Z.to_nat index with
                  | Some c => c
                  | None => EMPTY
                  end
    | None => EMPTY
    end
  else EMPTY.

(** The Highway objects built by the constructors have rows of
    [hw_length] cells, one row per lane. *)
Definition wf_Highway1 (h : highway_sim1.Highway) : Prop :=
  wf_grid (highway_sim1.road h) 2 (highway_sim1.hw_length h).

Definition wf_HighwayV2 (h : highway_sim_V2.Highway) : Prop :=
  wf_grid (highway_sim_V2.road h) (highway_sim_V2.num_lanes h)
          (highway_sim_V2.hw_length h).

Definition wf_HighwaySD (h : sim_client_requests.Highway) : Prop :=
  wf_grid (sim_client_requests.road h)
          (sim_client_requests.num_def_lanes h + sim_client_requests.num_sd_lanes h)
          (sim_client_requests.hw_length h).

(** [clear_run_post road len lane pos k x]: [x] is what the specification
    asks of the gap measurement from [pos] with bound [k]. *)
Definition clear_run_post (road : grid) (len lane pos k x : Z) : Prop :=
  0 <= x <= k /\
  ((forall j, pos < j <= pos + k -> j < len -> at_ road lane j = EMPTY) -> x = k) /\
  (forall j, pos < j <= pos + k -> j < len ->
             at_ road lane j <> EMPTY ->
             (forall j', pos < j' < j -> at_ road lane j' = EMPTY) ->
             x = j - pos - 1) /\
  (forall j, pos < j <= pos + x -> j < len -> at_ road lane j = EMPTY).

(** What [row[k]] reads for an index accepted by Python: negative indices
    count from the end of the row. *)
Definition at_py (road : grid) (len lane k : Z) : cell :=
  at_ road lane (if k <? 0 then len + k else k).

Definition all_clear (road : grid) (len lane : Z) (idxs : list Z) : bool :=
  forallb (fun k => negb (occupied (at_py road len lane k))) idxs.

(** A lane in which no cell is occupied. *)
Definition lane_empty (road : grid) (lane : Z) : Prop :=
  forall j, at_ road lane j = EMPTY.

(** Concrete roads used in the examples below. *)
Definition empty_V2 : highway_sim_V2.Highway := highway_sim_V2.new_Highway 110 4.

Definition empty_SD : sim_client_requests.Highway :=
  sim_client_requests.new_Highway 110 3 1.

(** The empty four-lane road with one vehicle (reference 0) in lane 1 at
    position [j]. *)
Definition one_car_V2 (j : Z) : highway_sim_V2.Highway :=
  match highway_sim_V2.Highway_set empty_V2 1 j (Some O) with
  | Ok h => h
  | Raise _ => empty_V2
  end.

(** A one-lane road of ten cells with a vehicle at position 6. *)
Definition short_road_V2 : highway_sim_V2.Highway :=
  highway_sim_V2.mkHighway 1
    [[EMPTY; EMPTY; EMPTY; EMPTY; EMPTY; EMPTY; Some O; EMPTY; EMPTY; EMPTY]] 10.

(** The road after a successful [road[lane][index] = v]. *)
Definition grid_put (road : grid) (lane index : Z) (v : cell) : grid :=
  match road !! Z.to_nat lane with
  | Some row => <[Z.to_nat lane := <[Z.to_nat index := v]> row]> road
  | None => road
  end.

(** *** highway_sim_V2: views of the simulation state *)

Definition cellV2 (s : highway_sim_V2.Simulation) (l j : Z) : cell :=
  at_ (highway_sim_V2.road (highway_sim_V2.sim_road s)) l j.

Definition lanesV2 (s : highway_sim_V2.Simulation) : Z :=
  highway_sim_V2.num_lanes (highway_sim_V2.sim_road s).

Definition lenV2 (s : highway_sim_V2.Simulation) : Z :=
  highway_sim_V2.hw_length (highway_sim_V2.sim_road s).

Definition putV2 (lane i : Z) (v : cell) (s : highway_sim_V2.Simulation)
  : highway_sim_V2.Simulation :=
  highway_sim_V2.set_sim_road
    (highway_sim_V2.mkHighway
       (lanesV2 s)
       (grid_put (highway_sim_V2.road (highway_sim_V2.sim_road s)) lane i v)
       (lenV2 s))
    s.

(** Where [sim_cruise] puts a vehicle with record [d] standing at [i] when
    the clear run is [x], and the record it leaves. *)
Definition cruise_target (d : highway_sim_V2.Driver) (x i : Z) : Z :=
  if x =? highway_sim_V2.speed d + highway_sim_V2.safe_follow d
  then i + highway_sim_V2.speed d
  else if highway_sim_V2.safe_follow d <? x
       then i + x - highway_sim_V2.safe_follow d
       else i + 1.

Definition cruise_driver (d : highway_sim_V2.Driver) (x : Z) : highway_sim_V2.Driver :=
  if x =? highway_sim_V2.speed d + highway_sim_V2.safe_follow d
  then d
  else highway_sim_V2.set_desire LANE_CHANGE d.

(** The record of a vehicle after the exit branch of [sim_driver] at tick
    [now]. *)
Definition exit_stamp (now : Z) (d : highway_sim_V2.Driver) : highway_sim_V2.Driver :=
  highway_sim_V2.set_avg_speed
    (Qdiv (inject_Z highway_sim_V2.HIGHWAY_LENGTH)
          (inject_Z (now - highway_sim_V2.arrive_time d)))
    (highway_sim_V2.set_travel_time (now - highway_sim_V2.arrive_time d)
       (highway_sim_V2.set_final_dist highway_sim_V2.HIGHWAY_LENGTH
          (highway_sim_V2.set_final_time now d))).

(** State after the exit branch, for the vehicle [r] with record [d]. *)
Definition left_V2 (lane i : Z) (r : nat) (d : highway_sim_V2.Driver)
           (s : highway_sim_V2.Simulation) : highway_sim_V2.Simulation :=
  let d' := exit_stamp (highway_sim_V2.current_step s) d in
  highway_sim_V2.set_data
    (highway_sim_V2.data s ++ [highway_sim_V2.output_data d'])
    (highway_sim_V2.set_objects (<[r := d']> (highway_sim_V2.objects s))
       (putV2 lane i EMPTY s)).

(** *** sim_client_requests: views of the simulation state *)

Definition cellSD (s : sim_client_requests.Simulation) (l j : Z) : cell :=
  at_ (sim_client_requests.road (sim_client_requests.sim_road s)) l j.

Definition lanesSD (s : sim_client_requests.Simulation) : Z :=
  sim_client_requests.num_def_lanes (sim_client_requests.sim_road s)
  + sim_client_requests.num_sd_lanes (sim_client_requests.sim_road s).

Definition lenSD (s : sim_client_requests.Simulation) : Z :=
  sim_client_requests.hw_length (sim_client_requests.sim_road s).

Definition putSD (lane i : Z) (v : cell) (s : sim_client_requests.Simulation)
  : sim_client_requests.Simulation :=
  sim_client_requests.set_sim_road
    (sim_client_requests.mkHighway
       (sim_client_requests.num_def_lanes (sim_client_requests.sim_road s))
       (sim_client_requests.num_sd_lanes (sim_client_requests.sim_road s))
       (grid_put (sim_client_requests.road (sim_client_requests.sim_road s)) lane i v)
       (lenSD s))
    s.

(** The record of a vehicle after the exit branch of [sim_driver] at tick
    [now]. *)
Definition exit_stampSD (now : Z) (d : sim_client_requests.Driver) : sim_client_requests.Driver :=
  sim_client_requests.set_avg_speed
    (Qdiv (inject_Z sim_client_requests.HIGHWAY_LENGTH)
          (inject_Z (now - sim_client_requests.arrive_time d)))
    (sim_client_requests.set_travel_time (now - sim_client_requests.arrive_time d)
       (sim_client_requests.set_final_dist sim_client_requests.HIGHWAY_LENGTH
          (sim_client_requests.set_final_time now d))).

(** State after the exit branch, for the vehicle [r] with record [d]. *)
Definition left_SD (lane i : Z) (r : nat) (d : sim_client_requests.Driver)
           (s : sim_client_requests.Simulation) : sim_client_requests.Simulation :=
  let d' := exit_stampSD (sim_client_requests.current_step s) d in
  sim_client_requests.set_data
    (sim_client_requests.data s ++ [sim_client_requests.output_data d'])
    (sim_client_requests.set_objects (<[r := d']> (sim_client_requests.objects s))
       (putSD lane i EMPTY s)).


(** A random stream given by its first values; later values are 1, which
    is above every probability constant. *)
Definition stream (l : list Q) : nat -> Q := fun n => nth n l 1%Q.

(** The occupied cells of a grid of [lanes] lanes and [len] cells, as
    triples (lane, position, reference), lane by lane. *)
Definition occupied_cells (road : grid) (lanes len : Z) : list (Z * Z * nat) :=
  flat_map (fun l =>
    flat_map (fun j => match at_ road l j with
                       | Some r => [(l, j, r)]
                       | None => []
                       end)
             (py_range 0 len))
    (py_range 0 lanes).

(** What the examples observe of a sim_client_requests state: the occupied
    cells, the desire of every Driver object, the incident log, the number
    of exit records and the number of random draws read so far. *)
Definition snapshotSD (s : sim_client_requests.Simulation)
  : list (Z * Z * nat) * list Desire * list Z * nat * nat :=
  (occupied_cells (sim_client_requests.road (sim_client_requests.sim_road s))
                  (lanesSD s) (lenSD s),
   map sim_client_requests.desire (sim_client_requests.objects s),
   sim_client_requests.crashes s,
   length (sim_client_requests.data s),
   sim_client_requests.draws s).

Definition observeSD {A : Type} (r : result (A * sim_client_requests.Simulation))
  : option (list (Z * Z * nat) * list Desire * list Z * nat * nat) :=
  match r with
  | Ok (_, s) => Some (snapshotSD s)
  | Raise _ => None
  end.

Definition snapshotV2 (s : highway_sim_V2.Simulation)
  : list (Z * Z * nat) * list Desire * nat * nat :=
  (occupied_cells (highway_sim_V2.road (highway_sim_V2.sim_road s))
                  (lanesV2 s) (lenV2 s),
   map highway_sim_V2.desire (highway_sim_V2.objects s),
   length (highway_sim_V2.data s),
   highway_sim_V2.draws s).

Definition observeV2 {A : Type} (r : result (A * highway_sim_V2.Simulation))
  : option (list (Z * Z * nat) * list Desire * nat * nat) :=
  match r with
  | Ok (_, s) => Some (snapshotV2 s)
  | Raise _ => None
  end.

(** [n] iterations of the loop of [Simulation.run]. *)
Fixpoint run_n_SD (rand : nat -> Q) (def_car_prob sd_car_prob : Q) (n : nat)
  : M sim_client_requests.Simulation unit :=
  match n with
  | O => ret tt
  | S n' =>
      sim_client_requests.run_step rand def_car_prob sd_car_prob ;;;
      run_n_SD rand def_car_prob sd_car_prob n'
  end.

Fixpoint run_n_V2 (rand : nat -> Q) (n : nat) : M highway_sim_V2.Simulation unit :=
  match n with
  | O => ret tt
  | S n' => highway_sim_V2.run_step rand ;;; run_n_V2 rand n'
  end.

(** sim_client_requests at tick 1 with one vehicle in lane 0 at position 0:
    a fast human driver, sober or drunk, who arrived at tick 0. *)
Definition one_car_SD (drunk : bool) : sim_client_requests.Simulation :=
  sim_client_requests.set_current_step 1
    (putSD 0 0 (Some O)
       (sim_client_requests.set_objects
          [sim_client_requests.new_Driver 0 sim_client_requests.FAST 0 true drunk]
          (sim_client_requests.new_Simulation 100))).

(** The same with a second vehicle (reference 1) three cells ahead. *)
Definition two_cars_SD (drunk : bool) : sim_client_requests.Simulation :=
  sim_client_requests.set_current_step 1
    (putSD 0 3 (Some 1%nat)
       (putSD 0 0 (Some O)
          (sim_client_requests.set_objects
             [sim_client_requests.new_Driver 0 sim_client_requests.FAST 0 true drunk;
              sim_client_requests.new_Driver 1 sim_client_requests.SLOW 0 true false]
             (sim_client_requests.new_Simulation 100)))).

(** highway_sim_V2 at tick 1 with a vehicle (reference 0) in the entry cell
    of lane 0. *)
Definition entry_taken_V2 : highway_sim_V2.Simulation :=
  highway_sim_V2.set_current_step 1
    (putV2 0 0 (Some O)
       (highway_sim_V2.set_objects
          [highway_sim_V2.new_Driver 0 highway_sim_V2.FAST 0 true]
          (highway_sim_V2.new_Simulation 100))).

(** The three-tick run of sim_client_requests used below: a sober slow
    driver arrives in lane 0 at tick 0, a drunk slow driver arrives behind
    it at tick 1, every other roll fails. *)
Definition three_ticks : nat -> Q :=
  stream [0; 1; 1; 1; 1; 1;  1; 1;  0; 1; 0]%Q.

(** *** Total correctness of a monadic computation

    [twp m Q s]: from [s] the computation [m] returns normally, with a value
    and a state that satisfy [Q]. *)
Definition twp {S A : Type} (m : M S A) (Q : A -> S -> Prop) (s : S) : Prop :=
  exists a s', m s = Ok (a, s') /\ Q a s'.

(** *** highway_sim_V2: invariants of a run *)

(** Drivers are created with speed SLOW or FAST and a follow distance of 2
    or 4, and they are stamped with the tick of their arrival. *)
Definition good_driver_V2 (now : Z) (d : highway_sim_V2.Driver) : Prop :=
  (highway_sim_V2.speed d = highway_sim_V2.SLOW \/
   highway_sim_V2.speed d = highway_sim_V2.FAST) /\
  (highway_sim_V2.safe_follow d = highway_sim_V2.SDC_SAFE_FOLLOW \/
   highway_sim_V2.safe_follow d = highway_sim_V2.HUMAN_SAFE_FOLLOW) /\
  highway_sim_V2.arrive_time d < now.

(** Between two calls of [sim_driver] a desire is Cruise or Lane Change. *)
Definition resting_V2 (d : highway_sim_V2.Driver) : Prop :=
  highway_sim_V2.desire d = CRUISE \/ highway_sim_V2.desire d = LANE_CHANGE.

(** What one call of [sim_driver] on the vehicle [r] at [(lane, i)] does to
    the state: the shape of the road, the tick and the number of objects are
    kept; either the vehicle leaves the grid, or it lands on a cell
    [(l', j')] that was empty, further down the road, in its lane or in an
    adjacent lane whose cell at [i] was empty. *)
Definition stepped_V2 (s s' : highway_sim_V2.Simulation) (lane i : Z) (r : nat)
  : Prop :=
  wf_HighwayV2 (highway_sim_V2.sim_road s') /\
  lanesV2 s' = lanesV2 s /\ lenV2 s' = lenV2 s /\
  highway_sim_V2.current_step s' = highway_sim_V2.current_step s /\
  highway_sim_V2.num_cars s' = highway_sim_V2.num_cars s /\
  length (highway_sim_V2.objects s') = length (highway_sim_V2.objects s) /\
  (forall now, Forall (good_driver_V2 now) (highway_sim_V2.objects s) ->
               Forall (good_driver_V2 now) (highway_sim_V2.objects s')) /\
  (Forall resting_V2 (highway_sim_V2.objects s) ->
   Forall resting_V2 (highway_sim_V2.objects s')) /\
  ((forall l j, cellV2 s' l j =
                if (l =? lane) && (j =? i) then EMPTY else cellV2 s l j) \/
   (exists l' j',
       (l' = lane \/ ((l' = lane + 1 \/ l' = lane - 1) /\ cellV2 s l' i = EMPTY)) /\
       0 <= l' < lanesV2 s /\ i < j' < lenV2 s /\
       cellV2 s l' j' = EMPTY /\
       forall l j, cellV2 s' l j =
                   if (l =? l') && (j =? j') then Some r
                   else if (l =? lane) && (j =? i) then EMPTY
                        else cellV2 s l j)).

(** Invariant of the states between two ticks. *)
Record state_inv_V2 (s : highway_sim_V2.Simulation) : Prop := mk_state_inv_V2 {
  si_wf : wf_HighwayV2 (highway_sim_V2.sim_road s);
  si_lanes : 0 <= lanesV2 s;
  si_len : 5 <= lenV2 s;
  si_good : Forall (good_driver_V2 (highway_sim_V2.current_step s))
                   (highway_sim_V2.objects s);
  si_rest : Forall resting_V2 (highway_sim_V2.objects s);
  si_refs : forall l j r, cellV2 s l j = Some r ->
                          (r < length (highway_sim_V2.objects s))%nat;
  si_uniq : forall l j l' j' r,
      cellV2 s l j = Some r -> cellV2 s l' j' = Some r -> l = l' /\ j = j'
}.

(** Invariant of the traversal of a tick that started in [s0], when the
    next cell to visit is lane [k] of position [i]: the cells still to visit
    are as in [s0]; the visited cells of position [i] are empty; an occupied
    cell still to visit at position [i] has an empty cell in front of it; and
    every vehicle found beyond position [i] was further up the road in
    [s0]. *)
Record tick_inv_V2 (s0 s : highway_sim_V2.Simulation) (i k : Z) : Prop :=
  mk_tick_inv_V2 {
  ti_state : state_inv_V2 s;
  ti_lanes : lanesV2 s = lanesV2 s0;
  ti_len : lenV2 s = lenV2 s0;
  ti_now : highway_sim_V2.current_step s = highway_sim_V2.current_step s0;
  ti_cars : highway_sim_V2.num_cars s = highway_sim_V2.num_cars s0;
  ti_nobj : length (highway_sim_V2.objects s) = length (highway_sim_V2.objects s0);
  ti_todo : forall l j, j < i \/ (j = i /\ k <= l) -> cellV2 s l j = cellV2 s0 l j;
  ti_row : forall l, l < k -> cellV2 s l i = EMPTY;
  ti_front : forall l, k <= l -> cellV2 s l i <> EMPTY -> cellV2 s l (i + 1) = EMPTY;
  ti_from : forall l' j' r, i < j' -> cellV2 s l' j' = Some r ->
                            exists l j, cellV2 s0 l j = Some r /\ j < j'
}.


(** The states of a run of [Simulation.run] with the random stream
    [rand]. *)
Inductive reachable_V2 (rand : nat -> Q) : highway_sim_V2.Simulation -> Prop :=
| reach_init_V2 time_steps :
    reachable_V2 rand (highway_sim_V2.new_Simulation time_steps)
| reach_step_V2 s s' :
    reachable_V2 rand s ->
    highway_sim_V2.run_step rand s = Ok (tt, s') ->
    reachable_V2 rand s'.

(** The Driver object that [gen_lane] creates with car id [id] from the
    state [s], after the arrival roll has succeeded. *)
Definition arrival_V2 (rand : nat -> Q) (id : Z) (s : highway_sim_V2.Simulation)
  : highway_sim_V2.Driver :=
  highway_sim_V2.new_Driver id
    (if Qlt_bool (rand (S (S (highway_sim_V2.draws s)))) highway_sim_V2.FAST_PROBABILITY
     then highway_sim_V2.FAST else highway_sim_V2.SLOW)
    (highway_sim_V2.current_step s)
    (Qlt_bool (rand (S (highway_sim_V2.draws s))) highway_sim_V2.IS_HUMAN_PROBABILITY).

(** Invariant of the loop of [gen_new_drivers] in a tick that started in
    [s0] and whose traversal ended in [st]: beyond position 0 the road is as
    the traversal left it, and the entry cells hold new vehicles only. *)
Record arrivals_inv_V2 (s0 st s : highway_sim_V2.Simulation) : Prop :=
  mk_arrivals_inv_V2 {
  ai_wf : wf_HighwayV2 (highway_sim_V2.sim_road s);
  ai_lanes : lanesV2 s = lanesV2 s0;
  ai_len : lenV2 s = lenV2 s0;
  ai_now : highway_sim_V2.current_step s = highway_sim_V2.current_step s0;
  ai_good : Forall (good_driver_V2 (highway_sim_V2.current_step s0 + 1))
                   (highway_sim_V2.objects s);
  ai_rest : Forall resting_V2 (highway_sim_V2.objects s);
  ai_refs : forall l j r, cellV2 s l j = Some r ->
                          (r < length (highway_sim_V2.objects s))%nat;
  ai_uniq : forall l j l' j' r,
      cellV2 s l j = Some r -> cellV2 s l' j' = Some r -> l = l' /\ j = j';
  ai_nobj : (length (highway_sim_V2.objects s0)
             <= length (highway_sim_V2.objects s))%nat;
  ai_road : forall l j, 1 <= j -> cellV2 s l j = cellV2 st l j;
  ai_entry : forall l r, cellV2 s l 0 = Some r ->
                         (length (highway_sim_V2.objects s0) <= r)%nat
}.

(** Every vehicle that is on the grid before and after a tick is further
    down the road after it. *)
Definition moved_forward_V2 (s s' : highway_sim_V2.Simulation) : Prop :=
  forall r l j l' j',
    cellV2 s l j = Some r -> cellV2 s' l' j' = Some r -> j < j'.

(** The state of highway_sim_V2 after [n] iterations of [run] from the
    initial state, with a stream in which the only arrival is a fast human
    driver in lane 0 at tick 0. *)
Definition after_V2 (n : nat) : highway_sim_V2.Simulation :=
  match run_n_V2 (stream [0; 0; 0]%Q) n (highway_sim_V2.new_Simulation 10) with
  | Ok (_, s) => s
  | Raise _ => highway_sim_V2.new_Simulation 10
  end.

(** *** sim_client_requests: invariants of a run *)

Definition good_driver_SD (bound : Z) (d : sim_client_requests.Driver) : Prop :=
  (sim_client_requests.speed d = sim_client_requests.SLOW \/
   sim_client_requests.speed d = sim_client_requests.FAST) /\
  (sim_client_requests.safe_follow d = sim_client_requests.SDC_SAFE_FOLLOW \/
   sim_client_requests.safe_follow d = sim_client_requests.HUMAN_SAFE_FOLLOW) /\
  sim_client_requests.arrive_time d < bound.

Definition resting_SD (d : sim_client_requests.Driver) : Prop :=
  sim_client_requests.desire d = CRUISE \/
  sim_client_requests.desire d = LANE_CHANGE.

(** What holds of the state of sim_client_requests all along a run, on a
    road of [L] lanes and [N] cells with [n] Driver objects at tick [now]:
    the road is well formed with one self-driving lane after at least one
    default lane; every Driver has a speed and a follow distance of the
    constructor and arrived before [bound]; every object satisfies [P] (its
    desire is at rest, except for the vehicle being processed); the cells
    hold references to existing objects; and the last lane is empty. *)
Record walk_SD (L N : Z) (n : nat) (now bound : Z)
       (P : nat -> sim_client_requests.Driver -> Prop)
       (s : sim_client_requests.Simulation) : Prop := mk_walk_SD {
  wk_wf : wf_HighwaySD (sim_client_requests.sim_road s);
  wk_def : 1 <= sim_client_requests.num_def_lanes (sim_client_requests.sim_road s);
  wk_sd : sim_client_requests.num_sd_lanes (sim_client_requests.sim_road s) = 1;
  wk_lanes : lanesSD s = L;
  wk_len : lenSD s = N;
  wk_len5 : 5 <= N;
  wk_now : sim_client_requests.current_step s = now;
  wk_nobj : length (sim_client_requests.objects s) = n;
  wk_good : Forall (good_driver_SD bound) (sim_client_requests.objects s);
  wk_P : forall r d, sim_client_requests.objects s !! r = Some d -> P r d;
  wk_refs : forall l j r, cellSD s l j = Some r -> (r < n)%nat;
  wk_last : forall j, cellSD s (L - 1) j = EMPTY
}.

(** Invariant of the states between two ticks. *)
Definition state_inv_SD (s : sim_client_requests.Simulation) : Prop :=
  walk_SD (lanesSD s) (lenSD s) (length (sim_client_requests.objects s))
          (sim_client_requests.current_step s) (sim_client_requests.current_step s)
          (fun _ d => resting_SD d) s.

(** The states of a run of [Simulation.run] with the random stream [rand]
    and the arrival probabilities set by [main]. *)
Inductive reachable_SD (rand : nat -> Q) (def_car_prob sd_car_prob : Q)
  : sim_client_requests.Simulation -> Prop :=
| reach_init_SD time_steps :
    reachable_SD rand def_car_prob sd_car_prob
                 (sim_client_requests.new_Simulation time_steps)
| reach_step_SD s s' :
    reachable_SD rand def_car_prob sd_car_prob s ->
    sim_client_requests.run_step rand def_car_prob sd_car_prob s = Ok (tt, s') ->
    reachable_SD rand def_car_prob sd_car_prob s'.

(** The Driver objects created by the two loops of [gen_new_drivers] of
    sim_client_requests with car id [id] from the state [s]. *)
Definition arrival_def_SD (rand : nat -> Q) (id : Z)
           (s : sim_client_requests.Simulation) : sim_client_requests.Driver :=
  sim_client_requests.new_Driver id
    (if Qlt_bool (rand (S (sim_client_requests.draws s)))
                 sim_client_requests.FAST_PROBABILITY
     then sim_client_requests.FAST else sim_client_requests.SLOW)
    (sim_client_requests.current_step s)
    true
    (Qlt_bool (rand (S (S (sim_client_requests.draws s))))
              sim_client_requests.DRUNK_PROBABILITY).

Definition arrival_sd_SD (id : Z) (s : sim_client_requests.Simulation)
  : sim_client_requests.Driver :=
  sim_client_requests.new_Driver id sim_client_requests.FAST
    (sim_client_requests.current_step s) false false.

(** The state of sim_client_requests after [n] iterations of [run] from the
    initial state, with the stream [three_ticks] and arrival probabilities
    1/10. *)
Definition after_SD (n : nat) : sim_client_requests.Simulation :=
  match run_n_SD three_ticks (1 # 10) (1 # 10) n
                 (sim_client_requests.new_Simulation 3) with
  | Ok (_, s) => s
  | Raise _ => sim_client_requests.new_Simulation 3
  end.

(** Two streams of rolls for highway_sim_V2.  With [far_end_rolls] a slow
    vehicle enters lane 1 in iteration 0 and two slow vehicles enter lane 0
    in iterations 24 and 25, the second one a human driver; with
    [near_only_rolls] only the two vehicles of lane 0 enter, in the same
    iterations.  Every other roll is 1. *)
Definition far_end_rolls (n : nat) : Q :=
  if existsb (Nat.eqb n) [1; 122; 130; 131]%nat then 0%Q else 1%Q.

Definition near_only_rolls (n : nat) : Q :=
  if existsb (Nat.eqb n) [96; 103; 104]%nat then 0%Q else 1%Q.

(** *** Partial correctness

    [hoare P m Q]: whenever [m] returns normally from a state that
    satisfies [P], the value and the state it returns satisfy [Q]. *)
Definition hoare {S A : Type} (P : S -> Prop) (m : M S A) (Q : A -> S -> Prop) : Prop :=
  forall s a s', P s -> m s = Ok (a, s') -> Q a s'.

(** *** highway_sim_V2: the ledger of a run *)

(** Two records of one vehicle: what the constructor fixed is the same. *)
Definition same_vehicle_V2 (d d' : highway_sim_V2.Driver) : Prop :=
  highway_sim_V2.car_id d' = highway_sim_V2.car_id d /\
  highway_sim_V2.is_human d' = highway_sim_V2.is_human d /\
  highway_sim_V2.speed d' = highway_sim_V2.speed d /\
  highway_sim_V2.safe_follow d' = highway_sim_V2.safe_follow d /\
  highway_sim_V2.arrive_time d' = highway_sim_V2.arrive_time d.

(** [row] is the exit record written at tick [now] for the vehicle [d]. *)
Definition exit_row_V2 (now : Z) (d : highway_sim_V2.Driver)
           (row : highway_sim_V2.OutputData) : Prop :=
  highway_sim_V2.out_id row = highway_sim_V2.car_id d /\
  highway_sim_V2.out_speed row = highway_sim_V2.speed d /\
  highway_sim_V2.out_is_human row = highway_sim_V2.is_human d /\
  highway_sim_V2.out_arrive_time row = highway_sim_V2.arrive_time d /\
  highway_sim_V2.out_final_time row = now /\
  highway_sim_V2.out_final_dist row = highway_sim_V2.HIGHWAY_LENGTH /\
  highway_sim_V2.out_travel_time row = now - highway_sim_V2.arrive_time d /\
  now <> highway_sim_V2.arrive_time d /\
  highway_sim_V2.out_avg_speed row =
    Qdiv (inject_Z highway_sim_V2.HIGHWAY_LENGTH)
         (inject_Z (now - highway_sim_V2.arrive_time d)).

(** [traversal_ledger_V2 s0 s]: [s] may be met during the traversal of a
    tick that started in [s0].  The counters are those of [s0]; the Driver
    objects are those of [s0], up to the fields that a tick writes; and the
    exit records are those of [s0] followed by records written at this tick
    for vehicles of [s0]. *)
Record traversal_ledger_V2 (s0 s : highway_sim_V2.Simulation) : Prop :=
  mk_traversal_ledger_V2 {
  tl_steps : highway_sim_V2.time_steps s = highway_sim_V2.time_steps s0;
  tl_now : highway_sim_V2.current_step s = highway_sim_V2.current_step s0;
  tl_cars : highway_sim_V2.num_cars s = highway_sim_V2.num_cars s0;
  tl_draws : (highway_sim_V2.draws s0 <= highway_sim_V2.draws s)%nat;
  tl_nobj : length (highway_sim_V2.objects s) = length (highway_sim_V2.objects s0);
  tl_objs : forall r d, highway_sim_V2.objects s !! r = Some d ->
                        exists d0, highway_sim_V2.objects s0 !! r = Some d0 /\
                                   same_vehicle_V2 d0 d;
  tl_data : exists rows,
      highway_sim_V2.data s = highway_sim_V2.data s0 ++ rows /\
      Forall (fun row => exists r d0,
                  highway_sim_V2.objects s0 !! r = Some d0 /\
                  exit_row_V2 (highway_sim_V2.current_step s0) d0 row) rows
}.

(** [arrivals_ledger_V2 s0 n0 acc s]: [s] may be met in the loop of
    [gen_new_drivers] called with [n0] from [s0], the local
    current_car_id being [snd acc]: the new Driver objects follow those of
    [s0], they carry the ids [n0], [n0 + 1], ... in this order, the tick of
    [s0] as their arrival time, a speed of SLOW or FAST and the desire
    Cruise. *)
Record arrivals_ledger_V2 (s0 : highway_sim_V2.Simulation) (n0 : Z)
       (acc : bool * Z) (s : highway_sim_V2.Simulation) : Prop :=
  mk_arrivals_ledger_V2 {
  al_steps : highway_sim_V2.time_steps s = highway_sim_V2.time_steps s0;
  al_now : highway_sim_V2.current_step s = highway_sim_V2.current_step s0;
  al_cars : highway_sim_V2.num_cars s = highway_sim_V2.num_cars s0;
  al_draws : (highway_sim_V2.draws s0 <= highway_sim_V2.draws s)%nat;
  al_data : highway_sim_V2.data s = highway_sim_V2.data s0;
  al_objs : exists news,
      highway_sim_V2.objects s = highway_sim_V2.objects s0 ++ news /\
      snd acc = n0 + Z.of_nat (length news) /\
      forall k d, news !! k = Some d ->
                  highway_sim_V2.car_id d = n0 + Z.of_nat k /\
                  highway_sim_V2.arrive_time d = highway_sim_V2.current_step s0 /\
                  (highway_sim_V2.speed d = highway_sim_V2.SLOW \/
                   highway_sim_V2.speed d = highway_sim_V2.FAST) /\
                  highway_sim_V2.desire d = CRUISE
}.

(** A well-formed exit record with respect to the Driver objects [objs]:
    it carries the id of an object, whose speed, kind and arrival time it
    repeats; the distance is the length of the highway; the travel time is
    the exit time minus the arrival time and is positive; the average speed
    is the distance over the travel time. *)
Definition exit_record_ok_V2 (objs : list highway_sim_V2.Driver)
           (row : highway_sim_V2.OutputData) : Prop :=
  exists r d,
    objs !! r = Some d /\
    highway_sim_V2.out_id row = Z.of_nat r /\
    highway_sim_V2.out_speed row = highway_sim_V2.speed d /\
    highway_sim_V2.out_is_human row = highway_sim_V2.is_human d /\
    highway_sim_V2.out_arrive_time row = highway_sim_V2.arrive_time d /\
    highway_sim_V2.out_final_dist row = highway_sim_V2.HIGHWAY_LENGTH /\
    highway_sim_V2.out_travel_time row =
      highway_sim_V2.out_final_time row - highway_sim_V2.out_arrive_time row /\
    0 < highway_sim_V2.out_travel_time row /\
    highway_sim_V2.out_avg_speed row =
      Qdiv (inject_Z (highway_sim_V2.out_final_dist row))
           (inject_Z (highway_sim_V2.out_travel_time row)).

(** Invariant of the ledger between two ticks: [num_cars] counts the Driver
    objects; the object with reference [r] carries the id [r] and arrived
    at a tick in [0, current_step); every exit record is well formed and
    was written before the current tick. *)
Record ledger_inv_V2 (s : highway_sim_V2.Simulation) : Prop := mk_ledger_inv_V2 {
  li_now : 0 <= highway_sim_V2.current_step s;
  li_cars : highway_sim_V2.num_cars s = Z.of_nat (length (highway_sim_V2.objects s));
  li_objs : forall r d, highway_sim_V2.objects s !! r = Some d ->
                        highway_sim_V2.car_id d = Z.of_nat r /\
                        0 <= highway_sim_V2.arrive_time d < highway_sim_V2.current_step s /\
                        (highway_sim_V2.speed d = highway_sim_V2.SLOW \/
                         highway_sim_V2.speed d = highway_sim_V2.FAST);
  li_data : Forall (fun row => exit_record_ok_V2 (highway_sim_V2.objects s) row /\
                               highway_sim_V2.out_final_time row
                               < highway_sim_V2.current_step s)
                   (highway_sim_V2.data s)
}.

(** *** sim_client_requests: the ledger of a run *)

(** Two records of one vehicle: what the constructor fixed is the same. *)
Definition same_vehicle_SD (d d' : sim_client_requests.Driver) : Prop :=
  sim_client_requests.car_id d' = sim_client_requests.car_id d /\
  sim_client_requests.is_human d' = sim_client_requests.is_human d /\
  sim_client_requests.is_drunk d' = sim_client_requests.is_drunk d /\
  sim_client_requests.speed d' = sim_client_requests.speed d /\
  sim_client_requests.safe_follow d' = sim_client_requests.safe_follow d /\
  sim_client_requests.arrive_time d' = sim_client_requests.arrive_time d.

(** [row] is the exit record written at tick [now] for the vehicle [d]. *)
Definition exit_row_SD (now : Z) (d : sim_client_requests.Driver)
           (row : sim_client_requests.OutputData) : Prop :=
  sim_client_requests.out_id row = sim_client_requests.car_id d /\
  sim_client_requests.out_speed row = sim_client_requests.speed d /\
  sim_client_requests.out_is_human row = sim_client_requests.is_human d /\
  sim_client_requests.out_arrive_time row = sim_client_requests.arrive_time d /\
  sim_client_requests.out_final_time row = now /\
  sim_client_requests.out_final_dist row = sim_client_requests.HIGHWAY_LENGTH /\
  sim_client_requests.out_travel_time row = now - sim_client_requests.arrive_time d /\
  now <> sim_client_requests.arrive_time d /\
  sim_client_requests.out_avg_speed row =
    Qdiv (inject_Z sim_client_requests.HIGHWAY_LENGTH)
         (inject_Z (now - sim_client_requests.arrive_time d)).

(** [traversal_ledger_SD s0 s]: [s] may be met during the traversal of a
    tick that started in [s0].  The counters are those of [s0]; the Driver
    objects are those of [s0], up to the fields that a tick writes; the
    exit records are those of [s0] followed by records written at this tick
    for vehicles of [s0]; and the incident log is that of [s0] followed by
    speeds of vehicles of [s0]. *)
Record traversal_ledger_SD (s0 s : sim_client_requests.Simulation) : Prop :=
  mk_traversal_ledger_SD {
  tl_steps_SD : sim_client_requests.time_steps s = sim_client_requests.time_steps s0;
  tl_now_SD : sim_client_requests.current_step s = sim_client_requests.current_step s0;
  tl_cars_SD : sim_client_requests.num_cars s = sim_client_requests.num_cars s0;
  tl_draws_SD : (sim_client_requests.draws s0 <= sim_client_requests.draws s)%nat;
  tl_nobj_SD : length (sim_client_requests.objects s)
               = length (sim_client_requests.objects s0);
  tl_objs_SD : forall r d, sim_client_requests.objects s !! r = Some d ->
                           exists d0, sim_client_requests.objects s0 !! r = Some d0 /\
                                      same_vehicle_SD d0 d;
  tl_data_SD : exists rows,
      sim_client_requests.data s = sim_client_requests.data s0 ++ rows /\
      Forall (fun row => exists r d0,
                  sim_client_requests.objects s0 !! r = Some d0 /\
                  exit_row_SD (sim_client_requests.current_step s0) d0 row) rows;
  tl_crashes_SD : exists entries,
      sim_client_requests.crashes s = sim_client_requests.crashes s0 ++ entries /\
      Forall (fun v => exists r d0,
                  sim_client_requests.objects s0 !! r = Some d0 /\
                  v = sim_client_requests.speed d0) entries
}.

(** What [gen_new_drivers] creates: a human driver, slow or fast, with the
    follow distance of a human; or a self-driving vehicle, which is fast,
    sober and has the shorter follow distance. *)
Definition driver_kind_SD (d : sim_client_requests.Driver) : Prop :=
  (sim_client_requests.speed d = sim_client_requests.SLOW \/
   sim_client_requests.speed d = sim_client_requests.FAST) /\
  ((sim_client_requests.is_human d = true /\
    sim_client_requests.safe_follow d = sim_client_requests.HUMAN_SAFE_FOLLOW) \/
   (sim_client_requests.is_human d = false /\
    sim_client_requests.is_drunk d = false /\
    sim_client_requests.speed d = sim_client_requests.FAST /\
    sim_client_requests.safe_follow d = sim_client_requests.SDC_SAFE_FOLLOW)).

(** [arrivals_ledger_SD s0 n0 id s]: [s] may be met in the two loops of
    [gen_new_drivers] called with [n0] from [s0], the local current_car_id
    being [id]: the new Driver objects follow those of [s0], they carry the
    ids [n0], [n0 + 1], ... in this order, the tick of [s0] as their arrival
    time and the desire Cruise. *)
Record arrivals_ledger_SD (s0 : sim_client_requests.Simulation) (n0 : Z)
       (id : Z) (s : sim_client_requests.Simulation) : Prop :=
  mk_arrivals_ledger_SD {
  al_steps_SD : sim_client_requests.time_steps s = sim_client_requests.time_steps s0;
  al_now_SD : sim_client_requests.current_step s = sim_client_requests.current_step s0;
  al_cars_SD : sim_client_requests.num_cars s = sim_client_requests.num_cars s0;
  al_draws_SD : (sim_client_requests.draws s0 <= sim_client_requests.draws s)%nat;
  al_data_SD : sim_client_requests.data s = sim_client_requests.data s0;
  al_crashes_SD : sim_client_requests.crashes s = sim_client_requests.crashes s0;
  al_objs_SD : exists news,
      sim_client_requests.objects s = sim_client_requests.objects s0 ++ news /\
      id = n0 + Z.of_nat (length news) /\
      forall k d, news !! k = Some d ->
                  sim_client_requests.car_id d = n0 + Z.of_nat k /\
                  sim_client_requests.arrive_time d
                  = sim_client_requests.current_step s0 /\
                  driver_kind_SD d /\
                  sim_client_requests.desire d = CRUISE
}.

(** A well-formed exit record with respect to the Driver objects [objs]. *)
Definition exit_record_ok_SD (objs : list sim_client_requests.Driver)
           (row : sim_client_requests.OutputData) : Prop :=
  exists r d,
    objs !! r = Some d /\
    sim_client_requests.out_id row = Z.of_nat r /\
    sim_client_requests.out_speed row = sim_client_requests.speed d /\
    sim_client_requests.out_is_human row = sim_client_requests.is_human d /\
    sim_client_requests.out_arrive_time row = sim_client_requests.arrive_time d /\
    sim_client_requests.out_final_dist row = sim_client_requests.HIGHWAY_LENGTH /\
    sim_client_requests.out_travel_time row =
      sim_client_requests.out_final_time row - sim_client_requests.out_arrive_time row /\
    0 < sim_client_requests.out_travel_time row /\
    sim_client_requests.out_avg_speed row =
      Qdiv (inject_Z (sim_client_requests.out_final_dist row))
           (inject_Z (sim_client_requests.out_travel_time row)).

(** Invariant of the ledger between two ticks: [num_cars] counts the Driver
    objects; the object with reference [r] carries the id [r], arrived at a
    tick in [0, current_step) and is of one of the two kinds; every exit
    record is well formed and was written before the current tick; and the
    incident log holds speeds, SLOW or FAST. *)
Record ledger_inv_SD (s : sim_client_requests.Simulation) : Prop := mk_ledger_inv_SD {
  li_now_SD : 0 <= sim_client_requests.current_step s;
  li_cars_SD : sim_client_requests.num_cars s
               = Z.of_nat (length (sim_client_requests.objects s));
  li_objs_SD : forall r d, sim_client_requests.objects s !! r = Some d ->
                           sim_client_requests.car_id d = Z.of_nat r /\
                           0 <= sim_client_requests.arrive_time d
                             < sim_client_requests.current_step s /\
                           driver_kind_SD d;
  li_data_SD : Forall (fun row => exit_record_ok_SD (sim_client_requests.objects s) row /\
                                  sim_client_requests.out_final_time row
                                  < sim_client_requests.current_step s)
                      (sim_client_requests.data s);
  li_crashes_SD : Forall (fun v => v = sim_client_requests.SLOW \/
                                   v = sim_client_requests.FAST)
                         (sim_client_requests.crashes s)
}.

(** Two streams of rolls for sim_client_requests.  With [lone_driver_rolls]
    the only arrival is a slow, sober human driver in lane 0 at tick 0, and
    no roll is below an incident probability; with [incident_rolls] the same
    driver arrives and the roll of [sim_cruise] at tick 1 is below
    CRASH_PROB. *)
Definition lone_driver_rolls : nat -> Q := stream [0]%Q.

Definition incident_rolls : nat -> Q := stream [0; 1; 1; 1; 1; 1; 1; 0]%Q.

(** The state after [n] iterations of [run] with [rolls] and arrival
    probabilities 1/10. *)
Definition after_rolls_SD (rolls : nat -> Q) (n : nat)
  : sim_client_requests.Simulation :=
  match run_n_SD rolls (1 # 10) (1 # 10) n
                 (sim_client_requests.new_Simulation 40) with
  | Ok (_, s) => s
  | Raise _ => sim_client_requests.new_Simulation 40
  end.

(** *** highway_sim1: invariants of a run *)

Definition cell1 (s : highway_sim1.Simulation) (l j : Z) : cell :=
  at_ (highway_sim1.road (highway_sim1.sim_road s)) l j.

(** Drivers are created with speed SLOW or FAST and the follow distance
    SAFE_FOLLOW, and they are stamped with the tick of their arrival; their
    desire is Cruise or Lane Change. *)
Definition good_driver_1 (bound : Z) (d : highway_sim1.Driver) : Prop :=
  (highway_sim1.speed d = highway_sim1.SLOW \/
   highway_sim1.speed d = highway_sim1.FAST) /\
  highway_sim1.safe_follow d = highway_sim1.SAFE_FOLLOW /\
  (highway_sim1.desire d = CRUISE \/ highway_sim1.desire d = LANE_CHANGE) /\
  0 <= highway_sim1.arrive_time d < bound.

(** The farthest cell that the vehicle [d] can stand in at tick [now]: its
    speed for every tick since its arrival, the current one included when
    the vehicle has been [moved] at this tick. *)
Definition reach_1 (now : Z) (moved : bool) (d : highway_sim1.Driver) : Z :=
  highway_sim1.speed d
  * (now - highway_sim1.arrive_time d - (if moved then 0 else 1)).

(** What holds of the state of highway_sim1 all along a run, on a road of
    [N] cells at tick [now] of [T], when the traversal still has to visit
    the positions up to [i]: the road is well formed; every Driver was
    created by the constructor before [bound]; every occupied cell holds a
    reference to a Driver object, and no vehicle is farther than
    [reach_1] allows; every recorded travel time [t] is positive, at most
    [now], and long enough for the road at speed FAST. *)
Record walk_1 (N T now bound i : Z) (s : highway_sim1.Simulation) : Prop :=
  mk_walk_1 {
  w1_wf : wf_Highway1 (highway_sim1.sim_road s);
  w1_len : highway_sim1.hw_length (highway_sim1.sim_road s) = N;
  w1_N : 1 <= N;
  w1_steps : highway_sim1.time_steps s = T;
  w1_now : highway_sim1.current_step s = now;
  w1_now0 : 0 <= now;
  w1_good : Forall (good_driver_1 bound) (highway_sim1.objects s);
  w1_cells : forall l j r,
      cell1 s l j = Some r ->
      exists d, highway_sim1.objects s !! r = Some d /\
                j <= reach_1 now (negb (j <=? i)) d;
  w1_data : Forall (fun t => N - 1 <= highway_sim1.FAST * t /\ 0 < t <= now)
                   (highway_sim1.data s)
}.

(** Invariant of the states between two ticks. *)
Definition state_inv_1 (s : highway_sim1.Simulation) : Prop :=
  walk_1 (highway_sim1.hw_length (highway_sim1.sim_road s))
         (highway_sim1.time_steps s) (highway_sim1.current_step s)
         (highway_sim1.current_step s)
         (highway_sim1.hw_length (highway_sim1.sim_road s) - 1) s.

(** The states of a run of [Simulation.run] with the random stream
    [rand]. *)
Inductive reachable_1 (rand : nat -> Q) : highway_sim1.Simulation -> Prop :=
| reach_init_1 time_steps :
    reachable_1 rand (highway_sim1.new_Simulation time_steps)
| reach_step_1 s s' :
    reachable_1 rand s ->
    highway_sim1.run_step rand s = Ok (tt, s') ->
    reachable_1 rand s'.

Fixpoint run_n_1 (rand : nat -> Q) (n : nat) : M highway_sim1.Simulation unit :=
  match n with
  | O => ret tt
  | S n' => highway_sim1.run_step rand ;;; run_n_1 rand n'
  end.

(** The state of highway_sim1 after [n] iterations of [run] from the
    initial state, with a stream in which the only arrival is a fast driver
    in the left lane at tick 0. *)
Definition after_1 (n : nat) : highway_sim1.Simulation :=
  match run_n_1 (stream [0; 0]%Q) n (highway_sim1.new_Simulation 30) with
  | Ok (_, s) => s
  | Raise _ => highway_sim1.new_Simulation 30
  end.

(** * Properties *)

(** ** Python lists and the grid *)

Lemma py_norm_in (len : nat) (k : Z) :
  0 <= k < Z.of_nat len -> py_norm len k = Some (Z.to_nat k).
Proof.
  intros H. unfold py_norm.
  destruct (0 <=? k) eqn:E1; [|lia].
  destruct (k <? Z.of_nat len) eqn:E2; [reflexivity|lia].
Qed.

Lemma py_norm_neg (len : nat) (k : Z) :
  - Z.of_nat len <= k < 0 -> py_norm len k = Some (Z.to_nat (Z.of_nat len + k)).
Proof.
  intros H. unfold py_norm.
  destruct (0 <=? k) eqn:E1; [lia|]. simpl.
  destruct (- Z.of_nat len <=? k) eqn:E2; [|lia].
  destruct (k <? 0) eqn:E3; [reflexivity|lia].
Qed.

Lemma py_norm_out (len : nat) (k : Z) :
  k < - Z.of_nat len \/ Z.of_nat len <= k -> py_norm len k = None.
Proof.
  intros H. unfold py_norm.
  destruct (0 <=? k) eqn:E1, (k <? Z.of_nat len) eqn:E2,
    (- Z.of_nat len <=? k) eqn:E3, (k <? 0) eqn:E4; simpl; try reflexivity; lia.
Qed.

Lemma py_getitem_in {A : Type} (l : list A) (k : Z) :
  0 <= k < Z.of_nat (length l) ->
  exists x, l !! Z.to_nat k = Some x /\ py_getitem l k = Ok x.
Proof.
  intros H. unfold py_getitem. rewrite py_norm_in by lia.
  destruct (lookup_lt_is_Some_2 l (Z.to_nat k)) as [x Hx]; [lia|].
  exists x. rewrite Hx. auto.
Qed.

Lemma py_getitem_out {A : Type} (l : list A) (k : Z) :
  k < - Z.of_nat (length l) \/ Z.of_nat (length l) <= k ->
  py_getitem l k = Raise IndexError.
Proof. intros H. unfold py_getitem. rewrite py_norm_out; auto. Qed.

Lemma wf_grid_row road lanes len lane row :
  wf_grid road lanes len -> road !! lane = Some row -> Z.of_nat (length row) = len.
Proof.
  intros [_ Hrows] Hrow. rewrite Forall_lookup in Hrows. eapply Hrows; eauto.
Qed.

Lemma grid_get_in road lanes len lane index :
  wf_grid road lanes len -> 0 <= lane < lanes -> 0 <= index < len ->
  grid_get road lane index = Ok (at_ road lane index).
Proof.
  intros Hwf Hl Hi. unfold grid_get, at_.
  destruct (py_getitem_in road lane) as (row & Hrow & ->); [destruct Hwf; lia|].
  simpl. pose proof (wf_grid_row _ _ _ _ _ Hwf Hrow) as Hlen.
  destruct (py_getitem_in row index) as (c & Hc & ->); [lia|].
  rewrite Hrow, Hc.
  destruct (0 <=? lane) eqn:E1; [|lia]. destruct (0 <=? index) eqn:E2; [|lia].
  reflexivity.
Qed.

(** A negative index in range reads from the end of the row. *)
Lemma grid_get_wrap road lanes len lane index :
  wf_grid road lanes len -> 0 <= lane < lanes -> - len <= index < 0 ->
  grid_get road lane index = Ok (at_ road lane (len + index)).
Proof.
  intros Hwf Hl Hi. unfold grid_get, at_.
  destruct (py_getitem_in road lane) as (row & Hrow & ->); [destruct Hwf; lia|].
  simpl. pose proof (wf_grid_row _ _ _ _ _ Hwf Hrow) as Hlen.
  unfold py_getitem. rewrite py_norm_neg by lia. rewrite Hlen.
  destruct (lookup_lt_is_Some_2 row (Z.to_nat (len + index))) as [c Hc]; [lia|].
  rewrite Hrow, Hc.
  destruct (0 <=? lane) eqn:E1; [|lia]. destruct (0 <=? len + index) eqn:E2; [|lia].
  reflexivity.
Qed.

Lemma grid_get_out road lanes len lane index :
  wf_grid road lanes len -> 0 <= lane < lanes -> index < - len \/ len <= index ->
  grid_get road lane index = Raise IndexError.
Proof.
  intros Hwf Hl Hi. unfold grid_get.
  destruct (py_getitem_in road lane) as (row & Hrow & ->); [destruct Hwf; lia|].
  simpl. pose proof (wf_grid_row _ _ _ _ _ Hwf Hrow) as Hlen.
  apply py_getitem_out. lia.
Qed.

Lemma grid_get_no_lane road lanes len lane index :
  wf_grid road lanes len -> lanes <= lane ->
  grid_get road lane index = Raise IndexError.
Proof.
  intros [Hn _] Hl. unfold grid_get. rewrite py_getitem_out by lia. reflexivity.
Qed.

Lemma at_out road lanes len lane index :
  wf_grid road lanes len -> ~ (0 <= lane < lanes /\ 0 <= index < len) ->
  at_ road lane index = EMPTY.
Proof.
  intros Hwf Hout. unfold at_.
  destruct (0 <=? lane) eqn:E1; [|reflexivity].
  destruct (0 <=? index) eqn:E2; [|reflexivity]. simpl.
  destruct (road !! Z.to_nat lane) as [row|] eqn:Hrow; [|reflexivity].
  pose proof (wf_grid_row _ _ _ _ _ Hwf Hrow) as Hlen.
  apply lookup_lt_Some in Hrow. destruct Hwf as [Hn _].
  destruct (row !! Z.to_nat index) as [c|] eqn:Hc; [|reflexivity].
  apply lookup_lt_Some in Hc. lia.
Qed.

(** Writing a cell inside the road succeeds, keeps the shape and changes
    that cell only. *)
Lemma grid_set_in road lanes len lane index v :
  wf_grid road lanes len -> 0 <= lane < lanes -> 0 <= index < len ->
  exists road',
    grid_set road lane index v = Ok road' /\
    wf_grid road' lanes len /\
    forall l j, at_ road' l j =
                if (l =? lane) && (j =? index) then v else at_ road l j.
Proof.
  intros Hwf Hl Hi. unfold grid_set.
  destruct (py_getitem_in road lane) as (row & Hrow & ->); [destruct Hwf; lia|].
  simpl. pose proof (wf_grid_row _ _ _ _ _ Hwf Hrow) as Hlen.
  unfold py_setitem. rewrite py_norm_in by lia. simpl.
  destruct Hwf as [Hn Hrows]. rewrite py_norm_in by lia.
  eexists. split; [reflexivity|]. split.
  - split; [rewrite length_insert; exact Hn|].
    apply Forall_insert; [exact Hrows|]. rewrite length_insert. exact Hlen.
  - intros l j. unfold at_.
    destruct (0 <=? l) eqn:E1; simpl.
    2:{ destruct (l =? lane) eqn:E; [lia|reflexivity]. }
    destruct (0 <=? j) eqn:E2; simpl.
    2:{ destruct (l =? lane) eqn:E; destruct (j =? index) eqn:E'; simpl;
        try reflexivity; lia. }
    destruct (l =? lane) eqn:El; simpl.
    + assert (l = lane) by lia. subst l.
      rewrite list_lookup_insert_eq by lia. rewrite Hrow.
      destruct (j =? index) eqn:Ej.
      * assert (j = index) by lia. subst j.
        rewrite list_lookup_insert_eq by lia. reflexivity.
      * rewrite list_lookup_insert_ne by lia. reflexivity.
    + rewrite list_lookup_insert_ne by lia. reflexivity.
Qed.

Lemma wf_empty_road lanes len :
  0 <= lanes -> 0 <= len -> wf_grid (empty_road lanes len) lanes len.
Proof.
  intros Hl Hn. unfold empty_road. split.
  - rewrite length_replicate. lia.
  - apply Forall_replicate. rewrite length_replicate. lia.
Qed.

Lemma at_empty_road lanes len l j : at_ (empty_road lanes len) l j = EMPTY.
Proof.
  unfold at_, empty_road.
  destruct ((0 <=? l) && (0 <=? j)); [|reflexivity].
  destruct (replicate _ _ !! Z.to_nat l) as [row|] eqn:Hrow; [|reflexivity].
  apply lookup_replicate in Hrow as [-> _].
  destruct (replicate _ _ !! Z.to_nat j) as [c|] eqn:Hc; [|reflexivity].
  apply lookup_replicate in Hc as [-> _]. reflexivity.
Qed.

(** ** Gap measurement *)

Lemma distance_loop_spec road lanes len lane k :
  wf_grid road lanes len -> 0 <= lane < lanes ->
  forall n a x,
    0 <= a -> 0 <= x -> k = x + Z.of_nat n ->
    exists r,
      distance_loop road len lane k (range_up a n) x = Ok r /\
      x <= r <= k /\
      ((forall j, a <= j < a + Z.of_nat n -> j < len -> at_ road lane j = EMPTY) ->
       r = k) /\
      (forall j, a <= j < a + Z.of_nat n -> j < len ->
                 at_ road lane j <> EMPTY ->
                 (forall j', a <= j' < j -> at_ road lane j' = EMPTY) ->
                 r = x + (j - a)) /\
      (forall j, a <= j < a + (r - x) -> j < len -> at_ road lane j = EMPTY).
Proof.
  intros Hwf Hlane. induction n as [|n IH]; intros a x Ha Hx Hk.
  - exists x. simpl. repeat split; intros; lia.
  - simpl. destruct (len <=? a) eqn:Hend.
    + exists k. repeat split; intros; lia.
    + rewrite (grid_get_in road lanes len) by (auto; lia). simpl.
      destruct (at_ road lane a) as [v|] eqn:Hcell; simpl.
      * exists x. repeat split; try lia.
        -- intros Hall. rewrite Hall in Hcell by lia. discriminate.
        -- intros j Hj Hlen Hocc Hbefore.
           destruct (Z.eq_dec j a) as [->|Hne]; [lia|].
           rewrite Hbefore in Hcell by lia. discriminate.
      * destruct (IH (a + 1) (x + 1)) as (r & Hr & Hb & Hfull & Hfirst & Hrun);
          try lia.
        exists r. split; [exact Hr|]. split; [lia|]. split; [|split].
        -- intros Hall. apply Hfull. intros j Hj Hlen. apply Hall; lia.
        -- intros j Hj Hlen Hocc Hbefore.
           destruct (Z.eq_dec j a) as [->|Hne]; [exfalso; exact (Hocc Hcell)|].
           rewrite (Hfirst j); try lia; auto.
           intros j' Hj'. apply Hbefore. lia.
        -- intros j Hj Hlen.
           destruct (Z.eq_dec j a) as [->|Hne]; [exact Hcell|].
           apply Hrun; lia.
Qed.

Lemma distance_within_spec road lanes len lane pos k :
  wf_grid road lanes len -> 0 <= lane < lanes -> 0 <= pos -> 0 <= k ->
  exists x, distance_within road len lane pos k = Ok x /\
            clear_run_post road len lane pos k x.
Proof.
  intros Hwf Hlane Hpos Hk. unfold distance_within, py_range.
  destruct (distance_loop_spec road lanes len lane k Hwf Hlane
              (Z.to_nat (pos + k + 1 - (pos + 1))) (pos + 1) 0)
    as (r & Hr & Hb & Hfull & Hfirst & Hrun); try lia.
  exists r. split; [exact Hr|]. split; [lia|]. split; [|split].
  - intros Hall. apply Hfull. intros j Hj Hlen. apply Hall; lia.
  - intros j Hj Hlen Hocc Hbefore. rewrite (Hfirst j); try lia; auto.
    intros j' Hj'. apply Hbefore. lia.
  - intros j Hj Hlen. apply Hrun; lia.
Qed.

(** C5. For a well-formed highway, a lane of the road, a position [pos >= 0]
    and a bound [k >= 0], [safe_distance_within] (the clear-run primitive of
    highway_sim1 and highway_sim_V2) returns normally, hence without an
    out-of-range access, some [x] with [0 <= x <= k]; [x = k] when every cell
    of [pos+1 .. pos+k] that lies on the road is empty (all empty, or the road
    ends before an occupied cell is met), and otherwise [x] is the number of
    empty cells between [pos] and the first occupied cell of the window; in
    both cases the [x] cells after [pos] that lie on the road are empty. *)
Theorem clear_run_spec :
  (forall (h : highway_sim_V2.Highway) (lane pos k : Z),
      wf_HighwayV2 h -> 0 <= lane < highway_sim_V2.num_lanes h ->
      0 <= pos -> 0 <= k ->
      exists x,
        highway_sim_V2.safe_distance_within h lane pos k = Ok x /\
        clear_run_post (highway_sim_V2.road h) (highway_sim_V2.hw_length h)
                       lane pos k x) /\
  (forall (h : highway_sim1.Highway) (lane pos k : Z),
      wf_Highway1 h -> 0 <= lane < 2 -> 0 <= pos -> 0 <= k ->
      exists x,
        highway_sim1.safe_distance_within h lane pos k = Ok x /\
        clear_run_post (highway_sim1.road h) (highway_sim1.hw_length h)
                       lane pos k x).
Proof.
  split; intros h lane pos k Hwf Hlane Hpos Hk.
  - eapply distance_within_spec; eauto.
  - eapply distance_within_spec; eauto.
Qed.

(** ** Lane-change safety check *)

Lemma elem_range_up a n j : In j (range_up a n) <-> a <= j < a + Z.of_nat n.
Proof.
  revert a. induction n as [|n IH]; intros a; simpl.
  - split; [tauto|lia].
  - rewrite IH. split; [intros [->|H]; lia|intros H].
    destruct (Z.eq_dec a j); [left; assumption|right; lia].
Qed.

Lemma elem_range_down a n j : In j (range_down a n) <-> a - Z.of_nat n < j <= a.
Proof.
  revert a. induction n as [|n IH]; intros a; simpl.
  - split; [tauto|lia].
  - rewrite IH. split; [intros [->|H]; lia|intros H].
    destruct (Z.eq_dec a j); [left; assumption|right; lia].
Qed.

Lemma grid_get_py road lanes len lane k :
  wf_grid road lanes len -> 0 <= lane < lanes -> - len <= k < len ->
  grid_get road lane k = Ok (at_py road len lane k).
Proof.
  intros Hwf Hl Hk. unfold at_py. destruct (k <? 0) eqn:E.
  - eapply grid_get_wrap; eauto. lia.
  - eapply grid_get_in; eauto. lia.
Qed.

(** Inside the road the window loop reads every cell and returns the flag
    and-ed with their emptiness. *)
Lemma window_loop_in road lanes len lane idxs safe :
  wf_grid road lanes len -> 0 <= lane < lanes ->
  (forall k, In k idxs -> - len <= k < len) ->
  window_loop road lane idxs safe = Ok (safe && all_clear road len lane idxs).
Proof.
  intros Hwf Hl. revert safe. induction idxs as [|k rest IH]; intros safe Hin.
  - simpl. rewrite andb_true_r. reflexivity.
  - simpl. rewrite (grid_get_py road lanes len) by (auto; apply Hin; left; auto).
    simpl. rewrite IH by (intros k' Hk'; apply Hin; right; auto).
    destruct (occupied (at_py road len lane k)), safe; reflexivity.
Qed.

(** An index off the road makes the loop raise IndexError. *)
Lemma window_loop_out road lanes len lane idxs safe :
  wf_grid road lanes len -> 0 <= lane < lanes ->
  (exists k, In k idxs /\ (k < - len \/ len <= k)) ->
  window_loop road lane idxs safe = Raise IndexError.
Proof.
  intros Hwf Hl. revert safe. induction idxs as [|k rest IH]; intros safe [k0 [Hin Hout]].
  - destruct Hin.
  - simpl. destruct (Z_lt_dec k (- len)) as [Hlo|Hlo].
    { rewrite (grid_get_out road lanes len) by (auto; lia). reflexivity. }
    destruct (Z_le_dec len k) as [Hhi|Hhi].
    { rewrite (grid_get_out road lanes len) by (auto; lia). reflexivity. }
    rewrite (grid_get_py road lanes len) by (auto; lia). simpl.
    apply IH. exists k0. split; [|exact Hout].
    destruct Hin as [->|Hin]; [lia|exact Hin].
Qed.

Lemma lane_window_check_in road lanes len back forward target i :
  wf_grid road lanes len -> 0 <= target < lanes ->
  0 <= back -> 0 <= forward -> 0 <= i -> back - i <= len -> i + forward < len ->
  lane_window_check road back forward target i =
    Ok (negb (occupied (at_ road target i))
        && all_clear road len target (py_range_rev (i - 1) (i - back - 1))
        && all_clear road len target (py_range (i + 1) (i + forward + 1))).
Proof.
  intros Hwf Hl Hb Hf Hi Hback Hfwd. unfold lane_window_check.
  rewrite (grid_get_in road lanes len) by (auto; lia). simpl.
  rewrite (window_loop_in road lanes len).
  2,3: auto.
  2:{ intros k Hk. apply elem_range_down in Hk. lia. }
  simpl. rewrite (window_loop_in road lanes len).
  2,3: auto.
  2:{ intros k Hk. apply elem_range_up in Hk. lia. }
  destruct (occupied (at_ road target i)); reflexivity.
Qed.

(** When the window ahead leaves the road the check raises IndexError. *)
Lemma lane_window_check_ahead_out road lanes len back forward target i :
  wf_grid road lanes len -> 0 <= target < lanes ->
  0 <= i -> len <= i + forward ->
  lane_window_check road back forward target i = Raise IndexError.
Proof.
  intros Hwf Hl Hi Hfwd. unfold lane_window_check.
  destruct (Z_lt_dec i len) as [Hlt|Hge].
  2:{ rewrite (grid_get_out road lanes len) by (auto; lia). reflexivity. }
  rewrite (grid_get_in road lanes len) by (auto; lia). simpl.
  destruct (Z_le_dec (- len) (i - back)) as [Hin|Hout].
  - destruct (Z_le_dec 0 back) as [Hb|Hb].
    + rewrite (window_loop_in road lanes len); auto.
      * simpl. apply (window_loop_out road lanes len); auto.
        exists (i + forward). split; [|lia]. apply elem_range_up. lia.
      * intros k Hk. apply elem_range_down in Hk. lia.
    + assert (py_range_rev (i - 1) (i - back - 1) = []) as ->.
      { unfold py_range_rev. replace (Z.to_nat _) with O by lia. reflexivity. }
      simpl. apply (window_loop_out road lanes len); auto.
      exists (i + forward). split; [|lia]. apply elem_range_up. lia.
  - rewrite (window_loop_out road lanes len); auto.
    exists (i - back). split; [|lia]. apply elem_range_down. lia.
Qed.

Lemma all_clear_empty road len lane idxs :
  lane_empty road lane -> all_clear road len lane idxs = true.
Proof.
  intros Hempty. unfold all_clear. apply forallb_forall. intros k _.
  unfold at_py. rewrite Hempty. reflexivity.
Qed.

Lemma lane_window_check_empty road lanes len back forward target i :
  wf_grid road lanes len -> 0 <= target < lanes -> lane_empty road target ->
  0 <= back -> 0 <= forward -> 0 <= i -> back - i <= len -> i + forward < len ->
  lane_window_check road back forward target i = Ok true.
Proof.
  intros Hwf Hl Hempty Hb Hf Hi Hback Hfwd.
  rewrite (lane_window_check_in road lanes len) by auto.
  rewrite Hempty. rewrite !all_clear_empty by auto. reflexivity.
Qed.

Lemma clear_run_spec_witness :
  exists x,
    highway_sim_V2.safe_distance_within short_road_V2 0 0 9 = Ok x /\
    clear_run_post (highway_sim_V2.road short_road_V2)
                   (highway_sim_V2.hw_length short_road_V2) 0 0 9 x.
Proof.
  apply (proj1 clear_run_spec short_road_V2 0 0 9).
  - split; [reflexivity|]. repeat constructor.
  - simpl. lia.
  - lia.
  - lia.
Defined.

(** C4. What the adjacent-lane check does at the two ends of the road, on
    the roads built by the constructors.  Behind the start of the road the
    negative indices of the window read the last cells of the neighbour lane:
    at position 1 the check answers true on an empty road, and at position 2
    it answers false because of a vehicle at position 107.  Ahead of the end
    of the road (position 105, window up to 110) the check of highway_sim_V2
    raises IndexError, and so does the three-cell check of highway_sim1 at
    position 108.  A run reaches the first case: after 27 iterations with
    [far_end_rolls] vehicle 2 is at cell 3 of lane 0 and wants to change
    lane, vehicle 0 is at cell 104 of lane 1; in iteration 28 vehicle 0 moves
    to cell 108 and vehicle 2 stays in lane 0, while with [near_only_rolls]
    (no vehicle in lane 1) the same vehicle moves to lane 1. *)
Theorem lane_change_check_at_road_ends :
  highway_sim_V2.safe_right_lane_change empty_V2 0 1 = Ok true /\
  highway_sim_V2.safe_left_lane_change empty_V2 1 1 = Ok true /\
  highway_sim_V2.safe_right_lane_change (one_car_V2 107) 0 2 = Ok false /\
  highway_sim_V2.safe_right_lane_change empty_V2 0 105 = Raise IndexError /\
  highway_sim_V2.safe_left_lane_change empty_V2 1 105 = Raise IndexError /\
  highway_sim1.safe_right_lane_change (highway_sim1.new_Highway 110) 108
    = Raise IndexError /\
  observeV2 (run_n_V2 far_end_rolls 27 (highway_sim_V2.new_Simulation 30))
    = Some ([(0, 3, 2%nat); (0, 8, 1%nat); (1, 104, 0%nat)],
            [CRUISE; CRUISE; LANE_CHANGE], 0%nat, 143%nat) /\
  observeV2 (run_n_V2 far_end_rolls 28 (highway_sim_V2.new_Simulation 30))
    = Some ([(0, 7, 2%nat); (0, 12, 1%nat); (1, 108, 0%nat)],
            [CRUISE; CRUISE; LANE_CHANGE], 0%nat, 150%nat) /\
  observeV2 (run_n_V2 near_only_rolls 27 (highway_sim_V2.new_Simulation 30))
    = Some ([(0, 3, 1%nat); (0, 8, 0%nat)], [CRUISE; LANE_CHANGE], 0%nat,
            115%nat) /\
  observeV2 (run_n_V2 near_only_rolls 28 (highway_sim_V2.new_Simulation 30))
    = Some ([(0, 12, 0%nat); (1, 7, 1%nat)], [CRUISE; CRUISE], 0%nat,
            121%nat).
Proof. repeat split; vm_compute; reflexivity. Qed.

(** The fault ahead of the end of the road, for every well-formed road. *)
Lemma safe_right_lane_change_faults_ahead (h : highway_sim_V2.Highway) lane i :
  wf_HighwayV2 h -> 0 <= lane -> lane + 1 < highway_sim_V2.num_lanes h ->
  0 <= i -> highway_sim_V2.hw_length h <= i + highway_sim_V2.LANE_CHANGE_SAFE_FORWARD ->
  highway_sim_V2.safe_right_lane_change h lane i = Raise IndexError.
Proof.
  intros Hwf Hl Hn Hi Hout. unfold highway_sim_V2.safe_right_lane_change.
  destruct (lane =? highway_sim_V2.num_lanes h - 1) eqn:E; [lia|].
  eapply lane_window_check_ahead_out; eauto. lia.
Qed.

(** The boundary guards answer before any cell is read: the result does not
    depend on the road at all. *)
Lemma safe_left_lane_change_lane0_V2 (h : highway_sim_V2.Highway) i :
  highway_sim_V2.safe_left_lane_change h 0 i = Ok false.
Proof. reflexivity. Qed.

Lemma safe_right_lane_change_last_V2 (h : highway_sim_V2.Highway) i :
  highway_sim_V2.safe_right_lane_change h (highway_sim_V2.num_lanes h - 1) i
  = Ok false.
Proof.
  unfold highway_sim_V2.safe_right_lane_change. rewrite Z.eqb_refl. reflexivity.
Qed.

Lemma safe_left_lane_change_lane0_SD (h : sim_client_requests.Highway) i :
  sim_client_requests.safe_left_lane_change h 0 i = Ok false.
Proof. reflexivity. Qed.

Lemma safe_right_lane_change_last_SD (h : sim_client_requests.Highway) i :
  sim_client_requests.safe_right_lane_change
    h (sim_client_requests.num_def_lanes h - 1) i = Ok false.
Proof.
  unfold sim_client_requests.safe_right_lane_change. rewrite Z.eqb_refl.
  reflexivity.
Qed.

(** C6, as stated, fails.  In sim_client_requests (three default lanes and
    one self-driving lane) the rightward check from lane 2 answers false
    although lane 2 is not the highest-index lane and its neighbour, lane 3,
    is entirely empty; and in highway_sim_V2 the rightward check from lane 0
    of an empty road does not answer true at position 105. *)
Lemma boundary_check_counterexample :
  forallb (fun j => negb (occupied (at_ (sim_client_requests.road empty_SD) 3 j)))
          (py_range 0 110) = true /\
  sim_client_requests.safe_right_lane_change empty_SD 2 10 = Ok false /\
  forallb (fun j => negb (occupied (at_ (highway_sim_V2.road empty_V2) 1 j)))
          (py_range 0 110) = true /\
  highway_sim_V2.safe_right_lane_change empty_V2 0 105 <> Ok true.
Proof.
  split; [vm_compute; reflexivity|].
  split; [vm_compute; reflexivity|].
  split; [vm_compute; reflexivity|].
  vm_compute. discriminate.
Qed.

(** C6, amended.  The leftward check from lane 0 answers false without
    reading the road, and so does the rightward check from the lane its guard
    names: lane [num_lanes - 1] in highway_sim_V2, lane [num_def_lanes - 1]
    in sim_client_requests.  From a lane that passes the guard, with a
    neighbour lane on the road that is entirely empty, the check answers true
    at every position [i >= 0] whose windows stay within Python's index
    range: [i + F < length] and [B - i <= length]. *)
Theorem boundary_check_amended :
  (forall (h : highway_sim_V2.Highway) (i : Z),
      highway_sim_V2.safe_left_lane_change h 0 i = Ok false /\
      highway_sim_V2.safe_right_lane_change h (highway_sim_V2.num_lanes h - 1) i
      = Ok false) /\
  (forall (h : sim_client_requests.Highway) (i : Z),
      sim_client_requests.safe_left_lane_change h 0 i = Ok false /\
      sim_client_requests.safe_right_lane_change
        h (sim_client_requests.num_def_lanes h - 1) i = Ok false) /\
  (forall (h : highway_sim_V2.Highway) (lane i : Z),
      wf_HighwayV2 h -> 0 <= i ->
      i + highway_sim_V2.LANE_CHANGE_SAFE_FORWARD < highway_sim_V2.hw_length h ->
      highway_sim_V2.LANE_CHANGE_SAFE_BACK - i <= highway_sim_V2.hw_length h ->
      (0 <= lane -> lane + 1 < highway_sim_V2.num_lanes h ->
       lane_empty (highway_sim_V2.road h) (lane + 1) ->
       highway_sim_V2.safe_right_lane_change h lane i = Ok true) /\
      (0 < lane < highway_sim_V2.num_lanes h ->
       lane_empty (highway_sim_V2.road h) (lane - 1) ->
       highway_sim_V2.safe_left_lane_change h lane i = Ok true)) /\
  (forall (h : sim_client_requests.Highway) (lane i : Z),
      wf_HighwaySD h -> 0 <= i ->
      i + sim_client_requests.LANE_CHANGE_SAFE_FORWARD
        < sim_client_requests.hw_length h ->
      sim_client_requests.LANE_CHANGE_SAFE_BACK - i
        <= sim_client_requests.hw_length h ->
      (0 <= lane ->
       lane + 1 < sim_client_requests.num_def_lanes h
                  + sim_client_requests.num_sd_lanes h ->
       lane <> sim_client_requests.num_def_lanes h - 1 ->
       lane_empty (sim_client_requests.road h) (lane + 1) ->
       sim_client_requests.safe_right_lane_change h lane i = Ok true) /\
      (0 < lane < sim_client_requests.num_def_lanes h
                  + sim_client_requests.num_sd_lanes h ->
       lane_empty (sim_client_requests.road h) (lane - 1) ->
       sim_client_requests.safe_left_lane_change h lane i = Ok true)).
Proof.
  split; [|split; [|split]].
  - intros h i. split.
    + apply safe_left_lane_change_lane0_V2.
    + apply safe_right_lane_change_last_V2.
  - intros h i. split.
    + apply safe_left_lane_change_lane0_SD.
    + apply safe_right_lane_change_last_SD.
  - intros h lane i Hwf Hi Hfwd Hback. split.
    + intros Hl Hn Hempty. unfold highway_sim_V2.safe_right_lane_change.
      destruct (lane =? highway_sim_V2.num_lanes h - 1) eqn:E; [lia|].
      eapply lane_window_check_empty; eauto;
        unfold highway_sim_V2.LANE_CHANGE_SAFE_BACK,
               highway_sim_V2.LANE_CHANGE_SAFE_FORWARD, highway_sim_V2.FAST in *;
        lia.
    + intros Hl Hempty. unfold highway_sim_V2.safe_left_lane_change.
      destruct (lane =? 0) eqn:E; [lia|].
      eapply lane_window_check_empty; eauto;
        unfold highway_sim_V2.LANE_CHANGE_SAFE_BACK,
               highway_sim_V2.LANE_CHANGE_SAFE_FORWARD, highway_sim_V2.FAST in *;
        lia.
  - intros h lane i Hwf Hi Hfwd Hback. split.
    + intros Hl Hn Hguard Hempty.
      unfold sim_client_requests.safe_right_lane_change.
      destruct (lane =? sim_client_requests.num_def_lanes h - 1) eqn:E; [lia|].
      eapply lane_window_check_empty; eauto;
        unfold sim_client_requests.LANE_CHANGE_SAFE_BACK,
               sim_client_requests.LANE_CHANGE_SAFE_FORWARD,
               sim_client_requests.FAST in *;
        lia.
    + intros Hl Hempty. unfold sim_client_requests.safe_left_lane_change.
      destruct (lane =? 0) eqn:E; [lia|].
      eapply lane_window_check_empty; eauto;
        unfold sim_client_requests.LANE_CHANGE_SAFE_BACK,
               sim_client_requests.LANE_CHANGE_SAFE_FORWARD,
               sim_client_requests.FAST in *;
        lia.
Qed.

Lemma lane_empty_empty_road lanes len lane : lane_empty (empty_road lanes len) lane.
Proof. intros j. apply at_empty_road. Qed.

Lemma boundary_check_amended_witness :
  highway_sim_V2.safe_right_lane_change empty_V2 0 1 = Ok true.
Proof.
  refine (proj1 (proj1 (proj2 (proj2 boundary_check_amended)) empty_V2 0 1
                       _ _ _ _) _ _ _).
  - apply (wf_empty_road 4 110); lia.
  - lia.
  - vm_compute. reflexivity.
  - vm_compute. discriminate.
  - lia.
  - vm_compute. reflexivity.
  - apply (lane_empty_empty_road 4 110).
Defined.

(** ** Running the monad *)

Lemma bind_Ok {S A B : Type} (m : M S A) (f : A -> M S B) s a s' :
  m s = Ok (a, s') -> bind m f s = f a s'.
Proof. intros H. unfold bind. rewrite H. reflexivity. Qed.

Lemma bind_Raise {S A B : Type} (m : M S A) (f : A -> M S B) s e :
  m s = Raise e -> bind m f s = Raise e.
Proof. intros H. unfold bind. rewrite H. reflexivity. Qed.

Lemma bind_bind {S A B C : Type} (m : M S A) (f : A -> M S B) (g : B -> M S C) s :
  bind (bind m f) g s = bind m (fun a => bind (f a) g) s.
Proof. unfold bind. destruct (m s) as [[a s']|e]; reflexivity. Qed.

Lemma bind_ret {S A B : Type} (a : A) (f : A -> M S B) s :
  bind (ret a) f s = f a s.
Proof. reflexivity. Qed.

Lemma bind_gets {S A B : Type} (g : S -> A) (f : A -> M S B) s :
  bind (gets g) f s = f (g s) s.
Proof. reflexivity. Qed.

Lemma bind_modify {S B : Type} (g : S -> S) (f : unit -> M S B) s :
  bind (modify g) f s = f tt (g s).
Proof. reflexivity. Qed.

Lemma bind_lift_Ok {S A B : Type} (g : S -> result A) (f : A -> M S B) s a :
  g s = Ok a -> bind (lift g) f s = f a s.
Proof. intros H. unfold bind, lift. rewrite H. reflexivity. Qed.

Lemma for_each_app {S A : Type} (xs ys : list A) (body : A -> M S unit) s :
  for_each (xs ++ ys) body s = bind (for_each xs body) (fun _ => for_each ys body) s.
Proof.
  revert s. induction xs as [|x xs IH]; intros s; simpl.
  - reflexivity.
  - unfold bind in *. destruct (body x s) as [[[] s']|e]; [|reflexivity]. apply IH.
Qed.

(** ** Writing a cell *)

Lemma grid_set_eq road lanes len lane index v :
  wf_grid road lanes len -> 0 <= lane < lanes -> 0 <= index < len ->
  grid_set road lane index v = Ok (grid_put road lane index v).
Proof.
  intros Hwf Hl Hi. unfold grid_set, grid_put.
  destruct (py_getitem_in road lane) as (row & Hrow & ->); [destruct Hwf; lia|].
  simpl. pose proof (wf_grid_row _ _ _ _ _ Hwf Hrow) as Hlen.
  unfold py_setitem. rewrite py_norm_in by lia. simpl.
  destruct Hwf as [Hn Hrows]. rewrite py_norm_in by lia. rewrite Hrow. reflexivity.
Qed.

Lemma grid_put_spec road lanes len lane index v :
  wf_grid road lanes len -> 0 <= lane < lanes -> 0 <= index < len ->
  wf_grid (grid_put road lane index v) lanes len /\
  forall l j, at_ (grid_put road lane index v) l j =
              if (l =? lane) && (j =? index) then v else at_ road l j.
Proof.
  intros Hwf Hl Hi.
  destruct (grid_set_in road lanes len lane index v Hwf Hl Hi) as (road' & Hset & H).
  rewrite (grid_set_eq road lanes len) in Hset by auto.
  inversion Hset; subst road'. exact H.
Qed.

(** ** highway_sim_V2: the primitive steps *)

Section V2_steps.
Import highway_sim_V2.

Lemma V2_frame_objects s o :
  cellV2 (set_objects o s) = cellV2 s /\ lanesV2 (set_objects o s) = lanesV2 s /\
  lenV2 (set_objects o s) = lenV2 s /\ sim_road (set_objects o s) = sim_road s /\
  current_step (set_objects o s) = current_step s /\
  objects (set_objects o s) = o /\ draws (set_objects o s) = draws s /\
  data (set_objects o s) = data s /\ num_cars (set_objects o s) = num_cars s.
Proof. repeat split. Qed.

Lemma V2_frame_put s lane i v :
  lanesV2 (putV2 lane i v s) = lanesV2 s /\ lenV2 (putV2 lane i v s) = lenV2 s /\
  current_step (putV2 lane i v s) = current_step s /\
  objects (putV2 lane i v s) = objects s /\ draws (putV2 lane i v s) = draws s /\
  data (putV2 lane i v s) = data s /\ num_cars (putV2 lane i v s) = num_cars s.
Proof. repeat split. Qed.

Lemma V2_put_spec s lane i v :
  wf_HighwayV2 (sim_road s) -> 0 <= lane < lanesV2 s -> 0 <= i < lenV2 s ->
  wf_HighwayV2 (sim_road (putV2 lane i v s)) /\
  forall l j, cellV2 (putV2 lane i v s) l j =
              if (l =? lane) && (j =? i) then v else cellV2 s l j.
Proof.
  intros Hwf Hl Hi.
  destruct (grid_put_spec _ _ _ lane i v Hwf Hl Hi) as [Hwf' Hat].
  split; [exact Hwf'|exact Hat].
Qed.

Lemma V2_road_get_eq s lane i :
  wf_HighwayV2 (sim_road s) -> 0 <= lane < lanesV2 s -> 0 <= i < lenV2 s ->
  road_get lane i s = Ok (cellV2 s lane i, s).
Proof.
  intros Hwf Hl Hi. unfold road_get, lift, Highway_get.
  rewrite (grid_get_in _ _ _ _ _ Hwf Hl Hi). reflexivity.
Qed.

Lemma V2_road_set_eq s lane i v :
  wf_HighwayV2 (sim_road s) -> 0 <= lane < lanesV2 s -> 0 <= i < lenV2 s ->
  road_set lane i v s = Ok (tt, putV2 lane i v s).
Proof.
  intros Hwf Hl Hi. unfold road_set, Highway_set.
  rewrite (grid_set_eq _ _ _ _ _ v Hwf Hl Hi). reflexivity.
Qed.

Lemma V2_attr_eq {A : Type} s r d (f : Driver -> A) :
  objects s !! r = Some d -> attr (Some r) f s = Ok (f d, s).
Proof. intros H. unfold attr. rewrite H. reflexivity. Qed.

Lemma V2_set_attr_eq s r d upd :
  objects s !! r = Some d ->
  set_attr (Some r) upd s = Ok (tt, set_objects (<[r := upd d]> (objects s)) s).
Proof. intros H. unfold set_attr. rewrite H. reflexivity. Qed.

Lemma V2_set_objects_id s : set_objects (objects s) s = s.
Proof. destruct s; reflexivity. Qed.

Lemma V2_bind_attr {A B : Type} s r d (f : Driver -> A) (k : A -> M Simulation B) :
  objects s !! r = Some d -> bind (attr (Some r) f) k s = k (f d) s.
Proof. intros H. apply bind_Ok. apply V2_attr_eq. exact H. Qed.

Lemma V2_bind_set_attr {B : Type} s r d upd (k : unit -> M Simulation B) :
  objects s !! r = Some d ->
  bind (set_attr (Some r) upd) k s
  = k tt (set_objects (<[r := upd d]> (objects s)) s).
Proof. intros H. apply bind_Ok. apply V2_set_attr_eq. exact H. Qed.

(** [sim_cruise] on a vehicle with a positive speed whose full-speed target
    lies on the road: the clear run [x] is measured, the vehicle is written
    at [cruise_target d x i] and the origin cell is cleared. *)
Lemma V2_sim_cruise_eq s lane i r d :
  wf_HighwayV2 (sim_road s) -> 0 <= lane < lanesV2 s -> 0 <= i ->
  cellV2 s lane i = Some r -> objects s !! r = Some d ->
  1 <= speed d -> 0 <= safe_follow d -> i + speed d < lenV2 s ->
  exists x,
    safe_distance_within (sim_road s) lane i (speed d + safe_follow d) = Ok x /\
    clear_run_post (road (sim_road s)) (lenV2 s) lane i (speed d + safe_follow d) x /\
    i < cruise_target d x i <= i + speed d /\
    sim_cruise lane i s =
      Ok (tt, putV2 lane i EMPTY
                (putV2 lane (cruise_target d x i) (Some r)
                   (set_objects (<[r := cruise_driver d x]> (objects s)) s))).
Proof.
  intros Hwf Hl Hi Hcell Hobj Hspeed Hsf Hroom.
  destruct (distance_within_spec _ _ _ lane i (speed d + safe_follow d) Hwf Hl Hi)
    as (x & Hx & Hpost); [lia|].
  exists x. split; [exact Hx|]. split; [exact Hpost|].
  assert (Htarget : i < cruise_target d x i <= i + speed d).
  { destruct Hpost as [Hb _]. unfold cruise_target.
    destruct (x =? speed d + safe_follow d) eqn:E1; [lia|].
    destruct (safe_follow d <? x) eqn:E2; lia. }
  split; [exact Htarget|].
  unfold sim_cruise.
  rewrite (bind_Ok _ _ _ _ _ (V2_road_get_eq s lane i Hwf Hl ltac:(lia))).
  rewrite Hcell.
  rewrite (bind_Ok _ _ _ _ _ (V2_attr_eq s r d speed Hobj)).
  rewrite (bind_Ok _ _ _ _ _ (V2_attr_eq s r d safe_follow Hobj)).
  rewrite (bind_lift_Ok
             (fun s0 => safe_distance_within (sim_road s0) lane i
                          (speed d + safe_follow d)) _ s x Hx).
  unfold cruise_target, cruise_driver in *.
  destruct (x =? speed d + safe_follow d) eqn:E1.
  - rewrite (list_insert_id _ _ _ Hobj), V2_set_objects_id.
    rewrite (bind_Ok _ _ _ _ _
               (V2_road_set_eq s lane (i + speed d) (Some r) Hwf Hl ltac:(lia))).
    apply V2_road_set_eq; [apply V2_put_spec; auto; lia|exact Hl|].
    change (lenV2 (putV2 lane (i + speed d) (Some r) s)) with (lenV2 s). lia.
  - assert (Hset : set_attr (Some r) (set_desire LANE_CHANGE) s =
                   Ok (tt, set_objects (<[r := set_desire LANE_CHANGE d]> (objects s)) s))
      by (apply V2_set_attr_eq; exact Hobj).
    destruct (safe_follow d <? x) eqn:E2.
    + rewrite bind_bind. rewrite (bind_Ok _ _ _ _ _ Hset).
      rewrite (bind_Ok _ _ _ _ _
                 (V2_road_set_eq (set_objects _ s) lane (i + x - safe_follow d)
                                 (Some r) Hwf Hl ltac:(unfold lenV2 in *; simpl; lia))).
      apply V2_road_set_eq; [apply V2_put_spec; auto; unfold lenV2 in *; simpl; lia|exact Hl|].
      change (lenV2 (putV2 lane (i + x - safe_follow d) (Some r) _)) with (lenV2 s). lia.
    + rewrite bind_bind. rewrite (bind_Ok _ _ _ _ _ Hset).
      rewrite (bind_Ok _ _ _ _ _
                 (V2_road_set_eq (set_objects _ s) lane (i + 1)
                                 (Some r) Hwf Hl ltac:(unfold lenV2 in *; simpl; lia))).
      apply V2_road_set_eq; [apply V2_put_spec; auto; unfold lenV2 in *; simpl; lia|exact Hl|].
      change (lenV2 (putV2 lane (i + 1) (Some r) _)) with (lenV2 s). lia.
Qed.

End V2_steps.

(** ** highway_sim_V2: leaving the highway *)

Section V2_exit.
Import highway_sim_V2.
Variable rand : nat -> Q.

Local Ltac look :=
  simpl; apply list_lookup_insert_eq; rewrite ?length_insert; assumption.

Lemma V2_leave_highway_eq s lane i r d :
  wf_HighwayV2 (sim_road s) -> 0 <= lane < lanesV2 s -> 0 <= i < lenV2 s ->
  objects s !! r = Some d -> current_step s <> arrive_time d ->
  leave_highway lane i (Some r) s = Ok (tt, left_V2 lane i r d s).
Proof.
  intros Hwf Hl Hi Hobj Htime.
  pose proof (lookup_lt_Some _ _ _ Hobj) as Hr.
  unfold leave_highway.
  rewrite (bind_Ok _ _ _ _ _ (V2_road_set_eq s lane i EMPTY Hwf Hl Hi)).
  rewrite bind_gets.
  rewrite (V2_bind_set_attr (putV2 lane i EMPTY s) r d _ _ Hobj).
  erewrite V2_bind_set_attr by look.
  erewrite V2_bind_attr by look.
  erewrite V2_bind_attr by look.
  erewrite V2_bind_set_attr by look.
  erewrite V2_bind_attr by look.
  erewrite V2_bind_attr by look.
  simpl. unfold bind at 1, lift, py_truediv.
  destruct (current_step s - arrive_time d =? 0) eqn:E; [lia|].
  erewrite V2_bind_set_attr by look.
  erewrite V2_bind_attr by look.
  unfold modify, left_V2. simpl. rewrite !list_insert_insert_eq. reflexivity.
Qed.

(** A vehicle stamped with the current tick divides by zero. *)
Lemma V2_leave_highway_same_tick s lane i r d :
  wf_HighwayV2 (sim_road s) -> 0 <= lane < lanesV2 s -> 0 <= i < lenV2 s ->
  objects s !! r = Some d -> current_step s = arrive_time d ->
  leave_highway lane i (Some r) s = Raise ZeroDivisionError.
Proof.
  intros Hwf Hl Hi Hobj Htime.
  pose proof (lookup_lt_Some _ _ _ Hobj) as Hr.
  unfold leave_highway.
  rewrite (bind_Ok _ _ _ _ _ (V2_road_set_eq s lane i EMPTY Hwf Hl Hi)).
  rewrite bind_gets.
  rewrite (V2_bind_set_attr (putV2 lane i EMPTY s) r d _ _ Hobj).
  erewrite V2_bind_set_attr by look.
  erewrite V2_bind_attr by look.
  erewrite V2_bind_attr by look.
  erewrite V2_bind_set_attr by look.
  erewrite V2_bind_attr by look.
  erewrite V2_bind_attr by look.
  simpl. unfold bind at 1, lift, py_truediv.
  destruct (current_step s - arrive_time d =? 0) eqn:E; [reflexivity|lia].
Qed.

(** The exit branch is the whole of [sim_driver] when the test succeeds. *)
Lemma V2_sim_driver_exit s lane i r d :
  wf_HighwayV2 (sim_road s) -> 0 <= lane < lanesV2 s -> 0 <= i < lenV2 s ->
  cellV2 s lane i = Some r -> objects s !! r = Some d ->
  lenV2 s - 1 <= speed d + i ->
  sim_driver rand lane i s = leave_highway lane i (Some r) s.
Proof.
  intros Hwf Hl Hi Hcell Hobj Hexit. unfold sim_driver.
  rewrite (bind_Ok _ _ _ _ _ (V2_road_get_eq s lane i Hwf Hl Hi)). rewrite Hcell.
  rewrite (bind_Ok _ _ _ _ _ (V2_attr_eq s r d speed Hobj)).
  rewrite bind_gets. fold (lenV2 s).
  destruct (lenV2 s - 1 <=? speed d + i) eqn:E; [reflexivity|lia].
Qed.

End V2_exit.

(** ** sim_client_requests: the primitive steps *)

Section SD_steps.
Import sim_client_requests.

Lemma SD_frame_objects s o :
  cellSD (set_objects o s) = cellSD s /\ lanesSD (set_objects o s) = lanesSD s /\
  lenSD (set_objects o s) = lenSD s /\ sim_road (set_objects o s) = sim_road s /\
  current_step (set_objects o s) = current_step s /\
  objects (set_objects o s) = o /\ draws (set_objects o s) = draws s /\
  data (set_objects o s) = data s /\ num_cars (set_objects o s) = num_cars s /\
  crashes (set_objects o s) = crashes s.
Proof. repeat split. Qed.

Lemma SD_frame_put s lane i v :
  lanesSD (putSD lane i v s) = lanesSD s /\ lenSD (putSD lane i v s) = lenSD s /\
  current_step (putSD lane i v s) = current_step s /\
  objects (putSD lane i v s) = objects s /\ draws (putSD lane i v s) = draws s /\
  data (putSD lane i v s) = data s /\ num_cars (putSD lane i v s) = num_cars s /\
  crashes (putSD lane i v s) = crashes s.
Proof. repeat split. Qed.

Lemma SD_put_spec s lane i v :
  wf_HighwaySD (sim_road s) -> 0 <= lane < lanesSD s -> 0 <= i < lenSD s ->
  wf_HighwaySD (sim_road (putSD lane i v s)) /\
  forall l j, cellSD (putSD lane i v s) l j =
              if (l =? lane) && (j =? i) then v else cellSD s l j.
Proof.
  intros Hwf Hl Hi.
  destruct (grid_put_spec _ _ _ lane i v Hwf Hl Hi) as [Hwf' Hat].
  split; [exact Hwf'|exact Hat].
Qed.

Lemma SD_road_get_eq s lane i :
  wf_HighwaySD (sim_road s) -> 0 <= lane < lanesSD s -> 0 <= i < lenSD s ->
  road_get lane i s = Ok (cellSD s lane i, s).
Proof.
  intros Hwf Hl Hi. unfold road_get, lift, Highway_get.
  rewrite (grid_get_in _ _ _ _ _ Hwf Hl Hi). reflexivity.
Qed.

Lemma SD_road_set_eq s lane i v :
  wf_HighwaySD (sim_road s) -> 0 <= lane < lanesSD s -> 0 <= i < lenSD s ->
  road_set lane i v s = Ok (tt, putSD lane i v s).
Proof.
  intros Hwf Hl Hi. unfold road_set, Highway_set.
  rewrite (grid_set_eq _ _ _ _ _ v Hwf Hl Hi). reflexivity.
Qed.

Lemma SD_attr_eq {A : Type} s r d (f : Driver -> A) :
  objects s !! r = Some d -> attr (Some r) f s = Ok (f d, s).
Proof. intros H. unfold attr. rewrite H. reflexivity. Qed.

Lemma SD_set_attr_eq s r d upd :
  objects s !! r = Some d ->
  set_attr (Some r) upd s = Ok (tt, set_objects (<[r := upd d]> (objects s)) s).
Proof. intros H. unfold set_attr. rewrite H. reflexivity. Qed.

Lemma SD_set_objects_id s : set_objects (objects s) s = s.
Proof. destruct s; reflexivity. Qed.

Lemma SD_bind_attr {A B : Type} s r d (f : Driver -> A) (k : A -> M Simulation B) :
  objects s !! r = Some d -> bind (attr (Some r) f) k s = k (f d) s.
Proof. intros H. apply bind_Ok. apply SD_attr_eq. exact H. Qed.

Lemma SD_bind_set_attr {B : Type} s r d upd (k : unit -> M Simulation B) :
  objects s !! r = Some d ->
  bind (set_attr (Some r) upd) k s
  = k tt (set_objects (<[r := upd d]> (objects s)) s).
Proof. intros H. apply bind_Ok. apply SD_set_attr_eq. exact H. Qed.

End SD_steps.

(** ** sim_client_requests: leaving the highway *)

Section SD_exit.
Import sim_client_requests.
Variable rand : nat -> Q.

Local Ltac look :=
  simpl; apply list_lookup_insert_eq; rewrite ?length_insert; assumption.

Lemma SD_leave_highway_eq s lane i r d :
  wf_HighwaySD (sim_road s) -> 0 <= lane < lanesSD s -> 0 <= i < lenSD s ->
  objects s !! r = Some d -> current_step s <> arrive_time d ->
  leave_highway lane i (Some r) s = Ok (tt, left_SD lane i r d s).
Proof.
  intros Hwf Hl Hi Hobj Htime.
  pose proof (lookup_lt_Some _ _ _ Hobj) as Hr.
  unfold leave_highway.
  rewrite (bind_Ok _ _ _ _ _ (SD_road_set_eq s lane i EMPTY Hwf Hl Hi)).
  rewrite bind_gets.
  rewrite (SD_bind_set_attr (putSD lane i EMPTY s) r d _ _ Hobj).
  erewrite SD_bind_set_attr by look.
  erewrite SD_bind_attr by look.
  erewrite SD_bind_attr by look.
  erewrite SD_bind_set_attr by look.
  erewrite SD_bind_attr by look.
  erewrite SD_bind_attr by look.
  simpl. unfold bind at 1, lift, py_truediv.
  destruct (current_step s - arrive_time d =? 0) eqn:E; [lia|].
  erewrite SD_bind_set_attr by look.
  erewrite SD_bind_attr by look.
  unfold modify, left_SD. simpl. rewrite !list_insert_insert_eq. reflexivity.
Qed.

(** A vehicle stamped with the current tick divides by zero. *)
Lemma SD_leave_highway_same_tick s lane i r d :
  wf_HighwaySD (sim_road s) -> 0 <= lane < lanesSD s -> 0 <= i < lenSD s ->
  objects s !! r = Some d -> current_step s = arrive_time d ->
  leave_highway lane i (Some r) s = Raise ZeroDivisionError.
Proof.
  intros Hwf Hl Hi Hobj Htime.
  pose proof (lookup_lt_Some _ _ _ Hobj) as Hr.
  unfold leave_highway.
  rewrite (bind_Ok _ _ _ _ _ (SD_road_set_eq s lane i EMPTY Hwf Hl Hi)).
  rewrite bind_gets.
  rewrite (SD_bind_set_attr (putSD lane i EMPTY s) r d _ _ Hobj).
  erewrite SD_bind_set_attr by look.
  erewrite SD_bind_attr by look.
  erewrite SD_bind_attr by look.
  erewrite SD_bind_set_attr by look.
  erewrite SD_bind_attr by look.
  erewrite SD_bind_attr by look.
  simpl. unfold bind at 1, lift, py_truediv.
  destruct (current_step s - arrive_time d =? 0) eqn:E; [reflexivity|lia].
Qed.

(** The exit branch is the whole of [sim_driver] when the test succeeds. *)
Lemma SD_sim_driver_exit s lane i r d :
  wf_HighwaySD (sim_road s) -> 0 <= lane < lanesSD s -> 0 <= i < lenSD s ->
  cellSD s lane i = Some r -> objects s !! r = Some d ->
  lenSD s - 1 <= speed d + i ->
  sim_driver rand lane i s = leave_highway lane i (Some r) s.
Proof.
  intros Hwf Hl Hi Hcell Hobj Hexit. unfold sim_driver.
  rewrite (bind_Ok _ _ _ _ _ (SD_road_get_eq s lane i Hwf Hl Hi)). rewrite Hcell.
  rewrite (bind_Ok _ _ _ _ _ (SD_attr_eq s r d speed Hobj)).
  rewrite bind_gets. fold (lenSD s).
  destruct (lenSD s - 1 <=? speed d + i) eqn:E; [reflexivity|lia].
Qed.

End SD_exit.

(** ** Exit check *)



(** ** The interleaved incident roll of sim_client_requests *)

(** C3. [sim_cruise] of sim_client_requests on the states the claim speaks
    of.  A sober fast driver at position 0 of an empty lane has full
    clearance ([x = k = 9]); with a roll that misses, the vehicle ends in
    cells 1 and 5 of the lane and its desire is Lane Change, where the claim
    has it in cell 5 only with its desire unchanged.  A drunk driver two
    empty cells behind another vehicle ([x = 2 <= safe_follow]) ends in no
    cell at all, where the claim has it in cell 1. *)
Theorem cruise_step_with_roll :
  sim_client_requests.safe_distance_within
    (sim_client_requests.sim_road (one_car_SD false)) 0 0 (5 + 4) = Ok 9 /\
  observeSD (sim_client_requests.sim_cruise (stream [1 # 2]%Q) 0 0 (one_car_SD false))
  = Some ([(0, 1, O); (0, 5, O)], [LANE_CHANGE], [], O, 1%nat) /\
  sim_client_requests.safe_distance_within
    (sim_client_requests.sim_road (two_cars_SD true)) 0 0 (5 + 4) = Ok 2 /\
  observeSD (sim_client_requests.sim_cruise (stream [1 # 2]%Q) 0 0 (two_cars_SD true))
  = Some ([(0, 3, 1%nat)], [CRUISE; CRUISE], [], O, 1%nat).
Proof. repeat split; vm_compute; reflexivity. Qed.

(** C2. The same [sim_cruise] step of sim_client_requests under a roll that
    hits (1/2000 < CRASH_PROB) and under one that misses (1/2).  With full
    clearance the hit leaves the vehicle in cell 5 with desire Cruise, the
    miss leaves it in cells 1 and 5 with desire Lane Change; behind another
    vehicle the hit removes the vehicle from the grid, the miss moves it to
    cell 1.  Grid and desire depend on the incident roll. *)
Theorem incident_roll_changes_the_move :
  observeSD (sim_client_requests.sim_cruise (stream [1 # 2000]%Q) 0 0 (one_car_SD false))
  = Some ([(0, 5, O)], [CRUISE], [5], O, 1%nat) /\
  observeSD (sim_client_requests.sim_cruise (stream [1 # 2]%Q) 0 0 (one_car_SD false))
  = Some ([(0, 1, O); (0, 5, O)], [LANE_CHANGE], [], O, 1%nat) /\
  observeSD (sim_client_requests.sim_cruise (stream [1 # 2000]%Q) 0 0 (two_cars_SD false))
  = Some ([(0, 3, 1%nat)], [CRUISE; CRUISE], [5], O, 1%nat) /\
  observeSD (sim_client_requests.sim_cruise (stream [1 # 2]%Q) 0 0 (two_cars_SD false))
  = Some ([(0, 1, O); (0, 3, 1%nat)], [LANE_CHANGE; CRUISE], [], O, 1%nat).
Proof. repeat split; vm_compute; reflexivity. Qed.

(** C1. Three ticks of sim_client_requests from the initial state, with
    arrival probabilities 1/10.  After the first tick vehicle 0 stands in
    cell (0, 0).  After the second it is referenced by cells (0, 1) and
    (0, 4), and vehicle 1 has arrived.  After the third it is referenced by
    four cells in two lanes, and vehicle 1 is in no cell although no exit
    record was written. *)
Theorem occupancy_broken_by_roll :
  observeSD (run_n_SD three_ticks (1 # 10) (1 # 10) 1
                      (sim_client_requests.new_Simulation 3))
  = Some ([(0, 0, O)], [CRUISE], [], O, 6%nat) /\
  observeSD (run_n_SD three_ticks (1 # 10) (1 # 10) 2
                      (sim_client_requests.new_Simulation 3))
  = Some ([(0, 0, 1%nat); (0, 1, O); (0, 4, O)], [LANE_CHANGE; CRUISE], [], O,
          14%nat) /\
  observeSD (run_n_SD three_ticks (1 # 10) (1 # 10) 3
                      (sim_client_requests.new_Simulation 3))
  = Some ([(0, 2, O); (0, 5, O); (1, 5, O); (1, 8, O)], [LANE_CHANGE; CRUISE], [],
          O, 26%nat).
Proof. repeat split; vm_compute; reflexivity. Qed.

(** ** Arrivals *)






(** ** Rules for [twp] *)

Lemma twp_bind {S A B : Type} (m : M S A) (f : A -> M S B) (Q : B -> S -> Prop) s :
  twp m (fun a s' => twp (f a) Q s') s -> twp (bind m f) Q s.
Proof.
  intros (a & s' & Hm & b & s'' & Hf & HQ). exists b, s''. split; [|exact HQ].
  rewrite (bind_Ok _ _ _ _ _ Hm). exact Hf.
Qed.

Lemma twp_ret {S A : Type} (a : A) (Q : A -> S -> Prop) s :
  Q a s -> twp (ret a) Q s.
Proof. intros HQ. exists a, s. split; [reflexivity|exact HQ]. Qed.

Lemma twp_gets {S A : Type} (g : S -> A) (Q : A -> S -> Prop) s :
  Q (g s) s -> twp (gets g) Q s.
Proof. intros HQ. exists (g s), s. split; [reflexivity|exact HQ]. Qed.

Lemma twp_modify {S : Type} (g : S -> S) (Q : unit -> S -> Prop) s :
  Q tt (g s) -> twp (modify g) Q s.
Proof. intros HQ. exists tt, (g s). split; [reflexivity|exact HQ]. Qed.

Lemma twp_mono {S A : Type} (m : M S A) (Q Q' : A -> S -> Prop) s :
  twp m Q s -> (forall a s', Q a s' -> Q' a s') -> twp m Q' s.
Proof. intros (a & s' & Hm & HQ) H. exists a, s'. split; [exact Hm|auto]. Qed.

Lemma lift_Ok {S A : Type} (g : S -> result A) s a :
  g s = Ok a -> lift g s = Ok (a, s).
Proof. intros H. unfold lift. rewrite H. reflexivity. Qed.

Lemma twp_eq {S A : Type} (m : M S A) (Q : A -> S -> Prop) s a s' :
  m s = Ok (a, s') -> Q a s' -> twp m Q s.
Proof. intros Hm HQ. exists a, s'. split; assumption. Qed.

Lemma twp_bind_Ok {S A B : Type} (m : M S A) (f : A -> M S B)
      (Q : B -> S -> Prop) s a s' :
  m s = Ok (a, s') -> twp (f a) Q s' -> twp (bind m f) Q s.
Proof.
  intros Hm (b & s'' & Hf & HQ). exists b, s''. split; [|exact HQ].
  rewrite (bind_Ok _ _ _ _ _ Hm). exact Hf.
Qed.

(** Loops over an ascending and over a descending range, with an invariant
    indexed by the next value of the loop variable. *)
Lemma twp_for_up {St : Type} (body : Z -> M St unit) (I : Z -> St -> Prop) n :
  forall a s,
    (forall k s', a <= k < a + Z.of_nat n -> I k s' ->
                  twp (body k) (fun _ s'' => I (k + 1) s'') s') ->
    I a s ->
    twp (for_each (range_up a n) body) (fun _ s' => I (a + Z.of_nat n) s') s.
Proof.
  induction n as [|n IH]; intros a s Hbody HI.
  - simpl. apply twp_ret. replace (a + Z.of_nat 0) with a by lia. exact HI.
  - simpl. apply twp_bind.
    eapply twp_mono; [apply (Hbody a); [lia|exact HI]|].
    intros u s' HI'. cbv beta in *.
    replace (a + Z.of_nat (S n)) with ((a + 1) + Z.of_nat n) by lia.
    apply IH; [|exact HI'].
    intros k s'' Hk. apply Hbody. lia.
Qed.

Lemma twp_for_down {St : Type} (body : Z -> M St unit) (I : Z -> St -> Prop) n :
  forall a s,
    (forall k s', a - Z.of_nat n < k <= a -> I k s' ->
                  twp (body k) (fun _ s'' => I (k - 1) s'') s') ->
    I a s ->
    twp (for_each (range_down a n) body) (fun _ s' => I (a - Z.of_nat n) s') s.
Proof.
  induction n as [|n IH]; intros a s Hbody HI.
  - simpl. apply twp_ret. replace (a - Z.of_nat 0) with a by lia. exact HI.
  - simpl. apply twp_bind.
    eapply twp_mono; [apply (Hbody a); [lia|exact HI]|].
    intros u s' HI'. cbv beta in *.
    replace (a - Z.of_nat (S n)) with ((a - 1) - Z.of_nat n) by lia.
    apply IH; [|exact HI'].
    intros k s'' Hk. apply Hbody. lia.
Qed.

Lemma twp_fold_up {St B : Type} (body : Z -> B -> M St B) (I : Z -> B -> St -> Prop) n :
  forall a acc s,
    (forall k acc' s', a <= k < a + Z.of_nat n -> I k acc' s' ->
                       twp (body k acc') (fun acc'' s'' => I (k + 1) acc'' s'') s') ->
    I a acc s ->
    twp (for_fold (range_up a n) acc body)
        (fun acc' s' => I (a + Z.of_nat n) acc' s') s.
Proof.
  induction n as [|n IH]; intros a acc s Hbody HI.
  - simpl. apply twp_ret. replace (a + Z.of_nat 0) with a by lia. exact HI.
  - simpl. apply twp_bind.
    eapply twp_mono; [apply (Hbody a); [lia|exact HI]|].
    intros acc' s' HI'. cbv beta.
    replace (a + Z.of_nat (S n)) with ((a + 1) + Z.of_nat n) by lia.
    apply IH; [|exact HI'].
    intros k acc'' s'' Hk. apply Hbody. lia.
Qed.

(** ** highway_sim_V2: one call of [sim_driver] *)

Lemma all_clear_ahead road len lane i forward j :
  all_clear road len lane (py_range (i + 1) (i + forward + 1)) = true ->
  0 <= i -> i < j <= i + forward -> at_ road lane j = EMPTY.
Proof.
  intros Hclear Hi Hj. unfold all_clear in Hclear.
  rewrite forallb_forall in Hclear.
  assert (Hin : In j (py_range (i + 1) (i + forward + 1))).
  { unfold py_range. apply elem_range_up. lia. }
  specialize (Hclear j Hin). unfold at_py in Hclear.
  destruct (j <? 0) eqn:E; [lia|].
  destruct (at_ road lane j); [discriminate|reflexivity].
Qed.

Section V2_driver.
Import highway_sim_V2.
Variable rand : nat -> Q.

Lemma V2_lane_check_spec s target i :
  wf_HighwayV2 (sim_road s) -> 0 <= target < lanesV2 s ->
  0 <= i -> i + 5 < lenV2 s -> 5 - i <= lenV2 s ->
  exists b,
    lane_window_check (road (sim_road s)) LANE_CHANGE_SAFE_BACK
                      LANE_CHANGE_SAFE_FORWARD target i = Ok b /\
    (b = true -> cellV2 s target i = EMPTY /\ cellV2 s target (i + 1) = EMPTY).
Proof.
  intros Hwf Hl Hi Hfwd Hback.
  rewrite (lane_window_check_in _ _ _ _ _ target i Hwf Hl)
    by (unfold LANE_CHANGE_SAFE_BACK, LANE_CHANGE_SAFE_FORWARD, FAST; fold (lenV2 s); lia).
  eexists. split; [reflexivity|]. intros Hb.
  apply andb_prop in Hb as [Hb Hahead]. apply andb_prop in Hb as [Hhere _].
  split.
  - unfold cellV2. destruct (at_ (road (sim_road s)) target i); [discriminate|reflexivity].
  - unfold cellV2. eapply all_clear_ahead; [exact Hahead|exact Hi|].
    unfold LANE_CHANGE_SAFE_FORWARD, FAST. lia.
Qed.

Lemma V2_safe_right_spec s lane i :
  wf_HighwayV2 (sim_road s) -> 0 <= lane < lanesV2 s ->
  0 <= i -> i + 5 < lenV2 s -> 5 - i <= lenV2 s ->
  exists b,
    safe_right_lane_change (sim_road s) lane i = Ok b /\
    (b = true -> lane + 1 < lanesV2 s /\
                 cellV2 s (lane + 1) i = EMPTY /\ cellV2 s (lane + 1) (i + 1) = EMPTY).
Proof.
  intros Hwf Hl Hi Hfwd Hback. unfold safe_right_lane_change.
  fold (lanesV2 s). destruct (lane =? lanesV2 s - 1) eqn:E.
  - exists false. split; [reflexivity|discriminate].
  - destruct (V2_lane_check_spec s (lane + 1) i Hwf) as (b & Hb & Hpost); try lia.
    exists b. split; [exact Hb|]. intros Ht. split; [lia|auto].
Qed.

Lemma V2_safe_left_spec s lane i :
  wf_HighwayV2 (sim_road s) -> 0 <= lane < lanesV2 s ->
  0 <= i -> i + 5 < lenV2 s -> 5 - i <= lenV2 s ->
  exists b,
    safe_left_lane_change (sim_road s) lane i = Ok b /\
    (b = true -> 0 < lane /\
                 cellV2 s (lane - 1) i = EMPTY /\ cellV2 s (lane - 1) (i + 1) = EMPTY).
Proof.
  intros Hwf Hl Hi Hfwd Hback. unfold safe_left_lane_change.
  destruct (lane =? 0) eqn:E.
  - exists false. split; [reflexivity|discriminate].
  - destruct (V2_lane_check_spec s (lane - 1) i Hwf) as (b & Hb & Hpost); try lia.
    exists b. split; [exact Hb|]. intros Ht. split; [lia|auto].
Qed.

Lemma V2_set_desire_same d : set_desire (desire d) d = d.
Proof. destruct d; reflexivity. Qed.

(** The decision step only rewrites the desire of the vehicle, and chooses
    a side only after the check of that side has answered true. *)
Lemma V2_pick_direction_spec s lane i r d q :
  wf_HighwayV2 (sim_road s) -> 0 <= lane < lanesV2 s ->
  0 <= i -> i + 5 < lenV2 s -> 5 - i <= lenV2 s ->
  objects s !! r = Some d ->
  exists dz,
    pick_direction lane i (Some r) q s
    = Ok (tt, set_objects (<[r := set_desire dz d]> (objects s)) s) /\
    (dz = desire d \/
     (dz = LANE_CHANGE_LEFT /\ 0 < lane /\
      cellV2 s (lane - 1) i = EMPTY /\ cellV2 s (lane - 1) (i + 1) = EMPTY) \/
     (dz = LANE_CHANGE_RIGHT /\ lane + 1 < lanesV2 s /\
      cellV2 s (lane + 1) i = EMPTY /\ cellV2 s (lane + 1) (i + 1) = EMPTY)).
Proof.
  intros Hwf Hl Hi Hfwd Hback Hobj.
  destruct (V2_safe_left_spec s lane i Hwf Hl Hi Hfwd Hback) as (bl & Hbl & Hleft).
  destruct (V2_safe_right_spec s lane i Hwf Hl Hi Hfwd Hback) as (br & Hbr & Hright).
  assert (Hstay : (ret tt : M Simulation unit) s
                  = Ok (tt, set_objects (<[r := set_desire (desire d) d]> (objects s)) s)).
  { rewrite V2_set_desire_same, (list_insert_id _ _ _ Hobj), V2_set_objects_id.
    reflexivity. }
  unfold pick_direction. rewrite (V2_bind_attr s r d desire _ Hobj).
  destruct (Desire_eqb (desire d) LANE_CHANGE
            && Qle_bool q LEFT_LANE_CHANGE_PROBABILITY).
  - rewrite (bind_lift_Ok (fun s0 => safe_left_lane_change (sim_road s0) lane i)
                          _ s bl Hbl).
    destruct bl.
    + exists LANE_CHANGE_LEFT. split; [apply V2_set_attr_eq; exact Hobj|].
      right. left. split; [reflexivity|auto].
    + rewrite (bind_lift_Ok (fun s0 => safe_right_lane_change (sim_road s0) lane i)
                            _ s br Hbr).
      destruct br.
      * exists LANE_CHANGE_RIGHT. split; [apply V2_set_attr_eq; exact Hobj|].
        right. right. split; [reflexivity|auto].
      * exists (desire d). split; [exact Hstay|]. left. reflexivity.
  - destruct (Desire_eqb (desire d) LANE_CHANGE
              && negb (Qle_bool q LEFT_LANE_CHANGE_PROBABILITY)).
    + rewrite (bind_lift_Ok (fun s0 => safe_right_lane_change (sim_road s0) lane i)
                            _ s br Hbr).
      destruct br.
      * exists LANE_CHANGE_RIGHT. split; [apply V2_set_attr_eq; exact Hobj|].
        right. right. split; [reflexivity|auto].
      * rewrite (bind_lift_Ok (fun s0 => safe_left_lane_change (sim_road s0) lane i)
                              _ s bl Hbl).
        destruct bl.
        -- exists LANE_CHANGE_LEFT. split; [apply V2_set_attr_eq; exact Hobj|].
           right. left. split; [reflexivity|auto].
        -- exists (desire d). split; [exact Hstay|]. left. reflexivity.
    + exists (desire d). split; [exact Hstay|]. left. reflexivity.
Qed.

End V2_driver.

Section V2_driver_step.
Import highway_sim_V2.
Variable rand : nat -> Q.

(** [sim_cruise] in terms of cells: the vehicle lands on a cell of its lane
    that was empty, between 1 and [speed] cells ahead. *)
Lemma V2_cruise_step s lane i r d :
  wf_HighwayV2 (sim_road s) -> 0 <= lane < lanesV2 s -> 0 <= i ->
  cellV2 s lane i = Some r -> objects s !! r = Some d ->
  1 <= speed d -> 0 <= safe_follow d -> i + speed d < lenV2 s ->
  cellV2 s lane (i + 1) = EMPTY ->
  exists s' j dfin,
    sim_cruise lane i s = Ok (tt, s') /\
    wf_HighwayV2 (sim_road s') /\
    lanesV2 s' = lanesV2 s /\ lenV2 s' = lenV2 s /\
    current_step s' = current_step s /\ num_cars s' = num_cars s /\
    objects s' = <[r := dfin]> (objects s) /\
    (dfin = d \/ dfin = set_desire LANE_CHANGE d) /\
    i < j <= i + speed d /\
    cellV2 s lane j = EMPTY /\
    forall l c, cellV2 s' l c =
                if (l =? lane) && (c =? j) then Some r
                else if (l =? lane) && (c =? i) then EMPTY
                     else cellV2 s l c.
Proof.
  intros Hwf Hl Hi Hcell Hobj Hspeed Hsf Hroom Hfront.
  destruct (V2_sim_cruise_eq s lane i r d Hwf Hl Hi Hcell Hobj Hspeed Hsf Hroom)
    as (x & Hx & Hpost & Htarget & Heq).
  set (j := cruise_target d x i) in *.
  set (s1 := set_objects (<[r := cruise_driver d x]> (objects s)) s) in *.
  assert (Hwf1 : wf_HighwayV2 (sim_road s1)) by exact Hwf.
  assert (Hl1 : 0 <= lane < lanesV2 s1) by exact Hl.
  assert (Hj1 : 0 <= j < lenV2 s1) by (change (lenV2 s1) with (lenV2 s); lia).
  destruct (V2_put_spec s1 lane j (Some r) Hwf1 Hl1 Hj1) as [Hwf2 Hcells2].
  set (s2 := putV2 lane j (Some r) s1) in *.
  assert (Hl2 : 0 <= lane < lanesV2 s2) by exact Hl.
  assert (Hi2 : 0 <= i < lenV2 s2) by (change (lenV2 s2) with (lenV2 s); lia).
  destruct (V2_put_spec s2 lane i EMPTY Hwf2 Hl2 Hi2) as [Hwf3 Hcells3].
  exists (putV2 lane i EMPTY s2), j, (cruise_driver d x).
  split; [exact Heq|]. split; [exact Hwf3|].
  repeat (split; [reflexivity|]).
  split.
  { unfold cruise_driver. destruct (x =? speed d + safe_follow d); auto. }
  split; [exact Htarget|]. split.
  - destruct Hpost as (Hb & _ & _ & Hrun).
    subst j. unfold cruise_target in *.
    destruct (x =? speed d + safe_follow d) eqn:E1.
    + apply Hrun; fold (lenV2 s); lia.
    + destruct (safe_follow d <? x) eqn:E2.
      * apply Hrun; fold (lenV2 s); lia.
      * exact Hfront.
  - intros l c. rewrite Hcells3, Hcells2.
    change (cellV2 s1 l c) with (cellV2 s l c).
    destruct (l =? lane) eqn:El; simpl; [|reflexivity].
    destruct (c =? i) eqn:Ei, (c =? j) eqn:Ej; try reflexivity. lia.
Qed.

Lemma V2_exit_stamp_fields now d :
  speed (exit_stamp now d) = speed d /\
  safe_follow (exit_stamp now d) = safe_follow d /\
  arrive_time (exit_stamp now d) = arrive_time d /\
  desire (exit_stamp now d) = desire d.
Proof. repeat split. Qed.

End V2_driver_step.

Section V2_driver_core.
Import highway_sim_V2.
Variable rand : nat -> Q.

(** The lane-change branch of [sim_driver]: move to lane [t] at the same
    position, clear the origin, reset the desire, cruise in lane [t]. *)
Lemma V2_change_lane_step s t lane i r d :
  wf_HighwayV2 (sim_road s) -> 0 <= lane < lanesV2 s -> 0 <= t < lanesV2 s ->
  t <> lane -> 0 <= i ->
  cellV2 s lane i = Some r -> objects s !! r = Some d ->
  1 <= speed d -> 0 <= safe_follow d -> i + speed d < lenV2 s ->
  cellV2 s t i = EMPTY -> cellV2 s t (i + 1) = EMPTY ->
  exists s' j dfin,
    (road_set t i (Some r) ;;; road_set lane i EMPTY ;;;
     set_attr (Some r) (set_desire CRUISE) ;;; sim_cruise t i) s = Ok (tt, s') /\
    wf_HighwayV2 (sim_road s') /\
    lanesV2 s' = lanesV2 s /\ lenV2 s' = lenV2 s /\
    current_step s' = current_step s /\ num_cars s' = num_cars s /\
    objects s' = <[r := dfin]> (objects s) /\
    (dfin = set_desire CRUISE d \/ dfin = set_desire LANE_CHANGE d) /\
    i < j <= i + speed d /\
    cellV2 s t j = EMPTY /\
    forall l c, cellV2 s' l c =
                if (l =? t) && (c =? j) then Some r
                else if (l =? lane) && (c =? i) then EMPTY
                     else cellV2 s l c.
Proof.
  intros Hwf Hl Ht Hne Hi Hcell Hobj Hspeed Hsf Hroom Hfree Hfront.
  assert (Hi' : 0 <= i < lenV2 s) by lia.
  destruct (V2_put_spec s t i (Some r) Hwf Ht Hi') as [Hwf1 Hcells1].
  set (s1 := putV2 t i (Some r) s) in *.
  assert (Hl1 : 0 <= lane < lanesV2 s1) by exact Hl.
  assert (Hi1 : 0 <= i < lenV2 s1) by exact Hi'.
  destruct (V2_put_spec s1 lane i EMPTY Hwf1 Hl1 Hi1) as [Hwf2 Hcells2].
  set (s2 := putV2 lane i EMPTY s1) in *.
  set (s3 := set_objects (<[r := set_desire CRUISE d]> (objects s2)) s2).
  assert (Hcells3 : forall l c, cellV2 s3 l c =
                                if (l =? lane) && (c =? i) then EMPTY
                                else if (l =? t) && (c =? i) then Some r
                                     else cellV2 s l c).
  { intros l c. change (cellV2 s3 l c) with (cellV2 s2 l c).
    rewrite Hcells2, Hcells1. reflexivity. }
  assert (Hobj3 : objects s3 !! r = Some (set_desire CRUISE d)).
  { apply list_lookup_insert_eq. apply (lookup_lt_Some _ _ _ Hobj). }
  destruct (V2_cruise_step s3 t i r (set_desire CRUISE d)) as
      (s' & j & dfin & Heq & Hwf' & Hlanes & Hlen & Hnow & Hcars & Hobjs & Hdfin
       & Hj & Hjfree & Hcells'); auto.
  { rewrite Hcells3. destruct (t =? lane) eqn:E; [lia|]. simpl.
    rewrite Z.eqb_refl, Z.eqb_refl. reflexivity. }
  { rewrite Hcells3. destruct (t =? lane) eqn:E; [lia|]. simpl.
    destruct (i + 1 =? i) eqn:E'; [lia|]. rewrite andb_false_r. exact Hfront. }
  exists s', j, dfin. split.
  { rewrite (bind_Ok _ _ _ _ _ (V2_road_set_eq s t i (Some r) Hwf Ht Hi')).
    rewrite (bind_Ok _ _ _ _ _ (V2_road_set_eq s1 lane i EMPTY Hwf1 Hl1 Hi1)).
    rewrite (V2_bind_set_attr s2 r d _ _ Hobj). exact Heq. }
  split; [exact Hwf'|].
  split; [exact Hlanes|]. split; [exact Hlen|]. split; [exact Hnow|].
  split; [exact Hcars|]. split.
  { rewrite Hobjs. unfold s3. simpl. apply list_insert_insert_eq. }
  split.
  { destruct Hdfin as [->| ->]; [left|right]; reflexivity. }
  split; [exact Hj|]. split.
  { rewrite Hcells3 in Hjfree. destruct (t =? lane) eqn:E; [lia|]. simpl in Hjfree.
    destruct (j =? i) eqn:E'; [lia|]. rewrite andb_false_r in Hjfree. exact Hjfree. }
  intros l c. rewrite Hcells', Hcells3.
  destruct (l =? t) eqn:Elt, (l =? lane) eqn:Ell, (c =? j) eqn:Ecj, (c =? i) eqn:Eci;
    simpl; try reflexivity; try lia.
  assert (l = t) by lia. assert (c = i) by lia. subst l c. symmetry. exact Hfree.
Qed.

End V2_driver_core.

Section V2_driver_spec.
Import highway_sim_V2.
Variable rand : nat -> Q.

Lemma V2_good_speed now d :
  good_driver_V2 now d -> 4 <= speed d <= 5 /\ 0 <= safe_follow d.
Proof.
  intros ([H|H] & [H'|H'] & _); rewrite H, H';
    unfold SLOW, FAST, SDC_SAFE_FOLLOW, HUMAN_SAFE_FOLLOW; lia.
Qed.

Lemma V2_sim_driver_core s lane i r d :
  wf_HighwayV2 (sim_road s) -> 0 <= lane < lanesV2 s -> 0 <= i < lenV2 s ->
  5 <= lenV2 s ->
  cellV2 s lane i = Some r -> objects s !! r = Some d ->
  good_driver_V2 (current_step s) d -> resting_V2 d ->
  cellV2 s lane (i + 1) = EMPTY ->
  exists s' dfin,
    sim_driver rand lane i s = Ok (tt, s') /\
    wf_HighwayV2 (sim_road s') /\
    lanesV2 s' = lanesV2 s /\ lenV2 s' = lenV2 s /\
    current_step s' = current_step s /\ num_cars s' = num_cars s /\
    objects s' = <[r := dfin]> (objects s) /\
    speed dfin = speed d /\ safe_follow dfin = safe_follow d /\
    arrive_time dfin = arrive_time d /\ resting_V2 dfin /\
    ((lenV2 s - 1 <= speed d + i /\
      s' = left_V2 lane i r d s /\
      forall l j, cellV2 s' l j =
                  if (l =? lane) && (j =? i) then EMPTY else cellV2 s l j) \/
     (speed d + i < lenV2 s - 1 /\
      exists l' j',
         (l' = lane \/ ((l' = lane + 1 \/ l' = lane - 1) /\ cellV2 s l' i = EMPTY)) /\
         0 <= l' < lanesV2 s /\ i < j' < lenV2 s /\ j' <= i + speed d /\
         cellV2 s l' j' = EMPTY /\
         forall l j, cellV2 s' l j =
                     if (l =? l') && (j =? j') then Some r
                     else if (l =? lane) && (j =? i) then EMPTY
                          else cellV2 s l j)).
Proof.
  intros Hwf Hl Hi Hlen5 Hcell Hobj Hgood Hrest Hfront.
  pose proof (V2_good_speed _ _ Hgood) as [Hspeed Hsf].
  destruct (Z_le_dec (lenV2 s - 1) (speed d + i)) as [Hexit|Hstay].
  - (* the vehicle leaves the highway *)
    exists (left_V2 lane i r d s), (exit_stamp (current_step s) d).
    split.
    { rewrite (V2_sim_driver_exit rand s lane i r d) by auto.
      apply V2_leave_highway_eq; auto. destruct Hgood as (_ & _ & Ht). lia. }
    destruct (V2_put_spec s lane i EMPTY Hwf Hl Hi) as [Hwf' Hcells'].
    split; [exact Hwf'|]. repeat (split; [reflexivity|]).
    split; [exact Hrest|]. left.
    split; [exact Hexit|]. split; [reflexivity|exact Hcells'].
  - (* the vehicle stays on the road *)
    set (s1 := set_draws (S (draws s)) s).
    destruct (V2_pick_direction_spec s1 lane i r d (rand (draws s)))
      as (dz & Hpick & Hdz); auto; try (change (lenV2 s1) with (lenV2 s); lia).
    set (d2 := set_desire dz d) in *.
    set (s2 := set_objects (<[r := d2]> (objects s1)) s1) in *.
    assert (Hobj2 : objects s2 !! r = Some d2).
    { apply list_lookup_insert_eq. apply (lookup_lt_Some _ _ _ Hobj). }
    assert (Hrun : sim_driver rand lane i s = act_on_desire lane i (Some r) s2).
    { unfold sim_driver.
      rewrite (bind_Ok _ _ _ _ _ (V2_road_get_eq s lane i Hwf Hl Hi)). rewrite Hcell.
      rewrite (bind_Ok _ _ _ _ _ (V2_attr_eq s r d speed Hobj)).
      rewrite bind_gets. fold (lenV2 s).
      destruct (lenV2 s - 1 <=? speed d + i) eqn:E; [lia|].
      rewrite (bind_Ok (random_random rand) _ s (rand (draws s)) s1 eq_refl).
      rewrite (bind_Ok _ _ _ _ _ Hpick). reflexivity. }
    rewrite Hrun. unfold act_on_desire.
    rewrite (V2_bind_attr s2 r d2 desire _ Hobj2).
    change (desire d2) with dz.
    assert (Hins : forall x, <[r := x]> (objects s2) = <[r := x]> (objects s)).
    { intros x. unfold s2. simpl. apply list_insert_insert_eq. }
    assert (Hspeed2 : 1 <= speed d2) by (change (speed d2) with (speed d); lia).
    assert (Hsf2 : 0 <= safe_follow d2) by exact Hsf.
    assert (Hroom2 : i + speed d2 < lenV2 s2)
      by (change (speed d2) with (speed d); change (lenV2 s2) with (lenV2 s); lia).
    destruct Hdz as [Hdz | [(Hdz & Hlane & Hfree & Hahead) | (Hdz & Hlane & Hfree & Hahead)]].
    + (* no change of lane *)
      destruct (V2_cruise_step s2 lane i r d2 Hwf Hl (proj1 Hi) Hcell Hobj2
                               Hspeed2 Hsf2 Hroom2 Hfront) as
          (s' & j & dfin & Heq & Hwf' & Hlanes & Hlen & Hnow & Hcars & Hobjs & Hdfin
           & Hj & Hjfree & Hcells').
      exists s', dfin. split.
      { destruct Hrest as [Hr|Hr]; rewrite Hdz, Hr; exact Heq. }
      split; [exact Hwf'|].
      split; [exact Hlanes|]. split; [exact Hlen|]. split; [exact Hnow|].
      split; [exact Hcars|]. split; [rewrite Hobjs; apply Hins|].
      assert (Hres : resting_V2 dfin).
      { destruct Hdfin as [->| ->]; [|right; reflexivity].
        unfold resting_V2. change (desire d2) with dz. rewrite Hdz. exact Hrest. }
      destruct Hdfin as [->| ->]; (repeat (split; [reflexivity|]));
        (split; [exact Hres|]); right; (split; [lia|]); exists lane, j;
        (split; [left; reflexivity|]); (split; [exact Hl|]);
        (split; [change (lenV2 s) with (lenV2 s2); lia|]);
        (split; [exact (proj2 Hj)|]);
        (split; [exact Hjfree|exact Hcells']).
    + (* change to the left lane *)
      assert (Ht : 0 <= lane - 1 < lanesV2 s2)
        by (change (lanesV2 s2) with (lanesV2 s); lia).
      destruct (V2_change_lane_step s2 (lane - 1) lane i r d2 Hwf Hl Ht
                  ltac:(lia) (proj1 Hi) Hcell Hobj2 Hspeed2 Hsf2 Hroom2 Hfree Hahead) as
          (s' & j & dfin & Heq & Hwf' & Hlanes & Hlen & Hnow & Hcars & Hobjs & Hdfin
           & Hj & Hjfree & Hcells').
      exists s', dfin. split; [rewrite Hdz; exact Heq|].
      split; [exact Hwf'|].
      split; [exact Hlanes|]. split; [exact Hlen|]. split; [exact Hnow|].
      split; [exact Hcars|]. split; [rewrite Hobjs; apply Hins|].
      destruct Hdfin as [->| ->]; (repeat (split; [reflexivity|]));
        (split; [first [left; reflexivity|right; reflexivity]|]);
        right; (split; [lia|]); exists (lane - 1), j;
        (split; [right; split; [right; reflexivity|exact Hfree]|]);
        (split; [change (lanesV2 s) with (lanesV2 s2); lia|]);
        (split; [change (lenV2 s) with (lenV2 s2); lia|]);
        (split; [exact (proj2 Hj)|]);
        (split; [exact Hjfree|exact Hcells']).
    + (* change to the right lane *)
      assert (Ht : 0 <= lane + 1 < lanesV2 s2)
        by (change (lanesV2 s2) with (lanesV2 s);
            change (lanesV2 s1) with (lanesV2 s) in Hlane; lia).
      destruct (V2_change_lane_step s2 (lane + 1) lane i r d2 Hwf Hl Ht
                  ltac:(lia) (proj1 Hi) Hcell Hobj2 Hspeed2 Hsf2 Hroom2 Hfree Hahead) as
          (s' & j & dfin & Heq & Hwf' & Hlanes & Hlen & Hnow & Hcars & Hobjs & Hdfin
           & Hj & Hjfree & Hcells').
      exists s', dfin. split; [rewrite Hdz; exact Heq|].
      split; [exact Hwf'|].
      split; [exact Hlanes|]. split; [exact Hlen|]. split; [exact Hnow|].
      split; [exact Hcars|]. split; [rewrite Hobjs; apply Hins|].
      destruct Hdfin as [->| ->]; (repeat (split; [reflexivity|]));
        (split; [first [left; reflexivity|right; reflexivity]|]);
        right; (split; [lia|]); exists (lane + 1), j;
        (split; [right; split; [left; reflexivity|exact Hfree]|]);
        (split; [change (lanesV2 s) with (lanesV2 s2); lia|]);
        (split; [change (lenV2 s) with (lenV2 s2); lia|]);
        (split; [exact (proj2 Hj)|]);
        (split; [exact Hjfree|exact Hcells']).
Qed.

End V2_driver_spec.

(** ** highway_sim_V2: the traversal of a tick *)

Lemma cells_if_here (c c' : Z -> Z -> cell) (lane i : Z) (v : cell) :
  (forall l j, c' l j = if (l =? lane) && (j =? i) then v else c l j) ->
  c' lane i = v /\
  forall l j, ~ (l = lane /\ j = i) -> c' l j = c l j.
Proof.
  intros H. split.
  - rewrite H, !Z.eqb_refl. reflexivity.
  - intros l j Hne. rewrite H.
    destruct (l =? lane) eqn:El, (j =? i) eqn:Ej; simpl; try reflexivity.
    exfalso. apply Hne. lia.
Qed.

Lemma cells_if_moved (c c' : Z -> Z -> cell) (lane i l' j' : Z) (v : cell) :
  (forall l j, c' l j = if (l =? l') && (j =? j') then v
                        else if (l =? lane) && (j =? i) then EMPTY else c l j) ->
  j' <> i ->
  c' l' j' = v /\ c' lane i = EMPTY /\
  forall l j, ~ (l = l' /\ j = j') -> ~ (l = lane /\ j = i) -> c' l j = c l j.
Proof.
  intros H Hne. split; [|split].
  - rewrite H, !Z.eqb_refl. reflexivity.
  - rewrite H, !Z.eqb_refl. destruct (i =? j') eqn:E; [lia|].
    rewrite andb_false_r. reflexivity.
  - intros l j H1 H2. rewrite H.
    destruct (l =? l') eqn:El, (j =? j') eqn:Ej; simpl;
      try (exfalso; apply H1; lia);
      destruct (l =? lane) eqn:El', (j =? i) eqn:Ej'; simpl; try reflexivity;
      exfalso; apply H2; lia.
Qed.

Section V2_traversal.
Import highway_sim_V2.
Variable rand : nat -> Q.

Lemma V2_sim_driver_stepped s lane i r d :
  wf_HighwayV2 (sim_road s) -> 0 <= lane < lanesV2 s -> 0 <= i < lenV2 s ->
  5 <= lenV2 s ->
  cellV2 s lane i = Some r -> objects s !! r = Some d ->
  good_driver_V2 (current_step s) d -> resting_V2 d ->
  cellV2 s lane (i + 1) = EMPTY ->
  twp (sim_driver rand lane i) (fun _ s' => stepped_V2 s s' lane i r) s.
Proof.
  intros Hwf Hl Hi Hlen5 Hcell Hobj Hgood Hrest Hfront.
  destruct (V2_sim_driver_core rand s lane i r d Hwf Hl Hi Hlen5 Hcell Hobj Hgood
                               Hrest Hfront)
    as (s' & dfin & Heq & Hwf' & Hlanes & Hlen & Hnow & Hcars & Hobjs & Hsp & Hsf
        & Harr & Hres & Hcells).
  exists tt, s'. split; [exact Heq|].
  split; [exact Hwf'|]. split; [exact Hlanes|]. split; [exact Hlen|].
  split; [exact Hnow|]. split; [exact Hcars|].
  split; [rewrite Hobjs; apply length_insert|].
  split; [|split].
  3:{ destruct Hcells as [(_ & _ & Hc)|(_ & l' & j' & H1 & H2 & H3 & _ & H4 & H5)];
        [left; exact Hc|right; exists l', j'; auto]. }
  - intros now Hall. rewrite Hobjs. apply Forall_insert; [exact Hall|].
    rewrite Forall_lookup in Hall. specialize (Hall r d Hobj).
    unfold good_driver_V2 in *. rewrite Hsp, Hsf, Harr. exact Hall.
  - intros Hall. rewrite Hobjs. apply Forall_insert; [exact Hall|exact Hres].
Qed.

(** Visiting one cell keeps the invariant of the traversal. *)
Lemma V2_visit_step s0 s i k :
  tick_inv_V2 s0 s i k -> 0 <= k < lanesV2 s -> 0 <= i < lenV2 s ->
  twp (visit rand i k) (fun _ s' => tick_inv_V2 s0 s' i (k + 1)) s.
Proof.
  intros TI Hk Hi. destruct TI as [SI Hlanes Hlen Hnow Hcars Hnobj Htodo Hrow Hfront Hfrom].
  destruct SI as [Hwf Hlanes0 Hlen5 Hgood Hrest Hrefs Huniq].
  unfold visit.
  apply (twp_bind_Ok _ _ _ _ _ _ (V2_road_get_eq s k i Hwf Hk Hi)).
  destruct (cellV2 s k i) as [r|] eqn:Hcell; simpl.
  - (* an occupied cell: the vehicle is processed *)
    pose proof (Hrefs _ _ _ Hcell) as Hr.
    destruct (lookup_lt_is_Some_2 _ _ Hr) as [d Hobj].
    pose proof (proj1 (Forall_lookup _ _) Hgood r d Hobj) as Hgd.
    pose proof (proj1 (Forall_lookup _ _) Hrest r d Hobj) as Hrd.
    assert (Hclear : cellV2 s k (i + 1) = EMPTY).
    { apply Hfront; [lia|]. rewrite Hcell. discriminate. }
    eapply twp_mono;
      [apply (V2_sim_driver_stepped s k i r d Hwf Hk Hi Hlen5 Hcell Hobj Hgd Hrd Hclear)|].
    intros _ s' (Hwf' & Hlanes' & Hlen' & Hnow' & Hcars' & Hnobj' & Hgood' & Hrest'
                 & Hcells).
    destruct Hcells as [Hexit | (l' & j' & Hside & Hl' & Hj' & Hfree & Hmove)].
    + (* exit *)
      apply cells_if_here in Hexit as [Hhere Hother].
      constructor; try congruence.
      * constructor; try congruence; try lia.
        -- rewrite Hnow'. auto.
        -- auto.
        -- intros l j r' Hc. rewrite Hnobj'.
           destruct (Z.eq_dec l k) as [->|Hlk]; [destruct (Z.eq_dec j i) as [->|Hji]|].
           ++ rewrite Hhere in Hc. discriminate.
           ++ rewrite Hother in Hc by lia. eauto.
           ++ rewrite Hother in Hc by lia. eauto.
        -- intros l j l2 j2 r' Hc1 Hc2.
           assert (H1 : ~ (l = k /\ j = i))
             by (intros [-> ->]; rewrite Hhere in Hc1; discriminate).
           assert (H2 : ~ (l2 = k /\ j2 = i))
             by (intros [-> ->]; rewrite Hhere in Hc2; discriminate).
           rewrite Hother in Hc1 by exact H1. rewrite Hother in Hc2 by exact H2.
           eauto.
      * intros l j Hj. rewrite Hother by lia. apply Htodo. lia.
      * intros l Hlk. destruct (Z.eq_dec l k) as [->|Hne]; [exact Hhere|].
        rewrite Hother by lia. apply Hrow. lia.
      * intros l Hlk Hocc. rewrite Hother in Hocc by lia. rewrite Hother by lia.
        apply Hfront; [lia|exact Hocc].
      * intros l2 j2 r' Hj2 Hc. rewrite Hother in Hc by lia. eauto.
    + (* the vehicle moved to (l', j') *)
      apply cells_if_moved in Hmove as (Hthere & Hhere & Hother); [|lia].
      constructor; try congruence.
      * constructor; try congruence; try lia.
        -- rewrite Hnow'. auto.
        -- auto.
        -- intros l j r' Hc. rewrite Hnobj'.
           destruct (Z.eq_dec l l') as [->|Hll];
             [destruct (Z.eq_dec j j') as [->|Hjj]|].
           ++ rewrite Hthere in Hc. inversion Hc; subst r'. exact Hr.
           ++ destruct (Z.eq_dec l' k) as [->|]; [destruct (Z.eq_dec j i) as [->|]|].
              ** rewrite Hhere in Hc. discriminate.
              ** rewrite Hother in Hc by lia. eauto.
              ** rewrite Hother in Hc by lia. eauto.
           ++ destruct (Z.eq_dec l k) as [->|]; [destruct (Z.eq_dec j i) as [->|]|].
              ** rewrite Hhere in Hc. discriminate.
              ** rewrite Hother in Hc by lia. eauto.
              ** rewrite Hother in Hc by lia. eauto.
        -- assert (Hold : forall l j r', cellV2 s' l j = Some r' ->
                     (l = l' /\ j = j' /\ r' = r) \/
                     (~ (l = l' /\ j = j') /\ ~ (l = k /\ j = i) /\
                      cellV2 s l j = Some r')).
           { intros l j r' Hc.
             destruct (Z.eq_dec l l') as [->|Hll];
               [destruct (Z.eq_dec j j') as [->|Hjj]|].
             - left. rewrite Hthere in Hc. inversion Hc. auto.
             - right. assert (Hn : ~ (l' = k /\ j = i))
                 by (intros [-> ->]; rewrite Hhere in Hc; discriminate).
               rewrite Hother in Hc by (auto; lia). split; [lia|auto].
             - right. assert (Hn : ~ (l = k /\ j = i))
                 by (intros [-> ->]; rewrite Hhere in Hc; discriminate).
               rewrite Hother in Hc by (auto; lia). split; [lia|auto]. }
           intros l j l2 j2 r' Hc1 Hc2.
           destruct (Hold _ _ _ Hc1) as [(-> & -> & ->)|(Hn1 & Hm1 & Ho1)];
             destruct (Hold _ _ _ Hc2) as [(-> & -> & Hr2)|(Hn2 & Hm2 & Ho2)].
           ++ auto.
           ++ exfalso. apply Hm2. eapply Huniq; eauto.
           ++ subst r'. exfalso. apply Hm1. eapply Huniq; eauto.
           ++ eauto.
      * intros l j Hj. rewrite Hother by lia. apply Htodo. lia.
      * intros l Hlk. destruct (Z.eq_dec l k) as [->|Hne]; [exact Hhere|].
        rewrite Hother by lia. apply Hrow. lia.
      * intros l Hlk Hocc. rewrite Hother in Hocc by lia.
        assert (Hnot : ~ (l = l' /\ i + 1 = j')).
        { intros [-> Hj1]. apply Hocc.
          destruct Hside as [->|[_ Hempty]]; [lia|exact Hempty]. }
        rewrite Hother by (auto; lia). apply Hfront; [lia|exact Hocc].
      * intros l2 j2 r' Hj2 Hc.
        destruct (Z.eq_dec l2 l') as [->|Hll];
          [destruct (Z.eq_dec j2 j') as [->|Hjj]|].
        -- rewrite Hthere in Hc. inversion Hc; subst r'.
           exists k, i. split; [|lia]. rewrite <- Htodo by lia. exact Hcell.
        -- rewrite Hother in Hc by lia. eauto.
        -- rewrite Hother in Hc by lia. eauto.
  - (* an empty cell: nothing happens *)
    apply twp_ret. constructor; auto.
    + constructor; auto.
    + intros l j Hj. apply Htodo. lia.
    + intros l Hlk. destruct (Z.eq_dec l k) as [->|Hne]; [exact Hcell|].
      apply Hrow. lia.
    + intros l Hlk. apply Hfront. lia.
Qed.

End V2_traversal.

Section V2_rows.
Import highway_sim_V2.
Variable rand : nat -> Q.

Lemma V2_cell_off_road s l j :
  wf_HighwayV2 (sim_road s) -> ~ (0 <= l < lanesV2 s /\ 0 <= j < lenV2 s) ->
  cellV2 s l j = EMPTY.
Proof. intros Hwf Hout. eapply at_out; eauto. Qed.

(** Before the first row nothing has been visited. *)
Lemma V2_tick_inv_start s0 :
  state_inv_V2 s0 -> tick_inv_V2 s0 s0 (lenV2 s0) (lanesV2 s0).
Proof.
  intros SI. pose proof (si_wf _ SI) as Hwf. constructor; auto.
  - intros l _. apply V2_cell_off_road; [exact Hwf|lia].
  - intros l _ _. apply V2_cell_off_road; [exact Hwf|lia].
  - intros l' j' r Hj Hc. rewrite V2_cell_off_road in Hc by (auto; lia). discriminate.
Qed.

(** A finished row is the start of the next one. *)
Lemma V2_next_row s0 s i :
  tick_inv_V2 s0 s (i + 1) (lanesV2 s) -> tick_inv_V2 s0 s i 0.
Proof.
  intros [SI Hlanes Hlen Hnow Hcars Hnobj Htodo Hrow Hfront Hfrom].
  pose proof (si_wf _ SI) as Hwf.
  assert (Hdone : forall l, cellV2 s l (i + 1) = EMPTY).
  { intros l. destruct (Z_lt_dec l (lanesV2 s)) as [Hl|Hl]; [apply Hrow; exact Hl|].
    apply V2_cell_off_road; [exact Hwf|lia]. }
  constructor; auto.
  - intros l j Hj. apply Htodo. lia.
  - intros l Hl. apply V2_cell_off_road; [exact Hwf|lia].
  - intros l' j' r Hj Hc. destruct (Z.eq_dec j' (i + 1)) as [->|Hne].
    + rewrite Hdone in Hc. discriminate.
    + apply (Hfrom l' j' r); [lia|exact Hc].
Qed.

(** The lanes [0 .. k - 1] of a row. *)
Lemma V2_row_prefix s0 s i k :
  tick_inv_V2 s0 s i 0 -> 0 <= i < lenV2 s0 -> 0 <= k <= lanesV2 s0 ->
  twp (for_each (py_range 0 k) (fun k' => visit rand i k'))
      (fun _ s' => tick_inv_V2 s0 s' i k) s.
Proof.
  intros TI Hi Hk. unfold py_range.
  pose proof (twp_for_up (fun k' => visit rand i k')
                (fun k' s' => tick_inv_V2 s0 s' i k') (Z.to_nat (k - 0)) 0 s) as H.
  replace (0 + Z.of_nat (Z.to_nat (k - 0))) with k in H by lia.
  apply H; [|exact TI].
  intros k' s' Hk' TI'. apply V2_visit_step; [exact TI'| |].
  - rewrite (ti_lanes _ _ _ _ TI'). lia.
  - rewrite (ti_len _ _ _ _ TI'). lia.
Qed.

(** One iteration of the outer loop. *)
Lemma V2_row s0 s i :
  tick_inv_V2 s0 s (i + 1) (lanesV2 s0) -> 0 <= i < lenV2 s0 -> 0 <= lanesV2 s0 ->
  twp (let* lanes := gets (fun s => num_lanes (sim_road s)) in
       for_each (py_range 0 lanes) (fun k => visit rand i k))
      (fun _ s' => tick_inv_V2 s0 s' (i - 1 + 1) (lanesV2 s0)) s.
Proof.
  intros TI Hi HL. apply twp_bind, twp_gets. fold (lanesV2 s).
  rewrite (ti_lanes _ _ _ _ TI).
  replace (i - 1 + 1) with i by lia.
  apply V2_row_prefix; [|exact Hi|lia].
  apply V2_next_row. rewrite (ti_lanes _ _ _ _ TI). exact TI.
Qed.

(** The rows [length - 1 .. i + 1]. *)
Lemma V2_rows s0 i :
  state_inv_V2 s0 -> -1 <= i < lenV2 s0 ->
  twp (for_each (py_range_rev (lenV2 s0 - 1) i) (fun i' =>
         let* lanes := gets (fun s => num_lanes (sim_road s)) in
         for_each (py_range 0 lanes) (fun k => visit rand i' k)))
      (fun _ s' => tick_inv_V2 s0 s' (i + 1) (lanesV2 s0)) s0.
Proof.
  intros SI Hi. unfold py_range_rev.
  pose proof (twp_for_down
                (fun i' => let* lanes := gets (fun s => num_lanes (sim_road s)) in
                           for_each (py_range 0 lanes) (fun k => visit rand i' k))
                (fun i' s' => tick_inv_V2 s0 s' (i' + 1) (lanesV2 s0))
                (Z.to_nat (lenV2 s0 - 1 - i)) (lenV2 s0 - 1) s0) as H.
  replace (lenV2 s0 - 1 - Z.of_nat (Z.to_nat (lenV2 s0 - 1 - i))) with i in H by lia.
  apply H.
  - intros i' s' Hi' TI'. apply V2_row; [exact TI'|lia|apply (si_lanes _ SI)].
  - replace (lenV2 s0 - 1 + 1) with (lenV2 s0) by lia.
    apply V2_tick_inv_start. exact SI.
Qed.


(** The whole traversal: every row is finished and row 0 is empty. *)
Lemma V2_traversal s0 :
  state_inv_V2 s0 ->
  twp (for_each (py_range_rev (lenV2 s0 - 1) (-1)) (fun i' =>
         let* lanes := gets (fun s => num_lanes (sim_road s)) in
         for_each (py_range 0 lanes) (fun k => visit rand i' k)))
      (fun _ s' => tick_inv_V2 s0 s' 0 (lanesV2 s0)) s0.
Proof.
  intros SI. eapply twp_mono.
  - apply (V2_rows s0 (-1) SI). pose proof (si_len _ SI). lia.
  - intros u s' TI. exact TI.
Qed.

End V2_rows.

(** ** highway_sim_V2: arrivals and the whole tick *)

Section V2_tick.
Import highway_sim_V2.
Variable rand : nat -> Q.

Lemma V2_gen_lane_eq s lane ih id :
  wf_HighwayV2 (sim_road s) -> 0 <= lane < lanesV2 s -> 0 < lenV2 s ->
  gen_lane rand lane (ih, id) s =
    if Qlt_bool (rand (draws s)) CAR_PROBABILITY
    then Ok ((is_human (arrival_V2 rand id s), id + 1),
             putV2 lane 0 (Some (length (objects s)))
                   (set_objects (objects s ++ [arrival_V2 rand id s])
                                (set_draws (S (S (S (draws s)))) s)))
    else Ok ((ih, id), set_draws (S (draws s)) s).
Proof.
  intros Hwf Hl Hlen. unfold gen_lane.
  rewrite (bind_Ok _ _ _ _ _ eq_refl).
  destruct (Qlt_bool (rand (draws s)) CAR_PROBABILITY); [|reflexivity].
  rewrite (bind_Ok _ _ _ _ _ eq_refl). rewrite (bind_Ok _ _ _ _ _ eq_refl).
  rewrite bind_gets. rewrite (bind_Ok _ _ _ _ _ eq_refl).
  erewrite bind_Ok
    by (apply V2_road_set_eq; [exact Hwf|exact Hl|unfold lenV2 in *; simpl; lia]).
  reflexivity.
Qed.

Lemma V2_arrival_good s id :
  good_driver_V2 (current_step s + 1) (arrival_V2 rand id s) /\
  resting_V2 (arrival_V2 rand id s).
Proof.
  unfold good_driver_V2, resting_V2, arrival_V2. simpl. repeat split.
  - destruct (Qlt_bool _ FAST_PROBABILITY); auto.
  - destruct (Qlt_bool _ IS_HUMAN_PROBABILITY); auto.
  - lia.
  - left. reflexivity.
Qed.

Lemma V2_gen_lane_step s0 st s lane acc :
  arrivals_inv_V2 s0 st s -> 0 <= lane < lanesV2 s0 -> 0 < lenV2 s0 ->
  twp (gen_lane rand lane acc) (fun _ s' => arrivals_inv_V2 s0 st s') s.
Proof.
  intros [Hwf Hlanes Hlen Hnow Hgood Hrest Hrefs Huniq Hnobj Hroad Hentry] Hl Hlen0.
  destruct acc as [ih id].
  assert (Hl' : 0 <= lane < lanesV2 s) by lia.
  assert (Hlen' : 0 < lenV2 s) by lia.
  unfold twp. rewrite (V2_gen_lane_eq s lane ih id Hwf Hl' Hlen').
  destruct (Qlt_bool (rand (draws s)) CAR_PROBABILITY);
    (eexists _, _; split; [reflexivity|]).
  - set (d := arrival_V2 rand id s).
    set (s1 := set_objects (objects s ++ [d]) (set_draws (S (S (S (draws s)))) s)).
    assert (Hi0 : 0 <= 0 < lenV2 s1) by (change (lenV2 s1) with (lenV2 s); lia).
    destruct (V2_put_spec s1 lane 0 (Some (length (objects s))) Hwf Hl' Hi0)
      as [Hwf' Hcells].
    apply cells_if_here in Hcells as [Hhere Hother].
    change (cellV2 s1) with (cellV2 s) in Hother.
    destruct (V2_arrival_good s id) as [Hgd Hrd]. fold d in Hgd, Hrd.
    constructor; auto.
    + simpl. apply Forall_app. split; [exact Hgood|].
      constructor; [|constructor]. rewrite <- Hnow. exact Hgd.
    + simpl. apply Forall_app. split; [exact Hrest|]. constructor; [exact Hrd|constructor].
    + intros l j r Hc. simpl. rewrite length_app. simpl.
      destruct (Z.eq_dec l lane) as [->|]; [destruct (Z.eq_dec j 0) as [->|]|].
      * rewrite Hhere in Hc. inversion Hc. lia.
      * rewrite Hother in Hc by lia. apply Hrefs in Hc. lia.
      * rewrite Hother in Hc by lia. apply Hrefs in Hc. lia.
    + assert (Hold : forall l j r, cellV2 (putV2 lane 0 (Some (length (objects s))) s1) l j
                                   = Some r ->
                                   (l = lane /\ j = 0 /\ r = length (objects s)) \/
                                   (~ (l = lane /\ j = 0) /\ cellV2 s l j = Some r)).
      { intros l j r Hc.
        destruct (Z.eq_dec l lane) as [->|]; [destruct (Z.eq_dec j 0) as [->|]|].
        - left. rewrite Hhere in Hc. inversion Hc. auto.
        - right. rewrite Hother in Hc by lia. split; [lia|exact Hc].
        - right. rewrite Hother in Hc by lia. split; [lia|exact Hc]. }
      intros l j l2 j2 r Hc1 Hc2.
      destruct (Hold _ _ _ Hc1) as [(-> & -> & ->)|(Hn1 & Ho1)];
        destruct (Hold _ _ _ Hc2) as [(-> & -> & Hr2)|(Hn2 & Ho2)].
      * auto.
      * apply Hrefs in Ho2. lia.
      * subst r. apply Hrefs in Ho1. lia.
      * eauto.
    + simpl. rewrite length_app. lia.
    + intros l j Hj. rewrite Hother by lia. apply Hroad. exact Hj.
    + intros l r Hc. destruct (Z.eq_dec l lane) as [->|].
      * rewrite Hhere in Hc. inversion Hc. lia.
      * rewrite Hother in Hc by lia. eauto.
  - constructor; auto.
Qed.

Lemma V2_gen_new_drivers_step s0 st n :
  arrivals_inv_V2 s0 st st -> 0 < lenV2 s0 ->
  twp (gen_new_drivers rand n) (fun _ s' => arrivals_inv_V2 s0 st s') st.
Proof.
  intros AI Hlen. unfold gen_new_drivers.
  apply twp_bind, twp_gets. apply twp_bind. unfold py_range.
  eapply twp_mono.
  - apply (twp_fold_up (gen_lane rand) (fun _ _ s' => arrivals_inv_V2 s0 st s')).
    + intros k acc s' Hk AI'. apply V2_gen_lane_step; [exact AI'| |exact Hlen].
      rewrite <- (ai_lanes _ _ _ AI). unfold lanesV2. lia.
    + exact AI.
  - intros acc s' AI'. cbv beta in *. apply twp_ret. exact AI'.
Qed.

(** After the traversal the loop of arrivals starts from its invariant. *)
Lemma V2_arrivals_start s0 st :
  state_inv_V2 s0 -> tick_inv_V2 s0 st 0 (lanesV2 s0) -> arrivals_inv_V2 s0 st st.
Proof.
  intros SI0 [SI Hlanes Hlen Hnow Hcars Hnobj Htodo Hrow Hfront Hfrom].
  destruct SI as [Hwf HL Hlen5 Hgood Hrest Hrefs Huniq].
  constructor; auto.
  - rewrite <- Hnow. eapply Forall_impl; [exact Hgood|].
    intros d (H1 & H2 & H3). repeat split; auto. lia.
  - lia.
  - intros l r Hc. exfalso.
    destruct (Z_lt_dec l (lanesV2 s0)) as [Hl|Hl].
    + rewrite Hrow in Hc by exact Hl. discriminate.
    + rewrite V2_cell_off_road in Hc by (auto; lia). discriminate.
Qed.

Lemma V2_moved_forward s0 st s :
  state_inv_V2 s0 -> tick_inv_V2 s0 st 0 (lanesV2 s0) -> arrivals_inv_V2 s0 st s ->
  moved_forward_V2 s0 s.
Proof.
  intros SI0 TI AI r l j l' j' Hc0 Hc1.
  destruct (Z_le_dec 1 j') as [Hj|Hj].
  - rewrite (ai_road _ _ _ AI) in Hc1 by exact Hj.
    destruct (ti_from _ _ _ _ TI l' j' r ltac:(lia) Hc1) as (l2 & j2 & Hc2 & Hlt).
    destruct (si_uniq _ SI0 _ _ _ _ _ Hc0 Hc2) as [_ ->]. exact Hlt.
  - exfalso. pose proof (si_refs _ SI0 _ _ _ Hc0) as Hr.
    destruct (Z.eq_dec j' 0) as [->|Hne].
    + pose proof (ai_entry _ _ _ AI _ _ Hc1). lia.
    + rewrite V2_cell_off_road in Hc1; [discriminate|exact (ai_wf _ _ _ AI)|lia].
Qed.

(** One iteration of [run]: it returns, the invariant holds again, and the
    vehicles that stayed on the grid moved forward. *)
Lemma V2_run_step_spec s0 :
  state_inv_V2 s0 ->
  twp (run_step rand) (fun _ s' => state_inv_V2 s' /\ moved_forward_V2 s0 s') s0.
Proof.
  intros SI0. unfold run_step, execute_time_step.
  apply twp_bind. apply twp_bind, twp_gets. fold (lenV2 s0). apply twp_bind.
  eapply twp_mono; [apply (V2_traversal rand s0 SI0)|].
  intros u st TI. cbv beta in *.
  apply twp_bind, twp_gets. apply twp_bind.
  pose proof (V2_arrivals_start s0 st SI0 TI) as AI.
  eapply twp_mono;
    [apply (V2_gen_new_drivers_step s0 st (num_cars st) AI);
     pose proof (si_len _ SI0); lia|].
  intros n' s AI'. cbv beta in *. apply twp_modify. apply twp_modify.
  pose proof (V2_moved_forward s0 st s SI0 TI AI') as Hmoved.
  destruct AI' as [Hwf Hlanes Hlen Hnow Hgood Hrest Hrefs Huniq Hnobj Hroad Hentry].
  split.
  - constructor; auto.
    + change (0 <= lanesV2 s). rewrite Hlanes. apply (si_lanes _ SI0).
    + change (5 <= lenV2 s). rewrite Hlen. apply (si_len _ SI0).
    + simpl. rewrite Hnow. exact Hgood.
  - exact Hmoved.
Qed.

Lemma V2_new_Simulation_inv time_steps : state_inv_V2 (new_Simulation time_steps).
Proof.
  assert (Hempty : forall l j, cellV2 (new_Simulation time_steps) l j = EMPTY)
    by (intros l j; apply at_empty_road).
  constructor.
  - apply (wf_empty_road NUM_LANES HIGHWAY_LENGTH);
      unfold NUM_LANES, HIGHWAY_LENGTH; lia.
  - unfold lanesV2. simpl. unfold NUM_LANES. lia.
  - unfold lenV2. simpl. unfold HIGHWAY_LENGTH. lia.
  - constructor.
  - constructor.
  - intros l j r Hc. rewrite Hempty in Hc. discriminate.
  - intros l j l' j' r Hc. rewrite Hempty in Hc. discriminate.
Qed.

Lemma V2_reachable_inv s : reachable_V2 rand s -> state_inv_V2 s.
Proof.
  induction 1 as [ts|s s' _ IH Hstep].
  - apply V2_new_Simulation_inv.
  - destruct (V2_run_step_spec s IH) as (u & s'' & Heq & SI & _).
    rewrite Heq in Hstep. inversion Hstep; subst. exact SI.
Qed.

End V2_tick.

(** ** Monotonic advance *)

Lemma range_down_app a n m :
  range_down a (n + m) = range_down a n ++ range_down (a - Z.of_nat n) m.
Proof.
  revert a. induction n as [|n IH]; intros a; simpl.
  - f_equal. lia.
  - rewrite IH. replace (a - Z.of_nat (S n)) with (a - 1 - Z.of_nat n) by lia.
    reflexivity.
Qed.

Lemma range_up_app a n m :
  range_up a (n + m) = range_up a n ++ range_up (a + Z.of_nat n) m.
Proof.
  revert a. induction n as [|n IH]; intros a; simpl.
  - f_equal. lia.
  - rewrite IH. replace (a + Z.of_nat (S n)) with (a + 1 + Z.of_nat n) by lia.
    reflexivity.
Qed.

(** The traversal of [execute_time_step] is the rows before [i], then row
    [i], then the rows after it; and row [i] is the lanes before [k], then the
    visit of [(k, i)], then the lanes after it. *)
Lemma traversal_rows_split {S : Type} (row : Z -> M S unit) (len i : Z) (s : S) :
  0 <= i < len ->
  for_each (py_range_rev (len - 1) (-1)) row s =
  bind (for_each (py_range_rev (len - 1) i) row)
       (fun _ => bind (row i) (fun _ => for_each (py_range_rev (i - 1) (-1)) row)) s.
Proof.
  intros Hi. unfold py_range_rev.
  replace (Z.to_nat (len - 1 - -1))
    with (Z.to_nat (len - 1 - i) + (1 + Z.to_nat (i - 1 - -1)))%nat by lia.
  rewrite range_down_app, for_each_app. simpl.
  replace (len - 1 - Z.of_nat (Z.to_nat (len - 1 - i))) with i by lia.
  reflexivity.
Qed.

Lemma traversal_lanes_split {S : Type} (cell_body : Z -> M S unit) (lanes k : Z) (s : S) :
  0 <= k < lanes ->
  for_each (py_range 0 lanes) cell_body s =
  bind (for_each (py_range 0 k) cell_body)
       (fun _ => bind (cell_body k)
                      (fun _ => for_each (py_range (k + 1) lanes) cell_body)) s.
Proof.
  intros Hk. unfold py_range.
  replace (Z.to_nat (lanes - 0))
    with (Z.to_nat (k - 0) + (1 + Z.to_nat (lanes - (k + 1))))%nat by lia.
  rewrite range_up_app, for_each_app. simpl.
  replace (0 + Z.of_nat (Z.to_nat (k - 0))) with k by lia.
  reflexivity.
Qed.




(** ** sim_client_requests: the invariant under the primitive steps *)

Section SD_walk.
Import sim_client_requests.
Variable rand : nat -> Q.
Variables (L N : Z) (n : nat) (now bound : Z).

Lemma SD_walk_put P s l i v :
  walk_SD L N n now bound P s -> 0 <= l < L -> 0 <= i < N ->
  (v = EMPTY \/ (l < L - 1 /\ exists r, v = Some r /\ (r < n)%nat)) ->
  walk_SD L N n now bound P (putSD l i v s) /\
  forall l' j', cellSD (putSD l i v s) l' j' =
                if (l' =? l) && (j' =? i) then v else cellSD s l' j'.
Proof.
  intros [Hwf Hdef Hsd Hlanes Hlen Hlen5 Hnow Hnobj Hgood HP Hrefs Hlast] Hl Hi Hv.
  destruct (SD_put_spec s l i v Hwf ltac:(lia) ltac:(lia)) as [Hwf' Hcells].
  split; [|exact Hcells].
  pose proof (cells_if_here _ _ _ _ _ Hcells) as [Hhere Hother].
  constructor; auto.
  - intros l' j' r Hc.
    destruct (Z.eq_dec l' l) as [->|]; [destruct (Z.eq_dec j' i) as [->|]|].
    + rewrite Hhere in Hc. destruct Hv as [->|(_ & r' & -> & Hr')]; [discriminate|].
      inversion Hc; subst. exact Hr'.
    + rewrite Hother in Hc by lia. eauto.
    + rewrite Hother in Hc by lia. eauto.
  - intros j. destruct (Z.eq_dec l (L - 1)) as [->|Hne].
    + destruct (Z.eq_dec j i) as [->|].
      * rewrite Hhere. destruct Hv as [->|(Hlt & _)]; [reflexivity|lia].
      * rewrite Hother by lia. apply Hlast.
    + rewrite Hother by lia. apply Hlast.
Qed.

Lemma SD_walk_update (P P' : nat -> Driver -> Prop) s r d d' :
  walk_SD L N n now bound P s -> objects s !! r = Some d ->
  speed d' = speed d -> safe_follow d' = safe_follow d ->
  arrive_time d' = arrive_time d ->
  P' r d' -> (forall r' x, r' <> r -> P r' x -> P' r' x) ->
  walk_SD L N n now bound P' (set_objects (<[r := d']> (objects s)) s).
Proof.
  intros [Hwf Hdef Hsd Hlanes Hlen Hlen5 Hnow Hnobj Hgood HP Hrefs Hlast]
         Hobj Hsp Hsf Harr Hnew Hold.
  constructor; auto.
  - simpl. rewrite length_insert. exact Hnobj.
  - simpl. apply Forall_insert; [exact Hgood|].
    rewrite Forall_lookup in Hgood. specialize (Hgood r d Hobj).
    unfold good_driver_SD in *. rewrite Hsp, Hsf, Harr. exact Hgood.
  - intros r' x Hx. simpl in Hx. destruct (Nat.eq_dec r' r) as [->|Hne].
    + rewrite list_lookup_insert_eq in Hx by (apply (lookup_lt_Some _ _ _ Hobj)).
      inversion Hx; subst. exact Hnew.
    + rewrite list_lookup_insert_ne in Hx by congruence. apply Hold; auto.
Qed.

(** Steps that touch neither the road nor the objects nor the tick. *)
Lemma SD_walk_frame P s s' :
  walk_SD L N n now bound P s ->
  sim_road s' = sim_road s -> objects s' = objects s ->
  current_step s' = current_step s ->
  walk_SD L N n now bound P s'.
Proof.
  intros [Hwf Hdef Hsd Hlanes Hlen Hlen5 Hnow Hnobj Hgood HP Hrefs Hlast] Hr Ho Hc.
  unfold lanesSD, lenSD, cellSD in *.
  constructor; unfold lanesSD, lenSD, cellSD; rewrite ?Hr, ?Ho, ?Hc; auto.
Qed.

Lemma SD_walk_weaken (P P' : nat -> Driver -> Prop) s :
  walk_SD L N n now bound P s -> (forall r d, P r d -> P' r d) ->
  walk_SD L N n now bound P' s.
Proof.
  intros [Hwf Hdef Hsd Hlanes Hlen Hlen5 Hnow Hnobj Hgood HP Hrefs Hlast] Himp.
  constructor; auto.
Qed.

End SD_walk.

(** ** sim_client_requests: one call of [sim_driver] *)

Section SD_driver.
Import sim_client_requests.
Variable rand : nat -> Q.
Variables (L N : Z) (n : nat) (now : Z).

Local Abbreviation at_rest := (fun (_ : nat) (d : Driver) => resting_SD d).

Lemma SD_good_speed bound d :
  good_driver_SD bound d -> 4 <= speed d <= 5 /\ 0 <= safe_follow d.
Proof.
  intros ([H|H] & [H'|H'] & _); rewrite H, H';
    unfold SLOW, FAST, SDC_SAFE_FOLLOW, HUMAN_SAFE_FOLLOW; lia.
Qed.

Lemma SD_walk_lookup P s r :
  walk_SD L N n now now P s -> (r < n)%nat ->
  exists d, objects s !! r = Some d /\ good_driver_SD now d /\ P r d.
Proof.
  intros W Hr. destruct (lookup_lt_is_Some_2 (objects s) r) as [d Hd].
  { rewrite (wk_nobj _ _ _ _ _ _ _ W). exact Hr. }
  exists d. split; [exact Hd|]. split.
  - apply (proj1 (Forall_lookup _ _) (wk_good _ _ _ _ _ _ _ W) r d Hd).
  - apply (wk_P _ _ _ _ _ _ _ W r d Hd).
Qed.

Lemma SD_log_crash_eq s r d :
  objects s !! r = Some d ->
  log_crash (Some r) s = Ok (tt, set_crashes (crashes s ++ [speed d]) s).
Proof.
  intros Hobj. unfold log_crash. rewrite (SD_bind_attr s r d speed _ Hobj).
  reflexivity.
Qed.

(** The incident roll: it reads the stream and may write the log. *)
Lemma SD_roll_walk P s r d (hit : Q -> bool) :
  walk_SD L N n now now P s -> objects s !! r = Some d ->
  twp (if hit (rand (draws s)) then log_crash (Some r) else ret tt)
      (fun _ s' => walk_SD L N n now now P s' /\ sim_road s' = sim_road s /\
                   objects s' = objects s)
      s.
Proof.
  intros W Hobj. destruct (hit (rand (draws s))).
  - eapply twp_eq; [apply (SD_log_crash_eq s r d Hobj)|].
    split; [|split; reflexivity]. eapply SD_walk_frame; eauto.
  - apply twp_ret. auto.
Qed.

Lemma SD_crash_roll_walk P s r d q :
  walk_SD L N n now now P s -> objects s !! r = Some d ->
  twp (crash_roll rand (Some r) q)
      (fun _ s' => walk_SD L N n now now P s' /\ sim_road s' = sim_road s /\
                   objects s' = objects s)
      s.
Proof.
  intros W Hobj. unfold crash_roll.
  apply (twp_bind_Ok _ _ _ _ _ _ (SD_attr_eq s r d desire Hobj)).
  destruct (negb (Desire_eqb (desire d) CRUISE)); [|apply twp_ret; auto].
  set (s1 := set_draws (S (draws s)) s).
  assert (W1 : walk_SD L N n now now P s1) by (eapply SD_walk_frame; eauto).
  apply (twp_bind_Ok (random_random rand) _ _ s (rand (draws s)) s1 eq_refl).
  apply (twp_bind_Ok _ _ _ _ _ _ (SD_attr_eq s1 r d is_drunk Hobj)).
  apply twp_bind.
  assert (Hlog : twp (log_crash (Some r))
                     (fun _ s' => twp (ret (rand (draws s)))
                        (fun _ s'' => walk_SD L N n now now P s'' /\
                                      sim_road s'' = sim_road s /\
                                      objects s'' = objects s) s') s1).
  { eapply twp_eq; [apply (SD_log_crash_eq s1 r d Hobj)|].
    apply twp_ret. split; [|split; reflexivity]. eapply SD_walk_frame; eauto. }
  assert (Hskip : twp (ret tt)
                      (fun _ s' => twp (ret (rand (draws s)))
                         (fun _ s'' => walk_SD L N n now now P s'' /\
                                       sim_road s'' = sim_road s /\
                                       objects s'' = objects s) s') s1).
  { apply twp_ret, twp_ret. auto. }
  destruct (is_drunk d).
  - destruct (Qlt_bool (rand (draws s)) DRUNK_CRASH_PROB); assumption.
  - destruct (Qlt_bool (rand (draws s)) CRASH_PROB); assumption.
Qed.

Lemma SD_lane_check_total s target i :
  wf_HighwaySD (sim_road s) -> 0 <= target < lanesSD s ->
  0 <= i -> i + 5 < lenSD s -> 5 - i <= lenSD s ->
  exists b,
    lane_window_check (road (sim_road s)) LANE_CHANGE_SAFE_BACK
                      LANE_CHANGE_SAFE_FORWARD target i = Ok b.
Proof.
  intros Hwf Hl Hi Hfwd Hback.
  rewrite (lane_window_check_in _ _ _ _ _ target i Hwf Hl)
    by (unfold LANE_CHANGE_SAFE_BACK, LANE_CHANGE_SAFE_FORWARD, FAST; fold (lenSD s); lia).
  eexists. reflexivity.
Qed.

Lemma SD_safe_right_spec s lane i :
  wf_HighwaySD (sim_road s) -> 0 <= lane < lanesSD s - 1 ->
  1 <= num_def_lanes (sim_road s) -> num_sd_lanes (sim_road s) = 1 ->
  0 <= i -> i + 5 < lenSD s -> 5 - i <= lenSD s ->
  exists b,
    safe_right_lane_change (sim_road s) lane i = Ok b /\
    (b = true -> lane + 1 < lanesSD s - 1).
Proof.
  intros Hwf Hl Hdef Hsd Hi Hfwd Hback. unfold safe_right_lane_change.
  unfold lanesSD in *.
  destruct (lane =? num_def_lanes (sim_road s) - 1) eqn:E.
  - exists false. split; [reflexivity|discriminate].
  - destruct (SD_lane_check_total s (lane + 1) i Hwf) as (b & Hb); try lia.
    { unfold lanesSD. lia. }
    exists b. split; [exact Hb|]. intros _. lia.
Qed.

Lemma SD_safe_left_spec s lane i :
  wf_HighwaySD (sim_road s) -> 0 <= lane < lanesSD s - 1 ->
  0 <= i -> i + 5 < lenSD s -> 5 - i <= lenSD s ->
  exists b,
    safe_left_lane_change (sim_road s) lane i = Ok b /\ (b = true -> 0 < lane).
Proof.
  intros Hwf Hl Hi Hfwd Hback. unfold safe_left_lane_change.
  destruct (lane =? 0) eqn:E.
  - exists false. split; [reflexivity|discriminate].
  - destruct (SD_lane_check_total s (lane - 1) i Hwf) as (b & Hb); try lia.
    exists b. split; [exact Hb|]. intros _. lia.
Qed.

Lemma SD_set_desire_same d : set_desire (desire d) d = d.
Proof. destruct d; reflexivity. Qed.

Lemma SD_set_objects_same s : set_objects (objects s) s = s.
Proof. destruct s; reflexivity. Qed.

(** The decision step rewrites the desire of the vehicle only, and picks a
    side only when the check of that side has answered true: never to the
    left of lane 0, never to the right of the last default lane. *)
Lemma SD_pick_direction_spec s lane i r d q :
  wf_HighwaySD (sim_road s) -> 0 <= lane < lanesSD s - 1 ->
  1 <= num_def_lanes (sim_road s) -> num_sd_lanes (sim_road s) = 1 ->
  0 <= i -> i + 5 < lenSD s -> 5 - i <= lenSD s ->
  objects s !! r = Some d ->
  exists dz,
    pick_direction lane i (Some r) q s
    = Ok (tt, set_objects (<[r := set_desire dz d]> (objects s)) s) /\
    (dz = desire d \/
     (dz = LANE_CHANGE_LEFT /\ 0 < lane) \/
     (dz = LANE_CHANGE_RIGHT /\ lane + 1 < lanesSD s - 1)).
Proof.
  intros Hwf Hl Hdef Hsd Hi Hfwd Hback Hobj.
  destruct (SD_safe_left_spec s lane i Hwf Hl Hi Hfwd Hback) as (bl & Hbl & Hleft).
  destruct (SD_safe_right_spec s lane i Hwf Hl Hdef Hsd Hi Hfwd Hback)
    as (br & Hbr & Hright).
  assert (Hstay : (ret tt : M Simulation unit) s
                  = Ok (tt, set_objects (<[r := set_desire (desire d) d]> (objects s)) s)).
  { rewrite SD_set_desire_same, (list_insert_id _ _ _ Hobj), SD_set_objects_same.
    reflexivity. }
  unfold pick_direction. rewrite (SD_bind_attr s r d desire _ Hobj).
  destruct (Desire_eqb (desire d) LANE_CHANGE
            && Qle_bool q LEFT_LANE_CHANGE_PROBABILITY).
  - rewrite (bind_lift_Ok (fun s0 => safe_left_lane_change (sim_road s0) lane i)
                          _ s bl Hbl).
    destruct bl.
    + exists LANE_CHANGE_LEFT. split; [apply SD_set_attr_eq; exact Hobj|].
      right. left. split; [reflexivity|auto].
    + rewrite (bind_lift_Ok (fun s0 => safe_right_lane_change (sim_road s0) lane i)
                            _ s br Hbr).
      destruct br.
      * exists LANE_CHANGE_RIGHT. split; [apply SD_set_attr_eq; exact Hobj|].
        right. right. split; [reflexivity|auto].
      * exists (desire d). split; [exact Hstay|]. left. reflexivity.
  - destruct (Desire_eqb (desire d) LANE_CHANGE
              && negb (Qle_bool q LEFT_LANE_CHANGE_PROBABILITY)).
    + rewrite (bind_lift_Ok (fun s0 => safe_right_lane_change (sim_road s0) lane i)
                            _ s br Hbr).
      destruct br.
      * exists LANE_CHANGE_RIGHT. split; [apply SD_set_attr_eq; exact Hobj|].
        right. right. split; [reflexivity|auto].
      * rewrite (bind_lift_Ok (fun s0 => safe_left_lane_change (sim_road s0) lane i)
                              _ s bl Hbl).
        destruct bl.
        -- exists LANE_CHANGE_LEFT. split; [apply SD_set_attr_eq; exact Hobj|].
           right. left. split; [reflexivity|auto].
        -- exists (desire d). split; [exact Hstay|]. left. reflexivity.
    + exists (desire d). split; [exact Hstay|]. left. reflexivity.
Qed.

End SD_driver.

Section SD_cruise.
Import sim_client_requests.
Variable rand : nat -> Q.
Variables (L N : Z) (n : nat) (now : Z).

Local Abbreviation at_rest := (fun (_ : nat) (d : Driver) => resting_SD d).

Lemma SD_put_walk s l i v :
  walk_SD L N n now now at_rest s -> 0 <= l < L -> 0 <= i < N ->
  (v = EMPTY \/ (l < L - 1 /\ exists r, v = Some r /\ (r < n)%nat)) ->
  twp (road_set l i v) (fun _ s' => walk_SD L N n now now at_rest s') s.
Proof.
  intros W Hl Hi Hv. eapply twp_eq.
  - apply SD_road_set_eq; [exact (wk_wf _ _ _ _ _ _ _ W)| |].
    + rewrite (wk_lanes _ _ _ _ _ _ _ W). exact Hl.
    + rewrite (wk_len _ _ _ _ _ _ _ W). exact Hi.
  - apply (SD_walk_put L N n now now); assumption.
Qed.

Lemma SD_wants_change_walk s r d :
  walk_SD L N n now now at_rest s -> objects s !! r = Some d ->
  walk_SD L N n now now at_rest
          (set_objects (<[r := set_desire LANE_CHANGE d]> (objects s)) s).
Proof.
  intros W Hobj. eapply SD_walk_update; eauto.
  right. reflexivity.
Qed.

(** The movement chain and the roll of [sim_cruise] keep the invariant: the
    vehicle is only ever written into its own lane. *)
Lemma SD_sim_cruise_walk s lane i r d :
  walk_SD L N n now now at_rest s -> 0 <= lane < L - 1 -> 0 <= i ->
  cellSD s lane i = Some r -> objects s !! r = Some d -> i + speed d < N ->
  twp (sim_cruise rand lane i) (fun _ s' => walk_SD L N n now now at_rest s') s.
Proof.
  intros W Hl Hi Hcell Hobj Hroom.
  pose proof (wk_wf _ _ _ _ _ _ _ W) as Hwf.
  pose proof (wk_lanes _ _ _ _ _ _ _ W) as Hlanes.
  pose proof (wk_len _ _ _ _ _ _ _ W) as Hlen.
  pose proof (wk_refs _ _ _ _ _ _ _ W _ _ _ Hcell) as Hr.
  pose proof (proj1 (Forall_lookup _ _) (wk_good _ _ _ _ _ _ _ W) r d Hobj) as Hgood.
  pose proof (SD_good_speed _ _ Hgood) as [Hspeed Hsf].
  assert (Hcar : Some r = EMPTY \/
                 (lane < L - 1 /\ exists r0 : nat, Some r = Some r0 /\ (r0 < n)%nat)).
  { right. split; [lia|]. exists r. auto. }
  assert (Hfinal : forall s', walk_SD L N n now now at_rest s' ->
                              twp (road_set lane i EMPTY)
                                  (fun _ s'' => walk_SD L N n now now at_rest s'') s').
  { intros s' W'. apply SD_put_walk; auto; lia. }
  unfold sim_cruise.
  apply (twp_bind_Ok _ _ _ _ _ _
           (SD_road_get_eq s lane i Hwf ltac:(lia) ltac:(lia))).
  rewrite Hcell.
  apply (twp_bind_Ok _ _ _ _ _ _ (SD_attr_eq s r d speed Hobj)).
  apply (twp_bind_Ok _ _ _ _ _ _ (SD_attr_eq s r d safe_follow Hobj)).
  assert (Hl' : 0 <= lane < num_def_lanes (sim_road s) + num_sd_lanes (sim_road s))
    by (unfold lanesSD in Hlanes; lia).
  destruct (distance_within_spec _ _ _ lane i (speed d + safe_follow d) Hwf
              Hl' Hi ltac:(lia)) as (x & Hx & Hb & _).
  apply (twp_bind_Ok _ _ _ _ _ _
           (lift_Ok (fun s0 => safe_distance_within (sim_road s0) lane i
                                 (speed d + safe_follow d)) s x Hx)).
  apply twp_bind.
  apply (twp_mono _ (fun _ s1 => walk_SD L N n now now at_rest s1)).
  - (* the movement chain, which has lost its else *)
    destruct (x =? speed d + safe_follow d) eqn:E1.
    + apply SD_put_walk; auto; lia.
    + destruct (safe_follow d <? x) eqn:E2.
      * apply (twp_bind_Ok _ _ _ _ _ _ (SD_set_attr_eq s r d _ Hobj)).
        apply SD_put_walk; auto; try lia.
        apply SD_wants_change_walk; assumption.
      * apply twp_ret. exact W.
  - (* the roll and its else, then the origin cell *)
    intros u s1 W1. cbv beta in *.
    destruct (SD_walk_lookup L N n now at_rest s1 r W1 Hr) as (d1 & Hobj1 & _ & _).
    set (s2 := set_draws (S (draws s1)) s1).
    assert (W2 : walk_SD L N n now now at_rest s2) by (eapply SD_walk_frame; eauto).
    apply (twp_bind_Ok (random_random rand) _ _ s1 (rand (draws s1)) s2 eq_refl).
    apply (twp_bind_Ok _ _ _ _ _ _ (SD_attr_eq s2 r d1 is_drunk Hobj1)).
    apply twp_bind.
    assert (Hlog : twp (log_crash (Some r))
                       (fun _ s' => twp (road_set lane i EMPTY)
                          (fun _ s'' => walk_SD L N n now now at_rest s'') s') s2).
    { eapply twp_eq; [apply (SD_log_crash_eq s2 r d1 Hobj1)|].
      apply Hfinal. eapply SD_walk_frame; eauto. }
    destruct (is_drunk d1).
    + destruct (Qlt_bool (rand (draws s1)) DRUNK_CRASH_PROB); [exact Hlog|].
      apply twp_ret. apply Hfinal. exact W2.
    + destruct (Qlt_bool (rand (draws s1)) CRASH_PROB); [exact Hlog|].
      apply (twp_bind_Ok _ _ _ _ _ _ (SD_set_attr_eq s2 r d1 _ Hobj1)).
      eapply twp_mono.
      * apply SD_put_walk; auto; try lia.
        apply SD_wants_change_walk; assumption.
      * intros u' s3 W3. cbv beta in *. apply Hfinal. exact W3.
Qed.

End SD_cruise.

Section SD_driver_walk.
Import sim_client_requests.
Variable rand : nat -> Q.
Variables (L N : Z) (n : nat) (now : Z).

Local Abbreviation at_rest := (fun (_ : nat) (d : Driver) => resting_SD d).

(** The lane-change branch, for a target lane [t] that is not the last
    lane. *)
Lemma SD_change_lane_walk (P : nat -> Driver -> Prop) s t lane i r d :
  walk_SD L N n now now P s ->
  (forall r' x, r' <> r -> P r' x -> resting_SD x) ->
  0 <= lane < L - 1 -> 0 <= t < L - 1 -> t <> lane ->
  0 <= i -> i + speed d < N -> objects s !! r = Some d ->
  twp (road_set t i (Some r) ;;; road_set lane i EMPTY ;;;
       set_attr (Some r) (set_desire CRUISE) ;;; sim_cruise rand t i)
      (fun _ s' => walk_SD L N n now now at_rest s') s.
Proof.
  intros W Hothers Hl Ht Hne Hi Hroom Hobj.
  pose proof (proj1 (Forall_lookup _ _) (wk_good _ _ _ _ _ _ _ W) r d Hobj) as Hgood.
  pose proof (SD_good_speed _ _ Hgood) as [Hspeed Hsf].
  assert (Hr : (r < n)%nat).
  { rewrite <- (wk_nobj _ _ _ _ _ _ _ W). apply (lookup_lt_Some _ _ _ Hobj). }
  assert (HiN : 0 <= i < N) by lia.
  destruct (SD_walk_put L N n now now P s t i (Some r) W ltac:(lia) HiN)
    as [W1 Hcells1].
  { right. split; [lia|]. exists r. auto. }
  set (s1 := putSD t i (Some r) s) in *.
  destruct (SD_walk_put L N n now now P s1 lane i EMPTY W1 ltac:(lia) HiN)
    as [W2 Hcells2]; [left; reflexivity|].
  set (s2 := putSD lane i EMPTY s1) in *.
  set (s3 := set_objects (<[r := set_desire CRUISE d]> (objects s2)) s2).
  assert (W3 : walk_SD L N n now now at_rest s3).
  { apply (SD_walk_update L N n now now P at_rest s2 r d); auto.
    left. reflexivity. }
  assert (Hobj3 : objects s3 !! r = Some (set_desire CRUISE d)).
  { apply list_lookup_insert_eq. apply (lookup_lt_Some _ _ _ Hobj). }
  assert (Hcell3 : cellSD s3 t i = Some r).
  { change (cellSD s3 t i) with (cellSD s2 t i). rewrite Hcells2, Hcells1.
    destruct (t =? lane) eqn:E; [lia|]. simpl. rewrite !Z.eqb_refl. reflexivity. }
  apply (twp_bind_Ok _ _ _ _ _ _
           (SD_road_set_eq s t i (Some r) (wk_wf _ _ _ _ _ _ _ W)
              ltac:(rewrite (wk_lanes _ _ _ _ _ _ _ W); lia)
              ltac:(rewrite (wk_len _ _ _ _ _ _ _ W); lia))).
  apply (twp_bind_Ok _ _ _ _ _ _
           (SD_road_set_eq s1 lane i EMPTY (wk_wf _ _ _ _ _ _ _ W1)
              ltac:(rewrite (wk_lanes _ _ _ _ _ _ _ W1); lia)
              ltac:(rewrite (wk_len _ _ _ _ _ _ _ W1); lia))).
  apply (twp_bind_Ok _ _ _ _ _ _ (SD_set_attr_eq s2 r d _ Hobj)).
  apply (SD_sim_cruise_walk rand L N n now s3 t i r (set_desire CRUISE d));
    auto.
Qed.

(** One call of [sim_driver] on a vehicle that is not in the last lane
    keeps the invariant. *)
Lemma SD_sim_driver_walk s lane i r :
  walk_SD L N n now now at_rest s -> 0 <= lane < L - 1 -> 0 <= i < N ->
  cellSD s lane i = Some r ->
  twp (sim_driver rand lane i) (fun _ s' => walk_SD L N n now now at_rest s') s.
Proof.
  intros W Hl Hi Hcell.
  pose proof (wk_wf _ _ _ _ _ _ _ W) as Hwf.
  pose proof (wk_lanes _ _ _ _ _ _ _ W) as Hlanes.
  pose proof (wk_len _ _ _ _ _ _ _ W) as Hlen.
  pose proof (wk_len5 _ _ _ _ _ _ _ W) as Hlen5.
  pose proof (wk_now _ _ _ _ _ _ _ W) as Hnow.
  pose proof (wk_refs _ _ _ _ _ _ _ W _ _ _ Hcell) as Hr.
  destruct (SD_walk_lookup L N n now at_rest s r W Hr) as (d & Hobj & Hgood & Hrest).
  pose proof (SD_good_speed _ _ Hgood) as [Hspeed Hsf].
  assert (Hl' : 0 <= lane < lanesSD s) by lia.
  assert (Hi' : 0 <= i < lenSD s) by lia.
  destruct (Z_le_dec (lenSD s - 1) (speed d + i)) as [Hexit|Hstay].
  - (* the vehicle leaves the highway *)
    eapply twp_eq.
    { rewrite (SD_sim_driver_exit rand s lane i r d) by auto.
      destruct Hgood as (_ & _ & Ht).
      apply (SD_leave_highway_eq s lane i r d); auto. lia. }
    destruct (SD_walk_put L N n now now at_rest s lane i EMPTY W ltac:(lia) Hi)
      as [W1 _]; [left; reflexivity|].
    unfold left_SD.
    apply (SD_walk_frame L N n now now at_rest
             (set_objects (<[r := exit_stampSD (current_step s) d]>
                             (objects (putSD lane i EMPTY s)))
                          (putSD lane i EMPTY s)));
      [|reflexivity|reflexivity|reflexivity].
    apply (SD_walk_update L N n now now at_rest at_rest (putSD lane i EMPTY s) r d);
      auto.
  - (* the vehicle stays on the road *)
    unfold sim_driver.
    apply (twp_bind_Ok _ _ _ _ _ _ (SD_road_get_eq s lane i Hwf Hl' Hi')).
    rewrite Hcell.
    apply (twp_bind_Ok _ _ _ _ _ _ (SD_attr_eq s r d speed Hobj)).
    apply twp_bind, twp_gets. fold (lenSD s).
    destruct (lenSD s - 1 <=? speed d + i) eqn:E; [lia|].
    set (s1 := set_draws (S (draws s)) s).
    assert (W1 : walk_SD L N n now now at_rest s1) by (eapply SD_walk_frame; eauto).
    apply (twp_bind_Ok (random_random rand) _ _ s (rand (draws s)) s1 eq_refl).
    apply twp_bind.
    eapply twp_mono;
      [apply (SD_crash_roll_walk rand L N n now at_rest s1 r d _ W1 Hobj)|].
    intros q s2 (W2 & Hroad2 & Hobjs2). cbv beta in *.
    assert (Hobj2 : objects s2 !! r = Some d) by (rewrite Hobjs2; exact Hobj).
    assert (Hcell2 : cellSD s2 lane i = Some r).
    { unfold cellSD. rewrite Hroad2. exact Hcell. }
    pose proof (wk_wf _ _ _ _ _ _ _ W2) as Hwf2.
    pose proof (wk_lanes _ _ _ _ _ _ _ W2) as Hlanes2.
    pose proof (wk_len _ _ _ _ _ _ _ W2) as Hlen2.
    destruct (SD_pick_direction_spec s2 lane i r d q Hwf2)
      as (dz & Hpick & Hdz); auto; try lia.
    { apply (wk_def _ _ _ _ _ _ _ W2). }
    { apply (wk_sd _ _ _ _ _ _ _ W2). }
    set (d3 := set_desire dz d) in *.
    set (s3 := set_objects (<[r := d3]> (objects s2)) s2) in *.
    apply (twp_bind_Ok _ _ _ _ _ _ Hpick).
    assert (Hobj3 : objects s3 !! r = Some d3).
    { apply list_lookup_insert_eq. apply (lookup_lt_Some _ _ _ Hobj2). }
    assert (Hcell3 : cellSD s3 lane i = Some r) by exact Hcell2.
    unfold act_on_desire.
    apply (twp_bind_Ok _ _ _ _ _ _ (SD_attr_eq s3 r d3 desire Hobj3)).
    change (desire d3) with dz.
    assert (W3 : walk_SD L N n now now (fun r' x => r' <> r -> resting_SD x) s3).
    { apply (SD_walk_update L N n now now at_rest _ s2 r d); auto.
      congruence. }
    assert (Hothers : forall (r' : nat) (x : Driver),
               r' <> r -> (r' <> r -> resting_SD x) -> resting_SD x) by auto.
    destruct Hdz as [Hdz | [(Hdz & Hlane) | (Hdz & Hlane)]].
    + (* no change of lane *)
      assert (W3' : walk_SD L N n now now at_rest s3).
      { apply (SD_walk_update L N n now now at_rest at_rest s2 r d); auto.
        unfold resting_SD. change (desire d3) with dz. rewrite Hdz. exact Hrest. }
      assert (Hgo : twp (sim_cruise rand lane i)
                        (fun _ s' => walk_SD L N n now now at_rest s') s3).
      { apply (SD_sim_cruise_walk rand L N n now s3 lane i r d3); auto; try lia.
        change (speed d3) with (speed d). lia. }
      destruct Hrest as [Hr'|Hr']; rewrite Hdz, Hr'; exact Hgo.
    + (* change to the left lane *)
      rewrite Hdz.
      apply (SD_change_lane_walk _ s3 (lane - 1) lane i r d3 W3 Hothers);
        auto; try lia.
      change (speed d3) with (speed d). lia.
    + (* change to the right lane *)
      rewrite Hdz.
      apply (SD_change_lane_walk _ s3 (lane + 1) lane i r d3 W3 Hothers);
        auto; try lia.
      change (speed d3) with (speed d). lia.
Qed.

End SD_driver_walk.

(** ** sim_client_requests: the whole tick *)

Section SD_tick.
Import sim_client_requests.
Variable rand : nat -> Q.
Variables def_car_prob sd_car_prob : Q.
Variables (L N : Z) (now : Z).

Local Abbreviation at_rest := (fun (_ : nat) (d : Driver) => resting_SD d).

Lemma SD_visit_walk n s i k :
  walk_SD L N n now now at_rest s -> 0 <= k < L -> 0 <= i < N ->
  twp (visit rand i k) (fun _ s' => walk_SD L N n now now at_rest s') s.
Proof.
  intros W Hk Hi. unfold visit.
  apply (twp_bind_Ok _ _ _ _ _ _
           (SD_road_get_eq s k i (wk_wf _ _ _ _ _ _ _ W)
              ltac:(rewrite (wk_lanes _ _ _ _ _ _ _ W); lia)
              ltac:(rewrite (wk_len _ _ _ _ _ _ _ W); lia))).
  destruct (cellSD s k i) as [r|] eqn:Hcell; simpl.
  - apply (SD_sim_driver_walk rand L N n now s k i r); auto.
    destruct (Z.eq_dec k (L - 1)) as [->|Hne]; [|lia].
    rewrite (wk_last _ _ _ _ _ _ _ W) in Hcell. discriminate.
  - apply twp_ret. exact W.
Qed.

Lemma SD_traversal_walk n s :
  walk_SD L N n now now at_rest s ->
  twp (for_each (py_range_rev (N - 1) (-1)) (fun i =>
         let* lanes := gets (fun s => num_def_lanes (sim_road s)
                                      + num_sd_lanes (sim_road s)) in
         for_each (py_range 0 lanes) (fun k => visit rand i k)))
      (fun _ s' => walk_SD L N n now now at_rest s') s.
Proof.
  intros W. unfold py_range_rev.
  apply (twp_for_down _ (fun _ s' => walk_SD L N n now now at_rest s')); [|exact W].
  intros i s' Hi W'. apply twp_bind, twp_gets. fold (lanesSD s').
  rewrite (wk_lanes _ _ _ _ _ _ _ W'). unfold py_range.
  apply (twp_for_up _ (fun _ s'' => walk_SD L N n now now at_rest s'')); [|exact W'].
  intros k s'' Hk W''. apply SD_visit_walk; [exact W''|lia|lia].
Qed.

Lemma SD_walk_alloc n bound s d :
  walk_SD L N n now bound at_rest s -> good_driver_SD bound d -> resting_SD d ->
  walk_SD L N (S n) now bound at_rest (set_objects (objects s ++ [d]) s).
Proof.
  intros [Hwf Hdef Hsd Hlanes Hlen Hlen5 Hnow Hnobj Hgood HP Hrefs Hlast] Hgd Hrd.
  constructor; auto.
  - simpl. rewrite length_app. simpl. lia.
  - simpl. apply Forall_app. split; [exact Hgood|]. constructor; [exact Hgd|constructor].
  - intros r x Hx. simpl in Hx. apply lookup_app_Some in Hx as [Hx|[_ Hx]].
    + eauto.
    + destruct (r - length (objects s))%nat; simpl in Hx; [|discriminate].
      inversion Hx; subst. exact Hrd.
  - intros l j r Hc. apply Hrefs in Hc. lia.
Qed.

Lemma SD_gen_def_lane_eq s lane id :
  wf_HighwaySD (sim_road s) -> 0 <= lane < lanesSD s -> 0 < lenSD s ->
  gen_def_lane rand def_car_prob lane id s =
    if Qlt_bool (rand (draws s)) def_car_prob
    then Ok (id + 1,
             putSD lane 0 (Some (length (objects s)))
                   (set_objects (objects s ++ [arrival_def_SD rand id s])
                                (set_draws (S (S (S (draws s)))) s)))
    else Ok (id, set_draws (S (draws s)) s).
Proof.
  intros Hwf Hl Hlen. unfold gen_def_lane.
  rewrite (bind_Ok _ _ _ _ _ eq_refl).
  destruct (Qlt_bool (rand (draws s)) def_car_prob); [|reflexivity].
  rewrite (bind_Ok _ _ _ _ _ eq_refl). rewrite (bind_Ok _ _ _ _ _ eq_refl).
  rewrite bind_gets. rewrite (bind_Ok _ _ _ _ _ eq_refl).
  erewrite bind_Ok
    by (apply SD_road_set_eq; [exact Hwf|exact Hl|unfold lenSD in *; simpl; lia]).
  reflexivity.
Qed.

Lemma SD_gen_sd_lane_eq s lane id :
  wf_HighwaySD (sim_road s) ->
  0 <= lane + num_def_lanes (sim_road s) - 1 < lanesSD s -> 0 < lenSD s ->
  gen_sd_lane rand sd_car_prob lane id s =
    if Qlt_bool (rand (draws s)) sd_car_prob
    then Ok (id + 1,
             putSD (lane + num_def_lanes (sim_road s) - 1) 0
                   (Some (length (objects s)))
                   (set_objects (objects s ++ [arrival_sd_SD id s])
                                (set_draws (S (S (draws s))) s)))
    else Ok (id, set_draws (S (draws s)) s).
Proof.
  intros Hwf Hl Hlen. unfold gen_sd_lane.
  rewrite (bind_Ok _ _ _ _ _ eq_refl).
  destruct (Qlt_bool (rand (draws s)) sd_car_prob); [|reflexivity].
  rewrite (bind_Ok _ _ _ _ _ eq_refl).
  rewrite bind_gets. rewrite (bind_Ok _ _ _ _ _ eq_refl). rewrite bind_gets.
  erewrite bind_Ok
    by (apply SD_road_set_eq; [exact Hwf|exact Hl|unfold lenSD in *; simpl; lia]).
  reflexivity.
Qed.

(** An arrival written into the entry cell of a lane that is not the last
    one keeps the invariant. *)
Lemma SD_arrival_walk n s s1 lane d :
  walk_SD L N n now (now + 1) at_rest s ->
  sim_road s1 = sim_road s -> objects s1 = objects s ->
  current_step s1 = current_step s ->
  0 <= lane < L - 1 ->
  good_driver_SD (now + 1) d -> resting_SD d ->
  walk_SD L N (S n) now (now + 1) at_rest
          (putSD lane 0 (Some n) (set_objects (objects s1 ++ [d]) s1)).
Proof.
  intros W Hr Ho Hc Hl Hgd Hrd.
  assert (W1 : walk_SD L N n now (now + 1) at_rest s1)
    by (apply (SD_walk_frame L N n now (now + 1) at_rest s s1); auto).
  pose proof (SD_walk_alloc n (now + 1) s1 d W1 Hgd Hrd) as W2.
  apply (SD_walk_put L N (S n) now (now + 1) at_rest _ lane 0 (Some n) W2);
    [lia|pose proof (wk_len5 _ _ _ _ _ _ _ W); lia|].
  right. split; [lia|]. exists n. split; [reflexivity|lia].
Qed.

Lemma SD_gen_new_drivers_walk n s num :
  walk_SD L N n now (now + 1) at_rest s ->
  twp (gen_new_drivers rand def_car_prob sd_car_prob num)
      (fun _ s' => exists n', walk_SD L N n' now (now + 1) at_rest s') s.
Proof.
  intros W. unfold gen_new_drivers.
  assert (Hdef_step : forall k id s' ,
             0 <= k < L - 1 ->
             (exists n', walk_SD L N n' now (now + 1) at_rest s') ->
             twp (gen_def_lane rand def_car_prob k id)
                 (fun _ s'' => exists n', walk_SD L N n' now (now + 1) at_rest s'') s').
  { intros k id s' Hk [n' W']. unfold twp.
    rewrite (SD_gen_def_lane_eq s' k id (wk_wf _ _ _ _ _ _ _ W'))
      by (rewrite ?(wk_lanes _ _ _ _ _ _ _ W'), ?(wk_len _ _ _ _ _ _ _ W');
          pose proof (wk_len5 _ _ _ _ _ _ _ W'); lia).
    destruct (Qlt_bool (rand (draws s')) def_car_prob);
      (eexists _, _; split; [reflexivity|]).
    - pose proof (wk_nobj _ _ _ _ _ _ _ W') as Hn. subst n'.
      exists (S (length (objects s'))).
      apply (SD_arrival_walk (length (objects s')) s'
                             (set_draws (S (S (S (draws s')))) s')); auto.
      + unfold good_driver_SD, arrival_def_SD. simpl.
        rewrite (wk_now _ _ _ _ _ _ _ W'). repeat split; auto; try lia.
        destruct (Qlt_bool _ FAST_PROBABILITY); auto.
      + left. reflexivity.
    - exists n'. apply (SD_walk_frame L N n' now (now + 1) at_rest s'); auto. }
  assert (Hsd_step : forall k id s',
             k = 0 ->
             (exists n', walk_SD L N n' now (now + 1) at_rest s') ->
             twp (gen_sd_lane rand sd_car_prob k id)
                 (fun _ s'' => exists n', walk_SD L N n' now (now + 1) at_rest s'') s').
  { intros k id s' -> [n' W']. unfold twp.
    pose proof (wk_def _ _ _ _ _ _ _ W') as Hdef.
    pose proof (wk_sd _ _ _ _ _ _ _ W') as Hsd.
    pose proof (wk_lanes _ _ _ _ _ _ _ W') as Hlanes.
    assert (HL : L = num_def_lanes (sim_road s') + 1)
      by (unfold lanesSD in Hlanes; lia).
    rewrite (SD_gen_sd_lane_eq s' 0 id (wk_wf _ _ _ _ _ _ _ W'))
      by (rewrite ?Hlanes, ?(wk_len _ _ _ _ _ _ _ W');
          pose proof (wk_len5 _ _ _ _ _ _ _ W'); lia).
    destruct (Qlt_bool (rand (draws s')) sd_car_prob);
      (eexists _, _; split; [reflexivity|]).
    - pose proof (wk_nobj _ _ _ _ _ _ _ W') as Hn. subst n'.
      exists (S (length (objects s'))).
      apply (SD_arrival_walk (length (objects s')) s'
                             (set_draws (S (S (draws s'))) s')); auto; try lia.
      + unfold good_driver_SD, arrival_sd_SD. simpl.
        rewrite (wk_now _ _ _ _ _ _ _ W'). repeat split; auto; lia.
      + left. reflexivity.
    - exists n'. apply (SD_walk_frame L N n' now (now + 1) at_rest s'); auto. }
  pose proof (wk_def _ _ _ _ _ _ _ W) as Hdef.
  pose proof (wk_sd _ _ _ _ _ _ _ W) as Hsd.
  pose proof (wk_lanes _ _ _ _ _ _ _ W) as Hlanes.
  apply twp_bind, twp_gets. apply twp_bind. unfold py_range.
  eapply twp_mono.
  - apply (twp_fold_up (gen_def_lane rand def_car_prob)
             (fun _ _ s' => (exists n', walk_SD L N n' now (now + 1) at_rest s') /\
                            num_sd_lanes (sim_road s') = 1)).
    + intros k id s' Hk [HW Hone].
      eapply twp_mono; [apply Hdef_step; [|exact HW]|].
      * unfold lanesSD in Hlanes. lia.
      * intros id' s'' [n'' W'']. split; [eauto|].
        apply (wk_sd _ _ _ _ _ _ _ W'').
    + split; [eauto|exact Hsd].
  - intros id s' [HW Hone]. cbv beta in *.
    apply twp_bind, twp_gets. rewrite Hone.
    eapply twp_mono.
    + apply (twp_fold_up (gen_sd_lane rand sd_car_prob)
               (fun _ _ s'' => exists n', walk_SD L N n' now (now + 1) at_rest s'')).
      * intros k id' s'' Hk HW''. apply Hsd_step; [lia|exact HW''].
      * exact HW.
    + intros id' s'' HW''. exact HW''.
Qed.

End SD_tick.

Section SD_run.
Import sim_client_requests.
Variable rand : nat -> Q.
Variables def_car_prob sd_car_prob : Q.

Local Abbreviation at_rest := (fun (_ : nat) (d : Driver) => resting_SD d).

Lemma SD_walk_is_inv L N n now s :
  walk_SD L N n now now at_rest s -> state_inv_SD s.
Proof.
  intros W. unfold state_inv_SD.
  rewrite (wk_lanes _ _ _ _ _ _ _ W), (wk_len _ _ _ _ _ _ _ W),
    (wk_nobj _ _ _ _ _ _ _ W), (wk_now _ _ _ _ _ _ _ W).
  exact W.
Qed.

Lemma SD_walk_bound L N n now s :
  walk_SD L N n now now at_rest s -> walk_SD L N n now (now + 1) at_rest s.
Proof.
  intros [Hwf Hdef Hsd Hlanes Hlen Hlen5 Hnow Hnobj Hgood HP Hrefs Hlast].
  constructor; auto.
  eapply Forall_impl; [exact Hgood|].
  intros d (H1 & H2 & H3). repeat split; auto. lia.
Qed.

Lemma SD_walk_next_tick L N n now s k :
  walk_SD L N n now (now + 1) at_rest s ->
  walk_SD L N n (now + 1) (now + 1) at_rest
          (set_current_step (current_step s + 1) (set_num_cars k s)).
Proof.
  intros [Hwf Hdef Hsd Hlanes Hlen Hlen5 Hnow Hnobj Hgood HP Hrefs Hlast].
  constructor; auto. simpl. lia.
Qed.

(** One iteration of [run] returns and keeps the invariant. *)
Lemma SD_run_step_spec s :
  state_inv_SD s ->
  twp (run_step rand def_car_prob sd_car_prob) (fun _ s' => state_inv_SD s') s.
Proof.
  unfold state_inv_SD. intros W.
  unfold run_step, execute_time_step.
  apply twp_bind. apply twp_bind, twp_gets. fold (lenSD s). apply twp_bind.
  eapply twp_mono; [apply (SD_traversal_walk rand _ _ _ _ s W)|].
  intros u st Wt. cbv beta in *.
  apply twp_bind, twp_gets. apply twp_bind.
  eapply twp_mono;
    [apply (SD_gen_new_drivers_walk rand def_car_prob sd_car_prob _ _ _ _ st
              (num_cars st) (SD_walk_bound _ _ _ _ _ Wt))|].
  intros n' s1 [n1 W1]. cbv beta in *. apply twp_modify. apply twp_modify.
  eapply SD_walk_is_inv. exact (SD_walk_next_tick _ _ _ _ s1 n' W1).
Qed.

Lemma SD_new_Simulation_inv time_steps : state_inv_SD (new_Simulation time_steps).
Proof.
  assert (Hempty : forall l j, cellSD (new_Simulation time_steps) l j = EMPTY)
    by (intros l j; apply at_empty_road).
  unfold state_inv_SD. constructor; try reflexivity.
  - apply (wf_empty_road (NUM_DEF_LANES + NUM_SD_LANES) HIGHWAY_LENGTH);
      unfold NUM_DEF_LANES, NUM_SD_LANES, HIGHWAY_LENGTH; lia.
  - simpl. unfold NUM_DEF_LANES. lia.
  - unfold lenSD. simpl. unfold HIGHWAY_LENGTH. lia.
  - constructor.
  - intros r d Hd. simpl in Hd. rewrite lookup_nil in Hd. discriminate.
  - intros l j r Hc. rewrite Hempty in Hc. discriminate.
  - intros j. apply Hempty.
Qed.

Lemma SD_reachable_inv s :
  reachable_SD rand def_car_prob sd_car_prob s -> state_inv_SD s.
Proof.
  induction 1 as [ts|s s' _ IH Hstep].
  - apply SD_new_Simulation_inv.
  - destruct (SD_run_step_spec s IH) as (u & s'' & Heq & SI).
    rewrite Heq in Hstep. inversion Hstep; subst. exact SI.
Qed.

End SD_run.

(** ** The last lane of sim_client_requests *)

(** C10. In every state of a run of sim_client_requests (three default
    lanes, one self-driving lane), whatever the random stream and the arrival
    probabilities: the next tick returns, and every cell of the
    highest-index lane, [num_def_lanes + num_sd_lanes - 1], reads EMPTY.
    The two reasons, as in the code: the arrival of the self-driving lane
    [lane] is written at [lane + num_def_lanes - 1], and the rightward check
    out of lane [num_def_lanes - 1] answers false. *)
Theorem last_lane_stays_empty :
  forall (rand : nat -> Q) (def_car_prob sd_car_prob : Q)
         (s : sim_client_requests.Simulation),
    reachable_SD rand def_car_prob sd_car_prob s ->
    (exists s',
        sim_client_requests.run_step rand def_car_prob sd_car_prob s = Ok (tt, s')) /\
    (forall j,
        0 <= j < lenSD s ->
        sim_client_requests.Highway_get
          (sim_client_requests.sim_road s)
          (sim_client_requests.num_def_lanes (sim_client_requests.sim_road s)
           + sim_client_requests.num_sd_lanes (sim_client_requests.sim_road s) - 1)
          j = Ok EMPTY) /\
    (forall lane id,
        0 <= lane < sim_client_requests.num_sd_lanes (sim_client_requests.sim_road s) ->
        Qlt_bool (rand (sim_client_requests.draws s)) sd_car_prob = true ->
        exists s',
          sim_client_requests.gen_sd_lane rand sd_car_prob lane id s
          = Ok (id + 1, s') /\
          forall l j,
            cellSD s' l j =
            if (l =? lane + sim_client_requests.num_def_lanes
                              (sim_client_requests.sim_road s) - 1) && (j =? 0)
            then Some (length (sim_client_requests.objects s))
            else cellSD s l j) /\
    (forall i,
        sim_client_requests.safe_right_lane_change
          (sim_client_requests.sim_road s)
          (sim_client_requests.num_def_lanes (sim_client_requests.sim_road s) - 1) i
        = Ok false).
Proof.
  intros rand dcp scp s Hreach.
  pose proof (SD_reachable_inv rand dcp scp s Hreach) as W.
  unfold state_inv_SD in W.
  pose proof (wk_wf _ _ _ _ _ _ _ W) as Hwf.
  pose proof (wk_def _ _ _ _ _ _ _ W) as Hdef.
  pose proof (wk_sd _ _ _ _ _ _ _ W) as Hsd.
  pose proof (wk_len5 _ _ _ _ _ _ _ W) as Hlen5.
  split; [|split; [|split]].
  - destruct (SD_run_step_spec rand dcp scp s W) as ([] & s' & Heq & _).
    exists s'. exact Heq.
  - intros j Hj. unfold sim_client_requests.Highway_get.
    rewrite (grid_get_in _ _ _ _ _ Hwf) by (fold (lenSD s); lia).
    f_equal. apply (wk_last _ _ _ _ _ _ _ W j).
  - intros lane id Hlane Hhit.
    assert (Hl : 0 <= lane + sim_client_requests.num_def_lanes
                               (sim_client_requests.sim_road s) - 1 < lanesSD s)
      by (unfold lanesSD; lia).
    rewrite (SD_gen_sd_lane_eq rand scp s lane id Hwf Hl ltac:(lia)). rewrite Hhit.
    eexists. split; [reflexivity|].
    apply (SD_put_spec _ _ 0 _ Hwf Hl). unfold lenSD in *. simpl. lia.
  - intros i. apply safe_right_lane_change_last_SD.
Qed.

Lemma after_SD_reachable : reachable_SD three_ticks (1 # 10) (1 # 10) (after_SD 2).
Proof.
  apply (reach_step_SD _ _ _ (after_SD 1)).
  - apply (reach_step_SD _ _ _ (sim_client_requests.new_Simulation 3)).
    + apply reach_init_SD.
    + vm_compute. reflexivity.
  - vm_compute. reflexivity.
Defined.

Lemma last_lane_stays_empty_witness :
  cellSD (after_SD 2) 0 4 = Some O /\
  forall j,
    0 <= j < lenSD (after_SD 2) ->
    sim_client_requests.Highway_get
      (sim_client_requests.sim_road (after_SD 2))
      (sim_client_requests.num_def_lanes (sim_client_requests.sim_road (after_SD 2))
       + sim_client_requests.num_sd_lanes (sim_client_requests.sim_road (after_SD 2))
       - 1)
      j = Ok EMPTY.
Proof.
  split; [vm_compute; reflexivity|].
  exact (proj1 (proj2 (last_lane_stays_empty three_ticks (1 # 10) (1 # 10)
                                             (after_SD 2) after_SD_reachable))).
Defined.

(** * Further properties of the code *)

(** ** Indexing: Highway.get and Highway.set *)

(** An index accepted by Python denotes the cell [k mod len]. *)
Lemma py_norm_mod (len : nat) (k : Z) :
  - Z.of_nat len <= k < Z.of_nat len ->
  py_norm len k = Some (Z.to_nat (k mod Z.of_nat len)).
Proof.
  intros H. destruct (Z_lt_dec k 0) as [Hn|Hp].
  - rewrite py_norm_neg by lia. f_equal. f_equal.
    apply Z.mod_unique with (q := -1); lia.
  - rewrite py_norm_in by lia. f_equal. f_equal.
    symmetry. apply Z.mod_small. lia.
Qed.

Lemma grid_get_mod road lanes len lane index :
  wf_grid road lanes len ->
  - lanes <= lane < lanes -> - len <= index < len ->
  grid_get road lane index = Ok (at_ road (lane mod lanes) (index mod len)).
Proof.
  intros [Hl Hrows] Hlane Hidx. unfold grid_get, py_getitem.
  rewrite py_norm_mod by lia. rewrite Hl.
  assert (Hm : 0 <= lane mod lanes < lanes) by (apply Z.mod_pos_bound; lia).
  assert (Hi : 0 <= index mod len < len) by (apply Z.mod_pos_bound; lia).
  destruct (road !! Z.to_nat (lane mod lanes)) as [row|] eqn:Hrow.
  2:{ apply lookup_ge_None in Hrow. lia. }
  simpl. pose proof (proj1 (Forall_lookup _ _) Hrows _ _ Hrow) as Hlen. simpl in Hlen.
  rewrite py_norm_mod by lia. rewrite Hlen.
  destruct (row !! Z.to_nat (index mod len)) as [c|] eqn:Hc.
  2:{ apply lookup_ge_None in Hc. lia. }
  unfold at_. replace (0 <=? lane mod lanes) with true by (symmetry; apply Z.leb_le; lia).
  replace (0 <=? index mod len) with true by (symmetry; apply Z.leb_le; lia).
  simpl. rewrite Hrow, Hc. reflexivity.
Qed.

Lemma grid_set_mod road lanes len lane index v :
  wf_grid road lanes len ->
  - lanes <= lane < lanes -> - len <= index < len ->
  grid_set road lane index v = Ok (grid_put road (lane mod lanes) (index mod len) v).
Proof.
  intros [Hl Hrows] Hlane Hidx. unfold grid_set, py_getitem, py_setitem, grid_put.
  rewrite py_norm_mod by lia. rewrite Hl.
  assert (Hm : 0 <= lane mod lanes < lanes) by (apply Z.mod_pos_bound; lia).
  assert (Hi : 0 <= index mod len < len) by (apply Z.mod_pos_bound; lia).
  destruct (road !! Z.to_nat (lane mod lanes)) as [row|] eqn:Hrow.
  2:{ apply lookup_ge_None in Hrow. lia. }
  simpl. pose proof (proj1 (Forall_lookup _ _) Hrows _ _ Hrow) as Hlen. simpl in Hlen.
  rewrite py_norm_mod by lia. rewrite Hlen. reflexivity.
Qed.

Lemma grid_index_error road lanes len lane index :
  wf_grid road lanes len ->
  ~ (- lanes <= lane < lanes /\ - len <= index < len) ->
  grid_get road lane index = Raise IndexError /\
  forall v, grid_set road lane index v = Raise IndexError.
Proof.
  intros [Hl Hrows] Hout. unfold grid_get, grid_set, py_getitem, py_setitem.
  destruct (py_norm (length road) lane) as [n|] eqn:Hn.
  2:{ split; [reflexivity | intros; reflexivity]. }
  assert (Hin : - lanes <= lane < lanes).
  { destruct (Z_lt_dec lane (- lanes)) as [?|?];
      [rewrite py_norm_out in Hn by lia; discriminate|].
    destruct (Z_le_dec lanes lane) as [?|?];
      [rewrite py_norm_out in Hn by lia; discriminate|]. lia. }
  destruct (road !! n) as [row|] eqn:Hrow; [|split; [reflexivity|intros; reflexivity]].
  simpl. pose proof (proj1 (Forall_lookup _ _) Hrows _ _ Hrow) as Hlen. simpl in Hlen.
  rewrite py_norm_out by lia. split; [reflexivity | intros; reflexivity].
Qed.

(** X1. Highway.set followed by Highway.get, in highway_sim_V2: for a lane
    and an index that Python accepts (negative ones count from the end),
    [set] succeeds and keeps the shape of the road, [get] at the same place
    returns the value written, and [get] at every place that denotes another
    cell returns what it returned before. *)
Theorem Highway_set_then_get (h : highway_sim_V2.Highway) (lane index : Z) (v : cell) :
  wf_HighwayV2 h ->
  - highway_sim_V2.num_lanes h <= lane < highway_sim_V2.num_lanes h ->
  - highway_sim_V2.hw_length h <= index < highway_sim_V2.hw_length h ->
  exists h',
    highway_sim_V2.Highway_set h lane index v = Ok h' /\
    wf_HighwayV2 h' /\
    highway_sim_V2.num_lanes h' = highway_sim_V2.num_lanes h /\
    highway_sim_V2.hw_length h' = highway_sim_V2.hw_length h /\
    highway_sim_V2.Highway_get h' lane index = Ok v /\
    forall l j,
      - highway_sim_V2.num_lanes h <= l < highway_sim_V2.num_lanes h ->
      - highway_sim_V2.hw_length h <= j < highway_sim_V2.hw_length h ->
      l mod highway_sim_V2.num_lanes h <> lane mod highway_sim_V2.num_lanes h \/
      j mod highway_sim_V2.hw_length h <> index mod highway_sim_V2.hw_length h ->
      highway_sim_V2.Highway_get h' l j = highway_sim_V2.Highway_get h l j.
Proof.
  intros Hwf Hlane Hidx.
  set (L := highway_sim_V2.num_lanes h) in *.
  set (N := highway_sim_V2.hw_length h) in *.
  assert (Hm : 0 <= lane mod L < L) by (apply Z.mod_pos_bound; lia).
  assert (Hi : 0 <= index mod N < N) by (apply Z.mod_pos_bound; lia).
  destruct (grid_put_spec (highway_sim_V2.road h) L N (lane mod L) (index mod N) v
              Hwf Hm Hi) as [Hwf' Hcells].
  unfold highway_sim_V2.Highway_set.
  rewrite (grid_set_mod _ L N) by assumption. simpl.
  eexists. split; [reflexivity|].
  unfold highway_sim_V2.Highway_get, wf_HighwayV2. simpl. fold L N.
  split; [exact Hwf'|]. split; [reflexivity|]. split; [reflexivity|]. split.
  - rewrite (grid_get_mod _ L N) by assumption. rewrite Hcells.
    rewrite !Z.eqb_refl. reflexivity.
  - intros l j Hl Hj Hne.
    rewrite !(grid_get_mod _ L N) by assumption.
    rewrite Hcells.
    destruct (l mod L =? lane mod L) eqn:E1; [|reflexivity].
    destruct (j mod N =? index mod N) eqn:E2; [|reflexivity].
    apply Z.eqb_eq in E1, E2. exfalso. destruct Hne; congruence.
Qed.

Lemma Highway_set_then_get_witness :
  exists h',
    highway_sim_V2.Highway_set empty_V2 (-1) (-2) (Some 7%nat) = Ok h' /\
    highway_sim_V2.Highway_get h' 3 108 = Ok (Some 7%nat).
Proof.
  destruct (Highway_set_then_get empty_V2 (-1) (-2) (Some 7%nat))
    as (h' & Hset & _ & _ & _ & Hget & Hframe).
  - apply (wf_empty_road 4 110); lia.
  - simpl. lia.
  - simpl. lia.
  - exists h'. split; [exact Hset|].
    vm_compute in Hset. injection Hset as <-. reflexivity.
Defined.

(** X2. Highway.get and Highway.set of highway_sim_V2 raise IndexError
    exactly outside Python's index range: when the lane is not in
    [-num_lanes, num_lanes) or the index is not in [-length, length). *)
Theorem Highway_index_errors (h : highway_sim_V2.Highway) (lane index : Z) (v : cell) :
  wf_HighwayV2 h ->
  (highway_sim_V2.Highway_get h lane index = Raise IndexError <->
   ~ (- highway_sim_V2.num_lanes h <= lane < highway_sim_V2.num_lanes h /\
      - highway_sim_V2.hw_length h <= index < highway_sim_V2.hw_length h)) /\
  (highway_sim_V2.Highway_set h lane index v = Raise IndexError <->
   ~ (- highway_sim_V2.num_lanes h <= lane < highway_sim_V2.num_lanes h /\
      - highway_sim_V2.hw_length h <= index < highway_sim_V2.hw_length h)).
Proof.
  intros Hwf. unfold highway_sim_V2.Highway_get, highway_sim_V2.Highway_set. split; split.
  - intros Herr [Hl Hi]. rewrite (grid_get_mod _ _ _ _ _ Hwf Hl Hi) in Herr. discriminate.
  - intros Hout. apply (grid_index_error _ _ _ _ _ Hwf Hout).
  - intros Herr [Hl Hi]. rewrite (grid_set_mod _ _ _ _ _ _ Hwf Hl Hi) in Herr. discriminate.
  - intros Hout. rewrite (proj2 (grid_index_error _ _ _ _ _ Hwf Hout)). reflexivity.
Qed.

Lemma Highway_index_errors_witness :
  highway_sim_V2.Highway_get empty_V2 0 110 = Raise IndexError /\
  highway_sim_V2.Highway_set empty_V2 4 0 (Some O) = Raise IndexError.
Proof.
  split.
  - apply (proj1 (Highway_index_errors empty_V2 0 110 EMPTY
                    ltac:(apply (wf_empty_road 4 110); lia))).
    simpl. lia.
  - apply (proj2 (Highway_index_errors empty_V2 4 0 (Some O)
                    ltac:(apply (wf_empty_road 4 110); lia))).
    simpl. lia.
Defined.

(** ** The gap measurement *)

Lemma distance_loop_stop road lanes len lane k :
  wf_grid road lanes len -> 0 <= lane < lanes ->
  forall n a x r,
    0 <= a -> k = x + Z.of_nat n ->
    distance_loop road len lane k (range_up a n) x = Ok r -> r < k ->
    a + (r - x) < len /\ at_ road lane (a + (r - x)) <> EMPTY.
Proof.
  intros Hwf Hlane. induction n as [|n IH]; intros a x r Ha Hk Hrun Hlt.
  - simpl in Hrun. injection Hrun as <-. lia.
  - simpl in Hrun. destruct (len <=? a) eqn:E.
    + injection Hrun as <-. lia.
    + apply Z.leb_gt in E.
      rewrite (grid_get_in road lanes len) in Hrun by (auto; lia). simpl in Hrun.
      destruct (at_ road lane a) as [v|] eqn:Hc; simpl in Hrun.
      * injection Hrun as <-. replace (a + (x - x)) with a by lia.
        split; [lia|]. rewrite Hc. discriminate.
      * destruct (IH (a + 1) (x + 1) r ltac:(lia) ltac:(lia) Hrun Hlt) as [H1 H2].
        replace (a + (r - x)) with (a + 1 + (r - (x + 1))) by lia. auto.
Qed.

(** X3. safe_distance_within of sim_client_requests stops at the first
    vehicle: on a well-formed road, for a position and a bound that are not
    negative, it returns some [x] between 0 and [k]; the [x] cells after
    the position that lie on the road are empty; and when [x < k] the cell
    [pos + x + 1] lies on the road and is occupied. *)
Theorem clear_run_stops_at_first_vehicle
        (h : sim_client_requests.Highway) (lane pos k : Z) :
  wf_HighwaySD h ->
  0 <= lane < sim_client_requests.num_def_lanes h + sim_client_requests.num_sd_lanes h ->
  0 <= pos -> 0 <= k ->
  exists x,
    sim_client_requests.safe_distance_within h lane pos k = Ok x /\
    0 <= x <= k /\
    (forall j, pos < j <= pos + x -> j < sim_client_requests.hw_length h ->
               at_ (sim_client_requests.road h) lane j = EMPTY) /\
    (x < k ->
     pos + x + 1 < sim_client_requests.hw_length h /\
     at_ (sim_client_requests.road h) lane (pos + x + 1) <> EMPTY).
Proof.
  intros Hwf Hlane Hpos Hk.
  destruct (distance_within_spec _ _ _ lane pos k Hwf Hlane Hpos Hk)
    as (x & Hrun & Hx & _ & _ & Hclear).
  exists x. split; [exact Hrun|]. split; [exact Hx|]. split; [exact Hclear|].
  intros Hlt. unfold distance_within, py_range in Hrun.
  destruct (distance_loop_stop _ _ _ lane k Hwf Hlane
              (Z.to_nat (pos + k + 1 - (pos + 1))) (pos + 1) 0 x
              ltac:(lia) ltac:(lia) Hrun Hlt) as [H1 H2].
  replace (pos + 1 + (x - 0)) with (pos + x + 1) in * by lia. auto.
Qed.

Lemma clear_run_stops_at_first_vehicle_witness :
  exists x,
    sim_client_requests.safe_distance_within
      (sim_client_requests.sim_road (two_cars_SD false)) 0 0 9 = Ok x /\
    0 <= x <= 9 /\
    (forall j, 0 < j <= 0 + x ->
               j < sim_client_requests.hw_length
                     (sim_client_requests.sim_road (two_cars_SD false)) ->
               at_ (sim_client_requests.road
                      (sim_client_requests.sim_road (two_cars_SD false))) 0 j = EMPTY) /\
    (x < 9 ->
     0 + x + 1 < sim_client_requests.hw_length
                   (sim_client_requests.sim_road (two_cars_SD false)) /\
     at_ (sim_client_requests.road
            (sim_client_requests.sim_road (two_cars_SD false))) 0 (0 + x + 1) <> EMPTY).
Proof.
  apply (clear_run_stops_at_first_vehicle
           (sim_client_requests.sim_road (two_cars_SD false)) 0 0 9).
  - split; [reflexivity|]. repeat constructor.
  - vm_compute. split; [discriminate | reflexivity].
  - lia.
  - lia.
Defined.

(** X4. Edge cases of safe_distance_within in highway_sim_V2.  With a bound
    [k <= 0] the loop does not run and the result is 0, whatever the lane
    and the position.  With [k >= 1] and a position whose successor is off
    the road the result is [k], without any cell being read.  Otherwise the
    first cell is read, and a lane that Python does not accept raises
    IndexError. *)
Theorem clear_run_edge_cases (h : highway_sim_V2.Highway) (lane pos k : Z) :
  (k <= 0 -> highway_sim_V2.safe_distance_within h lane pos k = Ok 0) /\
  (1 <= k -> highway_sim_V2.hw_length h <= pos + 1 ->
   highway_sim_V2.safe_distance_within h lane pos k = Ok k) /\
  (wf_HighwayV2 h -> 1 <= k -> 0 <= pos -> pos + 1 < highway_sim_V2.hw_length h ->
   ~ (- highway_sim_V2.num_lanes h <= lane < highway_sim_V2.num_lanes h) ->
   highway_sim_V2.safe_distance_within h lane pos k = Raise IndexError).
Proof.
  unfold highway_sim_V2.safe_distance_within, distance_within, py_range.
  split; [|split].
  - intros Hk. replace (Z.to_nat (pos + k + 1 - (pos + 1))) with O by lia. reflexivity.
  - intros Hk Hend.
    destruct (Z.to_nat (pos + k + 1 - (pos + 1))) as [|n] eqn:E; [lia|].
    simpl. replace (highway_sim_V2.hw_length h <=? pos + 1) with true
      by (symmetry; apply Z.leb_le; lia). reflexivity.
  - intros Hwf Hk Hpos Hin Hlane.
    destruct (Z.to_nat (pos + k + 1 - (pos + 1))) as [|n] eqn:E; [lia|].
    simpl. replace (highway_sim_V2.hw_length h <=? pos + 1) with false
      by (symmetry; apply Z.leb_gt; lia).
    rewrite (proj1 (grid_index_error _ _ _ lane (pos + 1) Hwf ltac:(tauto))).
    reflexivity.
Qed.

Lemma clear_run_edge_cases_witness :
  highway_sim_V2.safe_distance_within empty_V2 9 3 0 = Ok 0 /\
  highway_sim_V2.safe_distance_within empty_V2 9 109 9 = Ok 9 /\
  highway_sim_V2.safe_distance_within empty_V2 4 0 9 = Raise IndexError.
Proof.
  destruct (clear_run_edge_cases empty_V2 9 3 0) as (H1 & _ & _).
  destruct (clear_run_edge_cases empty_V2 9 109 9) as (_ & H2 & _).
  destruct (clear_run_edge_cases empty_V2 4 0 9) as (_ & _ & H3).
  split; [apply H1; lia|]. split; [apply H2; unfold empty_V2; simpl; lia|].
  apply H3; unfold empty_V2; simpl; try lia. apply (wf_empty_road 4 110); lia.
Defined.

(** ** The lane-change checks *)

Lemma all_clear_iff road len lane idxs :
  all_clear road len lane idxs = true <->
  forall j, In j idxs -> at_py road len lane j = EMPTY.
Proof.
  unfold all_clear. rewrite forallb_forall. split; intros H j Hj.
  - specialize (H j Hj). destruct (at_py road len lane j); [discriminate|reflexivity].
  - rewrite (H j Hj). reflexivity.
Qed.

Lemma lane_window_check_iff road lanes len back forward target i :
  wf_grid road lanes len -> 0 <= target < lanes ->
  0 <= back -> 0 <= forward -> 0 <= i -> back - i <= len -> i + forward < len ->
  exists b,
    lane_window_check road back forward target i = Ok b /\
    (b = true <->
     forall j, i - back <= j <= i + forward -> at_py road len target j = EMPTY).
Proof.
  intros Hwf Ht Hb Hf Hi Hback Hfwd.
  rewrite (lane_window_check_in road lanes len) by assumption.
  eexists. split; [reflexivity|].
  rewrite !andb_true_iff, !all_clear_iff, negb_true_iff.
  unfold py_range_rev, py_range. split.
  - intros [[H0 H1] H2] j Hj.
    destruct (Z_lt_dec j i) as [?|?]; [apply H1; apply elem_range_down; lia|].
    destruct (Z.eq_dec j i) as [->|?].
    + unfold at_py. replace (i <? 0) with false by (symmetry; apply Z.ltb_ge; lia).
      destruct (at_ road target i); [discriminate|reflexivity].
    + apply H2. apply elem_range_up. lia.
  - intros H. split; [split|].
    + specialize (H i ltac:(lia)). unfold at_py in H.
      replace (i <? 0) with false in H by (symmetry; apply Z.ltb_ge; lia).
      rewrite H. reflexivity.
    + intros j Hj. apply elem_range_down in Hj. apply H. lia.
    + intros j Hj. apply elem_range_up in Hj. apply H. lia.
Qed.

(** X5. The lane-change checks of highway_sim_V2, for a lane with a
    neighbour on that side and a window that Python can index (position
    [i >= 0], [i + 5] on the road, [i - 5] not below [-length]): the check
    returns true exactly when the eleven cells [i - 5 .. i + 5] of the
    neighbour lane are empty, where a negative index denotes the cell that
    Python reads for it, counted from the end of the lane. *)
Theorem lane_change_check_window (h : highway_sim_V2.Highway) (lane i : Z) :
  wf_HighwayV2 h -> 0 <= i ->
  i + highway_sim_V2.LANE_CHANGE_SAFE_FORWARD < highway_sim_V2.hw_length h ->
  highway_sim_V2.LANE_CHANGE_SAFE_BACK - i <= highway_sim_V2.hw_length h ->
  (0 <= lane -> lane + 1 < highway_sim_V2.num_lanes h ->
   exists b,
     highway_sim_V2.safe_right_lane_change h lane i = Ok b /\
     (b = true <->
      forall j, i - 5 <= j <= i + 5 ->
                at_py (highway_sim_V2.road h) (highway_sim_V2.hw_length h)
                      (lane + 1) j = EMPTY)) /\
  (0 < lane < highway_sim_V2.num_lanes h ->
   exists b,
     highway_sim_V2.safe_left_lane_change h lane i = Ok b /\
     (b = true <->
      forall j, i - 5 <= j <= i + 5 ->
                at_py (highway_sim_V2.road h) (highway_sim_V2.hw_length h)
                      (lane - 1) j = EMPTY)).
Proof.
  intros Hwf Hi Hfwd Hback.
  unfold highway_sim_V2.LANE_CHANGE_SAFE_FORWARD, highway_sim_V2.LANE_CHANGE_SAFE_BACK,
    highway_sim_V2.FAST in *.
  split.
  - intros Hl Hr. unfold highway_sim_V2.safe_right_lane_change.
    replace (lane =? highway_sim_V2.num_lanes h - 1) with false
      by (symmetry; apply Z.eqb_neq; lia).
    apply (lane_window_check_iff _ _ _ 5 5 (lane + 1) i Hwf); lia.
  - intros Hl. unfold highway_sim_V2.safe_left_lane_change.
    replace (lane =? 0) with false by (symmetry; apply Z.eqb_neq; lia).
    apply (lane_window_check_iff _ _ _ 5 5 (lane - 1) i Hwf); lia.
Qed.

Lemma lane_change_check_window_witness :
  exists b,
    highway_sim_V2.safe_right_lane_change (one_car_V2 107) 0 2 = Ok b /\
    (b = true <->
     forall j, 2 - 5 <= j <= 2 + 5 ->
               at_py (highway_sim_V2.road (one_car_V2 107))
                     (highway_sim_V2.hw_length (one_car_V2 107)) (0 + 1) j = EMPTY).
Proof.
  assert (Hwf : wf_HighwayV2 (one_car_V2 107))
    by (split; [reflexivity | repeat constructor]).
  assert (Hfwd : 2 + highway_sim_V2.LANE_CHANGE_SAFE_FORWARD
                 < highway_sim_V2.hw_length (one_car_V2 107)) by reflexivity.
  assert (Hback : highway_sim_V2.LANE_CHANGE_SAFE_BACK - 2
                  <= highway_sim_V2.hw_length (one_car_V2 107))
    by (vm_compute; discriminate).
  apply (proj1 (lane_change_check_window (one_car_V2 107) 0 2 Hwf
                  ltac:(lia) Hfwd Hback)).
  - lia.
  - reflexivity.
Defined.

(** X6. Near the end of the road the lane-change checks of highway_sim_V2
    and sim_client_requests raise IndexError: on a well-formed road, from a
    lane that passes the boundary guard and has a neighbour on that side,
    at any position [i >= 0] with [i + 5 >= length]. *)
Theorem lane_change_check_faults_ahead :
  (forall (h : highway_sim_V2.Highway) (lane i : Z),
      wf_HighwayV2 h -> 0 <= i ->
      highway_sim_V2.hw_length h <= i + highway_sim_V2.LANE_CHANGE_SAFE_FORWARD ->
      (0 <= lane -> lane + 1 < highway_sim_V2.num_lanes h ->
       highway_sim_V2.safe_right_lane_change h lane i = Raise IndexError) /\
      (0 < lane < highway_sim_V2.num_lanes h ->
       highway_sim_V2.safe_left_lane_change h lane i = Raise IndexError)) /\
  (forall (h : sim_client_requests.Highway) (lane i : Z),
      wf_HighwaySD h -> 0 <= i ->
      sim_client_requests.hw_length h
        <= i + sim_client_requests.LANE_CHANGE_SAFE_FORWARD ->
      (0 <= lane ->
       lane + 1 < sim_client_requests.num_def_lanes h
                  + sim_client_requests.num_sd_lanes h ->
       lane <> sim_client_requests.num_def_lanes h - 1 ->
       sim_client_requests.safe_right_lane_change h lane i = Raise IndexError) /\
      (0 < lane < sim_client_requests.num_def_lanes h
                  + sim_client_requests.num_sd_lanes h ->
       sim_client_requests.safe_left_lane_change h lane i = Raise IndexError)).
Proof.
  split; intros h lane i Hwf Hi Hout; split.
  - intros Hl Hr. unfold highway_sim_V2.safe_right_lane_change.
    replace (lane =? highway_sim_V2.num_lanes h - 1) with false
      by (symmetry; apply Z.eqb_neq; lia).
    eapply lane_window_check_ahead_out; eauto. lia.
  - intros Hl. unfold highway_sim_V2.safe_left_lane_change.
    replace (lane =? 0) with false by (symmetry; apply Z.eqb_neq; lia).
    eapply lane_window_check_ahead_out; eauto. lia.
  - intros Hl Hr Hg. unfold sim_client_requests.safe_right_lane_change.
    replace (lane =? sim_client_requests.num_def_lanes h - 1) with false
      by (symmetry; apply Z.eqb_neq; lia).
    eapply lane_window_check_ahead_out; eauto. lia.
  - intros Hl. unfold sim_client_requests.safe_left_lane_change.
    replace (lane =? 0) with false by (symmetry; apply Z.eqb_neq; lia).
    eapply lane_window_check_ahead_out; eauto. lia.
Qed.

Lemma lane_change_check_faults_ahead_witness :
  highway_sim_V2.safe_left_lane_change empty_V2 3 109 = Raise IndexError /\
  sim_client_requests.safe_right_lane_change empty_SD 0 105 = Raise IndexError.
Proof.
  split.
  - apply (proj2 (proj1 lane_change_check_faults_ahead empty_V2 3 109
                    ltac:(apply (wf_empty_road 4 110); lia)
                    ltac:(lia) ltac:(vm_compute; discriminate))).
    unfold empty_V2. simpl. lia.
  - apply (proj1 (proj2 lane_change_check_faults_ahead empty_SD 0 105
                    ltac:(apply (wf_empty_road 4 110); lia)
                    ltac:(lia) ltac:(vm_compute; discriminate)));
      unfold empty_SD; simpl; lia.
Defined.

(** X7. The lane-change checks of sim_client_requests, for a window that
    Python can index: leftwards from a lane other than lane 0, and
    rightwards from a lane other than [num_def_lanes - 1] that has a right
    neighbour, the check returns true exactly when the eleven cells
    [i - 5 .. i + 5] of the neighbour lane are empty (negative indices
    count from the end of the lane). *)
Theorem lane_change_check_window_SD (h : sim_client_requests.Highway) (lane i : Z) :
  wf_HighwaySD h -> 0 <= i ->
  i + sim_client_requests.LANE_CHANGE_SAFE_FORWARD < sim_client_requests.hw_length h ->
  sim_client_requests.LANE_CHANGE_SAFE_BACK - i <= sim_client_requests.hw_length h ->
  (0 <= lane ->
   lane + 1 < sim_client_requests.num_def_lanes h + sim_client_requests.num_sd_lanes h ->
   lane <> sim_client_requests.num_def_lanes h - 1 ->
   exists b,
     sim_client_requests.safe_right_lane_change h lane i = Ok b /\
     (b = true <->
      forall j, i - 5 <= j <= i + 5 ->
                at_py (sim_client_requests.road h) (sim_client_requests.hw_length h)
                      (lane + 1) j = EMPTY)) /\
  (0 < lane < sim_client_requests.num_def_lanes h + sim_client_requests.num_sd_lanes h ->
   exists b,
     sim_client_requests.safe_left_lane_change h lane i = Ok b /\
     (b = true <->
      forall j, i - 5 <= j <= i + 5 ->
                at_py (sim_client_requests.road h) (sim_client_requests.hw_length h)
                      (lane - 1) j = EMPTY)).
Proof.
  intros Hwf Hi Hfwd Hback.
  unfold sim_client_requests.LANE_CHANGE_SAFE_FORWARD,
    sim_client_requests.LANE_CHANGE_SAFE_BACK, sim_client_requests.FAST in *.
  split.
  - intros Hl Hr Hg. unfold sim_client_requests.safe_right_lane_change.
    replace (lane =? sim_client_requests.num_def_lanes h - 1) with false
      by (symmetry; apply Z.eqb_neq; lia).
    apply (lane_window_check_iff _ _ _ 5 5 (lane + 1) i Hwf); lia.
  - intros Hl. unfold sim_client_requests.safe_left_lane_change.
    replace (lane =? 0) with false by (symmetry; apply Z.eqb_neq; lia).
    apply (lane_window_check_iff _ _ _ 5 5 (lane - 1) i Hwf); lia.
Qed.

Lemma lane_change_check_window_SD_witness :
  exists b,
    sim_client_requests.safe_left_lane_change
      (sim_client_requests.sim_road (two_cars_SD false)) 1 7 = Ok b /\
    (b = true <->
     forall j, 7 - 5 <= j <= 7 + 5 ->
               at_py (sim_client_requests.road
                        (sim_client_requests.sim_road (two_cars_SD false)))
                     (sim_client_requests.hw_length
                        (sim_client_requests.sim_road (two_cars_SD false)))
                     (1 - 1) j = EMPTY).
Proof.
  assert (Hwf : wf_HighwaySD (sim_client_requests.sim_road (two_cars_SD false)))
    by (split; [reflexivity | repeat constructor]).
  apply (proj2 (lane_change_check_window_SD
                  (sim_client_requests.sim_road (two_cars_SD false)) 1 7 Hwf
                  ltac:(lia) ltac:(reflexivity) ltac:(vm_compute; discriminate))).
  vm_compute. split; reflexivity.
Defined.

(** X8. In sim_client_requests the guard of safe_right_lane_change names
    the lane [num_def_lanes - 1]; from the last lane of a road with at
    least one self-driving lane the check is not stopped by the guard and
    raises IndexError, because it reads a lane that does not exist. *)
Theorem right_check_from_last_lane (h : sim_client_requests.Highway) (i : Z) :
  wf_HighwaySD h ->
  0 <= sim_client_requests.num_def_lanes h ->
  1 <= sim_client_requests.num_sd_lanes h ->
  sim_client_requests.safe_right_lane_change
    h (sim_client_requests.num_def_lanes h + sim_client_requests.num_sd_lanes h - 1) i
  = Raise IndexError.
Proof.
  intros Hwf Hd Hs. unfold sim_client_requests.safe_right_lane_change.
  replace (sim_client_requests.num_def_lanes h + sim_client_requests.num_sd_lanes h - 1
           =? sim_client_requests.num_def_lanes h - 1) with false
    by (symmetry; apply Z.eqb_neq; lia).
  unfold lane_window_check.
  rewrite (grid_get_no_lane _ _ _ _ i Hwf) by lia. reflexivity.
Qed.

Lemma right_check_from_last_lane_witness :
  sim_client_requests.safe_right_lane_change empty_SD 3 10 = Raise IndexError.
Proof.
  apply (right_check_from_last_lane empty_SD 10).
  - apply (wf_empty_road 4 110); lia.
  - vm_compute. discriminate.
  - vm_compute. discriminate.
Defined.

(** X9. The lane-change checks of highway_sim1 read three cells of the
    other lane, from left to right, and stop at the first occupied one.
    On a well-formed road and for [i >= 0]: with [i + 2] on the road the
    check returns true exactly when the cells [i], [i + 1], [i + 2] are
    empty; when the cell [i] is occupied it returns false even if [i + 1]
    is off the road; and when the cells before the end of the road are
    empty and [i + 2] is off the road it raises IndexError. *)
Theorem three_cell_check (h : highway_sim1.Highway) (i : Z) :
  wf_Highway1 h -> 0 <= i ->
  (i + 2 < highway_sim1.hw_length h ->
   (exists b, highway_sim1.safe_right_lane_change h i = Ok b /\
              (b = true <-> forall j, i <= j <= i + 2 ->
                              at_ (highway_sim1.road h) highway_sim1.RIGHT j = EMPTY)) /\
   (exists b, highway_sim1.safe_left_lane_change h i = Ok b /\
              (b = true <-> forall j, i <= j <= i + 2 ->
                              at_ (highway_sim1.road h) highway_sim1.LEFT j = EMPTY))) /\
  (forall lane, 0 <= lane < 2 -> i < highway_sim1.hw_length h ->
                at_ (highway_sim1.road h) lane i <> EMPTY ->
                highway_sim1.three_cells_empty h lane i = Ok false) /\
  (forall lane, 0 <= lane < 2 ->
                highway_sim1.hw_length h <= i + 2 ->
                (forall j, i <= j < highway_sim1.hw_length h ->
                           at_ (highway_sim1.road h) lane j = EMPTY) ->
                highway_sim1.three_cells_empty h lane i = Raise IndexError).
Proof.
  intros Hwf Hi.
  assert (Hin : forall lane, 0 <= lane < 2 -> i + 2 < highway_sim1.hw_length h ->
            exists b, highway_sim1.three_cells_empty h lane i = Ok b /\
              (b = true <-> forall j, i <= j <= i + 2 ->
                              at_ (highway_sim1.road h) lane j = EMPTY)).
  { intros lane Hl Hlen. unfold highway_sim1.three_cells_empty.
    rewrite !(grid_get_in _ 2 (highway_sim1.hw_length h)) by (auto; lia). simpl.
    destruct (at_ (highway_sim1.road h) lane i) as [v0|] eqn:H0; simpl.
    { eexists. split; [reflexivity|]. split; [discriminate|].
      intros H. specialize (H i ltac:(lia)). unfold EMPTY in H. congruence. }
    destruct (at_ (highway_sim1.road h) lane (i + 1)) as [v1|] eqn:H1; simpl.
    { eexists. split; [reflexivity|]. split; [discriminate|].
      intros H. specialize (H (i + 1) ltac:(lia)). unfold EMPTY in H. congruence. }
    eexists. split; [reflexivity|].
    destruct (at_ (highway_sim1.road h) lane (i + 2)) as [v2|] eqn:H2; simpl.
    - split; [discriminate|].
      intros H. specialize (H (i + 2) ltac:(lia)). unfold EMPTY in H. congruence.
    - split; [|reflexivity]. intros _ j Hj.
      assert (j = i \/ j = i + 1 \/ j = i + 2) as [->|[->| ->]] by lia; assumption. }
  split; [|split].
  - intros Hlen. split.
    + apply (Hin highway_sim1.RIGHT); [unfold highway_sim1.RIGHT; lia | exact Hlen].
    + apply (Hin highway_sim1.LEFT); [unfold highway_sim1.LEFT; lia | exact Hlen].
  - intros lane Hl Hlen Hocc. unfold highway_sim1.three_cells_empty.
    rewrite (grid_get_in _ 2 (highway_sim1.hw_length h)) by (auto; lia). simpl.
    destruct (at_ (highway_sim1.road h) lane i);
      [reflexivity | exfalso; apply Hocc; reflexivity].
  - intros lane Hl Hlen Hempty. unfold highway_sim1.three_cells_empty.
    destruct (Z_lt_dec i (highway_sim1.hw_length h)) as [H0|H0].
    2:{ rewrite (grid_get_out _ 2 (highway_sim1.hw_length h)) by (auto; lia).
        reflexivity. }
    rewrite (grid_get_in _ 2 (highway_sim1.hw_length h)) by (auto; lia). simpl.
    rewrite (Hempty i) by lia. simpl.
    destruct (Z_lt_dec (i + 1) (highway_sim1.hw_length h)) as [H1|H1].
    2:{ rewrite (grid_get_out _ 2 (highway_sim1.hw_length h)) by (auto; lia).
        reflexivity. }
    rewrite (grid_get_in _ 2 (highway_sim1.hw_length h)) by (auto; lia). simpl.
    rewrite (Hempty (i + 1)) by lia. simpl.
    rewrite (grid_get_out _ 2 (highway_sim1.hw_length h)) by (auto; lia).
    reflexivity.
Qed.

Lemma three_cell_check_witness :
  highway_sim1.three_cells_empty (highway_sim1.new_Highway 110) 1 108
  = Raise IndexError.
Proof.
  apply (proj2 (proj2 (three_cell_check (highway_sim1.new_Highway 110) 108
                         ltac:(apply (wf_empty_road 2 110); lia) ltac:(lia)))).
  - lia.
  - simpl. lia.
  - intros j _. apply at_empty_road.
Defined.

(** ** The cruise step of highway_sim_V2 *)

(** X10. sim_cruise of highway_sim_V2 follows the three-way rule.  For a
    vehicle [r] standing at [(lane, i)] with speed at least 1, a follow
    distance that is not negative and [i + speed] on the road, let [x] be
    the clear run within [speed + follow].  The call returns normally; the
    vehicle is written at [i + speed] if [x = speed + follow], at
    [i + x - follow] if [follow < x], and at [i + 1] otherwise, which is
    always after [i] and at most [speed] cells away; the cell [(lane, i)] is
    emptied and no other cell changes; the cell written was empty unless
    [x = 0]; the desire becomes Lane Change except in the first case, and no
    other Driver, exit record, tick or random draw is touched. *)
Theorem sim_cruise_rule
        (s : highway_sim_V2.Simulation) (lane i : Z) (r : nat)
        (d : highway_sim_V2.Driver) :
  wf_HighwayV2 (highway_sim_V2.sim_road s) -> 0 <= lane < lanesV2 s -> 0 <= i ->
  cellV2 s lane i = Some r -> highway_sim_V2.objects s !! r = Some d ->
  1 <= highway_sim_V2.speed d -> 0 <= highway_sim_V2.safe_follow d ->
  i + highway_sim_V2.speed d < lenV2 s ->
  exists x s',
    highway_sim_V2.safe_distance_within
      (highway_sim_V2.sim_road s) lane i
      (highway_sim_V2.speed d + highway_sim_V2.safe_follow d) = Ok x /\
    highway_sim_V2.sim_cruise lane i s = Ok (tt, s') /\
    let full := x =? highway_sim_V2.speed d + highway_sim_V2.safe_follow d in
    let j := if full then i + highway_sim_V2.speed d
             else if highway_sim_V2.safe_follow d <? x
                  then i + x - highway_sim_V2.safe_follow d
                  else i + 1 in
    i < j <= i + highway_sim_V2.speed d /\
    (forall l c, cellV2 s' l c =
                 if (l =? lane) && (c =? i) then EMPTY
                 else if (l =? lane) && (c =? j) then Some r
                      else cellV2 s l c) /\
    (1 <= x -> cellV2 s lane j = EMPTY) /\
    highway_sim_V2.objects s' =
      <[r := if full then d else highway_sim_V2.set_desire LANE_CHANGE d]>
        (highway_sim_V2.objects s) /\
    highway_sim_V2.data s' = highway_sim_V2.data s /\
    highway_sim_V2.current_step s' = highway_sim_V2.current_step s /\
    highway_sim_V2.draws s' = highway_sim_V2.draws s.
Proof.
  intros Hwf Hl Hi Hcell Hobj Hspeed Hsf Hroom.
  destruct (V2_sim_cruise_eq s lane i r d Hwf Hl Hi Hcell Hobj Hspeed Hsf Hroom)
    as (x & Hx & Hpost & Htarget & Hrun).
  exists x. eexists. split; [exact Hx|]. split; [exact Hrun|].
  unfold cruise_target, cruise_driver in *. cbv zeta.
  set (j := if x =? highway_sim_V2.speed d + highway_sim_V2.safe_follow d
            then i + highway_sim_V2.speed d
            else if highway_sim_V2.safe_follow d <? x
                 then i + x - highway_sim_V2.safe_follow d else i + 1) in *.
  set (s1 := highway_sim_V2.set_objects _ s).
  assert (Hwf1 : wf_HighwayV2 (highway_sim_V2.sim_road s1)) by exact Hwf.
  assert (Hl1 : 0 <= lane < lanesV2 s1) by exact Hl.
  assert (Hj1 : 0 <= j < lenV2 s1) by (change (lenV2 s1) with (lenV2 s); lia).
  destruct (V2_put_spec s1 lane j (Some r) Hwf1 Hl1 Hj1) as [Hwf2 Hc2].
  destruct (V2_put_spec (putV2 lane j (Some r) s1) lane i EMPTY Hwf2 Hl1
              ltac:(change (lenV2 (putV2 lane j (Some r) s1)) with (lenV2 s); lia))
    as [_ Hc3].
  split; [exact Htarget|]. split.
  { intros l c. rewrite Hc3, Hc2. reflexivity. }
  split.
  { intros Hx1. destruct Hpost as (Hb & _ & _ & Hclear).
    apply Hclear; [|lia]. subst j.
    destruct (x =? highway_sim_V2.speed d + highway_sim_V2.safe_follow d) eqn:E1;
      [apply Z.eqb_eq in E1; lia|].
    destruct (highway_sim_V2.safe_follow d <? x) eqn:E2; lia. }
  repeat split; reflexivity.
Qed.

Lemma sim_cruise_rule_witness :
  exists x s',
    highway_sim_V2.safe_distance_within
      (highway_sim_V2.sim_road entry_taken_V2) 0 0 (5 + 4) = Ok x /\
    highway_sim_V2.sim_cruise 0 0 entry_taken_V2 = Ok (tt, s') /\
    cellV2 s' 0 5 = Some O /\ cellV2 s' 0 0 = EMPTY.
Proof.
  destruct (sim_cruise_rule entry_taken_V2 0 0 O
              (highway_sim_V2.new_Driver 0 highway_sim_V2.FAST 0 true))
    as (x & s' & Hx & Hrun & _ & Hcells & _).
  - split; [reflexivity | repeat constructor].
  - vm_compute. split; [discriminate | reflexivity].
  - lia.
  - reflexivity.
  - reflexivity.
  - vm_compute. discriminate.
  - vm_compute. discriminate.
  - reflexivity.
  - exists x, s'. split; [exact Hx|]. split; [exact Hrun|].
    vm_compute in Hx. injection Hx as <-.
    rewrite !Hcells. split; reflexivity.
Defined.

(** ** Statistics over the exit records *)

Lemma foldl_add_shift (l : list Z) (a : Z) : foldl Z.add a l = a + py_sum l.
Proof.
  unfold py_sum. revert a. induction l as [|x l IH]; intros a; simpl; [lia|].
  rewrite (IH (a + x)), (IH (0 + x)). lia.
Qed.

Lemma py_sum_cons (x : Z) (l : list Z) : py_sum (x :: l) = x + py_sum l.
Proof. unfold py_sum at 1. simpl. rewrite foldl_add_shift. lia. Qed.

Lemma tally_travel_time_spec (rows : list sim_client_requests.OutputData) :
  forall a b c e,
    foldl sim_client_requests.tally_travel_time (a, b, c, e) rows =
    (a + py_sum (map sim_client_requests.out_travel_time
                     (List.filter sim_client_requests.out_is_human rows)),
     b + py_sum (map sim_client_requests.out_travel_time
                     (List.filter (fun row => negb (sim_client_requests.out_is_human row))
                                  rows)),
     c + Z.of_nat (length (List.filter sim_client_requests.out_is_human rows)),
     e + Z.of_nat (length (List.filter
                             (fun row => negb (sim_client_requests.out_is_human row))
                             rows))).
Proof.
  induction rows as [|row rows IH]; intros a b c e; simpl.
  - unfold py_sum. simpl. repeat (apply f_equal2 with (f := pair)); lia.
  - destruct (sim_client_requests.out_is_human row); simpl; rewrite IH;
      rewrite ?py_sum_cons; repeat (apply f_equal2 with (f := pair)); lia.
Qed.

(** X11. avg_travel_time_both_types of sim_client_requests.  When the exit
    records hold no human driver, or no self-driving vehicle, the method
    raises ZeroDivisionError.  Otherwise it returns the two averages: the
    sum of the travel times of the records of human drivers over their
    number, then the same for the other records. *)
Theorem avg_travel_time_both_types_spec (s : sim_client_requests.Simulation) :
  let humans := List.filter sim_client_requests.out_is_human
                            (sim_client_requests.data s) in
  let others := List.filter (fun row => negb (sim_client_requests.out_is_human row))
                            (sim_client_requests.data s) in
  (humans = [] \/ others = [] ->
   sim_client_requests.avg_travel_time_both_types s = Raise ZeroDivisionError) /\
  (humans <> [] -> others <> [] ->
   sim_client_requests.avg_travel_time_both_types s =
   Ok [Qdiv (inject_Z (py_sum (map sim_client_requests.out_travel_time humans)))
            (inject_Z (Z.of_nat (length humans)));
       Qdiv (inject_Z (py_sum (map sim_client_requests.out_travel_time others)))
            (inject_Z (Z.of_nat (length others)))]).
Proof.
  intros humans others. unfold sim_client_requests.avg_travel_time_both_types.
  rewrite tally_travel_time_spec. fold humans others. rewrite !Z.add_0_l.
  unfold py_truediv. split.
  - intros [H|H]; rewrite H; simpl; [reflexivity|].
    destruct (Z.of_nat (length humans) =? 0); reflexivity.
  - intros Hh Ho.
    replace (Z.of_nat (length humans) =? 0) with false
      by (symmetry; apply Z.eqb_neq; destruct humans; [congruence | simpl; lia]).
    simpl.
    replace (Z.of_nat (length others) =? 0) with false
      by (symmetry; apply Z.eqb_neq; destruct others; [congruence | simpl; lia]).
    reflexivity.
Qed.

Lemma avg_travel_time_both_types_spec_witness :
  sim_client_requests.avg_travel_time_both_types
    (sim_client_requests.new_Simulation 10) = Raise ZeroDivisionError.
Proof.
  apply (proj1 (avg_travel_time_both_types_spec (sim_client_requests.new_Simulation 10))).
  left. reflexivity.
Defined.

(** ** Highway.print *)

Lemma string_length_app (a b : string) :
  String.length (a +:+ b) = (String.length a + String.length b)%nat.
Proof. induction a as [|c a IH]; simpl; [reflexivity | rewrite IH; reflexivity]. Qed.

Lemma string_get_app_l (n : nat) (a b : string) :
  (n < String.length a)%nat -> String.get n (a +:+ b) = String.get n a.
Proof. intros H. symmetry. apply String.append_correct1. exact H. Qed.

Lemma string_get_app_r (n : nat) (a b : string) :
  String.get (String.length a + n) (a +:+ b) = String.get n b.
Proof. rewrite Nat.add_comm. symmetry. apply String.append_correct2. Qed.

(** One row: the characters appended to [s] are the marks of the cells
    [a .. a + n - 1], in this order. *)
Lemma print_cells_spec road lanes len lane (cf ct : ascii) :
  wf_grid road lanes len -> 0 <= lane < lanes ->
  forall n a s,
    0 <= a -> a + Z.of_nat n <= len ->
    exists s',
      print_cells road lane (range_up a n) (String cf EmptyString)
                  (String ct EmptyString) s = Ok s' /\
      String.length s' = (String.length s + n)%nat /\
      (forall m, (m < String.length s)%nat -> String.get m s' = String.get m s) /\
      (forall t, (t < n)%nat ->
                 String.get (String.length s + t) s' =
                 Some (if occupied (at_ road lane (a + Z.of_nat t)) then ct else cf)).
Proof.
  intros Hwf Hlane. induction n as [|n IH]; intros a s Ha Hlen.
  - exists s. simpl. split; [reflexivity|]. split; [lia|]. split; [auto|]. intros; lia.
  - simpl. rewrite (grid_get_in road lanes len) by (auto; lia). simpl.
    set (mark := if occupied (at_ road lane a)
                 then String ct EmptyString else String cf EmptyString).
    destruct (IH (a + 1) (s +:+ mark) ltac:(lia) ltac:(lia))
      as (s' & Hrun & Hlen' & Hpre & Hnew).
    assert (Hm : String.length (s +:+ mark) = S (String.length s)).
    { rewrite string_length_app. subst mark.
      destruct (occupied (at_ road lane a)); simpl; lia. }
    exists s'. split; [exact Hrun|]. split; [lia|]. split.
    + intros m Hmlt. rewrite Hpre by lia. apply string_get_app_l. exact Hmlt.
    + intros [|t] Ht.
      * rewrite Nat.add_0_r, Z.add_0_r. rewrite Hpre by lia.
        rewrite <- (Nat.add_0_r (String.length s)) at 1.
        rewrite string_get_app_r. subst mark.
        destruct (occupied (at_ road lane a)); reflexivity.
      * replace (String.length s + S t)%nat
          with (String.length (s +:+ mark) + t)%nat by lia.
        rewrite Hnew by lia.
        replace (a + Z.of_nat (S t)) with (a + 1 + Z.of_nat t) by lia. reflexivity.
Qed.

(** Several rows, each followed by a line feed: row number [q] of the
    loop starts [q * (len + 1)] characters after the text built so far. *)
Lemma print_lanes_spec road lanes len (lane_of : Z -> Z) (cf ct : ascii) :
  wf_grid road lanes len -> 0 <= len ->
  forall m k0 s,
    (forall k, k0 <= k < k0 + Z.of_nat m -> 0 <= lane_of k < lanes) ->
    exists s',
      print_lanes road len (range_up k0 m) lane_of (String cf EmptyString)
                  (String ct EmptyString) s = Ok s' /\
      String.length s' = (String.length s + m * S (Z.to_nat len))%nat /\
      (forall p, (p < String.length s)%nat -> String.get p s' = String.get p s) /\
      (forall q t, (q < m)%nat -> (t < Z.to_nat len)%nat ->
         String.get (String.length s + q * S (Z.to_nat len) + t) s' =
         Some (if occupied (at_ road (lane_of (k0 + Z.of_nat q)) (Z.of_nat t))
               then ct else cf)) /\
      (forall q, (q < m)%nat ->
         String.get (String.length s + q * S (Z.to_nat len) + Z.to_nat len) s' =
         Some "010"%char).
Proof.
  intros Hwf Hlen. set (N := Z.to_nat len).
  induction m as [|m IH]; intros k0 s Hlanes.
  - exists s. simpl. split; [reflexivity|]. split; [lia|]. split; [auto|].
    split; intros; lia.
  - simpl. unfold py_range. rewrite Z.sub_0_r. fold N.
    destruct (print_cells_spec road lanes len (lane_of k0) cf ct Hwf
                ltac:(apply Hlanes; lia) N 0 s ltac:(lia) ltac:(lia))
      as (s1 & Hrow & Hlen1 & Hpre1 & Hnew1).
    rewrite Hrow. simpl.
    assert (Hlen2 : String.length (s1 +:+ newline) = (String.length s + S N)%nat).
    { rewrite string_length_app. simpl. lia. }
    destruct (IH (k0 + 1) (s1 +:+ newline) ltac:(intros; apply Hlanes; lia))
      as (s' & Hrun & Hlen' & Hpre & Hcell & Hnl).
    exists s'. split; [exact Hrun|]. split; [rewrite Hlen', Hlen2; lia|].
    assert (Hkeep : forall p, (p < String.length s + N)%nat ->
                              String.get p s' = String.get p s1).
    { intros p Hp. rewrite Hpre by lia. apply string_get_app_l. lia. }
    split; [|split].
    + intros p Hp. rewrite Hkeep by lia. apply Hpre1. exact Hp.
    + intros [|q] t Hq Ht.
      * simpl. rewrite Nat.add_0_r, Z.add_0_r. rewrite Hkeep by lia.
        rewrite Hnew1 by lia. rewrite Z.add_0_l. reflexivity.
      * replace (String.length s + S q * S N + t)%nat
          with (String.length (s1 +:+ newline) + q * S N + t)%nat by lia.
        rewrite Hcell by lia.
        replace (k0 + Z.of_nat (S q)) with (k0 + 1 + Z.of_nat q) by lia. reflexivity.
    + intros [|q] Hq.
      * simpl. rewrite Nat.add_0_r. rewrite Hpre by lia.
        replace (String.length s + N)%nat with (String.length s1 + 0)%nat by lia.
        rewrite string_get_app_r. reflexivity.
      * replace (String.length s + S q * S N + N)%nat
          with (String.length (s1 +:+ newline) + q * S N + N)%nat by lia.
        apply Hnl. lia.
Qed.

Lemma print_offset (a k n i : Z) :
  0 <= a -> 0 <= k -> 0 <= n -> 0 <= i ->
  Z.to_nat (a + k * (n + 1) + i)
  = (Z.to_nat a + Z.to_nat k * S (Z.to_nat n) + Z.to_nat i)%nat.
Proof.
  intros Ha Hk Hn Hi. apply Nat2Z.inj.
  rewrite Z2Nat.id by nia.
  rewrite !Nat2Z.inj_add, Nat2Z.inj_mul, Nat2Z.inj_succ, !Z2Nat.id by lia. lia.
Qed.

(** X12. Highway.print of highway_sim_V2 on a well-formed road: the text
    handed to [print] is two line feeds followed by one line per lane, so
    [2 + num_lanes * (length + 1)] characters; the character of the cell
    [(k, i)] stands at offset [2 + k * (length + 1) + i] and is C for an
    occupied cell and _ for an empty one; every line ends with a line
    feed. *)
Theorem Highway_print_text (h : highway_sim_V2.Highway) :
  wf_HighwayV2 h -> 0 <= highway_sim_V2.hw_length h ->
  exists text,
    highway_sim_V2.Highway_print h = Ok text /\
    String.length text
    = Z.to_nat (2 + highway_sim_V2.num_lanes h * (highway_sim_V2.hw_length h + 1)) /\
    String.get 0 text = Some "010"%char /\
    String.get 1 text = Some "010"%char /\
    (forall k i,
        0 <= k < highway_sim_V2.num_lanes h -> 0 <= i < highway_sim_V2.hw_length h ->
        String.get (Z.to_nat (2 + k * (highway_sim_V2.hw_length h + 1) + i)) text
        = Some (if occupied (at_ (highway_sim_V2.road h) k i)
                then "C"%char else "_"%char)) /\
    (forall k,
        0 <= k < highway_sim_V2.num_lanes h ->
        String.get (Z.to_nat (2 + k * (highway_sim_V2.hw_length h + 1)
                              + highway_sim_V2.hw_length h)) text
        = Some "010"%char).
Proof.
  intros Hwf Hlen. unfold highway_sim_V2.Highway_print, py_range. rewrite Z.sub_0_r.
  set (L := highway_sim_V2.num_lanes h) in *.
  set (N := highway_sim_V2.hw_length h) in *.
  assert (HL : 0 <= L) by (subst L; destruct Hwf as [Hl _]; rewrite <- Hl; lia).
  destruct (print_lanes_spec (highway_sim_V2.road h) L N (fun k => k) "_" "C" Hwf Hlen
              (Z.to_nat L) 0 (newline +:+ newline) ltac:(intros; lia))
    as (text & Hrun & Hlen' & Hpre & Hcell & Hnl).
  exists text. split; [exact Hrun|].
  change (String.length (newline +:+ newline)) with 2%nat in *.
  split.
  { rewrite Hlen'. replace (2 + L * (N + 1)) with (2 + L * (N + 1) + 0) by lia.
    rewrite print_offset by lia. simpl. lia. }
  split; [apply (Hpre 0%nat); lia|]. split; [apply (Hpre 1%nat); lia|]. split.
  - intros k i Hk Hi. rewrite print_offset by lia.
    change (Z.to_nat 2) with 2%nat. rewrite Hcell by lia.
    rewrite Z.add_0_l, !Z2Nat.id by lia. reflexivity.
  - intros k Hk. rewrite print_offset by lia.
    change (Z.to_nat 2) with 2%nat. apply Hnl. lia.
Qed.

Lemma Highway_print_text_witness :
  exists text,
    highway_sim_V2.Highway_print (one_car_V2 107) = Ok text /\
    String.length text = 446%nat /\
    String.get 220 text = Some "C"%char /\
    String.get 221 text = Some "_"%char.
Proof.
  destruct (Highway_print_text (one_car_V2 107)) as (text & Hrun & Hlen & _ & _ & Hcell & _).
  - split; [reflexivity | repeat constructor].
  - vm_compute. discriminate.
  - exists text. split; [exact Hrun|]. split; [exact Hlen|].
    split.
    + apply (Hcell 1 107); vm_compute; split; congruence.
    + apply (Hcell 1 108); vm_compute; split; congruence.
Defined.

(** X13. Highway.print of sim_client_requests on a well-formed road with at
    least one default lane: after two line feeds it writes one line per
    default lane, with C and _, and then one line per self-driving lane,
    with S and ~; the line of self-driving lane [k] shows the cells of lane
    [num_def_lanes - 1 + k], so with one self-driving lane the last default
    lane is shown twice and the last lane of the road is not shown. *)
Theorem Highway_print_text_SD (h : sim_client_requests.Highway) :
  wf_HighwaySD h -> 0 <= sim_client_requests.hw_length h ->
  1 <= sim_client_requests.num_def_lanes h ->
  0 <= sim_client_requests.num_sd_lanes h ->
  exists text,
    sim_client_requests.Highway_print h = Ok text /\
    String.length text
    = Z.to_nat (2 + (sim_client_requests.num_def_lanes h
                     + sim_client_requests.num_sd_lanes h)
                    * (sim_client_requests.hw_length h + 1)) /\
    (forall k i,
        0 <= k < sim_client_requests.num_def_lanes h ->
        0 <= i < sim_client_requests.hw_length h ->
        String.get (Z.to_nat (2 + k * (sim_client_requests.hw_length h + 1) + i)) text
        = Some (if occupied (at_ (sim_client_requests.road h) k i)
                then "C"%char else "_"%char)) /\
    (forall k i,
        0 <= k < sim_client_requests.num_sd_lanes h ->
        0 <= i < sim_client_requests.hw_length h ->
        String.get (Z.to_nat (2 + (sim_client_requests.num_def_lanes h + k)
                                  * (sim_client_requests.hw_length h + 1) + i)) text
        = Some (if occupied (at_ (sim_client_requests.road h)
                                 (sim_client_requests.num_def_lanes h - 1 + k) i)
                then "S"%char else "~"%char)).
Proof.
  intros Hwf Hlen Hdef Hsd. unfold sim_client_requests.Highway_print, py_range.
  rewrite !Z.sub_0_r.
  set (D := sim_client_requests.num_def_lanes h) in *.
  set (S_ := sim_client_requests.num_sd_lanes h) in *.
  set (N := sim_client_requests.hw_length h) in *.
  destruct (print_lanes_spec (sim_client_requests.road h) (D + S_) N (fun k => k)
              "_" "C" Hwf Hlen (Z.to_nat D) 0 (newline +:+ newline)
              ltac:(intros; lia))
    as (s1 & Hrun1 & Hlen1 & Hpre1 & Hcell1 & Hnl1).
  rewrite Hrun1. simpl.
  destruct (print_lanes_spec (sim_client_requests.road h) (D + S_) N
              (fun k => k + D - 1) "~" "S" Hwf Hlen (Z.to_nat S_) 0 s1
              ltac:(intros; lia))
    as (text & Hrun2 & Hlen2 & Hpre2 & Hcell2 & Hnl2).
  exists text. split; [exact Hrun2|].
  change (String.length (newline +:+ newline)) with 2%nat in *.
  split.
  { rewrite Hlen2, Hlen1.
    replace (2 + (D + S_) * (N + 1)) with (2 + (D + S_) * (N + 1) + 0) by lia.
    rewrite print_offset by lia. rewrite Z2Nat.inj_add by lia. simpl. lia. }
  split.
  - intros k i Hk Hi. rewrite print_offset by lia.
    change (Z.to_nat 2) with 2%nat.
    rewrite Hpre2.
    + rewrite Hcell1 by lia. rewrite Z.add_0_l, !Z2Nat.id by lia. reflexivity.
    + rewrite Hlen1.
      assert (Z.to_nat k * S (Z.to_nat N) + Z.to_nat i
              < Z.to_nat D * S (Z.to_nat N))%nat; [|lia].
      assert (S (Z.to_nat k) <= Z.to_nat D)%nat by lia. nia.
  - intros k i Hk Hi. rewrite print_offset by lia.
    rewrite Z2Nat.inj_add by lia. change (Z.to_nat 2) with 2%nat.
    replace (2 + (Z.to_nat D + Z.to_nat k) * S (Z.to_nat N) + Z.to_nat i)%nat
      with (String.length s1 + Z.to_nat k * S (Z.to_nat N) + Z.to_nat i)%nat
      by (rewrite Hlen1; lia).
    rewrite Hcell2 by lia. rewrite Z.add_0_l, !Z2Nat.id by lia.
    replace (k + D - 1) with (D - 1 + k) by lia. reflexivity.
Qed.

Lemma Highway_print_text_SD_witness :
  exists text,
    sim_client_requests.Highway_print
      (sim_client_requests.sim_road (two_cars_SD false)) = Ok text /\
    String.length text = 446%nat /\
    String.get 5 text = Some "C"%char /\
    String.get 335 text = Some "~"%char.
Proof.
  destruct (Highway_print_text_SD (sim_client_requests.sim_road (two_cars_SD false)))
    as (text & Hrun & Hlen & Hdef & Hsd).
  - split; [reflexivity | repeat constructor].
  - vm_compute. discriminate.
  - vm_compute. discriminate.
  - vm_compute. discriminate.
  - exists text. split; [exact Hrun|]. split; [exact Hlen|].
    split.
    + apply (Hdef 0 3); vm_compute; split; congruence.
    + apply (Hsd 0 0); vm_compute; split; congruence.
Defined.

(** ** Partial correctness *)

Lemma bind_inv {S A B : Type} (m : M S A) (f : A -> M S B) s b s'' :
  bind m f s = Ok (b, s'') ->
  exists a s', m s = Ok (a, s') /\ f a s' = Ok (b, s'').
Proof.
  unfold bind. destruct (m s) as [[a s']|e]; [eauto | discriminate].
Qed.

Lemma hoare_bind {S A B : Type} (P : S -> Prop) (Q : A -> S -> Prop)
      (R : B -> S -> Prop) (m : M S A) (f : A -> M S B) :
  hoare P m Q -> (forall a, hoare (Q a) (f a) R) -> hoare P (bind m f) R.
Proof.
  intros Hm Hf s b s'' HP Hrun.
  destruct (bind_inv _ _ _ _ _ Hrun) as (a & s' & H1 & H2).
  exact (Hf a s' b s'' (Hm s a s' HP H1) H2).
Qed.

Lemma hoare_conseq {S A : Type} (P P' : S -> Prop) (Q Q' : A -> S -> Prop)
      (m : M S A) :
  hoare P m Q -> (forall s, P' s -> P s) -> (forall a s, Q a s -> Q' a s) ->
  hoare P' m Q'.
Proof. intros H HP HQ s a s' HP' Hrun. eauto. Qed.

Lemma hoare_ret {S A : Type} (I : S -> Prop) (a : A) :
  hoare I (ret a) (fun _ => I).
Proof. intros s a' s' HI Hrun. inversion Hrun; subst. exact HI. Qed.

Lemma hoare_gets {S A : Type} (I : S -> Prop) (g : S -> A) :
  hoare I (gets g) (fun _ => I).
Proof. intros s a' s' HI Hrun. inversion Hrun; subst. exact HI. Qed.

Lemma hoare_lift {S A : Type} (I : S -> Prop) (g : S -> result A) :
  hoare I (lift g) (fun _ => I).
Proof.
  intros s a' s' HI Hrun. unfold lift in Hrun.
  destruct (g s); [|discriminate]. inversion Hrun; subst. exact HI.
Qed.

Lemma hoare_for_each {S A : Type} (I : S -> Prop) (xs : list A)
      (body : A -> M S unit) :
  (forall x, In x xs -> hoare I (body x) (fun _ => I)) ->
  hoare I (for_each xs body) (fun _ => I).
Proof.
  induction xs as [|x xs IH]; intros Hbody.
  - apply hoare_ret.
  - simpl. eapply hoare_bind; [apply Hbody; left; reflexivity|].
    intros u. apply IH. intros y Hy. apply Hbody. right. exact Hy.
Qed.

Lemma hoare_for_fold {S A B : Type} (I : B -> S -> Prop) (xs : list A)
      (body : A -> B -> M S B) :
  (forall x acc, In x xs -> hoare (I acc) (body x acc) I) ->
  forall acc, hoare (I acc) (for_fold xs acc body) I.
Proof.
  induction xs as [|x xs IH]; intros Hbody acc.
  - intros s a s' HI Hrun. inversion Hrun; subst. exact HI.
  - simpl. eapply hoare_bind; [apply Hbody; left; reflexivity|].
    intros acc'. apply IH. intros y a Hy. apply Hbody. right. exact Hy.
Qed.

(** ** highway_sim_V2: the ledger of a run *)

Section V2_ledger.
Import highway_sim_V2.
Variable rand : nat -> Q.

Lemma V2_same_vehicle_refl d : same_vehicle_V2 d d.
Proof. repeat split. Qed.

Lemma V2_same_vehicle_trans d1 d2 d3 :
  same_vehicle_V2 d1 d2 -> same_vehicle_V2 d2 d3 -> same_vehicle_V2 d1 d3.
Proof.
  intros (A1 & A2 & A3 & A4 & A5) (B1 & B2 & B3 & B4 & B5).
  repeat split; congruence.
Qed.

Lemma V2_exit_stamp_same now d : same_vehicle_V2 d (exit_stamp now d).
Proof. repeat split. Qed.

Lemma V2_exit_row_same now d d' row :
  same_vehicle_V2 d d' -> exit_row_V2 now d' row -> exit_row_V2 now d row.
Proof.
  intros (A1 & A2 & A3 & A4 & A5) (B1 & B2 & B3 & B4 & B5 & B6 & B7 & B8 & B9).
  unfold exit_row_V2. rewrite <- A1, <- A2, <- A3, <- A5. repeat split; assumption.
Qed.

Lemma V2_tl_refl s0 : traversal_ledger_V2 s0 s0.
Proof.
  constructor; try reflexivity.
  - intros r d H. exists d. split; [exact H | apply V2_same_vehicle_refl].
  - exists []. rewrite app_nil_r. split; [reflexivity | constructor].
Qed.

Lemma V2_tl_road s0 s h :
  traversal_ledger_V2 s0 s -> traversal_ledger_V2 s0 (set_sim_road h s).
Proof. intros [H1 H2 H3 H4 H5 H6 H7]. constructor; assumption. Qed.

Lemma V2_tl_draws s0 s n :
  traversal_ledger_V2 s0 s -> (draws s <= n)%nat ->
  traversal_ledger_V2 s0 (set_draws n s).
Proof.
  intros [H1 H2 H3 H4 H5 H6 H7] Hn. constructor; try assumption. simpl. lia.
Qed.

Lemma V2_tl_update s0 s r d d' :
  traversal_ledger_V2 s0 s -> objects s !! r = Some d -> same_vehicle_V2 d d' ->
  traversal_ledger_V2 s0 (set_objects (<[r := d']> (objects s)) s).
Proof.
  intros [H1 H2 H3 H4 H5 H6 H7] Hobj Hsame. constructor; try assumption.
  - simpl. rewrite length_insert. exact H5.
  - simpl. intros r' x Hx.
    destruct (Nat.eq_dec r' r) as [->|Hne].
    + rewrite list_lookup_insert_eq in Hx by (apply (lookup_lt_Some _ _ _ Hobj)).
      injection Hx as <-.
      destruct (H6 r d Hobj) as (d0 & Hd0 & Hs0).
      exists d0. split; [exact Hd0|]. eapply V2_same_vehicle_trans; eassumption.
    + rewrite list_lookup_insert_ne in Hx by congruence. apply H6. exact Hx.
Qed.

Lemma V2_tl_exit s0 s r d row :
  traversal_ledger_V2 s0 s -> objects s !! r = Some d ->
  exit_row_V2 (current_step s) d row ->
  traversal_ledger_V2 s0 (set_data (data s ++ [row]) s).
Proof.
  intros [H1 H2 H3 H4 H5 H6 H7] Hobj Hrow. constructor; try assumption.
  destruct H7 as (rows & Hdata & Hrows). exists (rows ++ [row]). split.
  - simpl. rewrite Hdata, app_assoc. reflexivity.
  - apply Forall_app. split; [exact Hrows|]. constructor; [|constructor].
    destruct (H6 r d Hobj) as (d0 & Hd0 & Hs0).
    exists r, d0. split; [exact Hd0|]. rewrite <- H2.
    eapply V2_exit_row_same; eassumption.
Qed.

(** The primitives keep the ledger of the traversal. *)

Lemma V2_tl_road_get s0 lane i :
  hoare (traversal_ledger_V2 s0) (road_get lane i) (fun _ => traversal_ledger_V2 s0).
Proof. apply hoare_lift. Qed.

Lemma V2_road_set_inv lane i v s u s' :
  road_set lane i v s = Ok (u, s') -> exists h, s' = set_sim_road h s.
Proof.
  unfold road_set. destruct (Highway_set (sim_road s) lane i v) as [h|e];
    [|discriminate].
  intros H. injection H as _ <-. exists h. reflexivity.
Qed.

Lemma V2_tl_road_set s0 lane i v :
  hoare (traversal_ledger_V2 s0) (road_set lane i v) (fun _ => traversal_ledger_V2 s0).
Proof.
  intros s u s' HT Hrun. destruct (V2_road_set_inv _ _ _ _ _ _ Hrun) as (h & ->).
  apply V2_tl_road. exact HT.
Qed.

Lemma V2_attr_inv {A : Type} driver (f : Driver -> A) s a s' :
  attr driver f s = Ok (a, s') ->
  s' = s /\ exists r d, driver = Some r /\ objects s !! r = Some d /\ a = f d.
Proof.
  unfold attr. destruct driver as [r|]; [|discriminate].
  destruct (objects s !! r) as [d|] eqn:E; [|discriminate].
  intros H. injection H as <- <-. split; [reflexivity|]. eauto.
Qed.

Lemma V2_set_attr_inv driver upd s u s' :
  set_attr driver upd s = Ok (u, s') ->
  exists r d, driver = Some r /\ objects s !! r = Some d /\
              s' = set_objects (<[r := upd d]> (objects s)) s.
Proof.
  unfold set_attr. destruct driver as [r|]; [|discriminate].
  destruct (objects s !! r) as [d|] eqn:E; [|discriminate].
  intros H. injection H as _ <-. eauto.
Qed.

Lemma V2_tl_attr {A : Type} s0 driver (f : Driver -> A) :
  hoare (traversal_ledger_V2 s0) (attr driver f) (fun _ => traversal_ledger_V2 s0).
Proof.
  intros s a s' HT Hrun. destruct (V2_attr_inv _ _ _ _ _ Hrun) as [-> _]. exact HT.
Qed.

Lemma V2_tl_set_desire s0 driver v :
  hoare (traversal_ledger_V2 s0) (set_attr driver (set_desire v))
        (fun _ => traversal_ledger_V2 s0).
Proof.
  intros s u s' HT Hrun.
  destruct (V2_set_attr_inv _ _ _ _ _ Hrun) as (r & d & _ & Hobj & ->).
  apply (V2_tl_update s0 s r d); [exact HT | exact Hobj | repeat split].
Qed.

Lemma V2_tl_random s0 :
  hoare (traversal_ledger_V2 s0) (random_random rand)
        (fun _ => traversal_ledger_V2 s0).
Proof.
  intros s a s' HT Hrun. injection Hrun as _ <-. apply V2_tl_draws; [exact HT | lia].
Qed.

Local Ltac ledger_step :=
  first
    [ apply V2_tl_road_get | apply V2_tl_road_set | apply V2_tl_attr
    | apply V2_tl_set_desire | apply V2_tl_random
    | apply hoare_ret | apply hoare_gets | apply hoare_lift
    | (eapply hoare_bind; [|intro]) ].

Local Ltac ledger_walk :=
  repeat first
    [ ledger_step
    | match goal with
      | |- hoare _ (if ?b then _ else _) _ => destruct b
      | |- hoare _ (match ?d with CRUISE => _ | _ => _ end) _ => destruct d
      end ].

Lemma V2_tl_sim_cruise s0 lane i :
  hoare (traversal_ledger_V2 s0) (sim_cruise lane i) (fun _ => traversal_ledger_V2 s0).
Proof. unfold sim_cruise. ledger_walk. Qed.

Lemma V2_tl_pick_direction s0 lane i driver r :
  hoare (traversal_ledger_V2 s0) (pick_direction lane i driver r)
        (fun _ => traversal_ledger_V2 s0).
Proof. unfold pick_direction. ledger_walk. Qed.

Lemma V2_tl_act_on_desire s0 lane i driver :
  hoare (traversal_ledger_V2 s0) (act_on_desire lane i driver)
        (fun _ => traversal_ledger_V2 s0).
Proof.
  unfold act_on_desire. eapply hoare_bind; [apply V2_tl_attr|]. intros d.
  destruct d; ledger_walk; apply V2_tl_sim_cruise.
Qed.

(** What a normal return of the exit branch tells. *)
Lemma V2_leave_highway_inv lane i driver s u s' :
  leave_highway lane i driver s = Ok (u, s') ->
  exists r d h,
    driver = Some r /\ objects s !! r = Some d /\
    current_step s <> arrive_time d /\
    s' = set_data (data s ++ [output_data (exit_stamp (current_step s) d)])
           (set_objects (<[r := exit_stamp (current_step s) d]> (objects s))
              (set_sim_road h s)).
Proof.
  intros Hrun. unfold leave_highway in Hrun.
  destruct (bind_inv _ _ _ _ _ Hrun) as ([] & s1 & Hset & Hrest). clear Hrun.
  destruct (V2_road_set_inv _ _ _ _ _ _ Hset) as (h & ->).
  rewrite bind_gets in Hrest.
  destruct (bind_inv _ _ _ _ _ Hrest) as ([] & s2 & Hfinal & _).
  destruct (V2_set_attr_inv _ _ _ _ _ Hfinal) as (r & d & -> & Hobj & _).
  clear Hfinal s2.
  pose proof (lookup_lt_Some _ _ _ Hobj) as Hr.
  exists r, d, h. split; [reflexivity|]. split; [exact Hobj|].
  rewrite (V2_bind_set_attr (set_sim_road h s) r d _ _ Hobj) in Hrest.
  erewrite V2_bind_set_attr in Hrest
    by (simpl; apply list_lookup_insert_eq; rewrite ?length_insert; assumption).
  erewrite V2_bind_attr in Hrest
    by (simpl; apply list_lookup_insert_eq; rewrite ?length_insert; assumption).
  erewrite V2_bind_attr in Hrest
    by (simpl; apply list_lookup_insert_eq; rewrite ?length_insert; assumption).
  erewrite V2_bind_set_attr in Hrest
    by (simpl; apply list_lookup_insert_eq; rewrite ?length_insert; assumption).
  erewrite V2_bind_attr in Hrest
    by (simpl; apply list_lookup_insert_eq; rewrite ?length_insert; assumption).
  erewrite V2_bind_attr in Hrest
    by (simpl; apply list_lookup_insert_eq; rewrite ?length_insert; assumption).
  simpl in Hrest. unfold bind at 1, lift, py_truediv in Hrest.
  destruct (current_step s - arrive_time d =? 0) eqn:E; [discriminate|].
  apply Z.eqb_neq in E. split; [lia|].
  erewrite V2_bind_set_attr in Hrest
    by (simpl; apply list_lookup_insert_eq; rewrite ?length_insert; assumption).
  erewrite V2_bind_attr in Hrest
    by (simpl; apply list_lookup_insert_eq; rewrite ?length_insert; assumption).
  unfold modify in Hrest. simpl in Hrest. rewrite !list_insert_insert_eq in Hrest.
  injection Hrest as _ <-. reflexivity.
Qed.

Lemma V2_exit_row_stamp now d :
  now <> arrive_time d ->
  exit_row_V2 now d (output_data (exit_stamp now d)).
Proof. intros H. repeat split; assumption. Qed.

Lemma V2_tl_leave_highway s0 lane i driver :
  hoare (traversal_ledger_V2 s0) (leave_highway lane i driver)
        (fun _ => traversal_ledger_V2 s0).
Proof.
  intros s u s' HT Hrun.
  destruct (V2_leave_highway_inv _ _ _ _ _ _ Hrun)
    as (r & d & h & -> & Hobj & Htime & ->).
  set (d' := exit_stamp (current_step s) d).
  assert (HT1 : traversal_ledger_V2 s0
                  (set_objects (<[r := d']> (objects s)) (set_sim_road h s))).
  { apply (V2_tl_update s0 (set_sim_road h s) r d);
      [apply V2_tl_road; exact HT | exact Hobj | apply V2_exit_stamp_same]. }
  apply (V2_tl_exit s0 _ r d' _ HT1).
  - simpl. apply list_lookup_insert_eq. apply (lookup_lt_Some _ _ _ Hobj).
  - simpl. eapply V2_exit_row_same;
      [|apply V2_exit_row_stamp; exact Htime].
    repeat split.
Qed.

Lemma V2_tl_sim_driver s0 lane i :
  hoare (traversal_ledger_V2 s0) (sim_driver rand lane i)
        (fun _ => traversal_ledger_V2 s0).
Proof.
  unfold sim_driver.
  eapply hoare_bind; [apply V2_tl_road_get|]. intros driver.
  eapply hoare_bind; [apply V2_tl_attr|]. intros speed_.
  eapply hoare_bind; [apply hoare_gets|]. intros len.
  destruct (len - 1 <=? speed_ + i).
  - apply V2_tl_leave_highway.
  - eapply hoare_bind; [apply V2_tl_random|]. intros r.
    eapply hoare_bind; [apply V2_tl_pick_direction|]. intros u.
    apply V2_tl_act_on_desire.
Qed.

Lemma V2_tl_traversal s0 :
  hoare (traversal_ledger_V2 s0)
        (let* len := gets (fun s => hw_length (sim_road s)) in
         for_each (py_range_rev (len - 1) (-1)) (fun i =>
           let* lanes := gets (fun s => num_lanes (sim_road s)) in
           for_each (py_range 0 lanes) (fun k => visit rand i k)))
        (fun _ => traversal_ledger_V2 s0).
Proof.
  eapply hoare_bind; [apply hoare_gets|]. intros len.
  apply hoare_for_each. intros i _.
  eapply hoare_bind; [apply hoare_gets|]. intros lanes.
  apply hoare_for_each. intros k _. unfold visit.
  eapply hoare_bind; [apply V2_tl_road_get|]. intros c.
  destruct (occupied c); [apply V2_tl_sim_driver | apply hoare_ret].
Qed.

(** The loop of [gen_new_drivers]. *)

Lemma V2_al_start s0 ih :
  arrivals_ledger_V2 s0 (num_cars s0) (ih, num_cars s0) s0.
Proof.
  constructor; try reflexivity. exists []. rewrite app_nil_r.
  split; [reflexivity|]. split; [simpl; lia|]. intros k d H. discriminate.
Qed.

Lemma V2_al_gen_lane s0 n0 lane acc :
  hoare (arrivals_ledger_V2 s0 n0 acc) (gen_lane rand lane acc)
        (arrivals_ledger_V2 s0 n0).
Proof.
  intros s acc' s' HA Hrun. destruct acc as [ih id].
  destruct HA as [H1 H2 H3 H4 H5 (news & Hobjs & Hid & Hnews)].
  unfold gen_lane in Hrun. unfold bind at 1, random_random in Hrun.
  destruct (Qlt_bool (rand (draws s)) CAR_PROBABILITY).
  - unfold bind at 1 in Hrun. unfold bind at 1 in Hrun.
    rewrite bind_gets in Hrun. unfold bind at 1, alloc in Hrun.
    destruct (bind_inv _ _ _ _ _ Hrun) as ([] & s1 & Hset & Hret). clear Hrun.
    destruct (V2_road_set_inv _ _ _ _ _ _ Hset) as (h & ->).
    injection Hret as <- <-.
    constructor; simpl; try assumption; try lia.
    exists (news ++ [new_Driver id
                       (if Qlt_bool (rand (S (S (draws s)))) FAST_PROBABILITY
                        then FAST else SLOW) (current_step s)
                       (Qlt_bool (rand (S (draws s))) IS_HUMAN_PROBABILITY)]).
    split; [rewrite Hobjs, app_assoc; reflexivity|].
    split; [rewrite length_app; simpl in *; lia|].
    intros k d Hk. apply lookup_app_Some in Hk as [Hk|[Hge Hk]].
    + apply Hnews. exact Hk.
    + destruct (k - length news)%nat as [|k'] eqn:Ek; [|discriminate].
      injection Hk as <-. simpl in *.
      split; [lia|]. split; [exact H2|]. split; [|reflexivity].
      destruct (Qlt_bool (rand (S (S (draws s)))) FAST_PROBABILITY); auto.
  - injection Hrun as <- <-.
    constructor; simpl; try assumption; try lia.
    exists news. auto.
Qed.

Lemma V2_al_gen_new_drivers s0 n :
  hoare (fun s => s = s0 /\ n = num_cars s0) (gen_new_drivers rand n)
        (fun n' s' => exists ih, arrivals_ledger_V2 s0 (num_cars s0) (ih, n') s').
Proof.
  intros s n' s' [-> ->] Hrun. unfold gen_new_drivers in Hrun.
  rewrite bind_gets in Hrun.
  destruct (bind_inv _ _ _ _ _ Hrun) as (acc & s1 & Hfold & Hret). clear Hrun.
  injection Hret as <- <-.
  pose proof (hoare_for_fold (arrivals_ledger_V2 s0 (num_cars s0))
                (py_range 0 (num_lanes (sim_road s0))) (gen_lane rand)
                (fun x a _ => V2_al_gen_lane s0 (num_cars s0) x a)
                (true, num_cars s0) s0 acc s1 (V2_al_start s0 true) Hfold) as HA.
  exists (fst acc). destruct acc. exact HA.
Qed.

(** One iteration of [run] on the ledger. *)
Lemma V2_run_step_ledger s s' :
  ledger_inv_V2 s -> run_step rand s = Ok (tt, s') ->
  ledger_inv_V2 s' /\
  time_steps s' = time_steps s /\
  current_step s' = current_step s + 1 /\
  (draws s <= draws s')%nat /\
  (exists rows, data s' = data s ++ rows) /\
  (exists news, length (objects s') = (length (objects s) + news)%nat).
Proof.
  intros [Inow Icars Iobjs Idata] Hrun. unfold run_step, execute_time_step in Hrun.
  destruct (bind_inv _ _ _ _ _ Hrun) as ([] & s3 & Hexec & Hstep). clear Hrun.
  injection Hstep as <-.
  rewrite bind_gets in Hexec.
  destruct (bind_inv _ _ _ _ _ Hexec) as ([] & s1 & Htrav & Hgen). clear Hexec.
  assert (HT : traversal_ledger_V2 s s1).
  { apply (V2_tl_traversal s s tt s1 (V2_tl_refl s)).
    rewrite bind_gets. exact Htrav. }
  rewrite bind_gets in Hgen.
  destruct (bind_inv _ _ _ _ _ Hgen) as (n' & s2 & Hnew & Hmod). clear Hgen.
  injection Hmod as <-.
  destruct (V2_al_gen_new_drivers s1 (num_cars s1) s1 n' s2 (conj eq_refl eq_refl) Hnew)
    as (ih & [A1 A2 A3 A4 A5 (news & Aobjs & Aid & Anews)]).
  destruct HT as [T1 T2 T3 T4 T5 T6 (rows & Tdata & Trows)].
  simpl in Aid.
  assert (Hold : forall r d, (r < length (objects s))%nat ->
                   objects s2 !! r = Some d ->
                   exists d0, objects s !! r = Some d0 /\ same_vehicle_V2 d0 d).
  { intros r d Hr Hd. apply T6. rewrite Aobjs in Hd.
    rewrite lookup_app_l in Hd by lia. exact Hd. }
  assert (Hfwd : forall r d0, objects s !! r = Some d0 ->
                   exists d, objects s2 !! r = Some d /\ same_vehicle_V2 d0 d).
  { intros r d0 Hd0. pose proof (lookup_lt_Some _ _ _ Hd0) as Hr.
    destruct (lookup_lt_is_Some_2 (objects s1) r ltac:(lia)) as [d Hd].
    exists d. split; [rewrite Aobjs; apply lookup_app_l_Some; exact Hd|].
    destruct (T6 r d Hd) as (d0' & Hd0' & Hs). congruence. }
  split; [constructor|]; simpl.
  - lia.
  - rewrite Aid, T3, Icars, Aobjs, length_app, T5. lia.
  - intros r d Hd.
    destruct (Nat.lt_ge_cases r (length (objects s))) as [Hr|Hr].
    + destruct (Hold r d Hr Hd) as (d0 & Hd0 & (S1 & S2 & S3 & S4 & S5)).
      destruct (Iobjs r d0 Hd0) as (I1 & I2 & I3).
      rewrite S1, S5, S3. split; [exact I1|]. split; [lia | exact I3].
    + rewrite Aobjs in Hd. rewrite lookup_app_r in Hd by lia.
      destruct (Anews _ _ Hd) as (N1 & N2 & N3 & N4).
      rewrite N1, N2, T3, T2, Icars. split; [lia|]. split; [lia | exact N3].
  - rewrite A5, Tdata. apply Forall_app. split.
    + eapply Forall_impl; [exact Idata|]. simpl.
      intros row [(r & d0 & Hd0 & R1 & R2 & R3 & R4 & R5) Hft]. split; [|lia].
      destruct (Hfwd r d0 Hd0) as (d & Hd & (S1 & S2 & S3 & S4 & S5)).
      exists r, d. split; [exact Hd|]. rewrite S3, S2, S5. auto.
    + eapply Forall_impl; [exact Trows|]. simpl.
      intros row (r & d0 & Hd0 & (E1 & E2 & E3 & E4 & E5 & E6 & E7 & E8 & E9)).
      destruct (Iobjs r d0 Hd0) as (I1 & I2 & I3).
      destruct (Hfwd r d0 Hd0) as (d & Hd & (S1 & S2 & S3 & S4 & S5)).
      split; [|lia].
      exists r, d. split; [exact Hd|]. rewrite S3, S2, S5.
      split; [congruence|]. split; [exact E2|]. split; [exact E3|].
      split; [exact E4|]. split; [exact E6|]. split; [lia|]. split; [lia|].
      rewrite E6, E7. exact E9.
  - split; [congruence|]. split; [lia|]. split; [lia|]. split.
    + exists rows. rewrite A5. exact Tdata.
    + exists (length news). rewrite Aobjs, length_app, T5. reflexivity.
Qed.

Lemma V2_new_Simulation_ledger time_steps_ : ledger_inv_V2 (new_Simulation time_steps_).
Proof.
  constructor; simpl; try lia; try reflexivity.
  - intros r d H. discriminate.
  - constructor.
Qed.

Lemma V2_reachable_ledger s : reachable_V2 rand s -> ledger_inv_V2 s.
Proof.
  induction 1 as [n|s s' Hreach IH Hstep].
  - apply V2_new_Simulation_ledger.
  - apply (V2_run_step_ledger s s' IH Hstep).
Qed.

End V2_ledger.

Lemma run_n_V2_reachable (rand : nat -> Q) (n : nat) :
  forall s s', reachable_V2 rand s -> run_n_V2 rand n s = Ok (tt, s') ->
               reachable_V2 rand s'.
Proof.
  induction n as [|n IH]; intros s s' Hreach Hrun.
  - injection Hrun as <-. exact Hreach.
  - simpl in Hrun. destruct (bind_inv _ _ _ _ _ Hrun) as ([] & s1 & Hstep & Hrest).
    apply (IH s1 s'); [|exact Hrest].
    exact (reach_step_V2 rand s s1 Hreach Hstep).
Defined.

(** X14. Vehicle ids in highway_sim_V2.  In every state of a run,
    [num_cars] is the number of Driver objects created so far, the object
    created in [r]-th place carries the id [r], so that two objects never
    share an id, and two cells of the grid never hold vehicles with the same
    id. *)
Theorem vehicle_ids_are_unique :
  forall (rand : nat -> Q) (s : highway_sim_V2.Simulation),
    reachable_V2 rand s ->
    highway_sim_V2.num_cars s = Z.of_nat (length (highway_sim_V2.objects s)) /\
    (forall r d, highway_sim_V2.objects s !! r = Some d ->
                 highway_sim_V2.car_id d = Z.of_nat r /\
                 0 <= highway_sim_V2.car_id d < highway_sim_V2.num_cars s) /\
    (forall r r' d d',
        highway_sim_V2.objects s !! r = Some d ->
        highway_sim_V2.objects s !! r' = Some d' ->
        highway_sim_V2.car_id d = highway_sim_V2.car_id d' -> r = r') /\
    (forall l j l' j' r r' d d',
        cellV2 s l j = Some r -> cellV2 s l' j' = Some r' ->
        highway_sim_V2.objects s !! r = Some d ->
        highway_sim_V2.objects s !! r' = Some d' ->
        highway_sim_V2.car_id d = highway_sim_V2.car_id d' ->
        l = l' /\ j = j').
Proof.
  intros rand s Hreach.
  pose proof (V2_reachable_ledger rand s Hreach) as [Lnow Lcars Lobjs Ldata].
  pose proof (V2_reachable_inv rand s Hreach) as SI.
  assert (Hinj : forall r r' d d',
             highway_sim_V2.objects s !! r = Some d ->
             highway_sim_V2.objects s !! r' = Some d' ->
             highway_sim_V2.car_id d = highway_sim_V2.car_id d' -> r = r').
  { intros r r' d d' Hd Hd' Heq.
    destruct (Lobjs r d Hd) as [H1 _]. destruct (Lobjs r' d' Hd') as [H2 _]. lia. }
  split; [exact Lcars|]. split; [|split; [exact Hinj|]].
  - intros r d Hd. destruct (Lobjs r d Hd) as [H1 _]. split; [exact H1|].
    pose proof (lookup_lt_Some _ _ _ Hd). lia.
  - intros l j l' j' r r' d d' Hc Hc' Hd Hd' Heq.
    pose proof (Hinj r r' d d' Hd Hd' Heq) as ->.
    exact (si_uniq _ SI l j l' j' r' Hc Hc').
Qed.

Lemma vehicle_ids_are_unique_witness :
  highway_sim_V2.num_cars (after_V2 2)
  = Z.of_nat (length (highway_sim_V2.objects (after_V2 2))) /\
  highway_sim_V2.num_cars (after_V2 2) = 1.
Proof.
  split.
  - apply (vehicle_ids_are_unique (stream [0; 0; 0]%Q) (after_V2 2)).
    apply (run_n_V2_reachable (stream [0; 0; 0]%Q) 2
             (highway_sim_V2.new_Simulation 10) (after_V2 2)).
    + apply reach_init_V2.
    + vm_compute. reflexivity.
  - reflexivity.
Defined.

(** X15. Exit records of highway_sim_V2.  In every state of a run, every
    record of [data] carries the id of a vehicle that was created, a speed
    of SLOW or FAST, an arrival tick that is not negative and precedes the
    exit tick, which precedes the current tick; the distance is the length
    of the highway, the travel time is the exit tick minus the arrival tick
    (so the division never fails), and the average speed is the distance
    over the travel time. *)
Theorem exit_records_are_consistent :
  forall (rand : nat -> Q) (s : highway_sim_V2.Simulation),
    reachable_V2 rand s ->
    Forall (fun row =>
              0 <= highway_sim_V2.out_id row < highway_sim_V2.num_cars s /\
              (highway_sim_V2.out_speed row = highway_sim_V2.SLOW \/
               highway_sim_V2.out_speed row = highway_sim_V2.FAST) /\
              0 <= highway_sim_V2.out_arrive_time row
                < highway_sim_V2.out_final_time row /\
              highway_sim_V2.out_final_time row < highway_sim_V2.current_step s /\
              highway_sim_V2.out_final_dist row = highway_sim_V2.HIGHWAY_LENGTH /\
              highway_sim_V2.out_travel_time row =
                highway_sim_V2.out_final_time row
                - highway_sim_V2.out_arrive_time row /\
              highway_sim_V2.out_avg_speed row =
                Qdiv (inject_Z highway_sim_V2.HIGHWAY_LENGTH)
                     (inject_Z (highway_sim_V2.out_travel_time row)))
           (highway_sim_V2.data s).
Proof.
  intros rand s Hreach.
  pose proof (V2_reachable_ledger rand s Hreach) as [Lnow Lcars Lobjs Ldata].
  eapply Forall_impl; [exact Ldata|]. simpl.
  intros row [(r & d & Hd & R1 & R2 & R3 & R4 & R5 & R6 & R7 & R8) Hft].
  destruct (Lobjs r d Hd) as (I1 & I2 & I3).
  pose proof (lookup_lt_Some _ _ _ Hd) as Hr.
  split; [lia|]. split; [rewrite R2; exact I3|]. split; [lia|].
  split; [exact Hft|]. split; [exact R5|]. split; [exact R6|].
  rewrite R8, R5. reflexivity.
Qed.

Lemma exit_records_are_consistent_witness :
  length (highway_sim_V2.data (after_V2 23)) = 1%nat /\
  Forall (fun row =>
            0 <= highway_sim_V2.out_id row < highway_sim_V2.num_cars (after_V2 23) /\
            (highway_sim_V2.out_speed row = highway_sim_V2.SLOW \/
             highway_sim_V2.out_speed row = highway_sim_V2.FAST) /\
            0 <= highway_sim_V2.out_arrive_time row
              < highway_sim_V2.out_final_time row /\
            highway_sim_V2.out_final_time row
              < highway_sim_V2.current_step (after_V2 23) /\
            highway_sim_V2.out_final_dist row = highway_sim_V2.HIGHWAY_LENGTH /\
            highway_sim_V2.out_travel_time row =
              highway_sim_V2.out_final_time row
              - highway_sim_V2.out_arrive_time row /\
            highway_sim_V2.out_avg_speed row =
              Qdiv (inject_Z highway_sim_V2.HIGHWAY_LENGTH)
                   (inject_Z (highway_sim_V2.out_travel_time row)))
         (highway_sim_V2.data (after_V2 23)).
Proof.
  split; [reflexivity|].
  apply (exit_records_are_consistent (stream [0; 0; 0]%Q) (after_V2 23)).
  apply (run_n_V2_reachable (stream [0; 0; 0]%Q) 23
           (highway_sim_V2.new_Simulation 10) (after_V2 23)).
  - apply reach_init_V2.
  - vm_compute. reflexivity.
Defined.

(** ** Simulation.run *)

Lemma print_lanes_total road lanes len (lane_of : Z -> Z) (free taken : ascii) :
  wf_grid road lanes len -> 0 <= len ->
  forall m k0 s,
    (forall k, k0 <= k < k0 + Z.of_nat m -> 0 <= lane_of k < lanes) ->
    exists s',
      print_lanes road len (range_up k0 m) lane_of (String free EmptyString)
                  (String taken EmptyString) s = Ok s'.
Proof.
  intros Hwf Hlen m k0 s Hlanes.
  destruct (print_lanes_spec road lanes len lane_of free taken Hwf Hlen m k0 s Hlanes)
    as (s' & Hrun & _).
  exists s'. exact Hrun.
Qed.

Lemma V2_print_total (h : highway_sim_V2.Highway) :
  wf_HighwayV2 h -> 0 <= highway_sim_V2.hw_length h ->
  exists text, highway_sim_V2.Highway_print h = Ok text.
Proof.
  intros Hwf Hlen. unfold highway_sim_V2.Highway_print, py_range.
  apply (print_lanes_total _ _ _ (fun k => k) "_" "C" Hwf Hlen). intros; lia.
Qed.

Lemma V2_run_from (rand : nat -> Q) (fuel : nat) :
  forall (s : highway_sim_V2.Simulation) (out : list string),
    reachable_V2 rand s ->
    (Z.to_nat (highway_sim_V2.time_steps s - highway_sim_V2.current_step s) < fuel)%nat ->
    exists s' out',
      highway_sim_V2.run rand fuel (s, out) = Ok (true, (s', out')) /\
      reachable_V2 rand s' /\
      highway_sim_V2.time_steps s' = highway_sim_V2.time_steps s /\
      highway_sim_V2.current_step s' =
        Z.max (highway_sim_V2.current_step s) (highway_sim_V2.time_steps s) /\
      length out' =
        (length out
         + Z.to_nat (highway_sim_V2.time_steps s - highway_sim_V2.current_step s))%nat.
Proof.
  induction fuel as [|fuel IH]; intros s out Hreach Hfuel; [lia|].
  simpl. rewrite !bind_gets. simpl.
  destruct (highway_sim_V2.current_step s <? highway_sim_V2.time_steps s) eqn:E.
  - apply Z.ltb_lt in E.
    pose proof (V2_reachable_inv rand s Hreach) as SI.
    pose proof (V2_reachable_ledger rand s Hreach) as LI.
    destruct (V2_run_step_spec rand s SI) as ([] & s1 & Hstep & SI1 & _).
    destruct (V2_run_step_ledger rand s s1 LI Hstep) as (_ & Hsteps & Hnow & _).
    pose proof (reach_step_V2 rand s s1 Hreach Hstep) as Hreach1.
    destruct (V2_print_total (highway_sim_V2.sim_road s1) (si_wf _ SI1))
      as (text & Hprint).
    { pose proof (si_len _ SI1) as H5. unfold lenV2 in H5. lia. }
    destruct (IH s1 (out ++ [text]) Hreach1 ltac:(lia))
      as (s' & out' & Hrun & Hreach' & Hsteps' & Hnow' & Hout').
    exists s', out'. split.
    { unfold bind at 1, in_world. simpl. rewrite Hstep.
      unfold bind at 1, py_print. simpl. rewrite Hprint. exact Hrun. }
    split; [exact Hreach'|]. split; [congruence|]. split; [lia|].
    rewrite Hout', length_app. simpl. lia.
  - apply Z.ltb_ge in E. exists s, out. split; [reflexivity|].
    split; [exact Hreach|]. split; [reflexivity|]. split; [lia|].
    replace (Z.to_nat (highway_sim_V2.time_steps s - highway_sim_V2.current_step s))
      with O by lia. lia.
Qed.

(** X16. Simulation.run of highway_sim_V2 ends without an exception.  For
    every random stream and every number of time steps [n], the loop of
    [run], started on [Simulation(n)], leaves after [max 0 n] iterations
    (any larger unrolling bound gives the same result): the final tick is
    [max 0 n], and the road has been printed once per iteration. *)
Theorem run_ends_normally :
  forall (rand : nat -> Q) (n : Z) (fuel : nat) (out : list string),
    (Z.to_nat n < fuel)%nat ->
    exists s' out',
      highway_sim_V2.run rand fuel (highway_sim_V2.new_Simulation n, out)
      = Ok (true, (s', out')) /\
      reachable_V2 rand s' /\
      highway_sim_V2.time_steps s' = n /\
      highway_sim_V2.current_step s' = Z.max 0 n /\
      length out' = (length out + Z.to_nat n)%nat.
Proof.
  intros rand n fuel out Hfuel.
  destruct (V2_run_from rand fuel (highway_sim_V2.new_Simulation n) out
              (reach_init_V2 rand n))
    as (s' & out' & Hrun & Hreach & Hsteps & Hnow & Hout).
  { simpl. rewrite Z.sub_0_r. exact Hfuel. }
  exists s', out'. simpl in *. rewrite Z.sub_0_r in Hout. auto.
Qed.

Lemma run_ends_normally_witness :
  exists s' out',
    highway_sim_V2.run (stream [0; 0; 0]%Q) 4 (highway_sim_V2.new_Simulation 3, [])
    = Ok (true, (s', out')) /\
    reachable_V2 (stream [0; 0; 0]%Q) s' /\
    highway_sim_V2.time_steps s' = 3 /\
    highway_sim_V2.current_step s' = Z.max 0 3 /\
    length out' = (length (@nil string) + Z.to_nat 3)%nat.
Proof.
  apply (run_ends_normally (stream [0; 0; 0]%Q) 3 4 []). simpl. lia.
Defined.
(** ** sim_client_requests: the ledger of a run *)

Section SD_ledger.
Import sim_client_requests.
Variable rand : nat -> Q.
Variables def_car_prob sd_car_prob : Q.

Lemma SD_same_vehicle_refl d : same_vehicle_SD d d.
Proof. repeat split. Qed.

Lemma SD_same_vehicle_trans d1 d2 d3 :
  same_vehicle_SD d1 d2 -> same_vehicle_SD d2 d3 -> same_vehicle_SD d1 d3.
Proof.
  intros (A1 & A2 & A3 & A4 & A5 & A6) (B1 & B2 & B3 & B4 & B5 & B6).
  repeat split; congruence.
Qed.

Lemma SD_exit_stamp_same now d : same_vehicle_SD d (exit_stampSD now d).
Proof. repeat split. Qed.

Lemma SD_exit_row_same now d d' row :
  same_vehicle_SD d d' -> exit_row_SD now d' row -> exit_row_SD now d row.
Proof.
  intros (A1 & A2 & A3 & A4 & A5 & A6) (B1 & B2 & B3 & B4 & B5 & B6 & B7 & B8 & B9).
  unfold exit_row_SD. rewrite <- A1, <- A2, <- A4, <- A6. repeat split; assumption.
Qed.

Lemma SD_tl_refl s0 : traversal_ledger_SD s0 s0.
Proof.
  constructor; try reflexivity.
  - intros r d H. exists d. split; [exact H | apply SD_same_vehicle_refl].
  - exists []. rewrite app_nil_r. split; [reflexivity | constructor].
  - exists []. rewrite app_nil_r. split; [reflexivity | constructor].
Qed.

Lemma SD_tl_crash s0 s r d :
  traversal_ledger_SD s0 s -> objects s !! r = Some d ->
  traversal_ledger_SD s0 (set_crashes (crashes s ++ [speed d]) s).
Proof.
  intros [H1 H2 H3 H4 H5 H6 H7 H8] Hobj. constructor; try assumption.
  destruct H8 as (entries & Hlog & Hentries). exists (entries ++ [speed d]). split.
  - simpl. rewrite Hlog, app_assoc. reflexivity.
  - apply Forall_app. split; [exact Hentries|]. constructor; [|constructor].
    destruct (H6 r d Hobj) as (d0 & Hd0 & (_ & _ & _ & S4 & _)).
    exists r, d0. split; [exact Hd0 | exact S4].
Qed.

Lemma SD_tl_road s0 s h :
  traversal_ledger_SD s0 s -> traversal_ledger_SD s0 (set_sim_road h s).
Proof. intros [H1 H2 H3 H4 H5 H6 H7 H8]. constructor; assumption. Qed.

Lemma SD_tl_draws s0 s n :
  traversal_ledger_SD s0 s -> (draws s <= n)%nat ->
  traversal_ledger_SD s0 (set_draws n s).
Proof.
  intros [H1 H2 H3 H4 H5 H6 H7 H8] Hn. constructor; try assumption. simpl. lia.
Qed.

Lemma SD_tl_update s0 s r d d' :
  traversal_ledger_SD s0 s -> objects s !! r = Some d -> same_vehicle_SD d d' ->
  traversal_ledger_SD s0 (set_objects (<[r := d']> (objects s)) s).
Proof.
  intros [H1 H2 H3 H4 H5 H6 H7 H8] Hobj Hsame. constructor; try assumption.
  - simpl. rewrite length_insert. exact H5.
  - simpl. intros r' x Hx.
    destruct (Nat.eq_dec r' r) as [->|Hne].
    + rewrite list_lookup_insert_eq in Hx by (apply (lookup_lt_Some _ _ _ Hobj)).
      injection Hx as <-.
      destruct (H6 r d Hobj) as (d0 & Hd0 & Hs0).
      exists d0. split; [exact Hd0|]. eapply SD_same_vehicle_trans; eassumption.
    + rewrite list_lookup_insert_ne in Hx by congruence. apply H6. exact Hx.
Qed.

Lemma SD_tl_exit s0 s r d row :
  traversal_ledger_SD s0 s -> objects s !! r = Some d ->
  exit_row_SD (current_step s) d row ->
  traversal_ledger_SD s0 (set_data (data s ++ [row]) s).
Proof.
  intros [H1 H2 H3 H4 H5 H6 H7 H8] Hobj Hrow. constructor; try assumption.
  destruct H7 as (rows & Hdata & Hrows). exists (rows ++ [row]). split.
  - simpl. rewrite Hdata, app_assoc. reflexivity.
  - apply Forall_app. split; [exact Hrows|]. constructor; [|constructor].
    destruct (H6 r d Hobj) as (d0 & Hd0 & Hs0).
    exists r, d0. split; [exact Hd0|]. rewrite <- H2.
    eapply SD_exit_row_same; eassumption.
Qed.

(** The primitives keep the ledger of the traversal. *)

Lemma SD_tl_road_get s0 lane i :
  hoare (traversal_ledger_SD s0) (road_get lane i) (fun _ => traversal_ledger_SD s0).
Proof. apply hoare_lift. Qed.

Lemma SD_road_set_inv lane i v s u s' :
  road_set lane i v s = Ok (u, s') -> exists h, s' = set_sim_road h s.
Proof.
  unfold road_set. destruct (Highway_set (sim_road s) lane i v) as [h|e];
    [|discriminate].
  intros H. injection H as _ <-. exists h. reflexivity.
Qed.

Lemma SD_tl_road_set s0 lane i v :
  hoare (traversal_ledger_SD s0) (road_set lane i v) (fun _ => traversal_ledger_SD s0).
Proof.
  intros s u s' HT Hrun. destruct (SD_road_set_inv _ _ _ _ _ _ Hrun) as (h & ->).
  apply SD_tl_road. exact HT.
Qed.

Lemma SD_attr_inv {A : Type} driver (f : Driver -> A) s a s' :
  attr driver f s = Ok (a, s') ->
  s' = s /\ exists r d, driver = Some r /\ objects s !! r = Some d /\ a = f d.
Proof.
  unfold attr. destruct driver as [r|]; [|discriminate].
  destruct (objects s !! r) as [d|] eqn:E; [|discriminate].
  intros H. injection H as <- <-. split; [reflexivity|]. eauto.
Qed.

Lemma SD_set_attr_inv driver upd s u s' :
  set_attr driver upd s = Ok (u, s') ->
  exists r d, driver = Some r /\ objects s !! r = Some d /\
              s' = set_objects (<[r := upd d]> (objects s)) s.
Proof.
  unfold set_attr. destruct driver as [r|]; [|discriminate].
  destruct (objects s !! r) as [d|] eqn:E; [|discriminate].
  intros H. injection H as _ <-. eauto.
Qed.

Lemma SD_tl_attr {A : Type} s0 driver (f : Driver -> A) :
  hoare (traversal_ledger_SD s0) (attr driver f) (fun _ => traversal_ledger_SD s0).
Proof.
  intros s a s' HT Hrun. destruct (SD_attr_inv _ _ _ _ _ Hrun) as [-> _]. exact HT.
Qed.

Lemma SD_tl_set_desire s0 driver v :
  hoare (traversal_ledger_SD s0) (set_attr driver (set_desire v))
        (fun _ => traversal_ledger_SD s0).
Proof.
  intros s u s' HT Hrun.
  destruct (SD_set_attr_inv _ _ _ _ _ Hrun) as (r & d & _ & Hobj & ->).
  apply (SD_tl_update s0 s r d); [exact HT | exact Hobj | repeat split].
Qed.

Lemma SD_tl_random s0 :
  hoare (traversal_ledger_SD s0) (random_random rand)
        (fun _ => traversal_ledger_SD s0).
Proof.
  intros s a s' HT Hrun. injection Hrun as _ <-. apply SD_tl_draws; [exact HT | lia].
Qed.


Lemma SD_tl_log_crash s0 driver :
  hoare (traversal_ledger_SD s0) (log_crash driver) (fun _ => traversal_ledger_SD s0).
Proof.
  intros s u s' HT Hrun. unfold log_crash in Hrun.
  destruct (bind_inv _ _ _ _ _ Hrun) as (v & s1 & Hattr & Hmod).
  destruct (SD_attr_inv _ _ _ _ _ Hattr) as (-> & r & d & _ & Hobj & ->).
  injection Hmod as Hs. subst s'. apply (SD_tl_crash s0 s r d HT Hobj).
Qed.

Local Ltac sd_ledger_walk :=
  repeat first
    [ apply SD_tl_road_get | apply SD_tl_road_set | apply SD_tl_attr
    | apply SD_tl_set_desire | apply SD_tl_random | apply SD_tl_log_crash
    | apply hoare_ret | apply hoare_gets | apply hoare_lift
    | (eapply hoare_bind; [|intro])
    | match goal with
      | |- hoare _ (if ?b then _ else _) _ => destruct b
      | |- hoare _ (match ?d with CRUISE => _ | _ => _ end) _ => destruct d
      end ].

Lemma SD_tl_sim_cruise s0 lane i :
  hoare (traversal_ledger_SD s0) (sim_cruise rand lane i)
        (fun _ => traversal_ledger_SD s0).
Proof. unfold sim_cruise. sd_ledger_walk. Qed.

Lemma SD_tl_crash_roll s0 driver r :
  hoare (traversal_ledger_SD s0) (crash_roll rand driver r)
        (fun _ => traversal_ledger_SD s0).
Proof. unfold crash_roll. sd_ledger_walk. Qed.

Lemma SD_tl_pick_direction s0 lane i driver r :
  hoare (traversal_ledger_SD s0) (pick_direction lane i driver r)
        (fun _ => traversal_ledger_SD s0).
Proof. unfold pick_direction. sd_ledger_walk. Qed.

Lemma SD_tl_act_on_desire s0 lane i driver :
  hoare (traversal_ledger_SD s0) (act_on_desire rand lane i driver)
        (fun _ => traversal_ledger_SD s0).
Proof.
  unfold act_on_desire. eapply hoare_bind; [apply SD_tl_attr|]. intros d.
  destruct d; sd_ledger_walk; apply SD_tl_sim_cruise.
Qed.

(** What a normal return of the exit branch tells. *)
Lemma SD_leave_highway_inv lane i driver s u s' :
  leave_highway lane i driver s = Ok (u, s') ->
  exists r d h,
    driver = Some r /\ objects s !! r = Some d /\
    current_step s <> arrive_time d /\
    s' = set_data (data s ++ [output_data (exit_stampSD (current_step s) d)])
           (set_objects (<[r := exit_stampSD (current_step s) d]> (objects s))
              (set_sim_road h s)).
Proof.
  intros Hrun. unfold leave_highway in Hrun.
  destruct (bind_inv _ _ _ _ _ Hrun) as ([] & s1 & Hset & Hrest). clear Hrun.
  destruct (SD_road_set_inv _ _ _ _ _ _ Hset) as (h & ->).
  rewrite bind_gets in Hrest.
  destruct (bind_inv _ _ _ _ _ Hrest) as ([] & s2 & Hfinal & _).
  destruct (SD_set_attr_inv _ _ _ _ _ Hfinal) as (r & d & -> & Hobj & _).
  clear Hfinal s2.
  pose proof (lookup_lt_Some _ _ _ Hobj) as Hr.
  exists r, d, h. split; [reflexivity|]. split; [exact Hobj|].
  rewrite (SD_bind_set_attr (set_sim_road h s) r d _ _ Hobj) in Hrest.
  erewrite SD_bind_set_attr in Hrest
    by (simpl; apply list_lookup_insert_eq; rewrite ?length_insert; assumption).
  erewrite SD_bind_attr in Hrest
    by (simpl; apply list_lookup_insert_eq; rewrite ?length_insert; assumption).
  erewrite SD_bind_attr in Hrest
    by (simpl; apply list_lookup_insert_eq; rewrite ?length_insert; assumption).
  erewrite SD_bind_set_attr in Hrest
    by (simpl; apply list_lookup_insert_eq; rewrite ?length_insert; assumption).
  erewrite SD_bind_attr in Hrest
    by (simpl; apply list_lookup_insert_eq; rewrite ?length_insert; assumption).
  erewrite SD_bind_attr in Hrest
    by (simpl; apply list_lookup_insert_eq; rewrite ?length_insert; assumption).
  simpl in Hrest. unfold bind at 1, lift, py_truediv in Hrest.
  destruct (current_step s - arrive_time d =? 0) eqn:E; [discriminate|].
  apply Z.eqb_neq in E. split; [lia|].
  erewrite SD_bind_set_attr in Hrest
    by (simpl; apply list_lookup_insert_eq; rewrite ?length_insert; assumption).
  erewrite SD_bind_attr in Hrest
    by (simpl; apply list_lookup_insert_eq; rewrite ?length_insert; assumption).
  unfold modify in Hrest. simpl in Hrest. rewrite !list_insert_insert_eq in Hrest.
  injection Hrest as _ <-. reflexivity.
Qed.

Lemma SD_exit_row_stamp now d :
  now <> arrive_time d ->
  exit_row_SD now d (output_data (exit_stampSD now d)).
Proof. intros H. repeat split; assumption. Qed.

Lemma SD_tl_leave_highway s0 lane i driver :
  hoare (traversal_ledger_SD s0) (leave_highway lane i driver)
        (fun _ => traversal_ledger_SD s0).
Proof.
  intros s u s' HT Hrun.
  destruct (SD_leave_highway_inv _ _ _ _ _ _ Hrun)
    as (r & d & h & -> & Hobj & Htime & ->).
  set (d' := exit_stampSD (current_step s) d).
  assert (HT1 : traversal_ledger_SD s0
                  (set_objects (<[r := d']> (objects s)) (set_sim_road h s))).
  { apply (SD_tl_update s0 (set_sim_road h s) r d);
      [apply SD_tl_road; exact HT | exact Hobj | apply SD_exit_stamp_same]. }
  apply (SD_tl_exit s0 _ r d' _ HT1).
  - simpl. apply list_lookup_insert_eq. apply (lookup_lt_Some _ _ _ Hobj).
  - simpl. eapply SD_exit_row_same;
      [|apply SD_exit_row_stamp; exact Htime].
    repeat split.
Qed.

Lemma SD_tl_sim_driver s0 lane i :
  hoare (traversal_ledger_SD s0) (sim_driver rand lane i)
        (fun _ => traversal_ledger_SD s0).
Proof.
  unfold sim_driver.
  eapply hoare_bind; [apply SD_tl_road_get|]. intros driver.
  eapply hoare_bind; [apply SD_tl_attr|]. intros speed_.
  eapply hoare_bind; [apply hoare_gets|]. intros len.
  destruct (len - 1 <=? speed_ + i).
  - apply SD_tl_leave_highway.
  - eapply hoare_bind; [apply SD_tl_random|]. intros r.
    eapply hoare_bind; [apply SD_tl_crash_roll|]. intros r'.
    eapply hoare_bind; [apply SD_tl_pick_direction|]. intros u.
    apply SD_tl_act_on_desire.
Qed.

Lemma SD_tl_traversal s0 :
  hoare (traversal_ledger_SD s0)
        (let* len := gets (fun s => hw_length (sim_road s)) in
         for_each (py_range_rev (len - 1) (-1)) (fun i =>
           let* lanes := gets (fun s => num_def_lanes (sim_road s)
                                        + num_sd_lanes (sim_road s)) in
           for_each (py_range 0 lanes) (fun k => visit rand i k)))
        (fun _ => traversal_ledger_SD s0).
Proof.
  eapply hoare_bind; [apply hoare_gets|]. intros len.
  apply hoare_for_each. intros i _.
  eapply hoare_bind; [apply hoare_gets|]. intros lanes.
  apply hoare_for_each. intros k _. unfold visit.
  eapply hoare_bind; [apply SD_tl_road_get|]. intros c.
  destruct (occupied c); [apply SD_tl_sim_driver | apply hoare_ret].
Qed.

(** The two loops of [gen_new_drivers]. *)

Lemma SD_al_start s0 :
  arrivals_ledger_SD s0 (num_cars s0) (num_cars s0) s0.
Proof.
  constructor; try reflexivity. exists []. rewrite app_nil_r.
  split; [reflexivity|]. split; [simpl; lia|]. intros k d H. discriminate.
Qed.

Lemma SD_al_extend s0 n0 id s h n d :
  arrivals_ledger_SD s0 n0 id s -> (draws s <= n)%nat ->
  car_id d = id -> arrive_time d = current_step s -> driver_kind_SD d ->
  desire d = CRUISE ->
  arrivals_ledger_SD s0 n0 (id + 1)
    (set_sim_road h (set_objects (objects s ++ [d]) (set_draws n s))).
Proof.
  intros [H1 H2 H3 H4 H5 H6 (news & Hobjs & Hid & Hnews)] Hn Hcid Harr Hkind Hdes.
  constructor; simpl; try assumption; try lia.
  exists (news ++ [d]).
  split; [rewrite Hobjs, app_assoc; reflexivity|].
  split; [rewrite length_app; simpl; lia|].
  intros k x Hk. apply lookup_app_Some in Hk as [Hk|[Hge Hk]].
  - apply Hnews. exact Hk.
  - destruct (k - length news)%nat as [|k'] eqn:Ek; [|discriminate].
    injection Hk as <-.
    split; [lia|]. split; [congruence|]. split; assumption.
Qed.

Lemma SD_al_skip s0 n0 id s n :
  arrivals_ledger_SD s0 n0 id s -> (draws s <= n)%nat ->
  arrivals_ledger_SD s0 n0 id (set_draws n s).
Proof.
  intros [H1 H2 H3 H4 H5 H6 H7] Hn. constructor; simpl; try assumption. lia.
Qed.

Lemma SD_al_gen_def_lane s0 n0 lane id :
  hoare (arrivals_ledger_SD s0 n0 id) (gen_def_lane rand def_car_prob lane id)
        (arrivals_ledger_SD s0 n0).
Proof.
  intros s id' s' HA Hrun.
  unfold gen_def_lane in Hrun. unfold bind at 1, random_random in Hrun.
  destruct (Qlt_bool (rand (draws s)) def_car_prob).
  - unfold bind at 1 in Hrun. unfold bind at 1 in Hrun.
    rewrite bind_gets in Hrun. unfold bind at 1, alloc in Hrun.
    destruct (bind_inv _ _ _ _ _ Hrun) as ([] & s1 & Hset & Hret). clear Hrun.
    destruct (SD_road_set_inv _ _ _ _ _ _ Hset) as (h & ->).
    injection Hret as <- <-.
    apply (SD_al_extend s0 n0 id s h); try reflexivity; [exact HA | lia |].
    split.
    + simpl. destruct (Qlt_bool (rand (S (draws s))) FAST_PROBABILITY); auto.
    + left. split; reflexivity.
  - injection Hrun as <- <-. apply SD_al_skip; [exact HA | lia].
Qed.

Lemma SD_al_gen_sd_lane s0 n0 lane id :
  hoare (arrivals_ledger_SD s0 n0 id) (gen_sd_lane rand sd_car_prob lane id)
        (arrivals_ledger_SD s0 n0).
Proof.
  intros s id' s' HA Hrun.
  unfold gen_sd_lane in Hrun. unfold bind at 1, random_random in Hrun.
  destruct (Qlt_bool (rand (draws s)) sd_car_prob).
  - unfold bind at 1 in Hrun.
    rewrite bind_gets in Hrun. unfold bind at 1, alloc in Hrun.
    rewrite bind_gets in Hrun.
    destruct (bind_inv _ _ _ _ _ Hrun) as ([] & s1 & Hset & Hret). clear Hrun.
    destruct (SD_road_set_inv _ _ _ _ _ _ Hset) as (h & ->).
    injection Hret as <- <-.
    apply (SD_al_extend s0 n0 id s h); try reflexivity; [exact HA | lia |].
    split; [right; reflexivity|].
    right. repeat split.
  - injection Hrun as <- <-. apply SD_al_skip; [exact HA | lia].
Qed.

Lemma SD_al_gen_new_drivers s0 n :
  hoare (fun s => s = s0 /\ n = num_cars s0)
        (gen_new_drivers rand def_car_prob sd_car_prob n)
        (fun n' s' => arrivals_ledger_SD s0 (num_cars s0) n' s').
Proof.
  intros s n' s' [-> ->] Hrun. unfold gen_new_drivers in Hrun.
  rewrite bind_gets in Hrun.
  destruct (bind_inv _ _ _ _ _ Hrun) as (id & s1 & Hfold & Hrest). clear Hrun.
  pose proof (hoare_for_fold (arrivals_ledger_SD s0 (num_cars s0))
                (py_range 0 (num_def_lanes (sim_road s0)))
                (gen_def_lane rand def_car_prob)
                (fun x a _ => SD_al_gen_def_lane s0 (num_cars s0) x a)
                (num_cars s0) s0 id s1 (SD_al_start s0) Hfold) as HA.
  rewrite bind_gets in Hrest.
  exact (hoare_for_fold (arrivals_ledger_SD s0 (num_cars s0))
           (py_range 0 (num_sd_lanes (sim_road s1)))
           (gen_sd_lane rand sd_car_prob)
           (fun x a _ => SD_al_gen_sd_lane s0 (num_cars s0) x a)
           id s1 n' s' HA Hrest).
Qed.

Lemma SD_kind_same d d' :
  same_vehicle_SD d d' -> driver_kind_SD d -> driver_kind_SD d'.
Proof.
  intros (S1 & S2 & S3 & S4 & S5 & S6) K. unfold driver_kind_SD.
  rewrite S2, S3, S4, S5. exact K.
Qed.

(** One iteration of [run] on the ledger. *)
Lemma SD_run_step_ledger s s' :
  ledger_inv_SD s -> run_step rand def_car_prob sd_car_prob s = Ok (tt, s') ->
  ledger_inv_SD s' /\
  time_steps s' = time_steps s /\
  current_step s' = current_step s + 1 /\
  (draws s <= draws s')%nat /\
  (exists rows, data s' = data s ++ rows) /\
  (exists entries, crashes s' = crashes s ++ entries).
Proof.
  intros [Inow Icars Iobjs Idata Icrashes] Hrun.
  unfold run_step, execute_time_step in Hrun.
  destruct (bind_inv _ _ _ _ _ Hrun) as ([] & s3 & Hexec & Hstep). clear Hrun.
  injection Hstep as <-.
  rewrite bind_gets in Hexec.
  destruct (bind_inv _ _ _ _ _ Hexec) as ([] & s1 & Htrav & Hgen). clear Hexec.
  assert (HT : traversal_ledger_SD s s1).
  { apply (SD_tl_traversal s s tt s1 (SD_tl_refl s)).
    rewrite bind_gets. exact Htrav. }
  rewrite bind_gets in Hgen.
  destruct (bind_inv _ _ _ _ _ Hgen) as (n' & s2 & Hnew & Hmod). clear Hgen.
  injection Hmod as <-.
  destruct (SD_al_gen_new_drivers s1 (num_cars s1) s1 n' s2 (conj eq_refl eq_refl) Hnew)
    as [A1 A2 A3 A4 A5 A6 (news & Aobjs & Aid & Anews)].
  destruct HT as [T1 T2 T3 T4 T5 T6 (rows & Tdata & Trows) (entries & Tlog & Tentries)].
  assert (Hold : forall r d, (r < length (objects s))%nat ->
                   objects s2 !! r = Some d ->
                   exists d0, objects s !! r = Some d0 /\ same_vehicle_SD d0 d).
  { intros r d Hr Hd. apply T6. rewrite Aobjs in Hd.
    rewrite lookup_app_l in Hd by lia. exact Hd. }
  assert (Hfwd : forall r d0, objects s !! r = Some d0 ->
                   exists d, objects s2 !! r = Some d /\ same_vehicle_SD d0 d).
  { intros r d0 Hd0. pose proof (lookup_lt_Some _ _ _ Hd0) as Hr.
    destruct (lookup_lt_is_Some_2 (objects s1) r ltac:(lia)) as [d Hd].
    exists d. split; [rewrite Aobjs; apply lookup_app_l_Some; exact Hd|].
    destruct (T6 r d Hd) as (d0' & Hd0' & Hs). congruence. }
  split; [constructor|]; simpl.
  - lia.
  - rewrite Aid, T3, Icars, Aobjs, length_app, T5. lia.
  - intros r d Hd.
    destruct (Nat.lt_ge_cases r (length (objects s))) as [Hr|Hr].
    + destruct (Hold r d Hr Hd) as (d0 & Hd0 & Hsame).
      destruct (Iobjs r d0 Hd0) as (I1 & I2 & I3).
      pose proof (SD_kind_same _ _ Hsame I3) as K.
      destruct Hsame as (S1 & S2 & S3 & S4 & S5 & S6).
      rewrite S1, S6. split; [exact I1|]. split; [lia | exact K].
    + rewrite Aobjs in Hd. rewrite lookup_app_r in Hd by lia.
      destruct (Anews _ _ Hd) as (N1 & N2 & N3 & N4).
      rewrite N1, N2, T3, T2, Icars. split; [lia|]. split; [lia | exact N3].
  - rewrite A5, Tdata. apply Forall_app. split.
    + eapply Forall_impl; [exact Idata|]. simpl.
      intros row [(r & d0 & Hd0 & R1 & R2 & R3 & R4 & R5) Hft]. split; [|lia].
      destruct (Hfwd r d0 Hd0) as (d & Hd & (S1 & S2 & S3 & S4 & S5 & S6)).
      exists r, d. split; [exact Hd|]. rewrite S4, S2, S6. auto.
    + eapply Forall_impl; [exact Trows|]. simpl.
      intros row (r & d0 & Hd0 & (E1 & E2 & E3 & E4 & E5 & E6 & E7 & E8 & E9)).
      destruct (Iobjs r d0 Hd0) as (I1 & I2 & I3).
      destruct (Hfwd r d0 Hd0) as (d & Hd & (S1 & S2 & S3 & S4 & S5 & S6)).
      split; [|lia].
      exists r, d. split; [exact Hd|]. rewrite S4, S2, S6.
      split; [congruence|]. split; [exact E2|]. split; [exact E3|].
      split; [exact E4|]. split; [exact E6|]. split; [lia|]. split; [lia|].
      rewrite E6, E7. exact E9.
  - rewrite A6, Tlog. apply Forall_app. split; [exact Icrashes|].
    eapply Forall_impl; [exact Tentries|]. simpl.
    intros v (r & d0 & Hd0 & ->). destruct (Iobjs r d0 Hd0) as (_ & _ & [K _]).
    exact K.
  - split; [congruence|]. split; [lia|]. split; [lia|]. split.
    + exists rows. rewrite A5. exact Tdata.
    + exists entries. rewrite A6. exact Tlog.
Qed.

Lemma SD_new_Simulation_ledger time_steps_ : ledger_inv_SD (new_Simulation time_steps_).
Proof.
  constructor; simpl; try lia; try reflexivity.
  - intros r d H. discriminate.
  - constructor.
  - constructor.
Qed.

Lemma SD_reachable_ledger s :
  reachable_SD rand def_car_prob sd_car_prob s -> ledger_inv_SD s.
Proof.
  induction 1 as [n|s s' Hreach IH Hstep].
  - apply SD_new_Simulation_ledger.
  - apply (SD_run_step_ledger s s' IH Hstep).
Qed.

End SD_ledger.

Lemma run_n_SD_reachable (rand : nat -> Q) (def_car_prob sd_car_prob : Q) (n : nat) :
  forall s s',
    reachable_SD rand def_car_prob sd_car_prob s ->
    run_n_SD rand def_car_prob sd_car_prob n s = Ok (tt, s') ->
    reachable_SD rand def_car_prob sd_car_prob s'.
Proof.
  induction n as [|n IH]; intros s s' Hreach Hrun.
  - injection Hrun as <-. exact Hreach.
  - simpl in Hrun. destruct (bind_inv _ _ _ _ _ Hrun) as ([] & s1 & Hstep & Hrest).
    apply (IH s1 s'); [|exact Hrest].
    exact (reach_step_SD rand def_car_prob sd_car_prob s s1 Hreach Hstep).
Defined.

Lemma after_rolls_SD_reachable (rolls : nat -> Q) (n : nat) :
  reachable_SD rolls (1 # 10) (1 # 10) (after_rolls_SD rolls n).
Proof.
  unfold after_rolls_SD.
  destruct (run_n_SD rolls (1 # 10) (1 # 10) n (sim_client_requests.new_Simulation 40))
    as [[[] s]|e] eqn:E.
  - apply (run_n_SD_reachable rolls (1 # 10) (1 # 10) n
             (sim_client_requests.new_Simulation 40) s); [apply reach_init_SD | exact E].
  - apply reach_init_SD.
Defined.

(** X17. The Driver objects of sim_client_requests.  In every state of a
    run, [num_cars] is the number of Driver objects created so far; the
    object created in [r]-th place carries the id [r], so that two objects
    never share an id; it arrived at a tick in [0, current_step); its speed
    is SLOW or FAST; a human driver has the follow distance
    HUMAN_SAFE_FOLLOW; and a self-driving vehicle is fast, is never drunk
    and has the follow distance SDC_SAFE_FOLLOW. *)
Theorem driver_objects_of_client_sim :
  forall (rand : nat -> Q) (def_car_prob sd_car_prob : Q)
         (s : sim_client_requests.Simulation),
    reachable_SD rand def_car_prob sd_car_prob s ->
    sim_client_requests.num_cars s
    = Z.of_nat (length (sim_client_requests.objects s)) /\
    (forall r d,
        sim_client_requests.objects s !! r = Some d ->
        sim_client_requests.car_id d = Z.of_nat r /\
        0 <= sim_client_requests.car_id d < sim_client_requests.num_cars s /\
        0 <= sim_client_requests.arrive_time d < sim_client_requests.current_step s /\
        (sim_client_requests.speed d = sim_client_requests.SLOW \/
         sim_client_requests.speed d = sim_client_requests.FAST) /\
        (sim_client_requests.is_human d = true ->
         sim_client_requests.safe_follow d = sim_client_requests.HUMAN_SAFE_FOLLOW) /\
        (sim_client_requests.is_human d = false ->
         sim_client_requests.speed d = sim_client_requests.FAST /\
         sim_client_requests.is_drunk d = false /\
         sim_client_requests.safe_follow d = sim_client_requests.SDC_SAFE_FOLLOW)) /\
    (forall r r' d d',
        sim_client_requests.objects s !! r = Some d ->
        sim_client_requests.objects s !! r' = Some d' ->
        sim_client_requests.car_id d = sim_client_requests.car_id d' -> r = r').
Proof.
  intros rand dcp scp s Hreach.
  pose proof (SD_reachable_ledger rand dcp scp s Hreach)
    as [Lnow Lcars Lobjs Ldata Lcrashes].
  split; [exact Lcars|]. split.
  - intros r d Hd. destruct (Lobjs r d Hd) as (H1 & H2 & (Hspeed & Hkind)).
    pose proof (lookup_lt_Some _ _ _ Hd) as Hr.
    split; [exact H1|]. split; [lia|]. split; [exact H2|]. split; [exact Hspeed|].
    destruct Hkind as [(K1 & K2)|(K1 & K2 & K3 & K4)].
    + split; [intros _; exact K2 | intros K; congruence].
    + split; [intros K; congruence | intros _; auto].
  - intros r r' d d' Hd Hd' Heq.
    destruct (Lobjs r d Hd) as [H1 _]. destruct (Lobjs r' d' Hd') as [H2 _]. lia.
Qed.

Lemma driver_objects_of_client_sim_witness :
  sim_client_requests.num_cars (after_rolls_SD lone_driver_rolls 2)
  = Z.of_nat (length (sim_client_requests.objects (after_rolls_SD lone_driver_rolls 2))) /\
  sim_client_requests.num_cars (after_rolls_SD lone_driver_rolls 2) = 1.
Proof.
  split.
  - apply (driver_objects_of_client_sim lone_driver_rolls (1 # 10) (1 # 10)
             (after_rolls_SD lone_driver_rolls 2)).
    apply after_rolls_SD_reachable.
  - reflexivity.
Defined.

(** X18. Exit records of sim_client_requests.  In every state of a run,
    every record of [data] carries the id of a vehicle that was created and
    repeats its kind; the speed is SLOW or FAST; the arrival tick is not
    negative and precedes the exit tick, which precedes the current tick;
    the distance is the length of the highway; the travel time is the exit
    tick minus the arrival tick (so the division never fails); and the
    average speed is the distance over the travel time. *)
Theorem exit_records_of_client_sim :
  forall (rand : nat -> Q) (def_car_prob sd_car_prob : Q)
         (s : sim_client_requests.Simulation),
    reachable_SD rand def_car_prob sd_car_prob s ->
    Forall (fun row =>
              (exists r d,
                  sim_client_requests.objects s !! r = Some d /\
                  sim_client_requests.out_id row = Z.of_nat r /\
                  sim_client_requests.out_is_human row
                  = sim_client_requests.is_human d) /\
              (sim_client_requests.out_speed row = sim_client_requests.SLOW \/
               sim_client_requests.out_speed row = sim_client_requests.FAST) /\
              0 <= sim_client_requests.out_arrive_time row
                < sim_client_requests.out_final_time row /\
              sim_client_requests.out_final_time row
                < sim_client_requests.current_step s /\
              sim_client_requests.out_final_dist row
              = sim_client_requests.HIGHWAY_LENGTH /\
              sim_client_requests.out_travel_time row =
                sim_client_requests.out_final_time row
                - sim_client_requests.out_arrive_time row /\
              sim_client_requests.out_avg_speed row =
                Qdiv (inject_Z sim_client_requests.HIGHWAY_LENGTH)
                     (inject_Z (sim_client_requests.out_travel_time row)))
           (sim_client_requests.data s).
Proof.
  intros rand dcp scp s Hreach.
  pose proof (SD_reachable_ledger rand dcp scp s Hreach)
    as [Lnow Lcars Lobjs Ldata Lcrashes].
  eapply Forall_impl; [exact Ldata|]. simpl.
  intros row [(r & d & Hd & R1 & R2 & R3 & R4 & R5 & R6 & R7 & R8) Hft].
  destruct (Lobjs r d Hd) as (I1 & I2 & (I3 & _)).
  split; [exists r, d; auto|]. split; [rewrite R2; exact I3|]. split; [lia|].
  split; [exact Hft|]. split; [exact R5|]. split; [exact R6|].
  rewrite R8, R5. reflexivity.
Qed.

Lemma exit_records_of_client_sim_witness :
  length (sim_client_requests.data (after_rolls_SD lone_driver_rolls 29)) = 4%nat /\
  Forall (fun row =>
            (exists r d,
                sim_client_requests.objects (after_rolls_SD lone_driver_rolls 29) !! r
                = Some d /\
                sim_client_requests.out_id row = Z.of_nat r /\
                sim_client_requests.out_is_human row
                = sim_client_requests.is_human d) /\
            (sim_client_requests.out_speed row = sim_client_requests.SLOW \/
             sim_client_requests.out_speed row = sim_client_requests.FAST) /\
            0 <= sim_client_requests.out_arrive_time row
              < sim_client_requests.out_final_time row /\
            sim_client_requests.out_final_time row
              < sim_client_requests.current_step (after_rolls_SD lone_driver_rolls 29) /\
            sim_client_requests.out_final_dist row
            = sim_client_requests.HIGHWAY_LENGTH /\
            sim_client_requests.out_travel_time row =
              sim_client_requests.out_final_time row
              - sim_client_requests.out_arrive_time row /\
            sim_client_requests.out_avg_speed row =
              Qdiv (inject_Z sim_client_requests.HIGHWAY_LENGTH)
                   (inject_Z (sim_client_requests.out_travel_time row)))
         (sim_client_requests.data (after_rolls_SD lone_driver_rolls 29)).
Proof.
  split; [vm_compute; reflexivity|].
  apply (exit_records_of_client_sim lone_driver_rolls (1 # 10) (1 # 10)
           (after_rolls_SD lone_driver_rolls 29)).
  apply after_rolls_SD_reachable.
Defined.

(** X19. The incident log of sim_client_requests.  In every state of a run,
    every entry of [crashes] is a speed, SLOW or FAST. *)
Theorem incident_log_holds_speeds :
  forall (rand : nat -> Q) (def_car_prob sd_car_prob : Q)
         (s : sim_client_requests.Simulation),
    reachable_SD rand def_car_prob sd_car_prob s ->
    Forall (fun v => v = sim_client_requests.SLOW \/ v = sim_client_requests.FAST)
           (sim_client_requests.crashes s).
Proof.
  intros rand dcp scp s Hreach.
  exact (li_crashes_SD s (SD_reachable_ledger rand dcp scp s Hreach)).
Qed.

Lemma incident_log_holds_speeds_witness :
  sim_client_requests.crashes (after_rolls_SD incident_rolls 2)
  = [sim_client_requests.SLOW] /\
  Forall (fun v => v = sim_client_requests.SLOW \/ v = sim_client_requests.FAST)
         (sim_client_requests.crashes (after_rolls_SD incident_rolls 2)).
Proof.
  split; [vm_compute; reflexivity|].
  apply (incident_log_holds_speeds incident_rolls (1 # 10) (1 # 10)
           (after_rolls_SD incident_rolls 2)).
  apply after_rolls_SD_reachable.
Defined.

(** ** Simulation.run of sim_client_requests *)

Lemma SD_run_from (rand : nat -> Q) (def_car_prob sd_car_prob : Q) (fuel : nat) :
  forall (s : sim_client_requests.Simulation) (out : list string),
    reachable_SD rand def_car_prob sd_car_prob s ->
    (Z.to_nat (sim_client_requests.time_steps s - sim_client_requests.current_step s)
     < fuel)%nat ->
    exists s',
      sim_client_requests.run rand def_car_prob sd_car_prob fuel (s, out)
      = Ok (true, (s', out)) /\
      reachable_SD rand def_car_prob sd_car_prob s' /\
      sim_client_requests.time_steps s' = sim_client_requests.time_steps s /\
      sim_client_requests.current_step s' =
        Z.max (sim_client_requests.current_step s) (sim_client_requests.time_steps s).
Proof.
  induction fuel as [|fuel IH]; intros s out Hreach Hfuel; [lia|].
  simpl. rewrite !bind_gets. simpl.
  destruct (sim_client_requests.current_step s <? sim_client_requests.time_steps s)
    eqn:E.
  - apply Z.ltb_lt in E.
    pose proof (SD_reachable_inv rand def_car_prob sd_car_prob s Hreach) as SI.
    pose proof (SD_reachable_ledger rand def_car_prob sd_car_prob s Hreach) as LI.
    destruct (SD_run_step_spec rand def_car_prob sd_car_prob s SI)
      as ([] & s1 & Hstep & _).
    destruct (SD_run_step_ledger rand def_car_prob sd_car_prob s s1 LI Hstep)
      as (_ & Hsteps & Hnow & _).
    pose proof (reach_step_SD rand def_car_prob sd_car_prob s s1 Hreach Hstep)
      as Hreach1.
    destruct (IH s1 out Hreach1 ltac:(lia)) as (s' & Hrun & Hreach' & Hsteps' & Hnow').
    exists s'. split.
    { unfold bind at 1, in_world. simpl. rewrite Hstep.
      unfold bind at 1, ret. exact Hrun. }
    split; [exact Hreach'|]. split; [congruence|]. lia.
  - apply Z.ltb_ge in E. exists s. split; [reflexivity|].
    split; [exact Hreach|]. split; [reflexivity|]. lia.
Qed.

(** X20. Simulation.run of sim_client_requests ends without an exception.
    For every random stream, every pair of arrival probabilities and every
    number of time steps [n], the loop of [run], started on
    [Simulation(n)], leaves after [max 0 n] iterations (any larger
    unrolling bound gives the same result): the final tick is [max 0 n],
    and nothing is printed. *)
Theorem client_run_ends_normally :
  forall (rand : nat -> Q) (def_car_prob sd_car_prob : Q) (n : Z) (fuel : nat)
         (out : list string),
    (Z.to_nat n < fuel)%nat ->
    exists s',
      sim_client_requests.run rand def_car_prob sd_car_prob fuel
        (sim_client_requests.new_Simulation n, out)
      = Ok (true, (s', out)) /\
      reachable_SD rand def_car_prob sd_car_prob s' /\
      sim_client_requests.time_steps s' = n /\
      sim_client_requests.current_step s' = Z.max 0 n.
Proof.
  intros rand dcp scp n fuel out Hfuel.
  destruct (SD_run_from rand dcp scp fuel (sim_client_requests.new_Simulation n) out
              (reach_init_SD rand dcp scp n))
    as (s' & Hrun & Hreach & Hsteps & Hnow).
  { simpl. rewrite Z.sub_0_r. exact Hfuel. }
  exists s'. simpl in *. auto.
Qed.

Lemma client_run_ends_normally_witness :
  exists s',
    sim_client_requests.run three_ticks (1 # 10) (1 # 10) 4
      (sim_client_requests.new_Simulation 3, [])
    = Ok (true, (s', [])) /\
    reachable_SD three_ticks (1 # 10) (1 # 10) s' /\
    sim_client_requests.time_steps s' = 3 /\
    sim_client_requests.current_step s' = Z.max 0 3.
Proof.
  apply (client_run_ends_normally three_ticks (1 # 10) (1 # 10) 3 4 []). simpl. lia.
Defined.

(** ** highway_sim1: a tick returns and keeps the invariant *)

Section S1_walk.
Import highway_sim1.
Variable rand : nat -> Q.
Variables N T now : Z.

Lemma S1_attr_eq {A : Type} s r d (f : Driver -> A) :
  objects s !! r = Some d -> attr (Some r) f s = Ok (f d, s).
Proof. intros H. unfold attr. rewrite H. reflexivity. Qed.

Lemma S1_good_speed bound d :
  good_driver_1 bound d -> 4 <= speed d <= 5 /\ safe_follow d = 4.
Proof.
  intros ([H|H] & H' & _); rewrite H, H'; unfold SLOW, FAST, SAFE_FOLLOW; lia.
Qed.

Lemma S1_walk_good bound i s r d :
  walk_1 N T now bound i s -> objects s !! r = Some d -> good_driver_1 bound d.
Proof.
  intros W Hd. exact (proj1 (Forall_lookup _ _) (w1_good _ _ _ _ _ _ W) r d Hd).
Qed.

Lemma S1_road_get bound i s l j :
  walk_1 N T now bound i s -> 0 <= l < 2 -> 0 <= j < N ->
  road_get l j s = Ok (cell1 s l j, s).
Proof.
  intros W Hl Hj. apply lift_Ok. unfold Highway_get, cell1.
  apply (grid_get_in _ 2 N); [|exact Hl|exact Hj].
  rewrite <- (w1_len _ _ _ _ _ _ W). exact (w1_wf _ _ _ _ _ _ W).
Qed.

(** Writing a cell: the empty value, or a vehicle that may stand there. *)
Lemma S1_walk_put bound i s l j v :
  walk_1 N T now bound i s -> 0 <= l < 2 -> 0 <= j < N ->
  (v = EMPTY \/
   exists r d, v = Some r /\ objects s !! r = Some d /\
               j <= reach_1 now (negb (j <=? i)) d) ->
  exists s',
    road_set l j v s = Ok (tt, s') /\
    walk_1 N T now bound i s' /\
    objects s' = objects s /\
    forall l' j', cell1 s' l' j' =
                  if (l' =? l) && (j' =? j) then v else cell1 s l' j'.
Proof.
  intros [Hwf Hlen HN Hsteps Hnow Hnow0 Hgood Hcells Hdata] Hl Hj Hv.
  unfold wf_Highway1 in Hwf. rewrite Hlen in Hwf.
  destruct (grid_set_in (road (sim_road s)) 2 N l j v Hwf Hl Hj)
    as (road' & Hset & Hwf' & Hat).
  exists (set_sim_road (mkHighway road' (hw_length (sim_road s))) s).
  split; [unfold road_set, Highway_set; rewrite Hset; reflexivity|].
  split; [|split; [reflexivity | exact Hat]].
  constructor; simpl; auto.
  - unfold wf_Highway1. simpl. rewrite Hlen. exact Hwf'.
  - intros l' j' r Hc. unfold cell1 in Hc. simpl in Hc. rewrite Hat in Hc.
    destruct ((l' =? l) && (j' =? j)) eqn:E.
    + apply andb_true_iff in E as [E1 E2].
      apply Z.eqb_eq in E1, E2. subst l' j'.
      destruct Hv as [->|(r' & d & -> & Hd & Hreach)]; [discriminate|].
      injection Hc as <-. exists d. split; [exact Hd | exact Hreach].
    + apply Hcells with (l := l'). exact Hc.
Qed.

(** Writing the desire of a Driver. *)
Lemma S1_walk_desire bound i s r d v :
  walk_1 N T now bound i s -> objects s !! r = Some d ->
  v = CRUISE \/ v = LANE_CHANGE ->
  exists s',
    set_attr (Some r) (set_desire v) s = Ok (tt, s') /\
    walk_1 N T now bound i s' /\
    objects s' !! r = Some (set_desire v d) /\
    forall l j, cell1 s' l j = cell1 s l j.
Proof.
  intros W Hd Hv. pose proof (S1_walk_good _ _ _ _ _ W Hd) as (G1 & G2 & G3 & G4).
  destruct W as [Hwf Hlen HN Hsteps Hnow Hnow0 Hgood Hcells Hdata].
  pose proof (lookup_lt_Some _ _ _ Hd) as Hr.
  exists (set_objects (<[r := set_desire v d]> (objects s)) s).
  split; [unfold set_attr; rewrite Hd; reflexivity|].
  split; [|split; [simpl; apply list_lookup_insert_eq; exact Hr | reflexivity]].
  constructor; simpl; auto.
  - apply Forall_insert; [exact Hgood|]. repeat split; simpl; auto; lia.
  - intros l j r' Hc. destruct (Hcells l j r' Hc) as (d' & Hd' & Hreach).
    destruct (Nat.eq_dec r' r) as [->|Hne].
    + exists (set_desire v d). split; [apply list_lookup_insert_eq; exact Hr|].
      rewrite Hd in Hd'. injection Hd' as <-. exact Hreach.
    + exists d'. split; [|exact Hreach].
      rewrite list_lookup_insert_ne by congruence. exact Hd'.
Qed.

(** Recording a travel time. *)
Lemma S1_walk_data bound i s t :
  walk_1 N T now bound i s -> N - 1 <= FAST * t -> 0 < t <= now ->
  walk_1 N T now bound i (set_data (data s ++ [t]) s).
Proof.
  intros [Hwf Hlen HN Hsteps Hnow Hnow0 Hgood Hcells Hdata] H1 H2.
  constructor; simpl; auto.
  apply Forall_app. split; [exact Hdata|]. constructor; [auto | constructor].
Qed.

(** Reading the random stream. *)
Lemma S1_walk_draws bound i s n :
  walk_1 N T now bound i s -> walk_1 N T now bound i (set_draws n s).
Proof.
  intros [Hwf Hlen HN Hsteps Hnow Hnow0 Hgood Hcells Hdata].
  constructor; simpl; auto.
Qed.

(** The positions that the traversal has left behind. *)
Lemma S1_walk_next bound i s :
  walk_1 N T now bound i s -> walk_1 N T now bound (i - 1) s.
Proof.
  intros W. pose proof (w1_good _ _ _ _ _ _ W) as Hgood.
  destruct W as [Hwf Hlen HN Hsteps Hnow Hnow0 _ Hcells Hdata].
  constructor; auto.
  intros l j r Hc. destruct (Hcells l j r Hc) as (d & Hd & Hreach).
  exists d. split; [exact Hd|].
  pose proof (S1_good_speed _ _ (proj1 (Forall_lookup _ _) Hgood r d Hd)) as [Hs _].
  unfold reach_1 in *.
  destruct (j <=? i) eqn:E1; destruct (j <=? i - 1) eqn:E2; simpl in *; nia.
Qed.

(** *** sim_cruise *)

Lemma S1_sim_cruise bound s l i r d :
  walk_1 N T now bound i s -> 0 <= l < 2 -> 0 <= i ->
  cell1 s l i = Some r -> objects s !! r = Some d -> i + speed d < N - 1 ->
  twp (sim_cruise l i) (fun _ s' => walk_1 N T now bound i s') s.
Proof.
  intros W Hl Hi Hc Hd Hend.
  pose proof (S1_good_speed _ _ (S1_walk_good _ _ _ _ _ W Hd)) as [Hsp Hsf].
  destruct (w1_cells _ _ _ _ _ _ W l i r Hc) as (d0 & Hd0 & Hreach).
  rewrite Hd in Hd0. injection Hd0 as <-.
  rewrite Z.leb_refl in Hreach. unfold reach_1 in Hreach. simpl in Hreach.
  assert (Hmove : forall j s1 d1,
             walk_1 N T now bound i s1 -> objects s1 !! r = Some d1 ->
             speed d1 = speed d -> arrive_time d1 = arrive_time d ->
             i < j <= i + speed d ->
             twp (road_set l j (Some r))
                 (fun _ s2 => twp (road_set l i EMPTY)
                                  (fun _ s' => walk_1 N T now bound i s') s2) s1).
  { intros j s1 d1 W1 Hd1 Hs1 Ha1 Hj.
    destruct (S1_walk_put bound i s1 l j (Some r) W1 Hl ltac:(lia)) as
      (s2 & Hput & W2 & _).
    { right. exists r, d1. split; [reflexivity|]. split; [exact Hd1|].
      unfold reach_1. rewrite Hs1, Ha1.
      destruct (j <=? i) eqn:E; [lia|]. simpl. nia. }
    destruct (S1_walk_put bound i s2 l i EMPTY W2 Hl ltac:(lia) (or_introl eq_refl))
      as (s3 & Hclear & W3 & _).
    eapply twp_eq; [exact Hput|]. eapply twp_eq; [exact Hclear | exact W3]. }
  assert (Hwf : wf_grid (road (sim_road s)) 2 N).
  { rewrite <- (w1_len _ _ _ _ _ _ W). exact (w1_wf _ _ _ _ _ _ W). }
  destruct (distance_within_spec (road (sim_road s)) 2 N l i (speed d + safe_follow d)
              Hwf Hl Hi ltac:(lia)) as (x & Hx & (Hxb & _)).
  unfold sim_cruise.
  eapply twp_bind_Ok; [apply (S1_road_get bound i s l i W Hl); lia|]. rewrite Hc.
  eapply twp_bind_Ok; [apply S1_attr_eq; exact Hd|].
  eapply twp_bind_Ok; [apply S1_attr_eq; exact Hd|].
  eapply twp_bind_Ok.
  { apply lift_Ok. unfold safe_distance_within.
    rewrite (w1_len _ _ _ _ _ _ W). exact Hx. }
  apply twp_bind.
  destruct (x =? speed d + safe_follow d) eqn:E1.
  - apply (Hmove (i + speed d) s d W Hd); auto; lia.
  - destruct (safe_follow d <? x) eqn:E2.
    + apply Z.ltb_lt in E2. apply Z.eqb_neq in E1.
      destruct (S1_walk_desire bound i s r d LANE_CHANGE W Hd (or_intror eq_refl))
        as (s1 & Hset & W1 & Hd1 & _).
      eapply twp_bind_Ok; [exact Hset|].
      apply (Hmove (i + x - safe_follow d) s1 _ W1 Hd1); auto; lia.
    + destruct (S1_walk_desire bound i s r d LANE_CHANGE W Hd (or_intror eq_refl))
        as (s1 & Hset & W1 & Hd1 & _).
      eapply twp_bind_Ok; [exact Hset|].
      apply (Hmove (i + 1) s1 _ W1 Hd1); auto; lia.
Qed.

(** *** The exit branch *)

Lemma S1_leave_highway bound s l i r d :
  walk_1 N T now bound i s -> 0 <= l < 2 -> 0 <= i < N ->
  cell1 s l i = Some r -> objects s !! r = Some d -> N - 1 <= speed d + i ->
  twp (leave_highway l i (Some r)) (fun _ s' => walk_1 N T now bound i s') s.
Proof.
  intros W Hl Hi Hc Hd Hend.
  pose proof (S1_walk_good _ _ _ _ _ W Hd) as G.
  pose proof (S1_good_speed _ _ G) as [Hsp _].
  destruct G as (_ & _ & _ & Harr).
  destruct (w1_cells _ _ _ _ _ _ W l i r Hc) as (d0 & Hd0 & Hreach).
  rewrite Hd in Hd0. injection Hd0 as <-.
  rewrite Z.leb_refl in Hreach. unfold reach_1 in Hreach. simpl in Hreach.
  destruct (S1_walk_put bound i s l i EMPTY W Hl Hi (or_introl eq_refl))
    as (s1 & Hclear & W1 & Hobjs & _).
  unfold leave_highway.
  eapply twp_bind_Ok; [exact Hclear|]. apply twp_bind, twp_gets.
  eapply twp_bind_Ok; [apply S1_attr_eq; rewrite Hobjs; exact Hd|].
  apply twp_modify. rewrite (w1_now _ _ _ _ _ _ W1).
  apply S1_walk_data; [exact W1 | unfold FAST; nia | nia].
Qed.

(** *** sim_left_driver and sim_right_driver *)

Lemma S1_three_cells_total bound i s lane j :
  walk_1 N T now bound i s -> 0 <= lane < 2 -> 0 <= j -> j + 2 < N ->
  exists b, three_cells_empty (sim_road s) lane j = Ok b.
Proof.
  intros W Hl Hj Hend.
  assert (Hwf : wf_grid (road (sim_road s)) 2 N).
  { rewrite <- (w1_len _ _ _ _ _ _ W). exact (w1_wf _ _ _ _ _ _ W). }
  unfold three_cells_empty.
  rewrite !(grid_get_in _ 2 N) by (auto; lia). simpl.
  destruct (occupied (at_ (road (sim_road s)) lane j)); [eauto|].
  destruct (occupied (at_ (road (sim_road s)) lane (j + 1))); eauto.
Qed.

(** A vehicle found at [(here, i)], which changes to the lane [there] when
    it wants to and the check allows it. *)
Lemma S1_driver_body bound s here there i r d
      (check : Highway -> Z -> result bool) :
  walk_1 N T now bound i s -> 0 <= here < 2 -> 0 <= there < 2 -> here <> there ->
  0 <= i < N ->
  cell1 s here i = Some r -> objects s !! r = Some d -> i + speed d < N - 1 ->
  (forall s1, walk_1 N T now bound i s1 -> exists b, check (sim_road s1) i = Ok b) ->
  twp (let* d := attr (Some r) desire in
       match d with
       | LANE_CHANGE =>
           let* ok := lift (fun s => check (sim_road s) i) in
           if ok then
             road_set there i (Some r) ;;;
             road_set here i EMPTY ;;;
             set_attr (Some r) (set_desire CRUISE) ;;;
             sim_cruise there i
           else sim_cruise here i
       | CRUISE => sim_cruise here i
       | _ => ret tt
       end)
      (fun _ s' => walk_1 N T now bound i s') s.
Proof.
  intros W Hhere Hthere Hne Hi Hc Hd Hend Hcheck.
  pose proof (S1_walk_good _ _ _ _ _ W Hd) as (_ & _ & Hdes & _).
  eapply twp_bind_Ok; [apply S1_attr_eq; exact Hd|].
  destruct Hdes as [->| ->].
  - apply (S1_sim_cruise bound s here i r d); auto; lia.
  - destruct (Hcheck s W) as (b & Hb).
    eapply twp_bind_Ok; [apply lift_Ok; exact Hb|].
    destruct b; [|apply (S1_sim_cruise bound s here i r d); auto; lia].
    destruct (w1_cells _ _ _ _ _ _ W here i r Hc) as (d0 & Hd0 & Hreach).
    rewrite Hd in Hd0. injection Hd0 as <-.
    destruct (S1_walk_put bound i s there i (Some r) W Hthere Hi) as
      (s1 & Hput & W1 & Hobjs1 & Hcells1).
    { right. exists r, d. auto. }
    destruct (S1_walk_put bound i s1 here i EMPTY W1 Hhere Hi (or_introl eq_refl))
      as (s2 & Hclear & W2 & Hobjs2 & Hcells2).
    destruct (S1_walk_desire bound i s2 r d CRUISE W2) as
      (s3 & Hset & W3 & Hd3 & Hcells3); [congruence | auto |].
    eapply twp_bind_Ok; [exact Hput|].
    eapply twp_bind_Ok; [exact Hclear|].
    eapply twp_bind_Ok; [exact Hset|].
    apply (S1_sim_cruise bound s3 there i r (set_desire CRUISE d)); auto; try lia.
    rewrite Hcells3, Hcells2, Hcells1.
    replace (there =? here) with false by lia. simpl.
    rewrite !Z.eqb_refl. reflexivity.
Qed.

Lemma S1_sim_left_driver bound s i r :
  walk_1 N T now bound i s -> 0 <= i < N -> cell1 s LEFT i = Some r ->
  twp (sim_left_driver i) (fun _ s' => walk_1 N T now bound i s') s.
Proof.
  intros W Hi Hc.
  destruct (w1_cells _ _ _ _ _ _ W LEFT i r Hc) as (d & Hd & _).
  pose proof (S1_good_speed _ _ (S1_walk_good _ _ _ _ _ W Hd)) as [Hsp _].
  unfold sim_left_driver.
  eapply twp_bind_Ok; [apply (S1_road_get bound i s LEFT i W); unfold LEFT; lia|].
  rewrite Hc.
  eapply twp_bind_Ok; [apply S1_attr_eq; exact Hd|].
  apply twp_bind, twp_gets. rewrite (w1_len _ _ _ _ _ _ W).
  destruct (N - 1 <=? speed d + i) eqn:E.
  - apply Z.leb_le in E.
    apply (S1_leave_highway bound s LEFT i r d); auto; unfold LEFT; lia.
  - apply Z.leb_gt in E.
    apply (S1_driver_body bound s LEFT RIGHT i r d safe_right_lane_change);
      auto; unfold LEFT, RIGHT; try lia.
    intros s1 W1.
    apply (S1_three_cells_total bound i s1 1 i W1); lia.
Qed.

Lemma S1_sim_right_driver bound s i r :
  walk_1 N T now bound i s -> 0 <= i < N -> cell1 s RIGHT i = Some r ->
  twp (sim_right_driver i) (fun _ s' => walk_1 N T now bound i s') s.
Proof.
  intros W Hi Hc.
  destruct (w1_cells _ _ _ _ _ _ W RIGHT i r Hc) as (d & Hd & _).
  pose proof (S1_good_speed _ _ (S1_walk_good _ _ _ _ _ W Hd)) as [Hsp _].
  unfold sim_right_driver.
  eapply twp_bind_Ok; [apply (S1_road_get bound i s RIGHT i W); unfold RIGHT; lia|].
  rewrite Hc.
  eapply twp_bind_Ok; [apply S1_attr_eq; exact Hd|].
  apply twp_bind, twp_gets. rewrite (w1_len _ _ _ _ _ _ W).
  destruct (N - 1 <=? speed d + i) eqn:E.
  - apply Z.leb_le in E.
    apply (S1_leave_highway bound s RIGHT i r d); auto; unfold RIGHT; lia.
  - apply Z.leb_gt in E.
    apply (S1_driver_body bound s RIGHT LEFT i r d safe_left_lane_change);
      auto; unfold LEFT, RIGHT; try lia.
    intros s1 W1.
    apply (S1_three_cells_total bound i s1 0 i W1); lia.
Qed.

(** *** The traversal *)

Lemma S1_visit bound s i :
  walk_1 N T now bound i s -> 0 <= i < N ->
  twp (visit i) (fun _ s' => walk_1 N T now bound (i - 1) s') s.
Proof.
  intros W Hi. unfold visit.
  eapply twp_bind_Ok; [apply (S1_road_get bound i s LEFT i W); unfold LEFT; lia|].
  apply twp_bind.
  assert (Hleft : twp (if occupied (cell1 s LEFT i) then sim_left_driver i else ret tt)
                      (fun _ s' => walk_1 N T now bound i s') s).
  { destruct (cell1 s LEFT i) as [r|] eqn:Hc; simpl.
    - apply (S1_sim_left_driver bound s i r W Hi Hc).
    - apply twp_ret. exact W. }
  eapply twp_mono; [exact Hleft|]. intros u s1 W1. cbv beta.
  eapply twp_bind_Ok; [apply (S1_road_get bound i s1 RIGHT i W1); unfold RIGHT; lia|].
  destruct (cell1 s1 RIGHT i) as [r|] eqn:Hc; simpl.
  - eapply twp_mono; [apply (S1_sim_right_driver bound s1 i r W1 Hi Hc)|].
    intros u' s2 W2. apply S1_walk_next. exact W2.
  - apply twp_ret. apply S1_walk_next. exact W1.
Qed.

Lemma S1_traversal bound s :
  walk_1 N T now bound (N - 1) s ->
  twp (for_each (py_range_rev (N - 1) (-1)) visit)
      (fun _ s' => walk_1 N T now bound (-1) s') s.
Proof.
  intros W. pose proof (w1_N _ _ _ _ _ _ W) as HN. unfold py_range_rev.
  eapply twp_mono.
  - apply (twp_for_down visit (fun k s' => walk_1 N T now bound k s')
             (Z.to_nat (N - 1 - -1)) (N - 1) s); [|exact W].
    intros k s' Hk Wk. apply S1_visit; [exact Wk | lia].
  - intros u s' W'. cbv beta in W'.
    replace (N - 1 - Z.of_nat (Z.to_nat (N - 1 - -1))) with (-1) in W' by lia.
    exact W'.
Qed.

(** *** gen_new_drivers *)

Lemma S1_walk_alloc s sp :
  walk_1 N T now (now + 1) (-1) s -> sp = SLOW \/ sp = FAST ->
  walk_1 N T now (now + 1) (-1) (set_objects (objects s ++ [new_Driver sp now]) s).
Proof.
  intros [Hwf Hlen HN Hsteps Hnow Hnow0 Hgood Hcells Hdata] Hsp.
  constructor; simpl; auto.
  - apply Forall_app. split; [exact Hgood|]. constructor; [|constructor].
    repeat split; simpl; auto; lia.
  - intros l j r Hc. destruct (Hcells l j r Hc) as (d & Hd & Hreach).
    exists d. split; [apply lookup_app_l_Some; exact Hd | exact Hreach].
Qed.

Lemma S1_gen_lane s lane :
  walk_1 N T now (now + 1) (-1) s -> 0 <= lane < 2 ->
  twp (gen_lane rand lane) (fun _ s' => walk_1 N T now (now + 1) (-1) s') s.
Proof.
  intros W Hl. pose proof (w1_N _ _ _ _ _ _ W) as HN.
  unfold gen_lane.
  eapply twp_bind_Ok; [reflexivity|].
  pose proof (S1_walk_draws _ _ s (S (draws s)) W) as W1.
  destruct (Qlt_bool (rand (draws s)) CAR_PROBABILITY); [|apply twp_ret; exact W1].
  eapply twp_bind_Ok; [reflexivity|].
  apply (S1_walk_draws _ _ _ (S (draws (set_draws (S (draws s)) s)))) in W1.
  apply twp_bind, twp_gets. rewrite (w1_now _ _ _ _ _ _ W1).
  set (sp := if Qlt_bool _ FAST_PROBABILITY then FAST else SLOW).
  assert (Hsp : sp = SLOW \/ sp = FAST)
    by (subst sp; destruct (Qlt_bool _ _); auto).
  eapply twp_bind_Ok; [reflexivity|].
  pose proof (S1_walk_alloc _ sp W1 Hsp) as W2.
  match goal with
  | |- twp (road_set lane 0 (Some ?r)) _ ?st =>
      destruct (S1_walk_put (now + 1) (-1) st lane 0 (Some r) W2 Hl ltac:(lia))
        as (s3 & Hput & W3 & _)
  end.
  { right. eexists _, (new_Driver sp now).
    split; [reflexivity|]. split.
    - simpl. rewrite lookup_app_r by lia. rewrite Nat.sub_diag. reflexivity.
    - unfold reach_1. simpl. lia. }
  eapply twp_eq; [exact Hput | exact W3].
Qed.

Lemma S1_walk_bound i s :
  walk_1 N T now now i s -> walk_1 N T now (now + 1) i s.
Proof.
  intros [Hwf Hlen HN Hsteps Hnow Hnow0 Hgood Hcells Hdata].
  constructor; auto.
  eapply Forall_impl; [exact Hgood|].
  intros d (H1 & H2 & H3 & H4). repeat split; auto; lia.
Qed.

End S1_walk.

Section S1_tick.
Import highway_sim1.
Variable rand : nat -> Q.

(** One iteration of [run] returns and keeps the invariant. *)
Lemma S1_run_step_spec s :
  state_inv_1 s ->
  twp (run_step rand)
      (fun _ s' => state_inv_1 s' /\
                   hw_length (sim_road s') = hw_length (sim_road s) /\
                   time_steps s' = time_steps s /\
                   current_step s' = current_step s + 1) s.
Proof.
  unfold state_inv_1. intros W.
  set (N := hw_length (sim_road s)) in *. set (T := time_steps s) in *.
  set (now := current_step s) in *.
  unfold run_step, execute_time_step.
  apply twp_bind. apply twp_bind, twp_gets. fold N. apply twp_bind.
  eapply twp_mono; [apply (S1_traversal N T now now s W)|].
  intros u s1 W1. cbv beta.
  unfold gen_new_drivers. apply twp_bind.
  eapply twp_mono;
    [apply (S1_gen_lane rand N T now s1 LEFT (S1_walk_bound _ _ _ _ _ W1));
     unfold LEFT; lia|].
  intros u1 s2 W2. cbv beta.
  eapply twp_mono;
    [apply (S1_gen_lane rand N T now s2 RIGHT W2); unfold RIGHT; lia|].
  intros u2 s3 W3. cbv beta. apply twp_modify.
  destruct W3 as [Hwf Hlen HN Hsteps Hnow Hnow0 Hgood Hcells Hdata].
  simpl. rewrite Hlen, Hsteps, Hnow. split; [|repeat split; reflexivity].
  constructor; simpl; auto; try lia.
  - intros l j r Hc. destruct (Hcells l j r Hc) as (d & Hd & Hreach).
    exists d. split; [exact Hd|].
    assert (Hj : 0 <= j < N).
    { destruct (Z_le_dec 0 j) as [H0|H0]; [destruct (Z_lt_dec j N) as [H1|H1]|].
      - lia.
      - unfold cell1 in Hc. rewrite (at_out _ 2 N) in Hc; [discriminate| |lia].
        rewrite <- Hlen. exact Hwf.
      - unfold cell1 in Hc. rewrite (at_out _ 2 N) in Hc; [discriminate| |lia].
        rewrite <- Hlen. exact Hwf. }
    unfold reach_1 in *.
    destruct (j <=? -1) eqn:E1; [lia|]. destruct (j <=? N - 1) eqn:E2; [|lia].
    simpl in *. replace (now + 1 - arrive_time d - 1) with (now - arrive_time d - 0)
      by lia. exact Hreach.
  - eapply Forall_impl; [exact Hdata|]. simpl. intros t Ht. lia.
Qed.

Lemma S1_new_Simulation_inv time_steps_ : state_inv_1 (new_Simulation time_steps_).
Proof.
  unfold state_inv_1. constructor; simpl; try reflexivity.
  - apply (wf_empty_road 2 HIGHWAY_LENGTH); unfold HIGHWAY_LENGTH; lia.
  - unfold HIGHWAY_LENGTH. lia.
  - constructor.
  - intros l j r Hc. unfold cell1 in Hc. simpl in Hc.
    unfold new_Highway in Hc. simpl in Hc. rewrite at_empty_road in Hc. discriminate.
  - constructor.
Qed.

Lemma S1_reachable_inv s : reachable_1 rand s -> state_inv_1 s.
Proof.
  induction 1 as [ts|s s' _ IH Hstep].
  - apply S1_new_Simulation_inv.
  - destruct (S1_run_step_spec s IH) as (u & s'' & Heq & SI & _).
    rewrite Heq in Hstep. inversion Hstep; subst. exact SI.
Qed.

Lemma S1_reachable_length s :
  reachable_1 rand s -> hw_length (sim_road s) = HIGHWAY_LENGTH.
Proof.
  induction 1 as [ts|s s' Hreach IH Hstep]; [reflexivity|].
  destruct (S1_run_step_spec s (S1_reachable_inv s Hreach)) as (u & s'' & Heq & _ & Hlen & _).
  rewrite Heq in Hstep. inversion Hstep; subst s''. congruence.
Qed.

End S1_tick.

Lemma run_n_1_reachable (rand : nat -> Q) (n : nat) :
  forall s s', reachable_1 rand s -> run_n_1 rand n s = Ok (tt, s') ->
               reachable_1 rand s'.
Proof.
  induction n as [|n IH]; intros s s' Hreach Hrun.
  - injection Hrun as <-. exact Hreach.
  - simpl in Hrun. destruct (bind_inv _ _ _ _ _ Hrun) as ([] & s1 & Hstep & Hrest).
    apply (IH s1 s'); [|exact Hrest].
    exact (reach_step_1 rand s s1 Hreach Hstep).
Defined.

Lemma after_1_reachable (n : nat) : reachable_1 (stream [0; 0]%Q) (after_1 n).
Proof.
  unfold after_1.
  destruct (run_n_1 (stream [0; 0]%Q) n (highway_sim1.new_Simulation 30))
    as [[[] s]|e] eqn:E.
  - apply (run_n_1_reachable (stream [0; 0]%Q) n (highway_sim1.new_Simulation 30) s);
      [apply reach_init_1 | exact E].
  - apply reach_init_1.
Defined.

(** ** Highway.print of highway_sim1 *)

Lemma S1_print_spec (h : highway_sim1.Highway) :
  wf_Highway1 h -> 0 <= highway_sim1.hw_length h ->
  exists text,
    highway_sim1.Highway_print h = Ok text /\
    String.length text = Z.to_nat (2 + 2 * highway_sim1.hw_length h) /\
    String.get 0 text = Some "010"%char /\
    (forall i, 0 <= i < highway_sim1.hw_length h ->
               String.get (Z.to_nat (1 + i)) text
               = Some (if occupied (at_ (highway_sim1.road h) 0 i)
                       then "C"%char else "_"%char)) /\
    String.get (Z.to_nat (1 + highway_sim1.hw_length h)) text = Some "010"%char /\
    (forall i, 0 <= i < highway_sim1.hw_length h ->
               String.get (Z.to_nat (2 + highway_sim1.hw_length h + i)) text
               = Some (if occupied (at_ (highway_sim1.road h) 1 i)
                       then "C"%char else "_"%char)).
Proof.
  intros Hwf Hlen. unfold highway_sim1.Highway_print, py_range. rewrite Z.sub_0_r.
  set (N := highway_sim1.hw_length h) in *.
  destruct (print_cells_spec (highway_sim1.road h) 2 N 0 "_" "C" Hwf ltac:(lia)
              (Z.to_nat N) 0 newline ltac:(lia) ltac:(lia))
    as (s1 & Hrun1 & Hlen1 & Hpre1 & Hnew1).
  rewrite Hrun1. simpl bindR.
  assert (Hl1 : String.length (s1 +:+ newline) = S (S (Z.to_nat N))).
  { rewrite string_length_app, Hlen1. simpl. lia. }
  destruct (print_cells_spec (highway_sim1.road h) 2 N 1 "_" "C" Hwf ltac:(lia)
              (Z.to_nat N) 0 (s1 +:+ newline) ltac:(lia) ltac:(lia))
    as (text & Hrun2 & Hlen2 & Hpre2 & Hnew2).
  exists text. split; [exact Hrun2|].
  change (String.length newline) with 1%nat in *.
  split; [rewrite Hlen2, Hl1; lia|].
  split; [|split; [|split]].
  - rewrite Hpre2 by lia. rewrite string_get_app_l by lia.
    rewrite Hpre1 by (simpl; lia). reflexivity.
  - intros i Hi. rewrite Hpre2 by lia. rewrite string_get_app_l by lia.
    replace (Z.to_nat (1 + i)) with (1 + Z.to_nat i)%nat by lia.
    rewrite Hnew1 by lia. rewrite Z.add_0_l, Z2Nat.id by lia. reflexivity.
  - rewrite Hpre2 by lia.
    replace (Z.to_nat (1 + N)) with (String.length s1 + 0)%nat by lia.
    rewrite string_get_app_r. reflexivity.
  - intros i Hi.
    replace (Z.to_nat (2 + N + i)) with (String.length (s1 +:+ newline) + Z.to_nat i)%nat
      by lia.
    rewrite Hnew2 by lia. rewrite Z.add_0_l, Z2Nat.id by lia. reflexivity.
Qed.

(** X21. Highway.print of highway_sim1 on a well-formed road: the text
    handed to [print] has [2 + 2 * length] characters: a line feed, the
    cells of lane 0, a line feed, the cells of lane 1, with C for an
    occupied cell and _ for an empty one, and no line feed at the end. *)
Theorem starter_print_text (h : highway_sim1.Highway) :
  wf_Highway1 h -> 0 <= highway_sim1.hw_length h ->
  exists text,
    highway_sim1.Highway_print h = Ok text /\
    String.length text = Z.to_nat (2 + 2 * highway_sim1.hw_length h) /\
    String.get 0 text = Some "010"%char /\
    (forall i, 0 <= i < highway_sim1.hw_length h ->
               String.get (Z.to_nat (1 + i)) text
               = Some (if occupied (at_ (highway_sim1.road h) 0 i)
                       then "C"%char else "_"%char)) /\
    String.get (Z.to_nat (1 + highway_sim1.hw_length h)) text = Some "010"%char /\
    (forall i, 0 <= i < highway_sim1.hw_length h ->
               String.get (Z.to_nat (2 + highway_sim1.hw_length h + i)) text
               = Some (if occupied (at_ (highway_sim1.road h) 1 i)
                       then "C"%char else "_"%char)).
Proof. exact (S1_print_spec h). Qed.

Lemma starter_print_text_witness :
  exists text,
    highway_sim1.Highway_print (highway_sim1.sim_road (after_1 2)) = Ok text /\
    String.length text = 222%nat /\
    String.get 6 text = Some "C"%char /\
    String.get 7 text = Some "_"%char.
Proof.
  destruct (starter_print_text (highway_sim1.sim_road (after_1 2)))
    as (text & Hrun & Hlen & _ & Hleft & _).
  - split; [reflexivity | repeat constructor].
  - vm_compute. discriminate.
  - exists text. split; [exact Hrun|]. split; [exact Hlen|].
    split; [exact (Hleft 5 ltac:(vm_compute; split; [discriminate | reflexivity]))
           | exact (Hleft 6 ltac:(vm_compute; split; [discriminate | reflexivity]))].
Defined.

(** ** Simulation.run of highway_sim1 *)

Lemma S1_run_from (rand : nat -> Q) (fuel : nat) :
  forall (s : highway_sim1.Simulation) (out : list string),
    reachable_1 rand s ->
    (Z.to_nat (highway_sim1.time_steps s - highway_sim1.current_step s) < fuel)%nat ->
    exists s' out',
      highway_sim1.run rand fuel (s, out) = Ok (true, (s', out')) /\
      reachable_1 rand s' /\
      highway_sim1.time_steps s' = highway_sim1.time_steps s /\
      highway_sim1.current_step s' =
        Z.max (highway_sim1.current_step s) (highway_sim1.time_steps s) /\
      length out' =
        (length out
         + Z.to_nat (highway_sim1.time_steps s - highway_sim1.current_step s))%nat.
Proof.
  induction fuel as [|fuel IH]; intros s out Hreach Hfuel; [lia|].
  simpl. rewrite !bind_gets. simpl.
  destruct (highway_sim1.current_step s <? highway_sim1.time_steps s) eqn:E.
  - apply Z.ltb_lt in E.
    pose proof (S1_reachable_inv rand s Hreach) as SI.
    destruct (S1_run_step_spec rand s SI) as ([] & s1 & Hstep & SI1 & _ & Hsteps & Hnow).
    pose proof (reach_step_1 rand s s1 Hreach Hstep) as Hreach1.
    destruct (S1_print_spec (highway_sim1.sim_road s1) (w1_wf _ _ _ _ _ _ SI1))
      as (text & Hprint & _).
    { pose proof (w1_N _ _ _ _ _ _ SI1). lia. }
    destruct (IH s1 (out ++ [text]) Hreach1 ltac:(lia))
      as (s' & out' & Hrun & Hreach' & Hsteps' & Hnow' & Hout').
    exists s', out'. split.
    { unfold bind at 1, in_world. simpl. rewrite Hstep.
      unfold bind at 1, py_print. simpl. rewrite Hprint. exact Hrun. }
    split; [exact Hreach'|]. split; [congruence|]. split; [lia|].
    rewrite Hout', length_app. simpl. lia.
  - apply Z.ltb_ge in E. exists s, out. split; [reflexivity|].
    split; [exact Hreach|]. split; [reflexivity|]. split; [lia|].
    replace (Z.to_nat (highway_sim1.time_steps s - highway_sim1.current_step s))
      with O by lia. lia.
Qed.

(** X22. Simulation.run of highway_sim1 ends without an exception.  For
    every random stream and every number of time steps [n], the loop of
    [run], started on [Simulation(n)], leaves after [max 0 n] iterations
    (any larger unrolling bound gives the same result): no read or write of
    the road is out of range, the final tick is [max 0 n], and the road has
    been printed once per iteration. *)
Theorem starter_run_ends_normally :
  forall (rand : nat -> Q) (n : Z) (fuel : nat) (out : list string),
    (Z.to_nat n < fuel)%nat ->
    exists s' out',
      highway_sim1.run rand fuel (highway_sim1.new_Simulation n, out)
      = Ok (true, (s', out')) /\
      reachable_1 rand s' /\
      highway_sim1.time_steps s' = n /\
      highway_sim1.current_step s' = Z.max 0 n /\
      length out' = (length out + Z.to_nat n)%nat.
Proof.
  intros rand n fuel out Hfuel.
  destruct (S1_run_from rand fuel (highway_sim1.new_Simulation n) out
              (reach_init_1 rand n))
    as (s' & out' & Hrun & Hreach & Hsteps & Hnow & Hout).
  { simpl. rewrite Z.sub_0_r. exact Hfuel. }
  exists s', out'. simpl in *. rewrite Z.sub_0_r in Hout. auto.
Qed.

Lemma starter_run_ends_normally_witness :
  exists s' out',
    highway_sim1.run (stream [0; 0]%Q) 26 (highway_sim1.new_Simulation 25, [])
    = Ok (true, (s', out')) /\
    reachable_1 (stream [0; 0]%Q) s' /\
    highway_sim1.time_steps s' = 25 /\
    highway_sim1.current_step s' = Z.max 0 25 /\
    length out' = (length (@nil string) + Z.to_nat 25)%nat.
Proof.
  apply (starter_run_ends_normally (stream [0; 0]%Q) 25 26 []). simpl. lia.
Defined.

(** ** Travel times of highway_sim1 *)

Lemma py_sum_bounds (a b : Z) (l : list Z) :
  Forall (fun t => a <= t <= b) l ->
  a * Z.of_nat (length l) <= py_sum l <= b * Z.of_nat (length l).
Proof.
  induction 1 as [|t l Ht _ IH]; [unfold py_sum; simpl; lia|].
  rewrite py_sum_cons. simpl length. lia.
Qed.

Lemma py_truediv_bounds (a b sum n : Z) :
  0 < n -> a * n <= sum <= b * n ->
  exists q, py_truediv sum n = Ok q /\ (inject_Z a <= q)%Q /\ (q <= inject_Z b)%Q.
Proof.
  intros Hn [Hlo Hhi]. unfold py_truediv.
  destruct (n =? 0) eqn:E; [lia|]. eexists. split; [reflexivity|].
  assert (Hpos : (0 < inject_Z n)%Q) by (unfold Qlt; simpl; lia).
  split.
  - apply Qle_shift_div_l; [exact Hpos|].
    rewrite <- inject_Z_mult, <- Zle_Qle. exact Hlo.
  - apply Qle_shift_div_r; [exact Hpos|].
    rewrite <- inject_Z_mult, <- Zle_Qle. exact Hhi.
Qed.

(** X23. Travel times of highway_sim1.  In every state of a run, every
    travel time recorded in [data] is at least 22 ticks (the 109 cells to
    the exit at no more than FAST cells per tick) and at most the current
    tick; [average_time] raises ZeroDivisionError as long as no vehicle has
    left, and afterwards returns a value between 22 and the current
    tick. *)
Theorem starter_travel_times :
  forall (rand : nat -> Q) (s : highway_sim1.Simulation),
    reachable_1 rand s ->
    Forall (fun t => 22 <= t <= highway_sim1.current_step s) (highway_sim1.data s) /\
    (highway_sim1.data s = [] ->
     highway_sim1.average_time s = Raise ZeroDivisionError) /\
    (highway_sim1.data s <> [] ->
     exists q, highway_sim1.average_time s = Ok q /\
               (inject_Z 22 <= q)%Q /\
               (q <= inject_Z (highway_sim1.current_step s))%Q).
Proof.
  intros rand s Hreach.
  pose proof (S1_reachable_inv rand s Hreach) as W.
  pose proof (S1_reachable_length rand s Hreach) as Hlen.
  assert (Hdata : Forall (fun t => 22 <= t <= highway_sim1.current_step s)
                         (highway_sim1.data s)).
  { eapply Forall_impl; [exact (w1_data _ _ _ _ _ _ W)|]. simpl.
    rewrite Hlen. unfold highway_sim1.HIGHWAY_LENGTH, highway_sim1.FAST.
    intros t Ht. lia. }
  split; [exact Hdata|]. unfold highway_sim1.average_time. split.
  - intros ->. reflexivity.
  - intros Hne.
    apply py_truediv_bounds; [|apply py_sum_bounds; exact Hdata].
    destruct (highway_sim1.data s); [congruence | simpl; lia].
Qed.

Lemma starter_travel_times_witness :
  highway_sim1.data (after_1 23) = [22] /\
  Forall (fun t => 22 <= t <= highway_sim1.current_step (after_1 23))
         (highway_sim1.data (after_1 23)) /\
  exists q, highway_sim1.average_time (after_1 23) = Ok q /\
            (inject_Z 22 <= q)%Q /\
            (q <= inject_Z (highway_sim1.current_step (after_1 23)))%Q.
Proof.
  split; [vm_compute; reflexivity|].
  destruct (starter_travel_times (stream [0; 0]%Q) (after_1 23) (after_1_reachable 23))
    as (Hdata & _ & Havg).
  split; [exact Hdata|]. apply Havg. vm_compute. discriminate.
Defined.

(** X24. The vehicles of highway_sim1.  In every state of a run, an
    occupied cell [(l, j)] holds a Driver object whose speed is SLOW or
    FAST, whose follow distance is SAFE_FOLLOW and whose desire is Cruise
    or Lane Change; it arrived at a tick [a] with [0 <= a < current_step],
    and it has advanced by at most its speed in every tick since then:
    [j <= speed * (current_step - a - 1)]. *)
Theorem starter_vehicles :
  forall (rand : nat -> Q) (s : highway_sim1.Simulation) (l j : Z) (r : nat),
    reachable_1 rand s ->
    cell1 s l j = Some r ->
    exists d,
      highway_sim1.objects s !! r = Some d /\
      (highway_sim1.speed d = highway_sim1.SLOW \/
       highway_sim1.speed d = highway_sim1.FAST) /\
      highway_sim1.safe_follow d = highway_sim1.SAFE_FOLLOW /\
      (highway_sim1.desire d = CRUISE \/ highway_sim1.desire d = LANE_CHANGE) /\
      0 <= highway_sim1.arrive_time d < highway_sim1.current_step s /\
      0 <= j <= highway_sim1.speed d
                * (highway_sim1.current_step s - highway_sim1.arrive_time d - 1).
Proof.
  intros rand s l j r Hreach Hc.
  pose proof (S1_reachable_inv rand s Hreach) as W. unfold state_inv_1 in W.
  destruct (w1_cells _ _ _ _ _ _ W l j r Hc) as (d & Hd & Hreach').
  pose proof (proj1 (Forall_lookup _ _) (w1_good _ _ _ _ _ _ W) r d Hd)
    as (G1 & G2 & G3 & G4).
  exists d. split; [exact Hd|]. split; [exact G1|]. split; [exact G2|].
  split; [exact G3|]. split; [exact G4|].
  assert (Hj : 0 <= j < highway_sim1.hw_length (highway_sim1.sim_road s)).
  { destruct (Z_le_dec 0 j) as [H0|H0];
      [destruct (Z_lt_dec j (highway_sim1.hw_length (highway_sim1.sim_road s)))
        as [H1|H1]; [lia|]|];
      unfold cell1 in Hc;
      rewrite (at_out _ 2 (highway_sim1.hw_length (highway_sim1.sim_road s))) in Hc;
      try discriminate; try lia; exact (w1_wf _ _ _ _ _ _ W). }
  split; [lia|]. unfold reach_1 in Hreach'.
  destruct (j <=? highway_sim1.hw_length (highway_sim1.sim_road s) - 1) eqn:E; [|lia].
  exact Hreach'.
Qed.

Lemma starter_vehicles_witness :
  cell1 (after_1 3) 0 10 = Some O /\
  exists d,
    highway_sim1.objects (after_1 3) !! O = Some d /\
    (highway_sim1.speed d = highway_sim1.SLOW \/
     highway_sim1.speed d = highway_sim1.FAST) /\
    highway_sim1.safe_follow d = highway_sim1.SAFE_FOLLOW /\
    (highway_sim1.desire d = CRUISE \/ highway_sim1.desire d = LANE_CHANGE) /\
    0 <= highway_sim1.arrive_time d < highway_sim1.current_step (after_1 3) /\
    0 <= 10 <= highway_sim1.speed d
                * (highway_sim1.current_step (after_1 3)
                   - highway_sim1.arrive_time d - 1).
Proof.
  split; [vm_compute; reflexivity|].
  apply (starter_vehicles (stream [0; 0]%Q) (after_1 3) 0 10 O (after_1_reachable 3)).
  vm_compute. reflexivity.
Defined.
